(* ===== verification/_CoqProject ===== *)
-Q . S2P
Prelude.v
GoTime.v
Netip.v
Flow.v
Watermark.v
Pipeline.v
PipelineFacts.v
PipelineLive.v
PipelineThms.v
Decode.v
DecodeThms.v
Text.v
Strings.v
NetipText.v
NetipTextFacts.v
TimeText.v
Json.v
Wire.v
WireThms.v
Sha256.v
KafkaSource.v
KafkaThms.v
Cursor.v
Rows.v
Store.v
Exporters.v
MyExporters.v
StoreThms.v
Query.v
QueryThms.v
Sql.v
SqlThms.v
Inserts.v
Api.v
ApiThms.v
ApiClient.v
App.v
AppThms.v
Contract.v
ContractRelational.v
Retention.v
KafkaSink.v
Backends.v
DotEnv.v
Config.v
ConfigThms.v
Process.v
Templates.v
TemplatesThms.v
ClickHouse.v
ClickHouseThms.v
ContractClickHouse.v
Conformance.v
ConformanceThms.v
ContractThms.v
EndToEnd.v
IntakeRefines.v
Central.v
Group.v
Tiers.v
Workers.v
Obs.v
Server.v
OpenApi.v
RunSource.v
