(* ===== verification/Prelude.v ===== *)
(** * NetFlow collector: a verification development

    The program (Go, [src/]) receives NetFlow v5, v9 and IPFIX datagrams over
    UDP or flow records over Kafka, buffers and batches them, and writes every
    batch to each configured sink: PostgreSQL, MariaDB, ClickHouse or Kafka. A
    query API serves the stored records page by page. This library models the
    code as pure functions and step systems and proves what makes it correct.

    ** Parts of the program and where they are modelled

    - Go's standard library, as far as the program uses it: machine integers
      and byte strings in this file; [time.Time] in [GoTime], its text forms in
      [TimeText]; [netip.Addr] in [Netip], its text forms in [NetipText] (facts
      in [NetipTextFacts]); [strconv] in [Text]; [strings] in [Strings];
      [encoding/json] in [Json]; SHA-256 in [Sha256]; base64 in [Cursor].
    - [internal/flow]: records, queries, pages, exporters in [Flow]. The Intake
      contract ([flow/pull.go]) is a list of records with their fates, in
      [KafkaSource], which runs against it; [IntakeRefines] shows that
      [Pipeline] with one worker implements it.
    - [internal/pipeline]: [Watermark] ([watermark.go]) and [Pipeline]
      ([pipeline.go]). Every goroutine is cut at its synchronisation points; an
      action of [Pipeline.step] is one segment of one goroutine, and a script of
      actions is one interleaving: the locked send of [tryOffer] and the later
      increment of the outcome's counter are steps of their own, and in between
      the offer holds the sequence number it will return. Invariants in [PipelineFacts], progress and
      termination in [PipelineLive], the properties in [PipelineThms].
      [RunSource] holds the goroutine that drains a push source.
    - [internal/source/netflow]: [Decode] ([decode.go], and the read loop and
      [exporterAddr] of [netflow.go]), with its properties in [DecodeThms]. The
      packet parsers and template systems are goflow2's: the class [Goflow2],
      whose documented behaviour is the class [Goflow2Laws]; the witnesses
      instantiate it with a concrete parser.
    - Template sharing ([templates.go], [startSharing] of [netflow.go],
      [internal/templatestore]): [Templates] (keys, values, the publishing
      queue, the entry whose Put is under way, and a step system of collectors
      around a compacted topic) and
      [TemplatesThms].
    - [internal/wire]: [Wire] ([Encode], [Decode]) and [WireThms].
    - [internal/source/kafka]: [KafkaSource] (decoding, the dedup key, the push
      loop of [Start], and the poll loop and the committer of [StartPull] over
      the partitions of a topic, with the creation of each session's client, with assignment, revocation and the commits of
      other members of the group) and [KafkaThms].
    - [internal/sink]: [Rows] (the three [rows.go], behind the class [RowCodec]
      with its laws [RowLaws], and the instants
      each server's columns hold: ClickHouse's in ticks of a microsecond from 1900
      to 2299), [Store] (tables with the unique index, COPY and
      INSERT IGNORE), [Exporters] ([resolveExporters], the id cache),
      [MyExporters] (MariaDB's, and that it simulates the other), [StoreThms]
      ([WriteBatch] as a whole), [Cursor] and [Query] (the keyset pagination of
      the three backends, time bounds and cursors in the microseconds the servers
      compare) and [QueryThms]; [Retention] (MariaDB's deletion loop
      and the life of its goroutine, the policies of the other two),
      [Backends] (constructors, [Close], and [Migrate] under the shared lock),
      [ClickHouse] and [ClickHouseThms] (merge trees, [WriteBatch], and
      [ListExporters] of all three), [KafkaSink] (the Kafka sink, and the edge
      tier composed with the central one).
    - The SQL of the backends: [Sql] (a reader of SELECT statements, and the
      statements that the three [Query] put together, as text with arguments),
      [SqlThms], [Inserts] (the column arrays, COPY, the unnest statement,
      MariaDB's multi-row INSERT, ClickHouse's block).
    - The storage contract ([flow/ports.go]: [Sink] and [Querier] of a
      [Backend]): the class [Storage] with its laws [StorageLaws] in
      [Contract]; [ContractRelational] and [ContractClickHouse] discharge them
      for the three backends, and everything that uses storage is proved against
      the class. [Workers] has several calls of [WriteBatch] overlap on one
      relational backend, cut at the cache, at every statement and, for MariaDB,
      at every INSERT and the COMMIT of the transaction; a statement that fails
      may have taken effect.
    - [internal/sink/sinktest]: [Conformance] (the fixtures and the seven
      assertions of the suite, as a function of any [Storage]),
      [ConformanceThms] and [ContractThms].
    - [EndToEnd]: the listener, the pipeline, a storage backend and a client of
      its queries in one system; [Central]: the Kafka source in place of the
      listener, with its calls of [Offer] and [Written] as joint steps and
      writes that fail; [Group]: any number of such collectors over one topic and
      one store, starting, crashing and starting again; [Tiers]: the topic as
      what edge collectors wrote.
    - [internal/api]: [Api] (authentication, routing, binding, validation, every
      handler, the JSON rendering) and [ApiThms]; [Server] (the middleware that
      logs and recovers, the routes inside it with backends that panic, the
      request id, the parameters of the OpenAPI
      document); [ApiClient] (a client that follows the cursors through all
      layers); [OpenApi] (the whole document, with [json.MarshalIndent], and
      the committed [docs/openapi.json]).
    - [internal/config]: [DotEnv] (the search for the .env file, its syntax, the
      overlay of the environment), [Config] (derived flags, the rules of the
      struct tags, cross checks, errors, and what the constructors see) and
      [ConfigThms].
    - [internal/obs]: [Obs] (levels, the log lines and their redaction, the series
      [Prime] creates).
    - [internal/app] and [cmd/collector]: [App] (configuration checks,
      construction with its error paths, exit codes, and [Run] as a state
      machine over the goroutines it starts, in which the steps somebody is
      [obliged] to take are told from those that only may happen) and [AppThms]; [Process] (the
      package's [Run] around it, the constructors of the sources, the health
      check with [net.SplitHostPort]).

    ** How the parts interact

    A push source offers records without blocking and a full buffer drops them;
    a pull source blocks in [Offer] and learns from [Written] when a record is
    durable. [Pipeline.write_ok] decides per batch whether every sink took it,
    [Watermark.complete] records it, [Watermark.await] answers [Written], and
    the Kafka source commits an offset only after that answer; whoever of the
    group gets the partition next resumes there. What an edge
    collector's Kafka sink produced is what the central collector's Kafka source
    decodes. Collectors that share an exporter learn its templates from a topic
    before they listen. A validated configuration decides which constructors
    run. A sink turns records into rows through [RowCodec] and sends them with the
    statements of [Inserts]; the API hands a validated request to [Query], whose
    statement is the one of [Sql], and renders its page. Behind [Storage] the
    pipeline and the API see one backend as good as another.

    ** What the theorems show

    - Watermark and pipeline (C1-C8): the frontier is exactly the contiguous
      prefix of completed batches; order and numbering; with one worker [Written]
      answers nil only for records every sink accepted; an orderly shutdown loses nothing; accounting of every offer; no
      deadlock, termination, bounded memory. Beside them: acknowledgement after
      processing, the guarantee of [await] in order and its failure out of order
      ([Watermark]), with two workers, and the late offer that is stranded
      ([PipelineThms]).
    - Between tiers (C9-C13): the pipeline keeps the contract of Intake;
      at-least-once delivery of the Kafka source against it, under any assignment
      of partitions; with one worker each, a group of collectors composed with a backend, a committed
      message is answered, once, whatever crashes; what the edge acknowledged is
      answered at the centre, and nothing else; round trip of the wire format.
      Beside them: commits do not go back while the assignment stands, and can
      otherwise; the push loop loses at most one record ([KafkaThms]); partitions
      hold the edge's records in order ([KafkaSink]); a record without a start
      time is rejected by the next tier ([WireThms]), one absurd timestamp fails
      a batch ([KafkaSink]).
    - The whole path (C14-C15): what the listener decoded is after an orderly
      shutdown what a client reads from any backend, however the goroutines
      interleaved; and what the rows are is what a client of the API gets, page
      by page through authentication, binding, pagination and rendering. Beside
      them: the former for records of any source ([EndToEnd]).
    - Storage (C16-C24): both relational write paths refine one reference
      insertion, ClickHouse's FINAL view keeps the last row of each sort key under
      any merges and agrees with the reference when redeliveries are identical,
      redelivery is idempotent, overlapping writes are serialisable, the
      conformance suite passes on whatever keeps the contract, the backends are
      interchangeable, pagination is exact, the SQL texts mean what the models
      say in both directions.
    - Templates (C25-C27): collectors converge to the topic, the replay is
      complete before the listener opens, what is stored is what is read.
      Beside them: a failed watch looks like a finished one.
    - Wiring and configuration (C28-C32): boot and shutdown order and exit
      codes, termination by obliged steps once told to stop, what a validated
      configuration promises, exact validation whose errors name exactly the
      variables at fault, precedence of shell and file. Beside them: the hang of a source that cannot bind, the
      sink named twice that is never closed, telemetry that is stopped exactly
      when it was started and the port the health check probes ([Process]).
    - API (C33-C35): exact authentication, the query a request asks for and the
      status of one that asks for none, the committed document as the generated
      one and true of the server but for panics. Beside
      them: its parameters agree with the binder and the validator ([Server]),
      padded keys, ClickHouse cursors the API rejects, rendered values that read
      back, the status the request log shows.
    - Decoding (C36-C39): every emitted record is well typed, the exact
      acceptance of v5 datagrams and every field of their records, isolation of
      exporters, the dedup key. Beside
      them: the exactness of the floating-point NTP conversion, well-typed
      records from whatever bytes decode.
    - Maintenance (C40): exact retention. Beside it: rows read back as they were
      written, exporter ids, sightings and their list, migrations
      that do not disturb each other, constructors that leave no handle open,
      retention periods that overflow and policies that are not updated.
    - Also proved: a push source is neither held up nor cut short ([RunSource]);
      every log line carries its four members and no secret ([Obs]).

    ** Conventions, bounds and fuel

    A w-bit integer is a [Z]; [wrap_u] and [wrap_s] (abbreviated [u8] to [u64],
    [i16] to [i64]) are written wherever Go converts or overflows. Errors are
    [result] or [option]; [None] of a step function means that the step is not
    enabled. Fields and history variables that are not in the program are
    marked as history. Fuel: [Watermark.advance] gets the number of completed
    batches and removes one per iteration; [Store.my_chunks] the number of rows;
    [Retention.delete_loop] the number of statements, with a theorem that says
    how many are enough; [NetipText.v6_loop] and the JSON scanner the length of the text, which they
    shorten; [Query.crawl] is a client and its theorem says how much is enough.
    [ApiClient.follow] is a client too, and needs one request more than rows.
    [Conformance.all] and [pagesOf] follow cursors with fuel, and the suite passes
    for every fuel above the 25 records it stores; [Inserts.value_tuples] gets
    the number of tokens.
    [GoTime.Time] wraps like Go's; [UnixNano] cursors are exact between the
    years 1678 and 2262, which [Query.row_ok] asks of PostgreSQL and MariaDB rows.

    ** Parameters

    [Goflow2] (above); [timeParse], the layouts that [time.Parse] accepts beyond
    RFC 3339; [env_bind] and [hostname_port], the binder and a rule of the
    validation library; [TemplateTypes], [TemplateSystems] and their laws,
    goflow2's template records; [part], the partitioner of the Kafka client;
    [add_retention_policy] of Timescale; the outcomes of calls to databases, brokers, sockets and
    constructors, which are inputs of the steps that make them.

    ** Not modelled

    Timers (a step that a timer triggers may happen at any time) and latency
    histograms, which change no state; the SQL of the migrations (its tables are
    what the storage models assume) and goose's bookkeeping; query planning: a
    statement means what the standard says of its text; the binding of strings to
    configuration fields by a third-party package; the random bytes of request
    ids; what [SetupMetrics] registers with third-party
    libraries; [Ping] of the Kafka clients; the containers that the tests start
    ([sinktest/clickhouse.go], [StartTimescale]).

    ** Limits of the composition

    In [Central] and [Group] the pipeline has one worker, which is when
    [Written] keeps its contract ([PipelineThms] shows what two do), and the
    collectors of a group have the same options; the broker keeps every message
    (no retention of the topic) and its committed offsets. Accessors that return
    a field ([HTTPAddr], [NetFlowAddr], [Ready]) and forwarding methods
    ([GetTemplate] of the publishing template system) have no definition of
    their own. *)

From stdpp Require Export prelude gmap strings list sorting.
From Stdlib Require Export ZArith Lia.

(** ** Results: Go's [(value, error)] pairs *)

Inductive result (E A : Type) : Type :=
| Ok (a : A)
| Err (e : E).
Arguments Ok {E A} a.
Arguments Err {E A} e.

Declare Scope go_scope.
Delimit Scope go_scope with go.

Definition rbind {E A B} (r : result E A) (k : A -> result E B) : result E B :=
  match r with Ok a => k a | Err e => Err e end.

Definition rmap_err {E F A} (f : E -> F) (r : result E A) : result F A :=
  match r with Ok a => Ok a | Err e => Err (f e) end.

Definition is_ok {E A} (r : result E A) : bool :=
  match r with Ok _ => true | Err _ => false end.

Notation "'let!' x := e 'in' k" := (rbind e (fun x => k))
  (at level 10, x pattern, e at level 100, k at level 200) : go_scope.

Open Scope go_scope.

Lemma rbind_ok {E A B} (r : result E A) (k : A -> result E B) b :
  rbind r k = Ok b <-> exists a, r = Ok a /\ k a = Ok b.
Proof. destruct r as [a|e]; simpl; split; [eauto| |done|]; by intros (? & [=] & ?); subst. Qed.

(** ** Machine integers

    A Go integer of width [w] is a [Z]; the conversions below are the only
    places where a value is brought back into range. *)

Open Scope Z_scope.

Definition wrap_u (w z : Z) : Z := z mod 2 ^ w.
Definition wrap_s (w z : Z) : Z := (z + 2 ^ (w - 1)) mod 2 ^ w - 2 ^ (w - 1).

Abbreviation u8 := (wrap_u 8).
Abbreviation u16 := (wrap_u 16).
Abbreviation u32 := (wrap_u 32).
Abbreviation u64 := (wrap_u 64).
Abbreviation i16 := (wrap_s 16).
Abbreviation i32 := (wrap_s 32).
Abbreviation i64 := (wrap_s 64).

Definition is_uint (w z : Z) : Prop := 0 <= z < 2 ^ w.
Definition is_sint (w z : Z) : Prop := - 2 ^ (w - 1) <= z < 2 ^ (w - 1).

#[global] Instance is_uint_dec w z : Decision (is_uint w z).
Proof. unfold is_uint. apply _. Defined.
#[global] Instance is_sint_dec w z : Decision (is_sint w z).
Proof. unfold is_sint. apply _. Defined.

Create HintDb goint.

Lemma wrap_u_range w z : 0 <= w -> is_uint w (wrap_u w z).
Proof. intros. apply Z.mod_pos_bound, Z.pow_pos_nonneg; lia. Qed.

Lemma wrap_u_small w z : is_uint w z -> wrap_u w z = z.
Proof. apply Z.mod_small. Qed.

Lemma wrap_u_idemp w z : 0 <= w -> wrap_u w (wrap_u w z) = wrap_u w z.
Proof. intros. apply wrap_u_small, wrap_u_range; lia. Qed.

Lemma wrap_s_range w z : 1 <= w -> is_sint w (wrap_s w z).
Proof.
  intros. unfold is_sint, wrap_s.
  assert (2 ^ w = 2 * 2 ^ (w - 1)) as E by (rewrite <- Z.pow_succ_r by lia; f_equal; lia).
  pose proof (Z.mod_pos_bound (z + 2 ^ (w - 1)) (2 ^ w)).
  assert (0 < 2 ^ (w - 1)) by (apply Z.pow_pos_nonneg; lia). lia.
Qed.

Lemma wrap_s_small w z : 1 <= w -> is_sint w z -> wrap_s w z = z.
Proof.
  unfold is_sint, wrap_s. intros.
  assert (2 ^ w = 2 * 2 ^ (w - 1)) as E by (rewrite <- Z.pow_succ_r by lia; f_equal; lia).
  rewrite Z.mod_small by lia. lia.
Qed.

(** A conversion to the signed type of the same width and back is the
    identity: the bit pattern is kept. *)
Lemma wrap_u_wrap_s w z : 1 <= w -> is_uint w z -> wrap_u w (wrap_s w z) = z.
Proof.
  unfold wrap_u, wrap_s. intros Hw Hz.
  rewrite Zminus_mod_idemp_l.
  replace (z + 2 ^ (w - 1) - 2 ^ (w - 1)) with z by lia.
  by apply Z.mod_small.
Qed.

Lemma is_uint_le w w' z : 0 <= w <= w' -> is_uint w z -> is_uint w' z.
Proof. unfold is_uint. intros. pose proof (Z.pow_le_mono_r 2 w w'). lia. Qed.

#[export] Hint Resolve wrap_u_range wrap_s_range : goint.
#[export] Hint Extern 1 (0 <= _) => lia : goint.
#[export] Hint Extern 1 (1 <= _) => lia : goint.

(** [wraps] removes conversions of values that the context shows in range. *)
Ltac wraps :=
  repeat first
    [ rewrite wrap_u_small by (unfold is_uint in *; lia)
    | rewrite wrap_s_small by (unfold is_sint in *; lia) ].

(** ** Reachability *)

Section star.
Context {S : Type} (R : S -> S -> Prop).

Inductive star : S -> S -> Prop :=
| star_refl s : star s s
| star_snoc s t u : star s t -> R t u -> star s u.

Lemma star_trans s t u : star s t -> star t u -> star s u.
Proof. intros H1 H2; revert H1; induction H2; eauto using star. Qed.

Lemma star_one s t : R s t -> star s t.
Proof. eauto using star. Qed.

(** Rule induction in the form every invariant of the development uses. *)
Lemma star_invariant (P : S -> Prop) s t :
  (forall a b, P a -> R a b -> P b) -> P s -> star s t -> P t.
Proof. intros Hstep Hs. induction 1; eauto. Qed.
End star.

(** Execution of a finite script of actions by an executable step function. *)
Section script.
Context {S A : Type} (step : A -> S -> option S).

Definition steps_to (s t : S) : Prop := exists a, step a s = Some t.

Fixpoint run_script (acts : list A) (s : S) : option S :=
  match acts with
  | [] => Some s
  | a :: rest => match step a s with Some s' => run_script rest s' | None => None end
  end.

Lemma run_script_star acts s t : run_script acts s = Some t -> star steps_to s t.
Proof.
  revert s. induction acts as [|a acts IH]; intros s; simpl.
  - intros [= ->]. constructor.
  - destruct (step a s) as [s'|] eqn:E; [|done]. intros H.
    eapply star_trans; [apply star_one; by exists a | by apply IH].
Qed.
End script.

(** ** Sorted lists *)

Lemma StronglySorted_filter {A} (R : relation A) (P : A -> Prop) `{!forall x, Decision (P x)} l :
  StronglySorted R l -> StronglySorted R (filter P l).
Proof.
  induction 1 as [|x l _ IH Hx]; [constructor|]. rewrite filter_cons.
  case_decide; [|done]. constructor; [done|].
  rewrite Forall_forall in *. intros y [_ Hy]%list_elem_of_filter. auto.
Qed.

Lemma StronglySorted_snoc {A} (R : relation A) l x :
  StronglySorted R (l ++ [x]) <-> StronglySorted R l /\ forall y, y ∈ l -> R y x.
Proof.
  rewrite StronglySorted_app. split.
  - intros (H & ? & _). split; [done|]. intros y Hy. apply H; [done|by left].
  - intros [H1 H2]. split; [|split; [done|repeat constructor]].
    intros y z Hy Hz. apply list_elem_of_singleton in Hz as ->. auto.
Qed.

(** ** Record update

    A record [R] with an eta-expansion function gets one setter per field by
    replacing that projection in the expansion. *)

Ltac set_field eta r proj v :=
  let e := eval cbv beta delta [eta] in (eta r) in
  match e with context C [proj r] => let x := context C [v] in exact x end.

(** ** Bytes and big-endian integers

    A byte is a [Z] in [0, 256). *)

Abbreviation byte := Z.
Definition is_byte (z : Z) : Prop := 0 <= z < 256.
Abbreviation bytes_wf := (Forall is_byte).

#[global] Instance is_byte_dec z : Decision (is_byte z).
Proof. unfold is_byte. apply _. Defined.

(** [be_val] is the unbounded value of a big-endian byte string, [be_bytes n]
    the [n] low bytes of a value, as [binary.BigEndian.AppendUint*] writes. *)
Definition be_val (l : list byte) : Z := foldl (fun acc b => acc * 256 + b) 0 l.

Fixpoint be_bytes (n : nat) (z : Z) : list byte :=
  match n with
  | O => []
  | S n' => be_bytes n' (z / 256) ++ [z mod 256]
  end.

Lemma be_val_snoc l b : be_val (l ++ [b]) = be_val l * 256 + b.
Proof. unfold be_val. by rewrite foldl_app. Qed.

Lemma length_be_bytes n z : length (be_bytes n z) = n.
Proof. revert z. induction n; intros; simpl; [done|]. rewrite length_app, IHn. simpl. lia. Qed.

Lemma be_bytes_wf n z : bytes_wf (be_bytes n z).
Proof.
  revert z. induction n; intros; simpl; [constructor|].
  apply Forall_app; split; [apply IHn|]. repeat constructor; apply Z.mod_pos_bound; lia.
Qed.

Lemma be_val_bytes n z : be_val (be_bytes n z) = z mod 2 ^ (8 * Z.of_nat n).
Proof.
  revert z. induction n as [|n IH]; intros z; simpl be_bytes.
  - rewrite Z.mul_0_r, Z.pow_0_r, Z.mod_1_r. done.
  - rewrite be_val_snoc, IH.
    replace (8 * Z.of_nat (S n)) with (8 + 8 * Z.of_nat n) by lia.
    rewrite Z.pow_add_r by lia. change (2 ^ 8) with 256.
    rewrite Z.rem_mul_r by lia. lia.
Qed.

Lemma be_val_bytes_exact n z : is_uint (8 * Z.of_nat n) z -> be_val (be_bytes n z) = z.
Proof. intros. rewrite be_val_bytes. by apply Z.mod_small. Qed.

Lemma be_val_range l : bytes_wf l -> is_uint (8 * Z.of_nat (length l)) (be_val l).
Proof.
  induction l as [|b l IH] using rev_ind; intros H; [done|].
  apply Forall_app in H as [Hl Hb]. inversion_clear Hb.
  rewrite be_val_snoc, length_app. simpl length.
  replace (8 * Z.of_nat (length l + 1)) with (8 + 8 * Z.of_nat (length l)) by lia.
  specialize (IH Hl). unfold is_uint, is_byte in *. rewrite Z.pow_add_r by lia. lia.
Qed.

Lemma be_bytes_val l : bytes_wf l -> be_bytes (length l) (be_val l) = l.
Proof.
  induction l as [|b l IH] using rev_ind; intros H; [done|].
  apply Forall_app in H as [Hl Hb]. inversion_clear Hb as [|? ? Hb' _]. unfold is_byte in Hb'.
  rewrite length_app, Nat.add_comm. simpl. rewrite be_val_snoc.
  rewrite Z.div_add_l, Z.div_small, Z.add_0_r, IH by (done || lia).
  f_equal. f_equal. rewrite Z.add_comm, Z.mod_add, Z.mod_small by lia. done.
Qed.

Lemma be_bytes_inj n y z :
  is_uint (8 * Z.of_nat n) y -> is_uint (8 * Z.of_nat n) z ->
  be_bytes n y = be_bytes n z -> y = z.
Proof.
  intros Hy Hz E. apply (f_equal be_val) in E. by rewrite !be_val_bytes_exact in E.
Qed.

#[global] Arguments be_bytes : simpl never.
#[global] Arguments be_val : simpl never.
#[global] Arguments wrap_u : simpl never.
#[global] Arguments wrap_s : simpl never.

(** Splitting an append of two byte strings of known, equal lengths. *)
Lemma app_inj_len {A} (a a' b b' : list A) :
  length a = length a' -> a ++ b = a' ++ b' -> a = a' /\ b = b'.
Proof. intros H E. by apply app_inj_1 in E. Qed.
