(* ===== verification/GoTime.v ===== *)
(** * The part of Go's [time] package the collector uses

    A [time.Time] is the instant it denotes: seconds since January 1 of year 1
    (Go's internal epoch, an [int64] that wraps) and nanoseconds within the
    second. [UTC] only changes the location an instant is printed in, so it is
    the identity here; durations are [int64] nanoseconds. *)

From S2P Require Import Prelude.

Record Time := mkTime { sec : Z; nsec : Z }.

#[global] Instance Time_eq_dec : EqDecision Time.
Proof. solve_decision. Defined.

Definition Microsecond : Z := 1000.
Definition Millisecond : Z := 1000000.
Definition Second : Z := 1000000000.

(** Seconds from year 1 to 1970. *)
Definition unixToInternal : Z := 62135596800.

Definition zeroTime : Time := mkTime 0 0.
Definition IsZero (t : Time) : bool := (sec t =? 0) && (nsec t =? 0).
Definition UTC (t : Time) : Time := t.

(** [time.Unix], with its normalisation of the nanosecond argument. *)
Definition Unix (s ns : Z) : Time :=
  mkTime (i64 (s + ns / Second + unixToInternal)) (ns mod Second).
Definition UnixMilli (ms : Z) : Time := Unix (ms / 1000) ((ms mod 1000) * Millisecond).

Definition Add (t : Time) (d : Z) : Time :=
  mkTime (i64 (sec t + (nsec t + d) / Second)) ((nsec t + d) mod Second).

(** [t.Truncate(time.Microsecond)]: rounds down towards the zero time. *)
Definition TruncateMicro (t : Time) : Time := mkTime (sec t) (nsec t - nsec t mod Microsecond).

Definition After (t u : Time) : bool :=
  (sec u <? sec t) || ((sec t =? sec u) && (nsec u <? nsec t)).
Definition Before (t u : Time) : bool := After u t.

Definition UnixSec (t : Time) : Z := i64 (sec t - unixToInternal).
Definition UnixMicro (t : Time) : Z := i64 (UnixSec t * 1000000 + nsec t / 1000).
Definition UnixNano (t : Time) : Z := i64 (UnixSec t * Second + nsec t).

(** ** Well-formed instants *)

Definition time_wf (t : Time) : Prop := is_sint 64 (sec t) /\ 0 <= nsec t < Second.
Definition whole_micro (t : Time) : Prop := nsec t mod Microsecond = 0.

#[global] Instance time_wf_dec t : Decision (time_wf t).
Proof. unfold time_wf. apply _. Defined.
#[global] Instance whole_micro_dec t : Decision (whole_micro t).
Proof. unfold whole_micro. apply _. Defined.

Create HintDb gotime.

Lemma Unix_wf s ns : time_wf (Unix s ns).
Proof. split; [apply wrap_s_range; lia | apply Z.mod_pos_bound; done]. Qed.

Lemma Add_wf t d : time_wf (Add t d).
Proof. split; [apply wrap_s_range; lia | apply Z.mod_pos_bound; done]. Qed.

Lemma TruncateMicro_wf t : time_wf t -> time_wf (TruncateMicro t).
Proof.
  unfold time_wf, TruncateMicro, Microsecond, Second; simpl. intros [? ?].
  pose proof (Z.mod_pos_bound (nsec t) 1000). pose proof (Z.mod_le (nsec t) 1000).
  split; [done|lia].
Qed.

Lemma TruncateMicro_whole t : whole_micro (TruncateMicro t).
Proof.
  unfold whole_micro, TruncateMicro, Microsecond; simpl.
  rewrite Zminus_mod_idemp_r, Z.sub_diag. done.
Qed.

Lemma TruncateMicro_id t : whole_micro t -> TruncateMicro t = t.
Proof.
  unfold whole_micro, TruncateMicro. destruct t as [s n]; simpl. intros ->. by rewrite Z.sub_0_r.
Qed.

Lemma TruncateMicro_idemp t : TruncateMicro (TruncateMicro t) = TruncateMicro t.
Proof. apply TruncateMicro_id, TruncateMicro_whole. Qed.

Lemma zeroTime_whole : whole_micro zeroTime.
Proof. done. Qed.

Lemma Unix_sec_whole s : whole_micro (Unix s 0).
Proof. done. Qed.

Lemma UnixMilli_whole ms : whole_micro (UnixMilli ms).
Proof.
  unfold whole_micro, UnixMilli, Unix, Millisecond, Microsecond, Second; simpl.
  pose proof (Z.mod_pos_bound ms 1000).
  rewrite (Z.mod_small (_ * 1000000)) by lia.
  replace (ms mod 1000 * 1000000) with ((ms mod 1000 * 1000) * 1000) by lia.
  by rewrite Z.mod_mul.
Qed.

#[export] Hint Resolve Unix_wf Add_wf TruncateMicro_wf TruncateMicro_whole zeroTime_whole
  Unix_sec_whole UnixMilli_whole : gotime.

Lemma IsZero_spec t : IsZero t = true <-> t = zeroTime.
Proof.
  unfold IsZero, zeroTime. destruct t as [s n]; simpl.
  rewrite andb_true_iff, !Z.eqb_eq. split; [by intros [-> ->]|by intros [= -> ->]].
Qed.

Lemma IsZero_false t : IsZero t = false <-> t <> zeroTime.
Proof. rewrite <- IsZero_spec. by destruct (IsZero t). Qed.

(** Truncation turns no earlier instant into the zero time except those of
    the first microsecond of year 1. *)
Lemma IsZero_TruncateMicro t : whole_micro t -> IsZero (TruncateMicro t) = IsZero t.
Proof. intros H. by rewrite TruncateMicro_id. Qed.

(** ** Order and integer keys *)

Definition nanos (t : Time) : Z := sec t * Second + nsec t.

Lemma nanos_inj t u : time_wf t -> time_wf u -> nanos t = nanos u -> t = u.
Proof.
  destruct t as [s n], u as [s' n']; unfold time_wf, nanos, Second; simpl.
  intros [_ ?] [_ ?] ?. assert (s = s') by lia. subst. f_equal. lia.
Qed.

Lemma After_nanos t u : time_wf t -> time_wf u -> After t u = (nanos u <? nanos t).
Proof.
  destruct t as [s n], u as [s' n']; unfold time_wf, nanos, After, Second; simpl.
  intros [_ ?] [_ ?]. apply eq_true_iff_eq.
  rewrite orb_true_iff, andb_true_iff, Z.eqb_eq, !Z.ltb_lt. lia.
Qed.

Lemma nanos_Add t d :
  is_sint 64 (sec t + (nsec t + d) / Second) -> nanos (Add t d) = nanos t + d.
Proof.
  intros Hr. unfold nanos, Add. simpl. rewrite wrap_s_small by (done || lia).
  pose proof (Z.div_mod (nsec t + d) Second). unfold Second in *. lia.
Qed.

Lemma nanos_TruncateMicro t : nanos (TruncateMicro t) = nanos t - nanos t mod Microsecond.
Proof.
  unfold nanos, TruncateMicro, Second, Microsecond. simpl.
  replace (sec t * 1000000000 + nsec t) with (nsec t + sec t * 1000000 * 1000) at 2 by lia.
  rewrite Z.mod_add by lia. lia.
Qed.

Lemma nanos_Unix s ns :
  is_sint 64 (s + ns / Second + unixToInternal) ->
  nanos (Unix s ns) = (s + unixToInternal) * Second + ns.
Proof.
  intros Hr. unfold nanos, Unix. simpl. rewrite wrap_s_small by (done || lia).
  pose proof (Z.div_mod ns Second). unfold Second in *. lia.
Qed.

(** The range in which [UnixNano] is exact: about 1677 to 2262. *)
Definition unix_nano_range (t : Time) : Prop :=
  is_sint 64 (nanos t - unixToInternal * Second).

Lemma UnixNano_exact t :
  time_wf t -> unix_nano_range t -> UnixNano t = nanos t - unixToInternal * Second.
Proof.
  unfold time_wf, unix_nano_range, UnixNano, UnixSec, nanos, unixToInternal, Second.
  destruct t as [s n]; simpl. unfold is_sint. simpl. intros [? ?] ?.
  rewrite (wrap_s_small 64 (s - _)) by (unfold is_sint; simpl; lia).
  rewrite wrap_s_small by (unfold is_sint; simpl; lia). lia.
Qed.

Lemma Unix_UnixNano t :
  time_wf t -> unix_nano_range t -> Unix 0 (UnixNano t) = t.
Proof.
  intros Hwf Hr. rewrite UnixNano_exact by done.
  destruct t as [s n]. destruct Hwf as [Hs Hn]. unfold is_sint in Hs. simpl in Hs, Hn.
  unfold unix_nano_range, nanos, Unix, unixToInternal, Second in *; simpl.
  unfold is_sint in Hr; simpl in Hr.
  replace (s * 1000000000 + n - 62135596800 * 1000000000)
    with (n + (s - 62135596800) * 1000000000) by lia.
  rewrite Z.div_add, Z.mod_add, Z.div_small, Z.mod_small by lia.
  rewrite wrap_s_small by (unfold is_sint; simpl; lia).
  f_equal; lia.
Qed.

Definition unix_micro_range (t : Time) : Prop :=
  is_sint 64 (UnixSec t * 1000000 + nsec t / 1000) /\ is_sint 64 (sec t - unixToInternal).

(** On whole microseconds within range, [UnixMicro] is injective. *)
Lemma UnixMicro_inj t u :
  time_wf t -> time_wf u -> whole_micro t -> whole_micro u ->
  unix_micro_range t -> unix_micro_range u -> UnixMicro t = UnixMicro u -> t = u.
Proof.
  destruct t as [s n], u as [s' n'].
  unfold time_wf, whole_micro, unix_micro_range, UnixMicro, UnixSec, Microsecond, Second; simpl.
  intros [_ ?] [_ ?] ? ? [R1 ?] [R2 ?] E.
  rewrite !(wrap_s_small 64 (_ - _)) in * by (done || lia).
  rewrite !wrap_s_small in E by (done || lia).
  pose proof (Z.div_mod n 1000). pose proof (Z.div_mod n' 1000).
  pose proof (Z.div_pos n 1000). pose proof (Z.div_pos n' 1000).
  assert (n / 1000 < 1000000) by (apply Z.div_lt_upper_bound; lia).
  assert (n' / 1000 < 1000000) by (apply Z.div_lt_upper_bound; lia).
  assert (s = s') by lia. subst. f_equal. lia.
Qed.
