(* ===== verification/Netip.v ===== *)
(** * The part of Go's [net/netip] the collector uses

    A [netip.Addr] is the invalid zero value, an IPv4 address or an IPv6
    address with a (possibly empty) zone; [==] on [netip.Addr] is the
    structural equality of this type. *)

From S2P Require Import Prelude.

Inductive Addr : Type :=
| AddrZero
| Addr4 (n : Z)
| Addr6 (n : Z) (zone : string).

#[global] Instance Addr_eq_dec : EqDecision Addr.
Proof. solve_decision. Defined.

#[global] Instance Addr_countable : Countable Addr.
Proof.
  refine (inj_countable'
    (fun a => match a with
              | AddrZero => inl ()
              | Addr4 n => inr (inl n)
              | Addr6 n z => inr (inr (n, z))
              end)
    (fun s => match s with
              | inl () => AddrZero
              | inr (inl n) => Addr4 n
              | inr (inr (n, z)) => Addr6 n z
              end) _).
  by intros [].
Defined.

Definition addr_wf (a : Addr) : Prop :=
  match a with
  | AddrZero => True
  | Addr4 n => is_uint 32 n
  | Addr6 n _ => is_uint 128 n
  end.

#[global] Instance addr_wf_dec a : Decision (addr_wf a).
Proof. destruct a; simpl; apply _. Defined.

Definition IsValid (a : Addr) : bool := match a with AddrZero => false | _ => true end.

(** The IPv4-mapped prefix [::ffff:0:0/96]. *)
Definition v4mapped (n : Z) : Z := 65535 * 2 ^ 32 + n.

Definition Is4In6 (a : Addr) : bool :=
  match a with Addr6 n _ => n / 2 ^ 32 =? 65535 | _ => false end.

Definition Unmap (a : Addr) : Addr :=
  match a with
  | Addr6 n _ => if Is4In6 a then Addr4 (n mod 2 ^ 32) else a
  | _ => a
  end.

Definition IsUnspecified (a : Addr) : bool :=
  bool_decide (a = Addr4 0) || bool_decide (a = Addr6 0 "").

Definition As16 (a : Addr) : list byte :=
  match a with
  | AddrZero => be_bytes 16 0
  | Addr4 n => be_bytes 16 (v4mapped n)
  | Addr6 n _ => be_bytes 16 n
  end.

Definition AsSlice (a : Addr) : list byte :=
  match a with
  | AddrZero => []
  | Addr4 n => be_bytes 4 n
  | Addr6 n _ => be_bytes 16 n
  end.

(** [netip.AddrFromSlice] returns the zero [Addr] and [false] for any length
    other than 4 and 16. *)
Definition AddrFromSlice (b : list byte) : Addr * bool :=
  if decide (length b = 4%nat) then (Addr4 (be_val b), true)
  else if decide (length b = 16%nat) then (Addr6 (be_val b) "", true)
  else (AddrZero, false).

Definition AddrFrom4 (b : list byte) : Addr := Addr4 (be_val b).

(** ** Facts *)

Lemma Unmap_idemp a : Unmap (Unmap a) = Unmap a.
Proof.
  destruct a as [|n|n z]; simpl; [done|done|].
  destruct (n / 2 ^ 32 =? 65535) eqn:E; simpl; [done|]. by rewrite E.
Qed.

Lemma Unmap_wf a : addr_wf a -> addr_wf (Unmap a).
Proof.
  destruct a as [|n|n z]; simpl; [done|done|]. intros H.
  destruct (n / 2 ^ 32 =? 65535); [|done]. apply Z.mod_pos_bound. lia.
Qed.

Lemma Unmap_valid a : IsValid (Unmap a) = IsValid a.
Proof. destruct a as [|n|n z]; simpl; [done|done|]. by destruct (_ =? _). Qed.

Lemma length_As16 a : length (As16 a) = 16%nat.
Proof. by destruct a. Qed.

Lemma As16_wf a : bytes_wf (As16 a).
Proof. destruct a; apply be_bytes_wf. Qed.

Lemma v4mapped_uint n : is_uint 32 n -> is_uint 128 (v4mapped n).
Proof. unfold is_uint, v4mapped. lia. Qed.

(** [As16] identifies exactly an address with its IPv4-mapped form: the
    addresses of a well-formed record, unmapped and without zones, are
    recovered from their 16-byte forms. *)
Definition zoneless (a : Addr) : Prop := match a with Addr6 _ z => z = ""%string | _ => True end.

Lemma As16_inj a b :
  addr_wf a -> addr_wf b -> IsValid a = true -> IsValid b = true ->
  zoneless a -> zoneless b -> As16 a = As16 b -> Unmap a = Unmap b.
Proof.
  assert (Hm : forall n, is_uint 32 n -> v4mapped n / 2 ^ 32 = 65535 /\ v4mapped n mod 2 ^ 32 = n).
  { intros n Hn. unfold v4mapped, is_uint in *.
    rewrite Z.add_comm, Z.div_add, Z.mod_add, Z.div_small, Z.mod_small by lia. lia. }
  assert (Hu : forall n, is_uint 32 n -> Unmap (Addr6 (v4mapped n) "") = Addr4 n).
  { intros n Hn. simpl. destruct (Hm n Hn) as [-> ->]. done. }
  destruct a as [|n|n z], b as [|m|m y]; simpl; intros Wa Wb Va Vb Za Zb E; try done; subst.
  - apply be_bytes_inj in E; [|by apply v4mapped_uint..]. unfold v4mapped in E. f_equal. lia.
  - apply be_bytes_inj in E; [|by apply v4mapped_uint|done]. subst m.
    symmetry. exact (Hu n Wa).
  - apply be_bytes_inj in E; [|done|by apply v4mapped_uint]. subst n. exact (Hu m Wb).
  - apply be_bytes_inj in E; [|done|done]. by subst.
Qed.

Lemma AddrFromSlice_AsSlice a :
  addr_wf a -> zoneless a -> IsValid a = true -> AddrFromSlice (AsSlice a) = (a, true).
Proof.
  destruct a as [|n|n z]; simpl zoneless; intros W Z V; [done| |]; simpl in W; subst;
    unfold AddrFromSlice; simpl AsSlice; rewrite length_be_bytes; simpl;
    by rewrite be_val_bytes_exact.
Qed.

Lemma AddrFromSlice_wf b : bytes_wf b -> addr_wf (AddrFromSlice b).1.
Proof.
  intros H. unfold AddrFromSlice. pose proof (be_val_range b H) as R.
  case_decide as D4; [by rewrite D4 in R|].
  case_decide as D16; [by rewrite D16 in R|done].
Qed.

Lemma AddrFromSlice_zoneless b : zoneless (AddrFromSlice b).1.
Proof. unfold AddrFromSlice. by repeat case_decide. Qed.
