(* ===== verification/Flow.v ===== *)
(** * The domain contract: [internal/flow]

    The record every source produces and every sink stores, the query every
    backend answers. Field names are the source's. *)

From S2P Require Import Prelude GoTime Netip.

(** ** Flow types ([flow.go]) *)

(** [FlowType] is a Go string, not an enumeration: any text can occur in it
    and [Valid] recognises the three known ones. *)
Abbreviation FlowType := string.
Definition FlowTypeNetFlow5 : FlowType := "netflow5".
Definition FlowTypeNetFlow9 : FlowType := "netflow9".
Definition FlowTypeIPFIX : FlowType := "ipfix".

Definition Valid (t : FlowType) : bool :=
  bool_decide (t = FlowTypeNetFlow5) || bool_decide (t = FlowTypeNetFlow9)
  || bool_decide (t = FlowTypeIPFIX).

(** ** Records, queries and pages ([flow.go]) *)

Record FlowRecord := mkFlowRecord {
  ReceivedAt : Time;
  ExporterAddr : Addr;
  ExporterID : Z;
  FlowTypeOf : FlowType;
  FirstSwitched : Time;
  LastSwitched : Time;
  SrcAddr : Addr;
  DstAddr : Addr;
  SrcPort : Z;
  DstPort : Z;
  Protocol : Z;
  TCPFlags : Z;
  Packets : Z;
  Bytes : Z;
  SamplingRate : Z;
  InputIface : Z;
  OutputIface : Z;
  SrcAS : Z;
  DstAS : Z;
  NextHop : Addr;
  DedupKey : option (list byte)
}.

#[global] Instance FlowRecord_eq_dec : EqDecision FlowRecord.
Proof. solve_decision. Defined.

(** Go's zero value [flow.FlowRecord{}]. *)
Definition zeroRecord : FlowRecord :=
  mkFlowRecord zeroTime AddrZero 0 "" zeroTime zeroTime AddrZero AddrZero
    0 0 0 0 0 0 0 0 0 0 0 AddrZero None.

Record FlowQuery := mkFlowQuery {
  q_Start : Time;
  q_End : Time;
  q_ExporterID : Z;
  q_SrcAddr : Addr;
  q_DstAddr : Addr;
  q_Protocol : option Z;
  q_Limit : Z;
  q_Cursor : string
}.

Record FlowResultPage := mkFlowResultPage {
  Records : list FlowRecord;
  NextCursor : string;
  HasMore : bool
}.

(** ** Exporters ([exporter.go]) *)

Record Exporter := mkExporter {
  e_ID : Z;
  e_IPAddress : Addr;
  e_Label : option string;
  e_FirstSeenAt : Time;
  e_LastSeenAt : Time
}.

(** ** Field updates *)

Definition record_eta (r : FlowRecord) : FlowRecord :=
  mkFlowRecord (ReceivedAt r) (ExporterAddr r) (ExporterID r) (FlowTypeOf r)
    (FirstSwitched r) (LastSwitched r) (SrcAddr r) (DstAddr r) (SrcPort r) (DstPort r)
    (Protocol r) (TCPFlags r) (Packets r) (Bytes r) (SamplingRate r) (InputIface r)
    (OutputIface r) (SrcAS r) (DstAS r) (NextHop r) (DedupKey r).

Definition set_ReceivedAt v r : FlowRecord := ltac:(set_field record_eta r ReceivedAt v).
Definition set_ExporterAddr v r : FlowRecord := ltac:(set_field record_eta r ExporterAddr v).
Definition set_ExporterID v r : FlowRecord := ltac:(set_field record_eta r ExporterID v).
Definition set_FlowType v r : FlowRecord := ltac:(set_field record_eta r FlowTypeOf v).
Definition set_FirstSwitched v r : FlowRecord := ltac:(set_field record_eta r FirstSwitched v).
Definition set_LastSwitched v r : FlowRecord := ltac:(set_field record_eta r LastSwitched v).
Definition set_SrcAddr v r : FlowRecord := ltac:(set_field record_eta r SrcAddr v).
Definition set_DstAddr v r : FlowRecord := ltac:(set_field record_eta r DstAddr v).
Definition set_SrcPort v r : FlowRecord := ltac:(set_field record_eta r SrcPort v).
Definition set_DstPort v r : FlowRecord := ltac:(set_field record_eta r DstPort v).
Definition set_Protocol v r : FlowRecord := ltac:(set_field record_eta r Protocol v).
Definition set_TCPFlags v r : FlowRecord := ltac:(set_field record_eta r TCPFlags v).
Definition set_Packets v r : FlowRecord := ltac:(set_field record_eta r Packets v).
Definition set_Bytes v r : FlowRecord := ltac:(set_field record_eta r Bytes v).
Definition set_SamplingRate v r : FlowRecord := ltac:(set_field record_eta r SamplingRate v).
Definition set_InputIface v r : FlowRecord := ltac:(set_field record_eta r InputIface v).
Definition set_OutputIface v r : FlowRecord := ltac:(set_field record_eta r OutputIface v).
Definition set_SrcAS v r : FlowRecord := ltac:(set_field record_eta r SrcAS v).
Definition set_DstAS v r : FlowRecord := ltac:(set_field record_eta r DstAS v).
Definition set_NextHop v r : FlowRecord := ltac:(set_field record_eta r NextHop v).
Definition set_DedupKey v r : FlowRecord := ltac:(set_field record_eta r DedupKey v).

(** ** Typing: every field within its Go type *)

Record record_typed (r : FlowRecord) : Prop := {
  rt_received : time_wf (ReceivedAt r);
  rt_first : time_wf (FirstSwitched r);
  rt_last : time_wf (LastSwitched r);
  rt_exporter : addr_wf (ExporterAddr r);
  rt_id : is_sint 64 (ExporterID r);
  rt_src : addr_wf (SrcAddr r);
  rt_dst : addr_wf (DstAddr r);
  rt_nh : addr_wf (NextHop r);
  rt_sport : is_uint 16 (SrcPort r);
  rt_dport : is_uint 16 (DstPort r);
  rt_proto : is_uint 8 (Protocol r);
  rt_flags : is_uint 8 (TCPFlags r);
  rt_packets : is_uint 64 (Packets r);
  rt_bytes : is_uint 64 (Bytes r);
  rt_rate : is_uint 32 (SamplingRate r);
  rt_in : is_uint 32 (InputIface r);
  rt_out : is_uint 32 (OutputIface r);
  rt_sas : is_uint 32 (SrcAS r);
  rt_das : is_uint 32 (DstAS r)
}.

(** Equality of records, field by field. *)
Lemma record_ext r s :
  record_eta r = record_eta s -> r = s.
Proof. by destruct r, s. Qed.

Lemma zeroRecord_typed : record_typed zeroRecord.
Proof. constructor; done. Qed.

Lemma Valid_spec t :
  Valid t = true <-> t = FlowTypeNetFlow5 \/ t = FlowTypeNetFlow9 \/ t = FlowTypeIPFIX.
Proof. unfold Valid. rewrite !orb_true_iff, !bool_decide_eq_true. tauto. Qed.
