(* ===== verification/Watermark.v ===== *)
(** * The write watermark: [internal/pipeline/watermark.go]

    Workers complete batches out of order; [written] advances only through a
    contiguous run of completed batches. The mutex makes [complete], [close]
    and each iteration of the loop of [await] atomic, so each is one function
    on the state; the [changed] channel, closed and replaced by [wake], is a
    generation counter. The lazily initialised fields of [init] are the
    initial state. *)

From S2P Require Import Prelude.

Record span := mkSpan { first : Z; last : Z }.

#[global] Instance span_eq_dec : EqDecision span.
Proof. solve_decision. Defined.

Record watermark := mkWatermark {
  written : Z;
  done : gmap Z Z;
  failed : list span;
  changed : nat;
  closed : bool
}.

Definition wm_init : watermark := mkWatermark 0 ∅ [] 0 false.

Definition wake (w : watermark) : watermark :=
  mkWatermark (written w) (done w) (failed w) (S (changed w)) (closed w).

(** The [for] loop of [complete]: while [done] holds a batch that starts
    right after [written], take it. Every iteration deletes an entry, so
    [size done] iterations are enough ([advance_exit]). *)
Fixpoint advance (fuel : nat) (wr : Z) (dn : gmap Z Z) : Z * gmap Z Z :=
  match fuel with
  | O => (wr, dn)
  | S fuel' =>
    match dn !! u64 (wr + 1) with
    | None => (wr, dn)
    | Some l => advance fuel' l (delete (u64 (wr + 1)) dn)
    end
  end.

Definition complete (f l : Z) (ok : bool) (w : watermark) : watermark :=
  let fl := if ok then failed w else failed w ++ [mkSpan f l] in
  let dn := <[f := l]> (done w) in
  let '(wr', dn') := advance (size dn) (written w) dn in
  wake (mkWatermark wr' dn' fl (changed w) (closed w)).

Definition close (w : watermark) : watermark :=
  wake (mkWatermark (written w) (done w) (failed w) (changed w) true).

(** One iteration of [await], up to the point where it returns or blocks on
    [changed]. *)
Inductive await_result := AwaitNil | AwaitErrWriteFailed | AwaitCanceled | AwaitBlock.

#[global] Instance await_result_eq_dec : EqDecision await_result.
Proof. solve_decision. Defined.

Definition await (seq : Z) (w : watermark) : await_result * watermark :=
  match failed w with
  | f0 :: _ =>
    if first f0 <=? seq then
      (AwaitErrWriteFailed,
       mkWatermark (written w) (done w) (filter (fun f => seq < first f) (failed w))
         (changed w) (closed w))
    else if seq <=? written w then (AwaitNil, w)
    else if closed w then (AwaitCanceled, w)
    else (AwaitBlock, w)
  | [] =>
    if seq <=? written w then (AwaitNil, w)
    else if closed w then (AwaitCanceled, w)
    else (AwaitBlock, w)
  end.

(** ** The loop of [complete] terminates and stops where it should *)

Lemma advance_exit fuel wr dn wr' dn' :
  (size dn <= fuel)%nat -> advance fuel wr dn = (wr', dn') -> dn' !! u64 (wr' + 1) = None.
Proof.
  revert wr dn. induction fuel as [|fuel IH]; intros wr dn Hs; simpl.
  - intros [= <- <-]. assert (dn = ∅) as -> by (apply map_size_empty_inv; lia). done.
  - destruct (dn !! u64 (wr + 1)) as [l|] eqn:E; [|by intros [= <- <-]].
    apply IH. rewrite map_size_delete_Some by eauto. lia.
Qed.

(** More fuel than entries changes nothing. *)
Lemma advance_fuel n m wr dn :
  (size dn <= n)%nat -> (size dn <= m)%nat -> advance n wr dn = advance m wr dn.
Proof.
  revert m wr dn. induction n as [|n IH]; intros m wr dn Hn Hm.
  - assert (dn = ∅) as -> by (apply map_size_empty_inv; lia). by destruct m.
  - destruct m as [|m].
    { assert (dn = ∅) as -> by (apply map_size_empty_inv; lia). done. }
    simpl. destruct (dn !! u64 (wr + 1)) as [l|] eqn:E; [|done].
    assert (size (delete (u64 (wr + 1)) dn) = pred (size dn))
      by (by rewrite map_size_delete_Some by eauto).
    apply IH; lia.
Qed.

(** ** Batch ranges

    The batcher numbers records densely from 1, so the ranges it hands out
    form a list of consecutive, non-empty intervals. *)

Fixpoint contig (s : Z) (bs : list span) : Prop :=
  match bs with
  | [] => True
  | b :: bs' => first b = s /\ first b <= last b /\ contig (last b + 1) bs'
  end.

(** The last sequence number of a list of consecutive ranges from [s]. *)
Fixpoint contig_end (s : Z) (bs : list span) : Z :=
  match bs with
  | [] => s - 1
  | b :: bs' => contig_end (last b + 1) bs'
  end.

Lemma contig_app s bs bs' :
  contig s (bs ++ bs') <-> contig s bs /\ contig (contig_end s bs + 1) bs'.
Proof.
  revert s. induction bs as [|b bs IH]; intros s; simpl.
  - replace (s - 1 + 1) with s by lia. tauto.
  - rewrite IH. tauto.
Qed.

Lemma contig_end_app s bs bs' :
  contig_end s (bs ++ bs') = contig_end (contig_end s bs + 1) bs'.
Proof.
  revert s. induction bs as [|b bs IH]; intros s; simpl; [|by rewrite IH].
  by replace (s - 1 + 1) with s by lia.
Qed.

Lemma contig_end_ge s bs : contig s bs -> s - 1 <= contig_end s bs.
Proof.
  revert s. induction bs as [|b bs IH]; intros s; simpl; [lia|].
  intros (<- & ? & H). specialize (IH _ H). lia.
Qed.

Lemma contig_bounds s bs b :
  contig s bs -> b ∈ bs -> s <= first b /\ first b <= last b /\ last b <= contig_end s bs.
Proof.
  revert s. induction bs as [|c bs IH]; intros s; simpl.
  - intros _ H. by apply not_elem_of_nil in H.
  - intros (? & ? & H) [->|Hb]%elem_of_cons.
    + pose proof (contig_end_ge _ _ H). lia.
    + specialize (IH _ H Hb). lia.
Qed.

Lemma contig_disjoint s bs b c :
  contig s bs -> b ∈ bs -> c ∈ bs -> b = c \/ last b < first c \/ last c < first b.
Proof.
  revert s. induction bs as [|d bs IH]; intros s; simpl.
  - intros _ H. by apply not_elem_of_nil in H.
  - intros (? & ? & H) [->|Hb]%elem_of_cons [->|Hc]%elem_of_cons; [by left|..].
    + pose proof (contig_bounds _ _ _ H Hc). lia.
    + pose proof (contig_bounds _ _ _ H Hb). lia.
    + eauto.
Qed.

Lemma contig_cover s bs x :
  contig s bs -> s <= x <= contig_end s bs -> exists b, b ∈ bs /\ first b <= x <= last b.
Proof.
  revert s. induction bs as [|b bs IH]; intros s; simpl; [lia|].
  intros (? & ? & H) ?. destruct (decide (x <= last b)).
  - exists b. split; [by left|lia].
  - destruct (IH _ H) as (c & ? & ?); [lia|]. exists c. split; [by right|done].
Qed.

(** ** Refinement: [written] is the frontier of the completed batches

    Abstractly the watermark is the set of batches reported so far, named by
    their first sequence number; [wm_inv] relates it to the concrete state. *)

Record wm_inv (bs : list span) (C : gset Z) (w : watermark) : Prop := {
  wi_boundary : written w = 0 \/ exists b, b ∈ bs /\ last b = written w;
  wi_prefix : forall b, b ∈ bs -> last b <= written w -> first b ∈ C;
  wi_next : written w + 1 ∉ C;
  wi_done : forall f l, done w !! f = Some l <-> f ∈ C /\ written w < f /\ mkSpan f l ∈ bs
}.

(** Every sequence number of the ranges fits a [uint64] with room for one. *)
Definition seqs_fit (bs : list span) : Prop := contig_end 1 bs < 2 ^ 64 - 1.

Lemma span_eta b : mkSpan (first b) (last b) = b.
Proof. by destruct b. Qed.

Section frontier.
Context (bs : list span) (Hc : contig 1 bs) (Hfit : seqs_fit bs).

Lemma fit_next b : b ∈ bs -> u64 (last b + 1) = last b + 1.
Proof.
  intros Hb. destruct (contig_bounds _ _ _ Hc Hb) as (? & ? & ?).
  apply wrap_u_small. unfold is_uint, seqs_fit in *. lia.
Qed.

Lemma fit_written wr :
  (wr = 0 \/ exists b, b ∈ bs /\ last b = wr) -> u64 (wr + 1) = wr + 1.
Proof. intros [->|(b & ? & <-)]; [done|by apply fit_next]. Qed.

(** The loop's exit test is exactly what [wi_next] asks for. *)
Lemma advance_stop C wr dn fl ch cl :
  (wr = 0 \/ exists b, b ∈ bs /\ last b = wr) ->
  (forall b, b ∈ bs -> last b <= wr -> first b ∈ C) ->
  (forall f l, dn !! f = Some l <-> f ∈ C /\ wr < f /\ mkSpan f l ∈ bs) ->
  (forall f, f ∈ C -> exists b, b ∈ bs /\ first b = f) ->
  dn !! u64 (wr + 1) = None -> wm_inv bs C (mkWatermark wr dn fl ch cl).
Proof.
  intros Hb Hp Hd HC Hn. rewrite fit_written in Hn by done.
  constructor; simpl; try done.
  intros HinC. destruct (HC _ HinC) as (b & Hbin & Hfb).
  assert (dn !! (wr + 1) = Some (last b)) as Hx; [|congruence].
  apply Hd. rewrite <- Hfb, span_eta, Hfb. repeat split; [done|lia|done].
Qed.

(** The state the loop works on: everything but [wi_next]. *)
Lemma advance_inv C fuel wr dn wr' dn' :
  (size dn <= fuel)%nat ->
  (wr = 0 \/ exists b, b ∈ bs /\ last b = wr) ->
  (forall b, b ∈ bs -> last b <= wr -> first b ∈ C) ->
  (forall f l, dn !! f = Some l <-> f ∈ C /\ wr < f /\ mkSpan f l ∈ bs) ->
  (forall f, f ∈ C -> exists b, b ∈ bs /\ first b = f) ->
  advance fuel wr dn = (wr', dn') ->
  forall fl ch cl, wm_inv bs C (mkWatermark wr' dn' fl ch cl).
Proof.
  revert wr dn. induction fuel as [|fuel IH]; intros wr dn Hs Hb Hp Hd HC E fl ch cl; simpl in E.
  - injection E as <- <-. apply advance_stop; try done.
    assert (dn = ∅) as -> by (apply map_size_empty_inv; lia). done.
  - destruct (dn !! u64 (wr + 1)) as [l|] eqn:El;
      [|injection E as <- <-; by apply advance_stop].
    assert (Hu : u64 (wr + 1) = wr + 1) by by apply fit_written.
    rewrite Hu in *. apply Hd in El as Hl. destruct Hl as (HinC & _ & Hbin).
    destruct (contig_bounds _ _ _ Hc Hbin) as (_ & Hle & _). simpl in Hle.
    apply (IH l (delete (wr + 1) dn)); try done.
    + rewrite map_size_delete_Some by eauto. lia.
    + right. by exists (mkSpan (wr + 1) l).
    + intros b Hbb Hlast.
      destruct (contig_disjoint _ _ _ _ Hc Hbb Hbin) as [->|[Hlt|Hlt]]; simpl in *; [done|..].
      * apply Hp; [done|lia].
      * destruct (contig_bounds _ _ _ Hc Hbb). lia.
    + intros f l'. rewrite lookup_delete_Some, Hd. split.
      * intros (Hne & ? & ? & Hbf). repeat split; try done.
        destruct (contig_disjoint _ _ _ _ Hc Hbf Hbin) as [[= ? ?]|[Hlt|Hlt]]; simpl in *; [lia| |lia].
        destruct (contig_bounds _ _ _ Hc Hbf). simpl in *. lia.
      * intros (? & ? & ?). repeat split; [lia|done|lia|done].
Qed.

Lemma wm_init_inv : wm_inv bs ∅ wm_init.
Proof.
  constructor; simpl.
  - by left.
  - intros b Hb ?. destruct (contig_bounds _ _ _ Hc Hb). lia.
  - apply not_elem_of_empty.
  - intros f l. rewrite lookup_empty. split; [done|]. by intros [?%elem_of_empty _].
Qed.

Lemma complete_inv C w b ok :
  wm_inv bs C w -> b ∈ bs -> first b ∉ C ->
  (forall f, f ∈ C -> exists b, b ∈ bs /\ first b = f) ->
  wm_inv bs ({[first b]} ∪ C) (complete (first b) (last b) ok w).
Proof.
  intros [Hb Hp Hn Hd] Hbin HnC HC. unfold complete.
  destruct (advance _ _ _) as [wr' dn'] eqn:E. unfold wake; simpl.
  assert (Hw : written w < first b).
  { destruct (decide (written w < first b)); [done|exfalso].
    apply HnC, Hp; [done|].
    destruct (contig_bounds _ _ _ Hc Hbin) as (? & ? & _).
    destruct Hb as [Hz|(c & Hcin & Hcl)]; [lia|].
    destruct (contig_disjoint _ _ _ _ Hc Hbin Hcin) as [->|[?|?]]; [lia| |lia].
    destruct (contig_bounds _ _ _ Hc Hcin). lia. }
  eapply advance_inv; [| | | | |exact E]; try done.
  - intros b' ? ?. apply elem_of_union_r. by apply Hp.
  - intros f l. rewrite lookup_insert_Some, Hd, elem_of_union, elem_of_singleton. split.
    + intros [[<- <-]|[Hne (? & ? & ?)]].
      * rewrite span_eta. auto.
      * auto.
    + intros (Hf & Hlt & Hin).
      destruct (contig_disjoint _ _ _ _ Hc Hin Hbin) as [Heq|Hlt'].
      * left. rewrite <- Heq. done.
      * destruct (contig_bounds _ _ _ Hc Hin), (contig_bounds _ _ _ Hc Hbin). simpl in *.
        right. split; [lia|]. destruct Hf as [Hf|Hf]; [lia|done].
  - intros f [->%elem_of_singleton|Hf]%elem_of_union; eauto.
Qed.

Lemma written_frontier C w seq :
  wm_inv bs C w -> 1 <= seq <= contig_end 1 bs ->
  (seq <= written w <-> forall b, b ∈ bs -> first b <= seq -> first b ∈ C).
Proof.
  intros [Hb Hp Hn Hd] Hseq. split.
  - intros Hle b Hbin Hf. apply Hp; [done|].
    destruct Hb as [Hz|(c & Hcin & Hcl)]; [lia|].
    destruct (contig_disjoint _ _ _ _ Hc Hbin Hcin) as [->|[?|?]]; [lia| |lia].
    destruct (contig_bounds _ _ _ Hc Hcin). lia.
  - intros Hall. destruct (decide (seq <= written w)) as [|Hgt]; [done|exfalso].
    destruct (contig_cover 1 bs (written w + 1) Hc) as (b & Hbin & Hcov).
    { split; [|lia]. destruct Hb as [->|(c & Hcin & <-)]; [lia|].
      destruct (contig_bounds _ _ _ Hc Hcin). lia. }
    apply Hn. assert (first b = written w + 1) as <-; [|apply Hall; [done|lia]].
    destruct Hb as [Hz|(c & Hcin & Hcl)].
    + destruct (contig_bounds _ _ _ Hc Hbin). lia.
    + destruct (contig_disjoint _ _ _ _ Hc Hbin Hcin) as [->|[?|?]]; [lia| |lia].
      destruct (contig_bounds _ _ _ Hc Hcin). lia.
Qed.
End frontier.

(** The batch list of a running pipeline only grows. *)
Lemma wm_inv_grow bs C w b :
  contig 1 (bs ++ [b]) -> wm_inv bs C w ->
  (forall f, f ∈ C -> exists c, c ∈ bs /\ first c = f) -> wm_inv (bs ++ [b]) C w.
Proof.
  intros Hc [Hb Hp Hn Hd] HC.
  assert (Hbin : b ∈ bs ++ [b]) by (apply elem_of_app; right; by left).
  assert (Hnew : forall c, c ∈ bs -> last c < first b).
  { intros c Hcin. apply contig_app in Hc as [Hc1 Hc2]. simpl in Hc2.
    destruct (contig_bounds _ _ _ Hc1 Hcin). lia. }
  assert (Hw : written w < first b).
  { destruct Hb as [->|(c & ? & <-)]; [|by apply Hnew].
    destruct (contig_bounds _ _ _ Hc Hbin). lia. }
  constructor.
  - destruct Hb as [?|(c & ? & ?)]; [by left|right]. exists c. split; [|done].
    apply elem_of_app. by left.
  - intros c [?| ->%list_elem_of_singleton]%elem_of_app ?; [by apply Hp|].
    destruct (contig_bounds _ _ _ Hc Hbin). lia.
  - done.
  - intros f l. rewrite Hd, elem_of_app, list_elem_of_singleton. split; [tauto|].
    intros (HfC & ? & [?| <-]); [tauto|]. exfalso.
    destruct (HC _ HfC) as (c & Hcin & Hcf). simpl in *.
    specialize (Hnew _ Hcin). apply contig_app in Hc as [Hc1 _].
    destruct (contig_bounds _ _ _ Hc1 Hcin). lia.
Qed.

(** ** What [await] reports *)

Definition span_lt (a b : span) : Prop := first a < first b.

#[global] Instance span_lt_dec a b : Decision (span_lt a b).
Proof. unfold span_lt. apply _. Defined.

Lemma await_cases seq w r w' :
  await seq w = (r, w') ->
  (r = AwaitErrWriteFailed /\ failed w' = filter (fun f => seq < first f) (failed w) /\
     (exists f0 fs, failed w = f0 :: fs /\ first f0 <= seq)) \/
  (r <> AwaitErrWriteFailed /\ w' = w /\
     (forall f0 fs, failed w = f0 :: fs -> seq < first f0) /\
     (r = AwaitNil -> seq <= written w)).
Proof.
  unfold await. destruct (failed w) as [|f0 fs] eqn:E.
  - intros H. right.
    destruct (seq <=? written w) eqn:?; [|destruct (closed w)]; injection H as <- <-;
      (split; [done|split; [done|split; [done|intros; lia || done]]]).
  - destruct (first f0 <=? seq) eqn:Ef.
    + intros [= <- <-]. left. repeat split; try done. exists f0, fs. split; [done|lia].
    + intros H. right.
      destruct (seq <=? written w) eqn:?; [|destruct (closed w)]; injection H as <- <-;
        (split; [done|split; [done|split; [intros ? ? [= <- <-]; lia|intros; lia || done]]]).
Qed.

Lemma await_written seq w r w' : await seq w = (r, w') -> written w' = written w /\ done w' = done w.
Proof.
  unfold await. destruct (failed w); repeat case_match; intros [= <- <-]; done.
Qed.

(** With the failed ranges in sequence order, looking at the head is enough. *)
Lemma await_nil_sorted seq w w' :
  StronglySorted span_lt (failed w) -> await seq w = (AwaitNil, w') ->
  forall f, f ∈ failed w -> seq < first f.
Proof.
  intros Hs [(? & _)|(_ & -> & Hh & _)]%await_cases f Hf; [done|].
  destruct (failed w) as [|f0 fs]; [by apply not_elem_of_nil in Hf|].
  apply StronglySorted_cons in Hs as [Hs _]. rewrite Forall_forall in Hs.
  specialize (Hh _ _ eq_refl).
  apply elem_of_cons in Hf as [->|Hf]; [done|]. specialize (Hs _ Hf). unfold span_lt in Hs. lia.
Qed.

(** ** Histories

    A history is the sequence of calls the watermark serves, oldest first;
    [told] collects the ranges whose failure some waiter was given. *)

Inductive wm_event :=
| EvComplete (b : span) (ok : bool)
| EvAwait (seq : Z)
| EvClose.

#[global] Instance wm_event_eq_dec : EqDecision wm_event.
Proof. solve_decision. Defined.

Record wm_run := mkRun { wm : watermark; told : list span }.

Definition wm_apply (s : wm_run) (e : wm_event) : wm_run :=
  match e with
  | EvComplete b ok => mkRun (complete (first b) (last b) ok (wm s)) (told s)
  | EvAwait seq =>
    let '(r, w') := await seq (wm s) in
    mkRun w' (match r with
              | AwaitErrWriteFailed => told s ++ filter (fun f => first f <= seq) (failed (wm s))
              | _ => told s
              end)
  | EvClose => mkRun (close (wm s)) (told s)
  end.

Definition wm_history (evs : list wm_event) : wm_run := foldl wm_apply (mkRun wm_init []) evs.

(** The batches a history reports, in order. *)
Definition completions (evs : list wm_event) : list span :=
  omap (fun e => match e with EvComplete b _ => Some b | _ => None end) evs.

Definition completed (evs : list wm_event) : gset Z := list_to_set (first <$> completions evs).

(** Histories the pipeline can produce: batches of one dense numbering, each
    reported at most once. *)
Record history_ok (bs : list span) (evs : list wm_event) : Prop := {
  ho_contig : contig 1 bs;
  ho_fit : seqs_fit bs;
  ho_known : forall b, b ∈ completions evs -> b ∈ bs;
  ho_once : NoDup (completions evs)
}.

Lemma completions_snoc evs e :
  completions (evs ++ [e]) = completions evs ++ match e with EvComplete b _ => [b] | _ => [] end.
Proof. unfold completions. rewrite omap_app. simpl. by destruct e. Qed.

Lemma completed_elem evs f : f ∈ completed evs <-> exists b, b ∈ completions evs /\ first b = f.
Proof.
  unfold completed. rewrite elem_of_list_to_set, list_elem_of_fmap. firstorder.
Qed.

Lemma wm_history_snoc evs e : wm_history (evs ++ [e]) = wm_apply (wm_history evs) e.
Proof. unfold wm_history. by rewrite foldl_app. Qed.

Lemma history_ok_snoc bs evs e : history_ok bs (evs ++ [e]) -> history_ok bs evs.
Proof.
  intros [H1 H2 H3 H4]. rewrite completions_snoc in *. constructor; try done.
  - intros b Hb. apply H3, elem_of_app. by left.
  - by apply NoDup_app in H4 as [? _].
Qed.

Lemma contig_first_inj bs b c :
  contig 1 bs -> b ∈ bs -> c ∈ bs -> first b = first c -> b = c.
Proof.
  intros Hc Hb Hcin E. destruct (contig_disjoint _ _ _ _ Hc Hb Hcin) as [?|?]; [done|].
  destruct (contig_bounds _ _ _ Hc Hb), (contig_bounds _ _ _ Hc Hcin). lia.
Qed.

Lemma history_inv bs evs :
  history_ok bs evs -> wm_inv bs (completed evs) (wm (wm_history evs)).
Proof.
  induction evs as [|e evs IH] using rev_ind; intros Hok.
  { destruct Hok. by apply wm_init_inv. }
  pose proof (history_ok_snoc _ _ _ Hok) as Hok'. specialize (IH Hok').
  rewrite wm_history_snoc. unfold completed. rewrite completions_snoc.
  destruct e as [b ok|seq|]; simpl; rewrite ?app_nil_r;
    [..|destruct IH as [I1 I2 I3 I4]; by constructor].
  - destruct Hok as [Hc Hf Hk Ho]. rewrite completions_snoc in *.
    assert (Hb : b ∈ bs) by (apply Hk, elem_of_app; right; by left).
    rewrite fmap_app, list_to_set_app_L. simpl. rewrite union_empty_r_L, union_comm_L.
    apply complete_inv; try done.
    + intros (c & Hcin & E)%completed_elem.
      apply NoDup_app in Ho as (_ & Ho & _).
      apply (Ho c Hcin). apply list_elem_of_singleton.
      apply (contig_first_inj bs); try done. apply Hk, elem_of_app. by left.
    + intros f (c & ? & ?)%completed_elem. exists c. split; [|done].
      apply Hk, elem_of_app. by left.
  - destruct (await seq _) as [r w'] eqn:E. simpl.
    apply await_written in E as [E1 E2]. destruct IH as [I1 I2 I3 I4].
    constructor; rewrite ?E1, ?E2; done.
Qed.

(** Every reported failure is still pending or was told to a waiter. *)
Lemma history_failed evs b ok :
  EvComplete b ok ∈ evs ->
  EvComplete b true ∈ evs \/ b ∈ failed (wm (wm_history evs)) \/ b ∈ told (wm_history evs).
Proof.
  induction evs as [|e evs IH] using rev_ind; [by intros ?%not_elem_of_nil|].
  rewrite !elem_of_app, !list_elem_of_singleton, wm_history_snoc. intros [H|He].
  - specialize (IH H). destruct IH as [?|IH]; [by left; left|right].
    destruct e as [c ok'|seq|]; simpl.
    + unfold complete. destruct (advance _ _ _). simpl.
      destruct IH; [left|by right]. destruct ok'; [done|]. apply elem_of_app. by left.
    + destruct (await seq _) as [r w'] eqn:E. simpl.
      destruct (await_cases _ _ _ _ E) as [(-> & -> & _)|(Hr & -> & _)].
      * rewrite elem_of_app, !list_elem_of_filter. destruct IH as [IH|IH]; [|tauto].
        destruct (decide (first b <= seq)); [tauto|]. left. split; [lia|done].
      * destruct r; tauto.
    + done.
  - subst e. destruct ok; [by left; right|right; left]. simpl. unfold complete.
    destruct (advance _ _ _). simpl. rewrite span_eta. apply elem_of_app. right. by left.
Qed.

(** Completions in sequence order keep the failed ranges in order. *)
Lemma history_sorted evs :
  StronglySorted span_lt (completions evs) ->
  StronglySorted span_lt (failed (wm (wm_history evs))) /\
  (forall f, f ∈ failed (wm (wm_history evs)) -> f ∈ completions evs).
Proof.
  induction evs as [|e evs IH] using rev_ind; intros Hs.
  { split; [constructor|]. by intros f ?%not_elem_of_nil. }
  rewrite wm_history_snoc. rewrite completions_snoc in *.
  destruct e as [b ok|seq|]; simpl in *; rewrite ?app_nil_r in *; [..|by apply IH].
  - apply StronglySorted_snoc in Hs as [Hs Hlt]. destruct (IH Hs) as [I1 I2].
    assert (Hsub : forall f, f ∈ failed (wm (wm_history evs)) -> f ∈ completions evs ++ [b]).
    { intros f Hf. apply elem_of_app. left. auto. }
    unfold complete. destruct (advance _ _ _). simpl. destruct ok; [by split|].
    rewrite span_eta. split.
    + apply StronglySorted_snoc. split; [done|]. auto.
    + intros f [Hf| ->%list_elem_of_singleton]%elem_of_app; [by apply Hsub|].
      apply elem_of_app. right. by left.
  - destruct (IH Hs) as [I1 I2]. destruct (await seq _) as [r w'] eqn:E. simpl.
    destruct (await_cases _ _ _ _ E) as [(-> & -> & _)|(Hr & -> & _)]; [|done].
    split; [by apply StronglySorted_filter|]. intros f [_ Hf]%list_elem_of_filter. auto.
Qed.

(** ** Claims *)

(** C1. Refinement of the watermark: after any history of calls in which the
    batches of one dense numbering are reported in any order, each at most
    once, [written >= seq] holds exactly when every batch that starts at or
    below [seq] has been reported, whatever the outcome of each. *)
Theorem watermark_frontier (bs : list span) (evs : list wm_event) (seq : Z) :
  history_ok bs evs -> 1 <= seq <= contig_end 1 bs ->
  (seq <= written (wm (wm_history evs)) <->
   forall b, b ∈ bs -> first b <= seq -> b ∈ completions evs).
Proof.
  intros Hok Hseq. pose proof (history_inv _ _ Hok) as Hinv. destruct Hok as [Hc Hf Hk Ho].
  rewrite (written_frontier bs) by done. split; intros H b Hb Hle.
  - apply H in Hle as (c & Hcin & E)%completed_elem; [|done].
    by rewrite <- (contig_first_inj bs c b) by auto.
  - apply completed_elem. eauto.
Qed.

Definition demo_batches : list span := [mkSpan 1 3; mkSpan 4 4; mkSpan 5 9].
Definition demo_history : list wm_event :=
  [EvComplete (mkSpan 4 4) true; EvAwait 2; EvComplete (mkSpan 1 3) false].

Lemma watermark_frontier_witness :
  history_ok demo_batches demo_history /\
  (4 <= written (wm (wm_history demo_history)) <->
   forall b, b ∈ demo_batches -> first b <= 4 -> b ∈ completions demo_history).
Proof.
  assert (H : history_ok demo_batches demo_history).
  { constructor; [simpl; lia|done| |]; unfold demo_history, completions; simpl.
    - intros b [->|[->|Hb]%elem_of_cons]%elem_of_cons;
        [right; by left|by left|by apply not_elem_of_nil in Hb].
    - apply (bool_decide_unpack _). vm_compute. exact I. }
  split; [exact H|]. apply (watermark_frontier demo_batches); [exact H|vm_compute; intuition discriminate].
Defined.

(** At-least-once for an in-order worker: when batches complete in
    sequence order (one worker), [await] answers nil for [seq] only if every
    batch that starts at or below [seq] was written to every sink or its
    failure was already told to a waiter. *)
Theorem await_nil_in_order (bs : list span) (evs : list wm_event) (seq : Z) (w' : watermark) (b : span) :
  history_ok bs evs -> 1 <= seq <= contig_end 1 bs ->
  StronglySorted span_lt (completions evs) ->
  await seq (wm (wm_history evs)) = (AwaitNil, w') ->
  b ∈ bs -> first b <= seq ->
  EvComplete b true ∈ evs \/ b ∈ told (wm_history evs).
Proof.
  intros Hok Hseq Hs Haw Hb Hle.
  destruct (history_sorted _ Hs) as [Hsf _].
  pose proof (history_inv _ _ Hok) as Hinv. destruct Hok as [Hc Hf Hk Ho].
  destruct (await_cases _ _ _ _ Haw) as [(? & _)|(_ & -> & _ & Hw)]; [done|].
  specialize (Hw eq_refl). rewrite (written_frontier bs) in Hw by done.
  destruct (proj1 (completed_elem _ _) (Hw b Hb Hle)) as (c & Hcin & E).
  assert (c = b) as -> by (apply (contig_first_inj bs); auto).
  unfold completions in Hcin. apply list_elem_of_omap in Hcin as (e & He & Heq).
  destruct e as [c ok| |]; try done. injection Heq as ->.
  destruct (history_failed evs b ok He) as [?|[Hin|?]]; [by left| |by right].
  pose proof (await_nil_sorted _ _ _ Hsf Haw _ Hin). lia.
Qed.

Definition ordered_history : list wm_event :=
  [EvComplete (mkSpan 1 3) false; EvAwait 3; EvComplete (mkSpan 4 4) true].

Lemma await_nil_in_order_witness :
  await 4 (wm (wm_history ordered_history)) = (AwaitNil, wm (wm_history ordered_history)) /\
  (EvComplete (mkSpan 1 3) true ∈ ordered_history \/ mkSpan 1 3 ∈ told (wm_history ordered_history)).
Proof.
  split; [vm_compute; reflexivity|].
  apply (await_nil_in_order demo_batches ordered_history 4 (wm (wm_history ordered_history))).
  - constructor; [simpl; lia|done| |]; unfold ordered_history, completions; simpl.
    + intros b [->|[->|Hb]%elem_of_cons]%elem_of_cons;
        [by left|right; by left|by apply not_elem_of_nil in Hb].
    + apply (bool_decide_unpack _). vm_compute. exact I.
  - vm_compute. intuition discriminate.
  - repeat constructor.
  - vm_compute. reflexivity.
  - by left.
  - simpl. lia.
Defined.

(** The guarantee is lost when workers complete out of order: [await]
    looks only at the first entry of [failed], which holds failures in
    completion order. Here the second batch fails before the first one; a
    waiter for the first batch is then answered nil although that batch was
    rejected by a sink and no waiter was ever told. *)
Theorem await_misses_out_of_order_failure :
  exists (bs : list span) (evs : list wm_event) (b : span) (seq : Z),
    history_ok bs evs /\ b ∈ bs /\ first b <= seq <= last b /\
    (EvComplete b false ∈ evs) /\ (EvComplete b true ∉ evs) /\
    (b ∉ told (wm_history evs)) /\
    (await seq (wm (wm_history evs))).1 = AwaitNil.
Proof.
  exists [mkSpan 1 3; mkSpan 4 6],
    [EvComplete (mkSpan 4 6) false; EvComplete (mkSpan 1 3) false], (mkSpan 1 3), 3.
  split; [|split; [by left|split; [simpl; lia|split; [right; by left|]]]].
  - constructor; [simpl; lia|done| |]; unfold completions; simpl.
    + intros b [->|[->|Hb]%elem_of_cons]%elem_of_cons;
        [right; by left|by left|by apply not_elem_of_nil in Hb].
    + apply (bool_decide_unpack _). vm_compute. exact I.
  - split; [|split; [|reflexivity]]; apply (bool_decide_unpack _); vm_compute; exact I.
Qed.

(** A failure is reported once: when [await] answers ErrWriteFailed for
    [seq], some pending range starts at or below [seq]; afterwards none does,
    the ranges above [seq] are still pending in the same order, the watermark
    itself has not moved, and asking again for [seq] is not an error. *)
Theorem await_reports_once (seq : Z) (w w' : watermark) :
  await seq w = (AwaitErrWriteFailed, w') ->
  (exists f, f ∈ failed w /\ first f <= seq) /\
  failed w' = filter (fun f => seq < first f) (failed w) /\
  (forall f, f ∈ failed w' -> seq < first f) /\
  written w' = written w /\ done w' = done w /\
  (await seq w').1 <> AwaitErrWriteFailed.
Proof.
  intros E. destruct (await_written _ _ _ _ E) as [? ?].
  destruct (await_cases _ _ _ _ E) as [(_ & Hf & f0 & fs & E0 & Hle)|(? & _)]; [|done].
  assert (Hall : forall f, f ∈ failed w' -> seq < first f).
  { intros f. rewrite Hf. by intros [? _]%list_elem_of_filter. }
  split; [exists f0; rewrite E0; split; [by left|done]|].
  repeat split; try done.
  destruct (await seq w') as [r w''] eqn:E'. simpl.
  destruct (await_cases _ _ _ _ E') as [(_ & _ & g & gs & Eg & Hg)|(? & _)]; [|done].
  specialize (Hall g). rewrite Eg in Hall. specialize (Hall ltac:(by left)). lia.
Qed.

Definition demo_failed : watermark := mkWatermark 4 ∅ [mkSpan 1 3; mkSpan 9 9] 2 false.

Lemma await_reports_once_witness :
  let w' := mkWatermark 4 ∅ [mkSpan 9 9] 2 false in
  await 4 demo_failed = (AwaitErrWriteFailed, w') /\ (await 4 w').1 <> AwaitErrWriteFailed.
Proof.
  intros w'. assert (E : await 4 demo_failed = (AwaitErrWriteFailed, w')) by (vm_compute; reflexivity).
  split; [exact E|]. apply (await_reports_once 4 demo_failed w' E).
Defined.
