(* ===== verification/Pipeline.v ===== *)
(** * The ingest pipeline: [internal/pipeline/pipeline.go]

    A bounded buffer, a batcher and a pool of workers that fan each batch out
    to every sink. Every goroutine is cut at its synchronisation points
    (channel operations, the offer mutex, atomic loads and stores, sink
    returns), and [step] is the effect of one such segment; the interleavings
    of the program are the scripts of [step]. Fields under "history" are not
    in the program: they record what has happened so that properties can be
    stated. *)

From S2P Require Import Prelude GoTime Netip Flow Watermark.

(** ** Options and construction *)

Record Options := mkOptions {
  BufferSize : Z;
  BatchSize : Z;
  BatchInterval : Z;
  Workers : Z;
  WriteTimeout : Z
}.

(** One flush: the records and their sequence range. *)
Record batch := mkBatch { records : list FlowRecord; b_first : Z; b_last : Z }.

Definition batch_span (b : batch) : span := mkSpan (b_first b) (b_last b).

#[global] Instance batch_eq_dec : EqDecision batch.
Proof. solve_decision. Defined.

(** How an [Offer] call ends, once decided: with the sequence number of the
    record, or with one of the two drops of a push. *)
Inductive outcome := Ingested (seq : Z) | DroppedFull | DroppedShutdown.

(** An [Offer] call in progress: at the head of its loop (before the check of
    [closing]), past the check, for a pull source waiting for space, or about
    to count its outcome and return it. *)
Inductive offer_pc := AtHead | AtTry | AtWait | AtCount (c : outcome).
Record offer := mkOffer { pull : bool; source : string; rec : FlowRecord; pc : offer_pc }.

(** Where [Run] is: selecting, blocked handing a batch over (from the loop,
    from the drain, or the final flush), draining, waiting for the workers, or
    returned. *)
Inductive phase := Loop | LoopFlush | Drain | DrainFlush | FinalFlush | WaitWorkers | Returned.

#[global] Instance outcome_eq_dec : EqDecision outcome.
Proof. solve_decision. Defined.
#[global] Instance offer_pc_eq_dec : EqDecision offer_pc.
Proof. solve_decision. Defined.
#[global] Instance phase_eq_dec : EqDecision phase.
Proof. solve_decision. Defined.

Record Pipeline := mkPipeline {
  opts : Options;
  sinks : list string;
  buf : list FlowRecord;
  closing : bool;
  next : Z;
  space : bool;
  wmk : watermark;
  (* the goroutines *)
  offers : list offer;
  ph : phase;
  pending : list FlowRecord;
  taken : Z;
  bfirst : Z;
  workers : list (option batch);
  (* metrics *)
  ingested : Z;
  dropped_full : Z;
  dropped_shutdown : Z;
  buffer_length : Z;
  write_errors : gmap string Z;
  (* history *)
  offered : Z;
  refused : Z;
  accepted : list FlowRecord;
  handed : list batch;
  finished : list (batch * bool);
  results : list (batch * list bool);  (* of each finished batch, what each sink answered *)
  reported : list span
}.

Inductive NewError := InvalidOptions | NoSink.

Definition defaultWriteTimeout : Z := 30 * Second.

(** [New] validates the options; [Run] then starts [Workers] idle workers. *)
Definition New (o : Options) (ss : list string) : result NewError Pipeline :=
  if (BufferSize o <? 1) || (BatchSize o <? 1) || (BatchInterval o <=? 0) || (Workers o <? 1)
  then Err InvalidOptions
  else
    let o' := if WriteTimeout o <=? 0
              then mkOptions (BufferSize o) (BatchSize o) (BatchInterval o) (Workers o) defaultWriteTimeout
              else o in
    match ss with
    | [] => Err NoSink
    | _ => Ok (mkPipeline o' ss [] false 0 false wm_init
                 [] Loop [] 0 1 (replicate (Z.to_nat (Workers o')) None)
                 0 0 0 0 ∅ 0 0 [] [] [] [] [])
    end.

Definition pipeline_eta (p : Pipeline) : Pipeline :=
  mkPipeline (opts p) (sinks p) (buf p) (closing p) (next p) (space p) (wmk p) (offers p)
    (ph p) (pending p) (taken p) (bfirst p) (workers p) (ingested p) (dropped_full p)
    (dropped_shutdown p) (buffer_length p) (write_errors p) (offered p) (refused p)
    (accepted p) (handed p) (finished p) (results p) (reported p).

Definition set_buf v p : Pipeline := ltac:(set_field pipeline_eta p buf v).
Definition set_closing v p : Pipeline := ltac:(set_field pipeline_eta p closing v).
Definition set_next v p : Pipeline := ltac:(set_field pipeline_eta p next v).
Definition set_space v p : Pipeline := ltac:(set_field pipeline_eta p space v).
Definition set_wmk v p : Pipeline := ltac:(set_field pipeline_eta p wmk v).
Definition set_offers v p : Pipeline := ltac:(set_field pipeline_eta p offers v).
Definition set_ph v p : Pipeline := ltac:(set_field pipeline_eta p ph v).
Definition set_pending v p : Pipeline := ltac:(set_field pipeline_eta p pending v).
Definition set_taken v p : Pipeline := ltac:(set_field pipeline_eta p taken v).
Definition set_bfirst v p : Pipeline := ltac:(set_field pipeline_eta p bfirst v).
Definition set_workers v p : Pipeline := ltac:(set_field pipeline_eta p workers v).
Definition set_ingested v p : Pipeline := ltac:(set_field pipeline_eta p ingested v).
Definition set_dropped_full v p : Pipeline := ltac:(set_field pipeline_eta p dropped_full v).
Definition set_dropped_shutdown v p : Pipeline := ltac:(set_field pipeline_eta p dropped_shutdown v).
Definition set_buffer_length v p : Pipeline := ltac:(set_field pipeline_eta p buffer_length v).
Definition set_write_errors v p : Pipeline := ltac:(set_field pipeline_eta p write_errors v).
Definition set_offered v p : Pipeline := ltac:(set_field pipeline_eta p offered v).
Definition set_refused v p : Pipeline := ltac:(set_field pipeline_eta p refused v).
Definition set_accepted v p : Pipeline := ltac:(set_field pipeline_eta p accepted v).
Definition set_handed v p : Pipeline := ltac:(set_field pipeline_eta p handed v).
Definition set_finished v p : Pipeline := ltac:(set_field pipeline_eta p finished v).
Definition set_results v p : Pipeline := ltac:(set_field pipeline_eta p results v).
Definition set_reported v p : Pipeline := ltac:(set_field pipeline_eta p reported v).

(** ** Offering *)

(** The one non-blocking send, under [offerMu]: the sequence number and
    whether there was room. *)
Definition tryOffer (r : FlowRecord) (p : Pipeline) : Z * bool * Pipeline :=
  if Z.of_nat (length (buf p)) <? BufferSize (opts p) then
    let n := u64 (next p + 1) in
    (n, true,
     set_buf (buf p ++ [r]) (set_next n
       (set_buffer_length (Z.of_nat (length (buf p ++ [r])))
          (set_accepted (accepted p ++ [r]) p))))
  else (0, false, p).

Definition drop_offer (i : nat) (p : Pipeline) : Pipeline :=
  set_offers (delete i (offers p)) p.
Definition move_offer (i : nat) (c : offer_pc) (o : offer) (p : Pipeline) : Pipeline :=
  set_offers (<[i := mkOffer (pull o) (source o) (rec o) c]> (offers p)) p.

(** A source calls [Pipeline.Offer] ([pull = false]) or [intake.Offer]. *)
Definition offer_start (pl : bool) (src : string) (r : FlowRecord) (p : Pipeline) : Pipeline :=
  set_offered (offered p + 1) (set_offers (offers p ++ [mkOffer pl src r AtHead]) p).

(** [closing.Load()]: a push is dropped, a pull gets an error. *)
Definition offer_check (i : nat) (p : Pipeline) : option Pipeline :=
  match offers p !! i with
  | Some o =>
    match pc o with
    | AtHead =>
      Some (if closing p then
              if pull o then set_refused (refused p + 1) (drop_offer i p)
              else move_offer i (AtCount DroppedShutdown) o p
            else move_offer i AtTry o p)
    | _ => None
    end
  | None => None
  end.

(** [tryOffer] and what each caller does with its answer. *)
Definition offer_try (i : nat) (p : Pipeline) : option Pipeline :=
  match offers p !! i with
  | Some o =>
    match pc o with
    | AtTry =>
      let '(seq, ok, p1) := tryOffer (rec o) p in
      Some (if ok then move_offer i (AtCount (Ingested seq)) o p1
            else if pull o then move_offer i AtWait o p1
            else move_offer i (AtCount DroppedFull) o p1)
    | _ => None
    end
  | None => None
  end.

(** The increment of the outcome's counter, outside [offerMu], and the return. *)
Definition offer_count (i : nat) (p : Pipeline) : option Pipeline :=
  match offers p !! i with
  | Some o =>
    match pc o with
    | AtCount (Ingested _) => Some (set_ingested (ingested p + 1) (drop_offer i p))
    | AtCount DroppedFull => Some (set_dropped_full (dropped_full p + 1) (drop_offer i p))
    | AtCount DroppedShutdown => Some (set_dropped_shutdown (dropped_shutdown p + 1) (drop_offer i p))
    | _ => None
    end
  | None => None
  end.

(** The select of [intake.Offer]: the batcher's signal, or the context. *)
Definition offer_wake (i : nat) (p : Pipeline) : option Pipeline :=
  match offers p !! i with
  | Some o =>
    match pc o with
    | AtWait => if space p then Some (set_space false (move_offer i AtHead o p)) else None
    | _ => None
    end
  | None => None
  end.

Definition offer_cancel (i : nat) (p : Pipeline) : option Pipeline :=
  match offers p !! i with
  | Some o =>
    match pc o with
    | AtWait => Some (set_refused (refused p + 1) (drop_offer i p))
    | _ => None
    end
  | None => None
  end.

(** ** The batcher *)

(** [take]: count, append, signal space without blocking. *)
Definition take (r : FlowRecord) (p : Pipeline) : Pipeline :=
  set_taken (u64 (taken p + 1)) (set_pending (pending p ++ [r]) (set_space true p)).

Definition full_batch (p : Pipeline) : bool :=
  BatchSize (opts p) <=? Z.of_nat (length (pending p)).

(** [case rec := <-p.buf], in the select loop and in the drain loop. *)
Definition batcher_take (p : Pipeline) : option Pipeline :=
  match buf p, ph p with
  | r :: rest, Loop =>
    let p1 := take r (set_buffer_length (Z.of_nat (length rest)) (set_buf rest p)) in
    Some (if full_batch p1 then set_ph LoopFlush p1 else p1)
  | r :: rest, Drain =>
    let p1 := take r (set_buf rest p) in
    Some (if full_batch p1 then set_ph DrainFlush p1 else p1)
  | _, _ => None
  end.

(** [case <-timer.C]: flush, which does nothing when [pending] is empty. *)
Definition batcher_timer (p : Pipeline) : option Pipeline :=
  match ph p with
  | Loop => Some (match pending p with [] => p | _ => set_ph LoopFlush p end)
  | _ => None
  end.

(** [case <-ctx.Done()], then [closing.Store(true)]. *)
Definition batcher_done (p : Pipeline) : option Pipeline :=
  match ph p with
  | Loop => Some (set_closing true (set_ph Drain p))
  | _ => None
  end.

(** The drain's default branch, and the final flush when it has nothing to do:
    the buffer gauge is reset and [batches] is closed. *)
Definition batcher_drained (p : Pipeline) : option Pipeline :=
  match ph p, buf p with
  | Drain, [] =>
    Some (match pending p with
          | [] => set_buffer_length 0 (set_ph WaitWorkers p)
          | _ => set_ph FinalFlush p
          end)
  | _, _ => None
  end.

(** [batches <- batch{...}] completes when worker [i] receives. *)
Definition flush (i : nat) (p : Pipeline) : option Pipeline :=
  match workers p !! i with
  | Some None =>
    let b := mkBatch (pending p) (bfirst p) (taken p) in
    let p1 := set_handed (handed p ++ [b])
                (set_pending [] (set_bfirst (u64 (taken p + 1))
                   (set_workers (<[i := Some b]> (workers p)) p))) in
    match ph p with
    | LoopFlush => Some (set_ph Loop p1)
    | DrainFlush => Some (set_ph Drain p1)
    | FinalFlush => Some (set_buffer_length 0 (set_ph WaitWorkers p1))
    | _ => None
    end
  | _ => None
  end.

(** [workers.Wait()], [p.wm.close()]. *)
Definition batcher_return (p : Pipeline) : option Pipeline :=
  match ph p with
  | WaitWorkers =>
    if forallb (fun w => match w with None => true | Some _ => false end) (workers p)
    then Some (set_ph Returned (set_wmk (close (wmk p)) p)) else None
  | _ => None
  end.

(** ** The workers *)

(** [write]: one result per sink. The batch counts as written only when every
    sink accepted it; each rejection is counted on its own sink. *)
Definition write_ok (outs : list bool) : bool :=
  let succeeded := Z.of_nat (length (filter (fun o => o = true) outs)) in
  if succeeded =? 0 then false else succeeded =? Z.of_nat (length outs).

Definition count_errors (ss : list string) (outs : list bool) (m : gmap string Z) : gmap string Z :=
  foldl (fun m (so : string * bool) =>
           if so.2 then m else <[so.1 := default 0 (m !! so.1) + 1]> m) m (zip ss outs).

(** Worker [i] returns from [write] with the sinks' results and completes the
    batch on the watermark. *)
Definition worker_done (i : nat) (outs : list bool) (p : Pipeline) : option Pipeline :=
  match workers p !! i with
  | Some (Some b) =>
    if decide (length outs = length (sinks p)) then
      let ok := write_ok outs in
      Some (set_finished (finished p ++ [(b, ok)]) (set_results (results p ++ [(b, outs)])
        (set_wmk (complete (b_first b) (b_last b) ok (wmk p))
          (set_write_errors (count_errors (sinks p) outs (write_errors p))
            (set_workers (<[i := None]> (workers p)) p)))))
    else None
  | _ => None
  end.

(** [intake.Written]: one iteration of the watermark wait. *)
Definition Written (seq : Z) (p : Pipeline) : await_result * Pipeline :=
  let '(r, w') := await seq (wmk p) in
  (r, set_wmk w' (match r with
                  | AwaitErrWriteFailed =>
                    set_reported (reported p ++ filter (fun f => first f <= seq) (failed (wmk p))) p
                  | _ => p
                  end)).

(** ** The transition system *)

Inductive action :=
| AOffer (pl : bool) (src : string) (r : FlowRecord)
| ACheck (i : nat)
| ATry (i : nat)
| ACount (i : nat)
| AWake (i : nat)
| ACancel (i : nat)
| ATake
| ATimer
| ADone
| ADrained
| AFlush (i : nat)
| AReturn
| AWorker (i : nat) (outs : list bool)
| AWritten (seq : Z).

Definition step (a : action) (p : Pipeline) : option Pipeline :=
  match a with
  | AOffer pl src r => Some (offer_start pl src r p)
  | ACheck i => offer_check i p
  | ATry i => offer_try i p
  | ACount i => offer_count i p
  | AWake i => offer_wake i p
  | ACancel i => offer_cancel i p
  | ATake => batcher_take p
  | ATimer => batcher_timer p
  | ADone => batcher_done p
  | ADrained => batcher_drained p
  | AFlush i => flush i p
  | AReturn => batcher_return p
  | AWorker i outs => worker_done i outs p
  | AWritten seq => Some (Written seq p).2
  end.

Definition reachable (o : Options) (ss : list string) (p : Pipeline) : Prop :=
  exists p0, New o ss = Ok p0 /\ star (steps_to step) p0 p.
