(* ===== verification/PipelineFacts.v ===== *)
(** * Invariants of the pipeline

    The three invariants every property of the pipeline is derived from:
    order and numbering of records ([order_inv]), the correspondence of
    workers, outcomes and watermark ([work_inv]), and the accounting of
    offers ([count_inv]). *)

From S2P Require Import Prelude GoTime Netip Flow Watermark Pipeline.

(** ** Order and numbering *)

Definition flat (p : Pipeline) : list FlowRecord := concat (records <$> handed p).

Abbreviation len l := (Z.of_nat (length l)).

Definition batch_sized (o : Options) (b : batch) : Prop :=
  b_last b = b_first b + len (records b) - 1 /\ 1 <= len (records b) <= BatchSize o.

Definition pending_ok (p : Pipeline) : Prop :=
  match ph p with
  | Loop | Drain => len (pending p) < BatchSize (opts p)
  | LoopFlush | DrainFlush | FinalFlush => 1 <= len (pending p) <= BatchSize (opts p)
  | WaitWorkers | Returned => pending p = []
  end.

Definition is_closing (x : phase) : bool :=
  match x with Loop | LoopFlush => false | _ => true end.

Record order_inv (p : Pipeline) : Prop := {
  oi_split : accepted p = flat p ++ pending p ++ buf p;
  oi_next : next p = len (accepted p);
  oi_taken : taken p = len (flat p) + len (pending p);
  oi_first : bfirst p = len (flat p) + 1;
  oi_contig : contig 1 (batch_span <$> handed p);
  oi_end : contig_end 1 (batch_span <$> handed p) = len (flat p);
  oi_sizes : Forall (batch_sized (opts p)) (handed p);
  oi_buf : len (buf p) <= BufferSize (opts p);
  oi_pending : pending_ok p;
  oi_closing : closing p = is_closing (ph p);
  oi_opts : 1 <= BufferSize (opts p) /\ 1 <= BatchSize (opts p)
}.

(** Fewer than [2^64 - 1] records have been accepted: at one per nanosecond,
    five centuries of operation. *)
Definition fits (p : Pipeline) : Prop := len (accepted p) < 2 ^ 64 - 1.

Ltac pipe_simpl := cbn [opts sinks buf closing next space wmk offers ph pending taken bfirst workers
  ingested dropped_full dropped_shutdown buffer_length write_errors offered refused accepted handed
  finished results reported fst snd
  set_buf set_closing set_next set_space set_wmk set_offers set_ph set_pending set_taken set_bfirst
  set_workers set_ingested set_dropped_full set_dropped_shutdown set_buffer_length set_write_errors
  set_offered set_refused set_accepted set_handed set_finished set_results set_reported] in *.

(** [step_cases H] opens a transition into its branches. *)
Ltac step_cases H :=
  unfold step, offer_start, offer_check, offer_try, offer_count, offer_wake, offer_cancel, batcher_take,
    batcher_timer, batcher_done, batcher_drained, flush, batcher_return, worker_done, Written,
    tryOffer, drop_offer, move_offer, take in H;
  repeat (pipe_simpl; case_match; simplify_eq/=); pipe_simpl; simplify_eq/=.

Lemma accepted_mono a p p' : step a p = Some p' -> len (accepted p) <= len (accepted p').
Proof. destruct a; intros H; step_cases H; rewrite ?length_app; lia. Qed.

Lemma fits_back a p p' : step a p = Some p' -> fits p' -> fits p.
Proof. intros H%accepted_mono. unfold fits. lia. Qed.

Lemma step_opts a p p' : step a p = Some p' -> opts p' = opts p /\ sinks p' = sinks p.
Proof. destruct a; intros H; step_cases H; done. Qed.

(** Steps that touch none of the fields of [order_inv]. *)
Lemma order_inv_ext p p' :
  opts p' = opts p -> buf p' = buf p -> closing p' = closing p -> next p' = next p ->
  ph p' = ph p -> pending p' = pending p -> taken p' = taken p -> bfirst p' = bfirst p ->
  accepted p' = accepted p -> handed p' = handed p -> order_inv p -> order_inv p'.
Proof.
  intros E1 E2 E3 E4 E5 E6 E7 E8 E9 E10 [].
  constructor; unfold flat, pending_ok in *; rewrite ?E1, ?E2, ?E3, ?E4, ?E5, ?E6, ?E7, ?E8, ?E9, ?E10;
    done.
Qed.

Lemma New_order o ss p : New o ss = Ok p -> order_inv p.
Proof.
  unfold New. destruct (_ || _ || _ || _) eqn:E; [done|].
  destruct ss; [done|]. intros [= <-].
  apply orb_false_iff in E as [[[E1 E2]%orb_false_iff _]%orb_false_iff _].
  apply Z.ltb_ge in E1, E2.
  destruct (WriteTimeout o <=? 0); constructor; unfold pending_ok; simpl; try done; lia.
Qed.

Lemma tryOffer_order r p n p' :
  order_inv p -> fits p' -> tryOffer r p = (n, true, p') -> order_inv p' /\ n = len (accepted p').
Proof.
  intros [] Hf. unfold tryOffer. destruct (_ <? _) eqn:E; [|done]. intros [= <- <-].
  unfold fits in Hf; simpl in Hf. rewrite length_app in Hf; simpl in Hf.
  rewrite oi_next0, wrap_u_small by (unfold is_uint; lia).
  split; [|simpl; rewrite length_app; simpl; lia].
  constructor; pipe_simpl; try done.
  - unfold flat in *; pipe_simpl. by rewrite oi_split0, <- !app_assoc.
  - rewrite length_app; simpl; lia.
  - rewrite length_app; simpl; lia.
Qed.

(** Taking one record from the head of the buffer into [pending]. *)
Lemma take_order r rest ph' p p' :
  order_inv p -> fits p -> buf p = r :: rest ->
  (ph p = Loop /\ ph' = LoopFlush) \/ (ph p = Drain /\ ph' = DrainFlush) ->
  opts p' = opts p -> buf p' = rest -> closing p' = closing p -> next p' = next p ->
  ph p' = (if BatchSize (opts p) <=? len (pending p ++ [r]) then ph' else ph p) ->
  pending p' = pending p ++ [r] -> taken p' = u64 (taken p + 1) -> bfirst p' = bfirst p ->
  accepted p' = accepted p -> handed p' = handed p -> order_inv p'.
Proof.
  intros [] Hf Hb Hph E1 E2 E3 E4 E5 E6 E7 E8 E9 E10.
  unfold fits in Hf. rewrite oi_split0, Hb, !length_app in Hf. simpl in Hf.
  assert (Hfl : flat p' = flat p) by (unfold flat; by rewrite E10).
  constructor; rewrite ?E1, ?E2, ?E3, ?E4, ?E6, ?E7, ?E8, ?E9, ?E10, ?Hfl; try done.
  - rewrite oi_split0, Hb, <- !app_assoc. done.
  - rewrite wrap_u_small by (unfold is_uint; lia). rewrite length_app. simpl. lia.
  - rewrite Hb in oi_buf0. simpl in oi_buf0. lia.
  - assert (Hl : len (pending p ++ [r]) = len (pending p) + 1) by (rewrite length_app; simpl; lia).
    unfold pending_ok in *. rewrite E1, E5, E6, Hl.
    destruct Hph as [[Hp ->]|[Hp ->]]; rewrite Hp in oi_pending0 |- *;
      destruct (BatchSize (opts p) <=? len (pending p) + 1) eqn:Es; lia.
  - rewrite E5, oi_closing0. destruct Hph as [[Hp ->]|[Hp ->]]; rewrite Hp; by case_match.
Qed.

Lemma flat_snoc hs b : concat (records <$> hs ++ [b]) = concat (records <$> hs) ++ records b.
Proof. rewrite fmap_app, concat_app. simpl. by rewrite app_nil_r. Qed.

(** Handing [pending] over as one batch. *)
Lemma flush_order i p p' : order_inv p -> fits p -> flush i p = Some p' -> order_inv p'.
Proof.
  intros [] Hf H. unfold fits in Hf. rewrite oi_split0, !length_app in Hf.
  unfold flush in H. destruct (workers p !! i) as [[|]|]; try done.
  set (b := mkBatch (pending p) (bfirst p) (taken p)) in *.
  assert (Hpend : 1 <= len (pending p) <= BatchSize (opts p) /\ is_closing (ph p) = closing p)
    by (unfold pending_ok in *; split; [|by rewrite oi_closing0]; by destruct (ph p)).
  assert (Hnew : contig 1 (batch_span <$> handed p ++ [b]) /\
                 contig_end 1 (batch_span <$> handed p ++ [b]) = len (flat p ++ pending p) /\
                 Forall (batch_sized (opts p)) (handed p ++ [b])).
  { rewrite fmap_app, contig_app, contig_end_app, oi_end0, length_app, Forall_app.
    unfold batch_sized; subst b; simpl. repeat split; try done; try lia.
    repeat constructor; simpl; lia. }
  destruct Hnew as (H1 & H2 & H3). destruct Hpend as [Hpend Hcl].
  assert (Hu : u64 (taken p + 1) = len (flat p ++ pending p) + 1)
    by (rewrite wrap_u_small, oi_taken0, length_app by (unfold is_uint; lia); lia).
  destruct (ph p) eqn:Eph; try done; injection H as <-;
    constructor; unfold flat, pending_ok in *; pipe_simpl; rewrite ?flat_snoc; try done; try lia;
    subst b; simpl; rewrite ?length_app; simpl; try lia; rewrite ?app_nil_l, <- ?app_assoc; done.
Qed.

Lemma order_step a p p' : order_inv p -> fits p' -> step a p = Some p' -> order_inv p'.
Proof.
  intros Hi Hf' H. pose proof (fits_back _ _ _ H Hf') as Hf.
  destruct a as [pl src r|i|i|i|i|i| | | | |i| |i outs|seq]; simpl in H.
  - injection H as <-. by apply (order_inv_ext p).
  - unfold offer_check in H. repeat case_match; simplify_eq; by apply (order_inv_ext p).
  - unfold offer_try in H. destruct (offers p !! i) as [o|]; [|done]. destruct (pc o); try done.
    destruct (tryOffer (rec o) p) as [[n ok] p1] eqn:E. destruct ok.
    + injection H as <-. apply (order_inv_ext p1); try done.
      eapply tryOffer_order; [exact Hi|exact Hf'|exact E].
    + assert (p1 = p) as -> by (unfold tryOffer in E; destruct (_ <? BufferSize _); congruence).
      destruct (pull o); injection H as <-; by apply (order_inv_ext p).
  - unfold offer_count in H. repeat case_match; simplify_eq; by apply (order_inv_ext p).
  - unfold offer_wake in H. repeat case_match; simplify_eq; by apply (order_inv_ext p).
  - unfold offer_cancel in H. repeat case_match; simplify_eq; by apply (order_inv_ext p).
  - unfold batcher_take in H. destruct (buf p) as [|r rest] eqn:Eb; [done|].
    destruct (ph p) eqn:Eph; try done; injection H as <-; clear Hf';
      [eapply (take_order r rest LoopFlush)|eapply (take_order r rest DrainFlush)]; eauto;
      unfold full_batch, take; pipe_simpl; rewrite ?Eph; case_match; done.
  - unfold batcher_timer in H. destruct (ph p) eqn:Eph; try done.
    destruct (pending p) as [|r l] eqn:Ep; injection H as <-; [done|].
    destruct Hi. constructor; unfold flat, pending_ok in *; pipe_simpl; try done.
    + rewrite Eph, Ep in *. simpl in *. lia.
    + by rewrite oi_closing0, Eph.
  - unfold batcher_done in H. destruct (ph p) eqn:Eph; try done. injection H as <-.
    destruct Hi. constructor; unfold flat, pending_ok in *; pipe_simpl; rewrite ?Eph in *; done.
  - unfold batcher_drained in H. destruct (ph p) eqn:Eph; try done.
    destruct (buf p) eqn:Eb; [|done]. destruct (pending p) eqn:Ep; injection H as <-;
    destruct Hi; constructor; unfold flat, pending_ok in *; pipe_simpl;
      rewrite ?Eph, ?Ep, ?Eb in *; try done. simpl in *. lia.
  - by apply (flush_order i p).
  - unfold batcher_return in H. destruct (ph p) eqn:Eph; try done. case_match; [|done].
    injection H as <-. destruct Hi.
    constructor; unfold flat, pending_ok in *; pipe_simpl; rewrite ?Eph in *; done.
  - unfold worker_done in H. repeat case_match; simplify_eq; by apply (order_inv_ext p).
  - injection H as <-. unfold Written. destruct (await seq (wmk p)) as [r w'].
    destruct r; by apply (order_inv_ext p).
Qed.

(** ** Workers, outcomes and the watermark *)

Definition busy (p : Pipeline) : list batch := omap id (workers p).
Definition fin_batches (p : Pipeline) : list batch := (finished p).*1.
Definition fin_set (p : Pipeline) : gset Z := list_to_set (b_first <$> fin_batches p).
Definition spans (p : Pipeline) : list span := batch_span <$> handed p.

Record work_inv (p : Pipeline) : Prop := {
  wk_len : length (workers p) = Z.to_nat (Workers (opts p));
  wk_handed : handed p ≡ₚ busy p ++ fin_batches p;
  wk_wm : wm_inv (spans p) (fin_set p) (wmk p);
  wk_failed : forall b, (b, false) ∈ finished p ->
    batch_span b ∈ failed (wmk p) \/ batch_span b ∈ reported p;
  wk_failed_sub : forall f, f ∈ failed (wmk p) -> exists b, (b, false) ∈ finished p /\ f = batch_span b;
  wk_returned : ph p = Returned -> busy p = [];
  wk_sinks : sinks p <> []
}.

Lemma omap_id_insert {A} (ws : list (option A)) i x y :
  ws !! i = Some x ->
  omap id ws ++ option_list y ≡ₚ omap id (<[i := y]> ws) ++ option_list x.
Proof.
  intros H. rewrite <- (take_drop_middle ws i x H) at 1.
  rewrite insert_take_drop by (by eapply lookup_lt_Some).
  rewrite !omap_app. simpl. destruct x, y; simpl; rewrite ?app_nil_r; try done.
  all: rewrite <- ?app_assoc; simpl; solve_Permutation.
Qed.

Lemma busy_start p i b :
  workers p !! i = Some None -> omap id (<[i := Some b]> (workers p)) ≡ₚ b :: busy p.
Proof.
  intros H. pose proof (omap_id_insert _ _ _ (Some b) H) as E. simpl in E.
  rewrite app_nil_r in E. rewrite <- E. by rewrite Permutation_app_comm.
Qed.

Lemma busy_stop p i b :
  workers p !! i = Some (Some b) -> busy p ≡ₚ b :: omap id (<[i := None]> (workers p)).
Proof.
  intros H. pose proof (omap_id_insert _ _ _ None H) as E. simpl in E.
  rewrite app_nil_r in E. unfold busy. rewrite E. by rewrite Permutation_app_comm.
Qed.

Lemma contig_NoDup s bs : contig s bs -> NoDup (first <$> bs).
Proof.
  revert s. induction bs as [|b bs IH]; intros s; simpl; [constructor|].
  intros (? & ? & H). constructor; [|by eapply IH].
  intros (c & E & Hc)%list_elem_of_fmap. pose proof (contig_bounds _ _ _ H Hc). lia.
Qed.

Lemma firsts_NoDup p : order_inv p -> NoDup (b_first <$> handed p).
Proof.
  intros [? ? ? ? Hc]. apply contig_NoDup in Hc. rewrite <- list_fmap_compose in Hc. exact Hc.
Qed.

Lemma order_seqs_fit p : order_inv p -> fits p -> seqs_fit (spans p).
Proof.
  intros [] Hf. unfold fits, seqs_fit, spans in *. rewrite oi_end0.
  rewrite oi_split0, !length_app in Hf. lia.
Qed.

Lemma fin_set_handed p f : work_inv p -> f ∈ fin_set p -> exists c, c ∈ spans p /\ first c = f.
Proof.
  intros Hw. unfold fin_set. rewrite elem_of_list_to_set, list_elem_of_fmap.
  intros (b & -> & Hb). exists (batch_span b). split; [|done].
  apply list_elem_of_fmap. exists b. split; [done|].
  rewrite (wk_handed p Hw). apply elem_of_app. by right.
Qed.

(** Steps that touch none of the fields of [work_inv]. *)
Lemma work_inv_ext p p' :
  opts p' = opts p -> sinks p' = sinks p -> wmk p' = wmk p -> workers p' = workers p ->
  handed p' = handed p -> finished p' = finished p -> reported p' = reported p ->
  (ph p' = Returned -> ph p = Returned) -> work_inv p -> work_inv p'.
Proof.
  intros E1 E2 E3 E4 E5 E6 E7 E8 [].
  constructor; unfold busy, spans, fin_set, fin_batches in *;
    rewrite ?E1, ?E2, ?E3, ?E4, ?E5, ?E6, ?E7; auto.
Qed.

Lemma omap_id_idle n : omap id (replicate n (@None batch)) = [].
Proof. by induction n. Qed.

Lemma New_work o ss p : New o ss = Ok p -> work_inv p.
Proof.
  unfold New. destruct (_ || _ || _ || _); [done|]. destruct ss as [|s ss]; [done|].
  intros [= <-].
  constructor; unfold busy, spans, fin_set, fin_batches; simpl; rewrite ?omap_id_idle; try done.
  - by rewrite length_replicate.
  - by apply wm_init_inv.
  - by intros b ?%not_elem_of_nil.
  - by intros b ?%not_elem_of_nil.
Qed.

Lemma flush_work i p p' :
  order_inv p' -> work_inv p -> flush i p = Some p' -> work_inv p'.
Proof.
  intros Ho Hw H. pose proof Hw as [W1 W2 W3 W4 W5 W6 W7].
  pose proof (fun f => fin_set_handed p f Hw) as Hfs.
  unfold flush in H. destruct (workers p !! i) as [[|]|] eqn:Ei; try done.
  set (b := mkBatch (pending p) (bfirst p) (taken p)) in *.
  assert (handed p' = handed p ++ [b] /\ workers p' = <[i := Some b]> (workers p) /\
          opts p' = opts p /\ sinks p' = sinks p /\ wmk p' = wmk p /\ finished p' = finished p /\
          reported p' = reported p /\ ph p' <> Returned) as (E1 & E2 & E3 & E4 & E5 & E6 & E7 & E8)
    by (destruct (ph p); try done; by injection H as <-).
  pose proof (oi_contig p' Ho) as Hc. clear H.
  constructor; unfold busy, spans, fin_set, fin_batches in *; rewrite ?E1, ?E2, ?E3, ?E4, ?E5, ?E6, ?E7;
    try done.
  - by rewrite length_insert.
  - rewrite busy_start by done. rewrite W2. unfold busy, fin_batches. solve_Permutation.
  - rewrite fmap_app. apply wm_inv_grow; try done. rewrite E1, fmap_app in Hc. done.
Qed.

Lemma worker_work i outs p p' :
  order_inv p -> fits p -> work_inv p -> worker_done i outs p = Some p' -> work_inv p'.
Proof.
  intros Ho Hf Hw H. pose proof Hw as [W1 W2 W3 W4 W5 W6 W7].
  unfold worker_done in H. destruct (workers p !! i) as [[b|]|] eqn:Ei; try done.
  destruct (decide _) as [_|]; [|done]. injection H as <-. set (ok := write_ok outs).
  pose proof (busy_stop p i b Ei) as Hb.
  assert (Hbh : b ∈ handed p) by (rewrite W2, Hb; by left).
  assert (Hnf : b_first b ∉ fin_set p).
  { unfold fin_set. rewrite elem_of_list_to_set. intros Hin.
    pose proof (firsts_NoDup p Ho) as Hnd. rewrite W2, Hb, fmap_app in Hnd. simpl in Hnd.
    apply NoDup_cons in Hnd as [Hnd _]. apply Hnd, elem_of_app. by right. }
  assert (Hfail : forall w, failed (complete (b_first b) (b_last b) ok w) =
                  if ok then failed w else failed w ++ [batch_span b]).
  { intros w. unfold complete. by destruct (advance _ _ _). }
  constructor; unfold busy, spans, fin_set, fin_batches in *; pipe_simpl; try done.
  - by rewrite length_insert.
  - rewrite W2, Hb, fmap_app. simpl. solve_Permutation.
  - rewrite !fmap_app, list_to_set_app_L. simpl. rewrite union_empty_r_L, union_comm_L.
    apply (complete_inv _ (oi_contig p Ho) (order_seqs_fit p Ho Hf) _ _ (batch_span b)); try done.
    + apply list_elem_of_fmap. eauto.
    + intros f Hfin. by apply (fin_set_handed p).
  - intros c [Hc|Hc]%elem_of_app; rewrite Hfail.
    + destruct (W4 c Hc); [left|by right]. destruct ok; [done|]. apply elem_of_app. by left.
    + apply list_elem_of_singleton in Hc. injection Hc as -> E. rewrite <- E. left.
      apply elem_of_app. right. by left.
  - intros f. rewrite Hfail. destruct ok eqn:Eok.
    + intros Hfin. destruct (W5 f Hfin) as (c & ? & ?). exists c. split; [|done].
      apply elem_of_app. by left.
    + intros [Hfin|Hfin]%elem_of_app.
      * destruct (W5 f Hfin) as (c & ? & ?). exists c. split; [|done]. apply elem_of_app. by left.
      * apply list_elem_of_singleton in Hfin as ->. exists b. split; [|done].
        apply elem_of_app. right. by left.
  - intros Hr. specialize (W6 Hr). rewrite W6 in Hb. by apply Permutation_nil_cons in Hb.
Qed.

Lemma written_work seq p : work_inv p -> work_inv (Written seq p).2.
Proof.
  intros [W1 W2 W3 W4 W5 W6 W7]. unfold Written. destruct (await seq (wmk p)) as [r w'] eqn:E.
  destruct (await_written _ _ _ _ E) as [Ew Ed].
  assert (Hwm : wm_inv (spans p) (fin_set p) w').
  { destruct W3 as [I1 I2 I3 I4]. constructor; rewrite ?Ew, ?Ed; done. }
  destruct (await_cases _ _ _ _ E) as [(-> & Hf & _)|(Hr & -> & _)].
  - constructor; unfold busy, spans, fin_set, fin_batches in *; pipe_simpl; try done.
    + intros b Hb. rewrite Hf, elem_of_app, !list_elem_of_filter.
      destruct (W4 b Hb); [|tauto]. destruct (decide (first (batch_span b) <= seq)); [tauto|].
      left. split; [lia|done].
    + intros f. rewrite Hf. intros [_ Hin]%list_elem_of_filter. eauto.
  - assert (work_inv p) by (by constructor).
    destruct r; try done; by apply (work_inv_ext p).
Qed.

Lemma work_step a p p' :
  order_inv p -> fits p' -> work_inv p -> step a p = Some p' -> work_inv p'.
Proof.
  intros Ho Hf' Hw H. pose proof (fits_back _ _ _ H Hf') as Hf.
  pose proof (order_step _ _ _ Ho Hf' H) as Ho'.
  destruct a as [pl src r|i|i|i|i|i| | | | |i| |i outs|seq]; simpl in H.
  11: by apply (flush_work i p).
  12: by apply (worker_work i outs p).
  12: injection H as <-; by apply written_work.
  11: { unfold batcher_return in H. destruct (ph p); try done. destruct (forallb _ _) eqn:E; [|done].
        injection H as <-. destruct Hw as [W1 W2 W3 W4 W5 W6 W7]. destruct W3 as [I1 I2 I3 I4].
        constructor; pipe_simpl; try done. intros _. unfold busy; pipe_simpl.
        revert E. generalize (workers p) as ws. induction ws as [|[|] ws IH]; simpl; done. }
  all: clear Hf' Ho'; unfold offer_start, offer_check, offer_try, offer_count, tryOffer, offer_wake, offer_cancel,
       batcher_take, batcher_timer, batcher_done, batcher_drained in H;
    repeat case_match; simplify_eq; try done;
    match goal with Hq : work_inv ?q |- _ => apply (work_inv_ext q) end; try done; congruence.
Qed.

(** ** What the sinks answered *)

Record results_inv (p : Pipeline) : Prop := {
  ri_finished : finished p = (fun x : batch * list bool => (x.1, write_ok x.2)) <$> results p;
  ri_sinks : Forall (fun x : batch * list bool => length x.2 = length (sinks p)) (results p)
}.

Lemma results_step a p p' : results_inv p -> step a p = Some p' -> results_inv p'.
Proof.
  intros [R1 R2] H. destruct a; step_cases H; try (by constructor). constructor; pipe_simpl.
  - by rewrite R1, fmap_app.
  - apply Forall_app. split; [done|]. by apply Forall_singleton.
Qed.

(** ** Accounting of offers *)

(** The calls whose record is in the buffer and not yet counted. *)
Definition to_count (o : offer) : bool := match pc o with AtCount (Ingested _) => true | _ => false end.
Definition uncounted (l : list offer) : Z := len (List.filter to_count l).

Lemma uncounted_cons x l : uncounted (x :: l) = Z.b2z (to_count x) + uncounted l.
Proof. unfold uncounted. cbn [List.filter]. destruct (to_count x); cbn [length Z.b2z]; lia. Qed.

Lemma uncounted_delete l i o : l !! i = Some o -> uncounted (delete i l) = uncounted l - Z.b2z (to_count o).
Proof.
  revert i. induction l as [|x l IH]; intros [|i] H; try done.
  - injection H as ->. change (delete 0%nat (o :: l)) with l. rewrite uncounted_cons. lia.
  - change (delete (S i) (x :: l)) with (x :: delete i l). rewrite !uncounted_cons, (IH i H). lia.
Qed.

Lemma uncounted_insert l i o o' :
  l !! i = Some o -> uncounted (<[i := o']> l) = uncounted l - Z.b2z (to_count o) + Z.b2z (to_count o').
Proof.
  revert i. induction l as [|x l IH]; intros [|i] H; try done.
  - injection H as ->. change (<[0%nat := o']> (o :: l)) with (o' :: l). rewrite !uncounted_cons. lia.
  - change (<[S i := o']> (x :: l)) with (x :: <[i := o']> l). rewrite !uncounted_cons, (IH i H). lia.
Qed.

Lemma uncounted_snoc l o : uncounted (l ++ [o]) = uncounted l + Z.b2z (to_count o).
Proof. induction l as [|x l IH]; cbn [app]; rewrite !uncounted_cons, ?IH; cbn; lia. Qed.

Record count_inv (p : Pipeline) : Prop := {
  ci_offered : offered p =
    ingested p + dropped_full p + dropped_shutdown p + refused p + len (offers p);
  ci_ingested : ingested p + uncounted (offers p) = len (accepted p);
  ci_pos : 0 <= dropped_full p /\ 0 <= dropped_shutdown p /\ 0 <= refused p
}.

Lemma New_count o ss p : New o ss = Ok p -> count_inv p.
Proof.
  unfold New. destruct (_ || _ || _ || _); [done|]. destruct ss; [done|]. by intros [= <-].
Qed.

Lemma length_delete_offer (l : list offer) i o :
  l !! i = Some o -> len (delete i l) = len l - 1.
Proof.
  intros H. rewrite length_delete by eauto. apply lookup_lt_Some in H. lia.
Qed.

Lemma count_step a p p' : count_inv p -> step a p = Some p' -> count_inv p'.
Proof.
  intros [C1 C2 C3] H.
  destruct a; simpl in H;
    unfold offer_start, offer_check, offer_try, offer_count, tryOffer, offer_wake, offer_cancel, batcher_take,
      batcher_timer, batcher_done, batcher_drained, flush, batcher_return, worker_done, Written in H;
    repeat case_match; simplify_eq; constructor;
    unfold move_offer, drop_offer, take; pipe_simpl; rewrite ?uncounted_snoc;
    repeat (erewrite uncounted_delete by eassumption); repeat (erewrite uncounted_insert by eassumption);
    repeat (erewrite length_delete_offer by eassumption); rewrite ?length_app, ?length_insert;
    unfold to_count; cbn [pc];
    repeat match goal with H : pc _ = _ |- _ => rewrite H end; cbn [Z.b2z length]; lia.
Qed.

(** ** One worker completes batches in order *)

Record seq_inv (p : Pipeline) : Prop := {
  si_handed : handed p = fin_batches p ++ busy p;
  si_sorted : StronglySorted span_lt (failed (wmk p))
}.

Lemma one_worker p : work_inv p -> Workers (opts p) = 1 -> exists w, workers p = [w].
Proof.
  intros Hw H1. pose proof (wk_len p Hw) as Hl. rewrite H1 in Hl.
  destruct (workers p) as [|w [|]]; try done. eauto.
Qed.

Lemma seq_step a p p' :
  order_inv p -> work_inv p -> Workers (opts p) = 1 -> seq_inv p -> step a p = Some p' -> seq_inv p'.
Proof.
  intros Ho Hw H1 [S1 S2] H. destruct (one_worker p Hw H1) as [w Ew].
  assert (Hext : handed p' = handed p -> finished p' = finished p -> workers p' = workers p ->
                 failed (wmk p') = failed (wmk p) -> seq_inv p').
  { intros E1 E2 E3 E4. constructor; unfold fin_batches, busy in *; by rewrite ?E1, ?E2, ?E3, ?E4. }
  unfold busy, fin_batches in *. rewrite Ew in S1. simpl in S1.
  destruct a as [pl src r|i|i|i|i|i| | | | |i| |i outs|seq]; simpl in H.
  - by injection H as <-; apply Hext.
  - unfold offer_check in H. repeat case_match; simplify_eq; by apply Hext.
  - unfold offer_try, tryOffer in H. repeat case_match; simplify_eq; by apply Hext.
  - unfold offer_count in H. repeat case_match; simplify_eq; by apply Hext.
  - unfold offer_wake in H. repeat case_match; simplify_eq; by apply Hext.
  - unfold offer_cancel in H. repeat case_match; simplify_eq; by apply Hext.
  - unfold batcher_take in H. repeat case_match; simplify_eq; by apply Hext.
  - unfold batcher_timer in H. repeat case_match; simplify_eq; by apply Hext.
  - unfold batcher_done in H. repeat case_match; simplify_eq; by apply Hext.
  - unfold batcher_drained in H. repeat case_match; simplify_eq; by apply Hext.
  - unfold flush in H. rewrite Ew in H. destruct i as [|i]; [|done]. destruct w as [b|]; [done|].
    simpl in H, S1. rewrite app_nil_r in S1.
    destruct (ph p); try done; injection H as <-; constructor; unfold fin_batches, busy;
      pipe_simpl; simpl; rewrite ?S1; done.
  - unfold batcher_return in H. repeat case_match; simplify_eq; by apply Hext.
  - unfold worker_done in H. rewrite Ew in H. destruct i as [|i]; [|done].
    simpl in H. destruct w as [b|]; [|done]. simpl in S1.
    destruct (decide _); [|done]. injection H as <-.
    constructor; unfold fin_batches, busy; pipe_simpl.
    + rewrite fmap_app. simpl. by rewrite app_nil_r.
    + unfold complete. destruct (advance _ _ _). simpl.
      destruct (write_ok outs); [done|]. apply StronglySorted_snoc. split; [done|].
      intros f Hf. destruct (wk_failed_sub p Hw f Hf) as (c & Hc & ->).
      pose proof (oi_contig p Ho) as Hcg. rewrite S1, fmap_app in Hcg.
      apply contig_app in Hcg as [Hcg [Hb _]]. unfold span_lt. simpl in *.
      assert (Hin : batch_span c ∈ batch_span <$> (finished p).*1).
      { apply list_elem_of_fmap. exists c. split; [done|].
        apply list_elem_of_fmap. by exists (c, false). }
      pose proof (contig_bounds _ _ _ Hcg Hin). simpl in *. lia.
  - injection H as <-. unfold Written. destruct (await seq (wmk p)) as [r w'] eqn:E.
    destruct (await_cases _ _ _ _ E) as [(-> & Hf & _)|(Hr & -> & _)].
    + constructor; unfold fin_batches, busy; pipe_simpl; [by rewrite Ew|].
      rewrite Hf. by apply StronglySorted_filter.
    + destruct r; done || (constructor; unfold fin_batches, busy; pipe_simpl; by rewrite ?Ew).
Qed.

(** ** Reachable states *)

Lemma steps_opts o ss p : reachable o ss p -> Workers (opts p) = Workers o /\ sinks p = ss.
Proof.
  intros (p0 & H0 & Hst).
  assert (H : Workers (opts p0) = Workers o /\ sinks p0 = ss).
  { unfold New in H0. destruct (_ || _ || _ || _); [done|]. destruct ss; [done|].
    injection H0 as <-. simpl. by destruct (WriteTimeout o <=? 0). }
  induction Hst as [|s t u _ IH [a Ha]]; [done|].
  destruct (step_opts _ _ _ Ha) as [-> ->]. auto.
Qed.

Lemma reachable_inv o ss p :
  reachable o ss p -> fits p -> order_inv p /\ work_inv p.
Proof.
  intros (p0 & H0 & Hst). induction Hst as [|s t u Hst IH [a Ha]]; intros Hf.
  - split; [by eapply New_order|by eapply New_work].
  - destruct (IH H0 (fits_back _ _ _ Ha Hf)) as [Ho Hw].
    split; [by eapply order_step|by eapply work_step].
Qed.

Lemma reachable_count o ss p : reachable o ss p -> count_inv p.
Proof.
  intros (p0 & H0 & Hst). induction Hst as [|s t u Hst IH [a Ha]]; [by eapply New_count|].
  eapply count_step; eauto.
Qed.

Lemma reachable_snoc o ss p a p' : reachable o ss p -> step a p = Some p' -> reachable o ss p'.
Proof. intros (p0 & H0 & Hst) Ha. exists p0. split; [done|]. econstructor; [done|by exists a]. Qed.

Lemma reachable_seq o ss p :
  reachable o ss p -> fits p -> Workers o = 1 -> seq_inv p.
Proof.
  intros (p0 & H0 & Hst). induction Hst as [|s t u Hst IH [a Ha]]; intros Hf H1.
  - pose proof (New_work _ _ _ H0) as Hw.
    unfold New in H0. destruct (_ || _ || _ || _); [done|]. destruct ss; [done|].
    injection H0 as <-. constructor; unfold busy, fin_batches; simpl; [|constructor].
    by rewrite omap_id_idle.
  - pose proof (fits_back _ _ _ Ha Hf) as Hf'.
    assert (Hr : reachable o ss t) by (by exists s).
    destruct (reachable_inv _ _ _ Hr Hf') as [Ho Hw].
    destruct (steps_opts _ _ _ Hr) as [Hwk _].
    apply (seq_step a t); auto. by rewrite Hwk.
Qed.
