(* ===== verification/PipelineLive.v ===== *)
(** * Progress and shutdown of the pipeline

    No reachable state of the pipeline is stuck while it has work to do, and
    once the context is cancelled every schedule of its own steps is finite
    and leads [Run] to return. *)

From S2P Require Import Prelude GoTime Netip Flow Watermark Pipeline PipelineFacts.

(** Steps of the batcher and the workers; and those of every goroutine of the
    pipeline, as opposed to the environment's (new offers, timers, contexts,
    acknowledgement queries). *)
Definition run_action (a : action) : bool :=
  match a with ATake | ADrained | AFlush _ | AReturn | AWorker _ _ => true | _ => false end.
Definition internal (a : action) : bool :=
  match a with ACheck _ | ATry _ | ACount _ | AWake _ => true | _ => run_action a end.

Lemma workers_pos o ss p : reachable o ss p -> fits p -> workers p <> [].
Proof.
  intros Hr Hf. destruct (reachable_inv _ _ _ Hr Hf) as [_ Hw].
  destruct (steps_opts _ _ _ Hr) as [Ho _]. pose proof (wk_len p Hw) as Hl. rewrite Ho in Hl.
  assert (1 <= Workers o).
  { destruct Hr as (p0 & H0 & _). unfold New in H0.
    destruct (_ || _ || _ || _) eqn:E; [done|]. apply orb_false_iff in E as [_ E%Z.ltb_ge]. done. }
  intros E. rewrite E in Hl. simpl in Hl. lia.
Qed.

(** Either some worker is busy, and its sinks may answer, or all are idle. *)
Lemma worker_dichotomy p :
  (exists i b, workers p !! i = Some (Some b)) \/
  (busy p = [] /\ forall i, (i < length (workers p))%nat -> workers p !! i = Some None).
Proof.
  unfold busy. induction (workers p) as [|[b|] ws IH].
  - right. split; [done|]. simpl. lia.
  - left. by exists 0%nat, b.
  - destruct IH as [(i & b & H)|[Hb H]]; [left; by exists (S i), b|right].
    split; [done|]. intros [|i] Hi; [done|]. apply H. simpl in Hi. lia.
Qed.

Lemma busy_step p i b :
  workers p !! i = Some (Some b) ->
  exists a p', run_action a = true /\ step a p = Some p'.
Proof.
  intros H. exists (AWorker i (replicate (length (sinks p)) true)). simpl. unfold worker_done.
  rewrite H, length_replicate. destruct (decide _); [|done]. eauto.
Qed.

Lemma run_progress o ss p :
  reachable o ss p -> fits p -> ph p <> Returned -> (ph p = Loop -> buf p <> []) ->
  exists a p', run_action a = true /\ step a p = Some p'.
Proof.
  intros Hr Hf Hph Hbuf. pose proof (workers_pos _ _ _ Hr Hf) as Hpos.
  destruct (worker_dichotomy p) as [(i & b & Hi)|[_ Hidle]]; [by eapply busy_step|].
  assert (H0 : workers p !! 0%nat = Some None).
  { apply Hidle. destruct (workers p); [done|]. simpl. lia. }
  destruct (ph p) eqn:E; try done.
  - destruct (buf p) as [|r rest] eqn:Eb; [by exfalso; apply Hbuf|].
    exists ATake. simpl. unfold batcher_take. rewrite Eb, E. eauto.
  - exists (AFlush 0). simpl. unfold flush. rewrite H0, E. eauto.
  - destruct (buf p) as [|r rest] eqn:Eb.
    + exists ADrained. simpl. unfold batcher_drained. rewrite Eb, E. eauto.
    + exists ATake. simpl. unfold batcher_take. rewrite Eb, E. eauto.
  - exists (AFlush 0). simpl. unfold flush. rewrite H0, E. eauto.
  - exists (AFlush 0). simpl. unfold flush. rewrite H0, E. eauto.
  - exists AReturn. simpl. unfold batcher_return. rewrite E.
    assert (forallb (fun w : option batch => match w with None => true | Some _ => false end)
              (workers p) = true) as ->; [|eauto].
    apply forallb_forall. intros w Hw%list_elem_of_In.
    apply list_elem_of_lookup in Hw as [i Hi].
    specialize (Hidle i (lookup_lt_Some _ _ _ Hi)). by rewrite Hi in Hidle; injection Hidle as ->.
Qed.

(** ** No lost wake-up

    While the pipeline is open, a waiting [intake.Offer] always has someone to
    wake it: a pending signal, another pull offer on its way, or a record in
    the buffer that the batcher will take. *)

Definition is_waiting (o : offer) : Prop := pc o = AtWait.
Definition is_active_pull (o : offer) : Prop := pull o = true /\ (pc o = AtHead \/ pc o = AtTry).

Record wait_inv (p : Pipeline) : Prop := {
  wi_pull : forall o, o ∈ offers p -> pc o = AtWait -> pull o = true;
  wi_wake : closing p = false -> (exists o, o ∈ offers p /\ is_waiting o) ->
    space p = true \/ buf p <> [] \/ (exists o, o ∈ offers p /\ is_active_pull o);
  wi_cap : 1 <= BufferSize (opts p)
}.

Lemma elem_of_delete_2 {A} (l : list A) i (x y : A) : l !! i = Some y -> x ∈ l -> x = y \/ x ∈ delete i l.
Proof.
  intros E Hx. pose proof (delete_Permutation l i y E) as Hp. rewrite Hp in Hx at 1.
  apply elem_of_cons in Hx. tauto.
Qed.

Lemma elem_of_insert_1 {A} (l : list A) i (x y : A) : x ∈ <[i := y]> l -> x = y \/ x ∈ l.
Proof.
  intros (j & H)%list_elem_of_lookup. apply list_lookup_insert_Some in H as [(? & ? & ?)|[? ?]]; [by left|].
  right. apply list_elem_of_lookup. eauto.
Qed.

Lemma elem_of_insert_2 {A} (l : list A) i (x y z : A) :
  l !! i = Some z -> x ∈ l -> x = z \/ x ∈ <[i := y]> l.
Proof.
  intros E (j & H)%list_elem_of_lookup. destruct (decide (i = j)) as [->|].
  - left. congruence.
  - right. apply list_elem_of_lookup. exists j. by rewrite list_lookup_insert_ne.
Qed.

Lemma elem_of_insert_self {A} (l : list A) i (y z : A) : l !! i = Some z -> y ∈ <[i := y]> l.
Proof.
  intros E. apply list_elem_of_lookup. exists i. apply list_lookup_insert_eq. by eapply lookup_lt_Some.
Qed.

Lemma wait_inv_ext p p' :
  opts p' = opts p -> offers p' = offers p -> closing p' = closing p -> space p' = space p ->
  buf p' = buf p -> wait_inv p -> wait_inv p'.
Proof. intros E1 E2 E3 E4 E5 []. constructor; rewrite ?E1, ?E2, ?E3, ?E4, ?E5; done. Qed.

(** Offers only ever wait after finding the buffer full. *)
Lemma full_nonempty p : wait_inv p -> (len (buf p) <? BufferSize (opts p)) = false -> buf p <> [].
Proof. intros [_ _ Hc] H%Z.ltb_ge E. rewrite E in H. simpl in H. lia. Qed.

Lemma wait_check i p p' : wait_inv p -> offer_check i p = Some p' -> wait_inv p'.
Proof.
  intros Hi H. pose proof Hi as [W1 W2 W3]. unfold offer_check in H.
  destruct (offers p !! i) as [o|] eqn:Eo; [|done]. destruct (pc o) eqn:Epc; try done.
  destruct (closing p) eqn:Ec.
  - destruct (pull o); injection H as <-; constructor; unfold drop_offer, move_offer; pipe_simpl;
      rewrite ?Ec; try done; [intros x Hx%list_elem_of_delete_inv; auto|].
    intros x [->|Hx]%elem_of_insert_1; [done|auto].
  - injection H as <-. constructor; unfold move_offer; pipe_simpl; try done.
    + intros x [->|Hx]%elem_of_insert_1; [done|auto].
    + intros _ (x & [->|Hx]%elem_of_insert_1 & Hw); [done|].
      destruct (W2 eq_refl) as [?|[?|(y & Hy & Ha)]]; [eauto|auto|auto|]. right; right.
      destruct (elem_of_insert_2 _ i y (mkOffer (pull o) (source o) (rec o) AtTry) o Eo Hy) as [->|Hy'].
      * eexists. split; [by eapply elem_of_insert_self|]. destruct Ha. by split; [|right].
      * eauto.
Qed.

Lemma wait_try i p p' : wait_inv p -> offer_try i p = Some p' -> wait_inv p'.
Proof.
  intros Hi H. pose proof Hi as [W1 W2 W3]. unfold offer_try, tryOffer in H.
  destruct (offers p !! i) as [o|] eqn:Eo; [|done]. destruct (pc o) eqn:Epc; try done.
  destruct (_ <? BufferSize (opts p)) eqn:Ef.
  - injection H as <-. constructor; unfold move_offer; pipe_simpl; try done.
    + intros x [->|Hx]%elem_of_insert_1; [done|auto].
    + intros _ _. right; left. by destruct (buf p).
  - pose proof (full_nonempty p Hi Ef) as Hne.
    destruct (pull o) eqn:Epl; injection H as <-; constructor; unfold move_offer; pipe_simpl;
      try done; try (by intros; right; left); intros x [->|Hx]%elem_of_insert_1; [done|auto|done|auto].
Qed.

Lemma wait_count i p p' : wait_inv p -> offer_count i p = Some p' -> wait_inv p'.
Proof.
  intros Hi H. pose proof Hi as [W1 W2 W3]. unfold offer_count in H.
  destruct (offers p !! i) as [o|] eqn:Eo; [|done]. destruct (pc o) as [| | |c] eqn:Epc; try done.
  assert (Hd : wait_inv (drop_offer i p)).
  { constructor; unfold drop_offer; pipe_simpl; try done.
    - intros x Hx%list_elem_of_delete_inv; auto.
    - intros Hc (x & Hx%list_elem_of_delete_inv & Hw).
      destruct (W2 Hc) as [?|[?|(y & Hy & Ha)]]; [eauto|auto|auto|]. right; right.
      destruct (elem_of_delete_2 _ i y o Eo Hy) as [->|Hy']; [|eauto]. destruct Ha as [_ [|]]; congruence. }
  destruct c; injection H as <-; by apply (wait_inv_ext (drop_offer i p)).
Qed.

Lemma wait_wake i p p' : wait_inv p -> offer_wake i p = Some p' -> wait_inv p'.
Proof.
  intros Hi H. pose proof Hi as [W1 W2 W3]. unfold offer_wake in H.
  destruct (offers p !! i) as [o|] eqn:Eo; [|done]. destruct (pc o) eqn:Epc; try done.
  destruct (space p); [|done]. injection H as <-.
  constructor; unfold move_offer; pipe_simpl; try done.
  - intros x [->|Hx]%elem_of_insert_1; [done|auto].
  - intros _ _. right; right. eexists. split; [by eapply elem_of_insert_self|].
    split; [|by left]. simpl. apply W1; [|done]. by eapply list_elem_of_lookup_2.
Qed.

Lemma wait_cancel i p p' : wait_inv p -> offer_cancel i p = Some p' -> wait_inv p'.
Proof.
  intros Hi H. pose proof Hi as [W1 W2 W3]. unfold offer_cancel in H.
  destruct (offers p !! i) as [o|] eqn:Eo; [|done]. destruct (pc o) eqn:Epc; try done.
  injection H as <-. constructor; unfold drop_offer; pipe_simpl; try done.
  - intros x Hx%list_elem_of_delete_inv; auto.
  - intros Hc (x & Hx%list_elem_of_delete_inv & Hw).
    destruct (W2 Hc) as [?|[?|(y & Hy & Ha)]]; [eauto|auto|auto|]. right; right.
    destruct (elem_of_delete_2 _ i y o Eo Hy) as [->|Hy']; [|eauto]. destruct Ha as [_ [|]]; congruence.
Qed.

Lemma wait_step a p p' : wait_inv p -> step a p = Some p' -> wait_inv p'.
Proof.
  intros Hi H. pose proof Hi as [W1 W2 W3].
  destruct a as [pl src r|i|i|i|i|i| | | | |i| |i outs|seq]; simpl in H.
  - injection H as <-. constructor; unfold offer_start; pipe_simpl; try done.
    + intros x [Hx| ->%list_elem_of_singleton]%elem_of_app; [auto|done].
    + intros Hc (x & [Hx| ->%list_elem_of_singleton]%elem_of_app & Hw); [|done].
      destruct (W2 Hc) as [?|[?|(y & Hy & Ha)]]; [eauto|auto|auto|].
      right; right. exists y. split; [apply elem_of_app; by left|done].
  - by apply (wait_check i p).
  - by apply (wait_try i p).
  - by apply (wait_count i p).
  - by apply (wait_wake i p).
  - by apply (wait_cancel i p).
  - unfold batcher_take in H.
    repeat case_match; simplify_eq; constructor; unfold take; pipe_simpl; auto.
  - unfold batcher_timer in H. repeat case_match; simplify_eq; try done; by apply (wait_inv_ext p).
  - unfold batcher_done in H. case_match; simplify_eq. by constructor; pipe_simpl.
  - unfold batcher_drained in H. repeat case_match; simplify_eq; by apply (wait_inv_ext p).
  - unfold flush in H. repeat case_match; simplify_eq; by apply (wait_inv_ext p).
  - unfold batcher_return in H. repeat case_match; simplify_eq; by apply (wait_inv_ext p).
  - unfold worker_done in H. repeat case_match; simplify_eq; by apply (wait_inv_ext p).
  - injection H as <-. unfold Written. destruct (await seq (wmk p)) as [r w'].
    destruct r; by apply (wait_inv_ext p).
Qed.

Lemma reachable_wait o ss p : reachable o ss p -> wait_inv p.
Proof.
  intros (p0 & H0 & Hst). induction Hst as [|s t u Hst IH [a Ha]]; [|by eapply wait_step; eauto].
  pose proof (oi_opts _ (New_order _ _ _ H0)) as [? _].
  constructor; [..|done]; unfold New in H0; destruct (_ || _ || _ || _); try done;
    destruct ss; try done; injection H0 as <-; simpl.
  - by intros o' ?%not_elem_of_nil.
  - by intros _ (o' & ?%not_elem_of_nil & _).
Qed.

(** ** Shutdown terminates *)

Definition offer_weight (o : offer) : nat :=
  match pc o with AtTry => 20 | AtWait => 3 | AtHead => 2 | AtCount _ => 1 end.
Definition phase_weight (x : phase) : nat :=
  match x with
  | Loop | LoopFlush => 4
  | Drain | DrainFlush => 3
  | FinalFlush => 2
  | WaitWorkers => 1
  | Returned => 0
  end.

(** Work left in the pipeline. *)
Definition work (p : Pipeline) : nat :=
  (sum_list_with offer_weight (offers p) + 10 * length (buf p) + 6 * length (pending p)
   + 3 * length (busy p) + phase_weight (ph p))%nat.

Lemma sum_delete (l : list offer) i o :
  l !! i = Some o ->
  (sum_list_with offer_weight l = offer_weight o + sum_list_with offer_weight (delete i l))%nat.
Proof. intros H. by rewrite (delete_Permutation l i o H) at 1. Qed.

Lemma sum_insert (l : list offer) i o o' :
  l !! i = Some o ->
  (sum_list_with offer_weight (<[i := o']> l) + offer_weight o =
   sum_list_with offer_weight l + offer_weight o')%nat.
Proof.
  intros H. pose proof (lookup_lt_Some _ _ _ H).
  rewrite (sum_delete l i o H).
  rewrite (sum_delete (<[i := o']> l) i o') by (by apply list_lookup_insert_eq).
  replace (delete i (<[i := o']> l)) with (delete i l); [lia|].
  rewrite !delete_take_drop, take_insert_ge, drop_insert_lt by lia. done.
Qed.

(** The work after an offer has gone, or moved on. *)
Ltac weigh_delete Eo Epc :=
  let Hs := fresh "Hs" in
  pose proof (sum_delete _ _ _ Eo) as Hs; unfold offer_weight at 2 in Hs; rewrite Epc in Hs;
  unfold drop_offer, busy; pipe_simpl; lia.
Ltac weigh_move Eo Epc :=
  unfold move_offer, busy; pipe_simpl;
  match goal with |- context [<[?i := ?o']> _] =>
    let Hi := fresh "Hi" in pose proof (sum_insert _ _ _ o' Eo) as Hi;
    unfold offer_weight at 2 4 in Hi; simpl in Hi; rewrite Epc in Hi; rewrite ?length_app; simpl; lia
  end.

(** Once closing, each step of the pipeline's own goroutines reduces the
    remaining work: no schedule of them is infinite. *)
Lemma work_decreases a p p' :
  order_inv p -> closing p = true -> internal a = true -> step a p = Some p' ->
  (work p' < work p)%nat.
Proof.
  intros Ho Hc Ha H. unfold work.
  destruct a as [pl src r|i|i|i|i|i| | | | |i| |i outs|seq]; try done; simpl in H.
  - unfold offer_check in H. destruct (offers p !! i) as [o|] eqn:Eo; [|done].
    destruct (pc o) eqn:Epc; try done. rewrite Hc in H.
    destruct (pull o); injection H as <-; [weigh_delete Eo Epc|weigh_move Eo Epc].
  - unfold offer_try, tryOffer in H. destruct (offers p !! i) as [o|] eqn:Eo; [|done].
    destruct (pc o) eqn:Epc; try done.
    destruct (_ <? BufferSize (opts p)); [|destruct (pull o)]; injection H as <-; weigh_move Eo Epc.
  - unfold offer_count in H. destruct (offers p !! i) as [o|] eqn:Eo; [|done].
    destruct (pc o) as [| | |[]] eqn:Epc; try done; injection H as <-; weigh_delete Eo Epc.
  - unfold offer_wake in H. destruct (offers p !! i) as [o|] eqn:Eo; [|done].
    destruct (pc o) eqn:Epc; try done. destruct (space p); [|done]. injection H as <-. weigh_move Eo Epc.
  - unfold batcher_take in H. destruct (buf p) as [|r rest] eqn:Eb; [done|].
    pose proof (oi_closing p Ho) as Hcl. rewrite Hc in Hcl.
    destruct (ph p) eqn:Eph; try done. injection H as <-.
    unfold busy, full_batch, take; pipe_simpl.
    case_match; pipe_simpl; rewrite ?Eph; rewrite length_app; simpl; lia.
  - unfold batcher_drained in H. destruct (ph p) eqn:Eph; try done.
    destruct (buf p) eqn:Eb; [|done].
    destruct (pending p) eqn:Ep; injection H as <-; unfold busy; pipe_simpl;
      rewrite ?Eb, ?Ep; simpl; lia.
  - unfold flush in H. destruct (workers p !! i) as [[|]|] eqn:Ei; try done.
    pose proof (oi_pending p Ho) as Hp. unfold pending_ok in Hp.
    set (b := mkBatch (pending p) (bfirst p) (taken p)) in *.
    pose proof (Permutation_length (busy_start p i b Ei)) as Hl. simpl in Hl.
    destruct (ph p) eqn:Eph; try done; injection H as <-; unfold busy in *; pipe_simpl;
      rewrite Hl; simpl; lia.
  - unfold batcher_return in H. destruct (ph p) eqn:Eph; try done. case_match; [|done].
    injection H as <-. unfold busy; pipe_simpl. simpl. lia.
  - unfold worker_done in H. destruct (workers p !! i) as [[b|]|] eqn:Ei; try done.
    destruct (decide _); [|done]. injection H as <-.
    pose proof (Permutation_length (busy_stop p i b Ei)) as Hl. simpl in Hl.
    unfold busy in *; pipe_simpl. lia.
Qed.

Lemma run_action_internal a : run_action a = true -> internal a = true.
Proof. by destruct a. Qed.

Lemma run_action_accepted a p p' :
  run_action a = true -> step a p = Some p' ->
  accepted p' = accepted p /\ closing p' = closing p /\ offers p' = offers p.
Proof. destruct a; intros Ha H; try done; step_cases H; done. Qed.

Lemma shutdown_reaches o ss p :
  reachable o ss p -> fits p -> closing p = true ->
  exists acts p', (length acts <= work p)%nat /\ Forall (fun a => run_action a = true) acts /\
    run_script step acts p = Some p' /\ ph p' = Returned.
Proof.
  remember (work p) as n eqn:En. revert p En.
  induction (lt_wf n) as [n _ IH]; intros p -> Hr Hf Hc.
  destruct (decide (ph p = Returned)) as [E|Hph].
  { exists [], p. repeat split; [simpl; lia|constructor|done]. }
  destruct (reachable_inv _ _ _ Hr Hf) as [Ho _].
  destruct (run_progress o ss p Hr Hf Hph) as (a & p1 & Ha & Hs).
  { intros El. pose proof (oi_closing p Ho) as H. by rewrite El, Hc in H. }
  pose proof (work_decreases a p p1 Ho Hc (run_action_internal _ Ha) Hs) as Hlt.
  destruct (run_action_accepted a p p1 Ha Hs) as (E1 & E2 & _).
  destruct (IH (work p1) Hlt p1 eq_refl) as (acts & p2 & Hl & Hall & Hrun & Hret).
  - by eapply reachable_snoc.
  - unfold fits in *. by rewrite E1.
  - by rewrite E2.
  - exists (a :: acts), p2. split; [simpl; lia|]. split; [by constructor|].
    split; [|done]. simpl. by rewrite Hs.
Qed.
