(* ===== verification/PipelineThms.v ===== *)
(** * Properties of the pipeline

    What [Offer], [Run], the workers and [Intake.Written] guarantee in every
    interleaving, from the invariants of [PipelineFacts] and [PipelineLive]. *)

From S2P Require Import Prelude GoTime Netip Flow Watermark Pipeline PipelineFacts PipelineLive.

(** A configuration to evaluate on: a buffer of two, batches of two. *)
Definition demo_opts (workers : Z) : Options := mkOptions 2 2 Second workers 0.
Definition demo_sinks : list string := ["postgres"; "kafka"].
Definition demo_record (n : Z) : FlowRecord := set_SrcPort n zeroRecord.

Definition demo_start (w : Z) : Pipeline :=
  match New (demo_opts w) demo_sinks with Ok p => p | Err _ =>
    mkPipeline (demo_opts w) [] [] false 0 false wm_init [] Loop [] 0 1 [] 0 0 0 0 ∅ 0 0 [] [] [] [] [] end.

Definition demo_run (w : Z) (acts : list action) : Pipeline :=
  default (demo_start w) (run_script step acts (demo_start w)).

Lemma demo_reachable w acts :
  1 <= w -> run_script step acts (demo_start w) <> None ->
  reachable (demo_opts w) demo_sinks (demo_run w acts).
Proof.
  intros Hw H. exists (demo_start w). split.
  - unfold demo_start, New, demo_opts; simpl. by rewrite (proj2 (Z.ltb_ge w 1)) by lia.
  - unfold demo_run. destruct (run_script step acts (demo_start w)) as [p|] eqn:E; [|done].
    by apply (run_script_star step acts).
Qed.

Ltac demo_reach := apply demo_reachable; [lia|vm_compute; discriminate].

(** A push of one record that finds room. *)
Definition push (n : Z) : list action := [AOffer false "netflow" (demo_record n); ACheck 0; ATry 0; ACount 0].

(** ** Records, batches and sequence numbers *)

Lemma length_omap_le {A B} (f : A -> option B) l : (length (omap f l) <= length l)%nat.
Proof.
  induction l as [|x l IH]; [done|].
  change (omap f (x :: l)) with (match f x with Some y => y :: omap f l | None => omap f l end).
  destruct (f x); simpl; lia.
Qed.

(** The records of a handed batch are the slice of the accepted records its
    range names. *)
Lemma batch_slice p b :
  order_inv p -> b ∈ handed p ->
  list.take (length (records b)) (drop (Z.to_nat (b_first b - 1)) (accepted p)) = records b.
Proof.
  intros [Hsplit _ _ _ Hc _ Hs _ _ _ _] Hb. unfold flat in *.
  apply list_elem_of_split in Hb as (h1 & h2 & E). rewrite E in Hc, Hs. rewrite Hsplit, E.
  rewrite fmap_app in Hc. apply contig_app in Hc as [Hc1 [Hf _]].
  assert (He : forall hs s, contig s (batch_span <$> hs) -> Forall (batch_sized (opts p)) hs ->
             contig_end s (batch_span <$> hs) = s - 1 + len (concat (records <$> hs))).
  { induction hs as [|h hs IH]; intros s; rewrite ?fmap_cons; simpl; [lia|]. intros (H1 & H2 & H3) [[H4 _] Hall]%Forall_cons.
    rewrite IH by done. rewrite length_app. simpl in *. lia. }
  apply Forall_app in Hs as [Hs1 _]. rewrite (He h1 1 Hc1 Hs1) in Hf. simpl in Hf.
  rewrite fmap_app, concat_app. simpl. rewrite <- !app_assoc.
  replace (Z.to_nat (b_first b - 1)) with (length (concat (records <$> h1))) by lia.
  rewrite drop_app_length. by rewrite take_app_length.
Qed.

(** C2. Order and numbering: in every reachable state the accepted records
    are, in order, those of the batches handed to workers, then the pending
    ones, then the buffered ones; the batch ranges are consecutive from 1 and
    each range [first..last] names exactly the records of its batch; a batch
    is never empty nor longer than BatchSize. *)
Theorem pipeline_order (o : Options) (ss : list string) (p : Pipeline) :
  reachable o ss p -> fits p ->
  accepted p = concat (records <$> handed p) ++ pending p ++ buf p /\
  next p = len (accepted p) /\
  contig 1 (batch_span <$> handed p) /\
  forall b, b ∈ handed p ->
    list.take (length (records b)) (drop (Z.to_nat (b_first b - 1)) (accepted p)) = records b /\
    b_last b = b_first b + len (records b) - 1 /\ 1 <= len (records b) <= BatchSize (opts p).
Proof.
  intros Hr Hf. destruct (reachable_inv _ _ _ Hr Hf) as [Ho _].
  pose proof Ho as [H1 H2 _ _ H3 _ H4 _ _ _ _].
  repeat split; try done; [by apply batch_slice|..]; rewrite Forall_forall in H4;
    destruct (H4 b ltac:(assumption)); lia.
Qed.

Definition order_script : list action :=
  push 1 ++ push 2 ++ [ATake; ATake; AFlush 0] ++ push 3 ++ [ATake; ATimer] ++ push 4.

Lemma pipeline_order_witness :
  let p := demo_run 1 order_script in
  fits p /\ handed p = [mkBatch [demo_record 1; demo_record 2] 1 2] /\
  accepted p = concat (records <$> handed p) ++ pending p ++ buf p.
Proof.
  intros p. assert (Hf : fits p) by (vm_compute; reflexivity).
  destruct (pipeline_order (demo_opts 1) demo_sinks p) as (H & _); [demo_reach|exact Hf|].
  split; [exact Hf|]. split; [vm_compute; reflexivity|exact H].
Defined.

(** C8. Memory is bounded: the buffer never holds more than BufferSize
    records, the pending batch never more than BatchSize, and never more than
    Workers batches are in the hands of workers. *)
Theorem pipeline_bounded (o : Options) (ss : list string) (p : Pipeline) :
  reachable o ss p -> fits p ->
  len (buf p) <= BufferSize (opts p) /\ len (pending p) <= BatchSize (opts p) /\
  len (busy p) <= Workers (opts p).
Proof.
  intros Hr Hf. destruct (reachable_inv _ _ _ Hr Hf) as [Ho Hw].
  assert (length (workers p) <> 0%nat)
    by (pose proof (workers_pos _ _ _ Hr Hf); by destruct (workers p)).
  split; [apply Ho|split].
  - pose proof (oi_pending p Ho) as Hp. pose proof (oi_opts p Ho). unfold pending_ok in Hp.
    destruct (ph p); try lia; rewrite Hp; simpl; lia.
  - pose proof (wk_len p Hw) as Hl. unfold busy.
    pose proof (length_omap_le id (workers p)). lia.
Qed.

Lemma pipeline_bounded_witness :
  let p := demo_run 1 order_script in
  fits p /\ len (buf p) <= 2 /\ len (busy p) <= 1.
Proof.
  intros p. assert (Hf : fits p) by (vm_compute; reflexivity).
  destruct (pipeline_bounded (demo_opts 1) demo_sinks p) as (H1 & _ & H3); [demo_reach|exact Hf|].
  split; [exact Hf|]. split; [exact H1|exact H3].
Defined.

(** C5. Every offer is accounted for, at every instant and in every
    interleaving: ingested + dropped (buffer full) + dropped (shutdown) +
    refused pull offers + offers still in progress = offered; and the ingested
    counter, with the calls that have put their record into the buffer and not
    counted it yet, is the number of records accepted into the buffer. *)
Theorem offer_accounting (o : Options) (ss : list string) (p : Pipeline) :
  reachable o ss p ->
  ingested p + dropped_full p + dropped_shutdown p + refused p + len (offers p) = offered p /\
  ingested p + uncounted (offers p) = len (accepted p).
Proof. intros [C1 C2 _]%reachable_count. split; [lia|done]. Qed.

Definition drop_script : list action :=
  push 1 ++ push 2 ++ push 3 ++ [ADone] ++ [AOffer false "netflow" (demo_record 4); ACheck 0; ACount 0].

Lemma offer_accounting_witness :
  let p := demo_run 1 drop_script in
  dropped_full p = 1 /\ dropped_shutdown p = 1 /\
  ingested p + dropped_full p + dropped_shutdown p + refused p + len (offers p) = offered p.
Proof.
  intros p. destruct (offer_accounting (demo_opts 1) demo_sinks p) as [H _]; [demo_reach|].
  split; [vm_compute; reflexivity|]. split; [vm_compute; reflexivity|exact H].
Defined.

(** ** Acknowledgement *)

Lemma fin_elem p b : b ∈ fin_batches p <-> exists ok, (b, ok) ∈ finished p.
Proof.
  unfold fin_batches. rewrite list_elem_of_fmap. split.
  - intros ([c ok] & -> & H). by exists ok.
  - intros [ok H]. by exists (b, ok).
Qed.

(** A batch is identified by its first sequence number. *)
Lemma handed_first_inj p b c :
  order_inv p -> b ∈ handed p -> c ∈ handed p -> b_first b = b_first c -> b = c.
Proof.
  intros Ho Hb Hc E.
  apply list_elem_of_lookup in Hb as [i Hi]. apply list_elem_of_lookup in Hc as [j Hj].
  assert (i = j) as ->; [|congruence].
  apply (NoDup_lookup (b_first <$> handed p) _ _ (b_first b) (firsts_NoDup p Ho));
    rewrite list_lookup_fmap; [by rewrite Hi|by rewrite Hj, E].
Qed.

(** What [seq <= written] says about the batches. *)
Lemma written_finished p seq b :
  order_inv p -> work_inv p -> 1 <= seq <= len (flat p) ->
  seq <= written (wmk p) -> b ∈ handed p -> b_first b <= seq -> b ∈ fin_batches p.
Proof.
  intros Ho Hw Hs Hle Hb Hfb.
  pose proof Ho as [? ? ? ? Hc He ? ? ? ? ?].
  rewrite (written_frontier (spans p) Hc (fin_set p)) in Hle
    by (apply Hw || (unfold spans; rewrite He; lia)).
  assert (Hin : b_first b ∈ fin_set p).
  { apply (Hle (batch_span b)); [|done]. apply list_elem_of_fmap. eauto. }
  unfold fin_set in Hin. rewrite elem_of_list_to_set in Hin.
  apply list_elem_of_fmap in Hin as (c & E & Hcin).
  rewrite (handed_first_inj p b c); try done.
  rewrite (wk_handed p Hw). apply elem_of_app. by right.
Qed.

Lemma written_le_flat p : order_inv p -> work_inv p -> written (wmk p) <= len (flat p).
Proof.
  intros Ho Hw. destruct (wi_boundary _ _ _ (wk_wm p Hw)) as [->|(b & Hb & <-)]; [lia|].
  rewrite <- (oi_end p Ho). by apply (contig_bounds 1); [apply Ho|].
Qed.

(** The batch a sequence number at or below [written] belongs to. *)
Lemma written_batch p seq :
  order_inv p -> work_inv p -> 1 <= seq <= written (wmk p) ->
  exists b, b ∈ handed p /\ b_first b <= seq <= b_last b.
Proof.
  intros Ho Hw Hs. pose proof (written_le_flat p Ho Hw).
  destruct (contig_cover 1 (spans p) seq (oi_contig p Ho)) as (c & Hc & Hcov).
  { unfold spans. rewrite (oi_end p Ho). lia. }
  apply list_elem_of_fmap in Hc as (b & -> & Hb). eauto.
Qed.

(** Acknowledgement follows processing: if [Written] answers nil for a
    sequence number then every batch up to the one holding it has been through
    every sink: the batch of [seq] exists and each batch that starts at or
    below [seq] is finished. *)
Theorem written_nil_processed (o : Options) (ss : list string) (p p' : Pipeline) (seq : Z) :
  reachable o ss p -> fits p -> 1 <= seq -> Written seq p = (AwaitNil, p') ->
  (exists b ok, (b, ok) ∈ finished p /\ b_first b <= seq <= b_last b) /\
  forall b, b ∈ handed p -> b_first b <= seq -> exists ok, (b, ok) ∈ finished p.
Proof.
  intros Hr Hf Hs HW. destruct (reachable_inv _ _ _ Hr Hf) as [Ho Hw].
  unfold Written in HW. destruct (await seq (wmk p)) as [r w'] eqn:E.
  injection HW as -> _.
  destruct (await_cases _ _ _ _ E) as [(? & _)|(_ & _ & _ & Hle)]; [done|].
  specialize (Hle eq_refl). pose proof (written_le_flat p Ho Hw).
  assert (Hall : forall b, b ∈ handed p -> b_first b <= seq -> exists ok, (b, ok) ∈ finished p).
  { intros b Hb Hfb. apply fin_elem. apply (written_finished p seq); try done. lia. }
  split; [|done]. destruct (written_batch p seq Ho Hw) as (b & Hb & Hc); [lia|].
  destruct (Hall b Hb) as [ok Hok]; [lia|]. eauto.
Qed.

Definition ack_script : list action :=
  push 1 ++ push 2 ++ [ATake; ATake; AFlush 0; AWorker 0 [true; true]].

Lemma written_nil_processed_witness :
  let p := demo_run 1 ack_script in
  (Written 2 p).1 = AwaitNil /\
  exists b ok, (b, ok) ∈ finished p /\ b_first b <= 2 <= b_last b.
Proof.
  intros p.
  destruct (written_nil_processed (demo_opts 1) demo_sinks p (Written 2 p).2 2) as [H _];
    [demo_reach|vm_compute; reflexivity|lia|vm_compute; reflexivity|].
  split; [vm_compute; reflexivity|exact H].
Defined.

(** ** Sinks *)

Lemma length_filter_all (l : list bool) :
  length (filter (fun o => o = true) l) = length l <-> forall o, o ∈ l -> o = true.
Proof.
  induction l as [|x l IH]; [split; [by intros _ o ?%not_elem_of_nil|done]|].
  pose proof (length_filter (fun o => o = true) l). rewrite filter_cons. split.
  - intros E. case_decide as D; simpl in E; [|lia]. injection E as E.
    intros o [->|Ho]%elem_of_cons; [done|]. by apply IH.
  - intros Hall. rewrite decide_True by (apply Hall; by left). simpl. f_equal. apply IH.
    intros o Ho. apply Hall. by right.
Qed.

(** A batch is reported written exactly when there is a sink and every
    sink accepted it; one sink that fails is enough to have the batch
    redelivered, however many others stored it. *)
Theorem write_ok_all (outs : list bool) :
  write_ok outs = true <-> outs <> [] /\ forall o, o ∈ outs -> o = true.
Proof.
  rewrite <- length_filter_all. unfold write_ok.
  pose proof (length_filter (fun o => o = true) outs).
  destruct (Z.of_nat _ =? 0) eqn:E0.
  - apply Z.eqb_eq in E0. split; [done|]. intros [Hne H1]. destruct outs; [done|]. simpl in *. lia.
  - apply Z.eqb_neq in E0. rewrite Z.eqb_eq. split; [|lia].
    intros E. split; [intros ->; simpl in *; lia|lia].
Qed.

Lemma reachable_results o ss p : reachable o ss p -> results_inv p /\ sinks p = ss.
Proof.
  intros (p0 & H0 & Hst). induction Hst as [|s t u Hst IH [a Ha]].
  - unfold New in H0. destruct (_ || _ || _ || _); [done|]. destruct ss; [done|]. injection H0 as <-. done.
  - destruct (IH H0) as [IH1 IH2]. split; [by eapply results_step|]. by rewrite (proj2 (step_opts _ _ _ Ha)).
Qed.

(** The batches that count as written are those every sink accepted. *)
Lemma finished_results o ss p b :
  reachable o ss p -> (b, true) ∈ finished p -> (b, replicate (length ss) true) ∈ results p.
Proof.
  intros [[R1 R2] <-]%reachable_results Hb. rewrite R1 in Hb. apply list_elem_of_fmap in Hb as ([c outs] & E & Hin).
  cbn in E. injection E as -> E. rewrite Forall_forall in R2. specialize (R2 _ Hin). cbn in R2.
  symmetry in E. apply write_ok_all in E as [_ E]. replace (replicate (length (sinks p)) true) with outs; [done|].
  rewrite <- R2. apply list_eq. intros i. destruct (decide (i < length outs)%nat) as [Hi|Hi].
  - rewrite lookup_replicate_2 by done. destruct (lookup_lt_is_Some_2 outs i Hi) as [x Hx]. rewrite Hx. f_equal.
    by apply E, (list_elem_of_lookup_2 _ i).
  - rewrite !lookup_ge_None_2; [done|rewrite length_replicate; lia|lia].
Qed.

(** C3. At-least-once with one worker: if [Written] answers nil for [seq]
    then for every batch that starts at or below [seq] each of the sinks has
    answered that it accepted the batch, or the failure of the batch has been
    reported to a caller of [Written]. *)
Theorem written_nil_one_worker (o : Options) (ss : list string) (p p' : Pipeline) (seq : Z) (b : batch) :
  reachable o ss p -> fits p -> Workers o = 1 -> 1 <= seq ->
  Written seq p = (AwaitNil, p') -> b ∈ handed p -> b_first b <= seq ->
  (b, replicate (length ss) true) ∈ results p \/ batch_span b ∈ reported p.
Proof.
  intros Hr Hf H1 Hs HW Hb Hfb. destruct (reachable_inv _ _ _ Hr Hf) as [Ho Hw].
  pose proof (si_sorted p (reachable_seq _ _ _ Hr Hf H1)) as Hsort.
  unfold Written in HW. destruct (await seq (wmk p)) as [r w'] eqn:E. injection HW as -> _.
  pose proof (await_nil_sorted _ _ _ Hsort E) as Hno.
  destruct (await_cases _ _ _ _ E) as [(? & _)|(_ & _ & _ & Hle)]; [done|].
  specialize (Hle eq_refl). pose proof (written_le_flat p Ho Hw).
  assert (Hin : b ∈ fin_batches p) by (apply (written_finished p seq); done || lia).
  apply fin_elem in Hin as [[|] Hok]; [left; by eapply finished_results|right].
  destruct (wk_failed p Hw b Hok) as [Hpend|?]; [|done].
  specialize (Hno _ Hpend). simpl in Hno. lia.
Qed.

Lemma written_nil_one_worker_witness :
  let p := demo_run 1 (ack_script ++ [AWritten 2]) in
  let b := mkBatch [demo_record 1; demo_record 2] 1 2 in
  (b, [true; true]) ∈ results p \/ batch_span b ∈ reported p.
Proof.
  intros p b. assert (Hh : handed p = [b]) by (vm_compute; reflexivity).
  apply (written_nil_one_worker (demo_opts 1) demo_sinks p (Written 2 p).2 2 b);
    [demo_reach|vm_compute; reflexivity|reflexivity|lia|vm_compute; reflexivity
    |rewrite Hh; by left|vm_compute; discriminate].
Defined.

Definition race_script : list action :=
  push 1 ++ push 2 ++ [ATake; ATake; AFlush 0] ++ push 3 ++ push 4 ++ [ATake; ATake; AFlush 1] ++
  [AWorker 1 [false; true]; AWorker 0 [false; true]].

(** With two workers the guarantee fails: a state is reachable in which
    [Written] answers nil for the last record of a batch that a sink rejected
    and whose failure nobody has been told, so a pull source commits past
    records that one sink never stored. Two batches are in flight, both are
    rejected, and the later one is reported first. *)
Theorem written_nil_two_workers_unsound :
  exists (p p' : Pipeline) (b : batch) (seq : Z),
    reachable (demo_opts 2) demo_sinks p /\ Written seq p = (AwaitNil, p') /\
    (b, false) ∈ finished p /\ b_last b = seq /\
    (forall b' , (b', true) ∈ finished p -> b' <> b) /\ reported p = [].
Proof.
  set (b1 := mkBatch [demo_record 1; demo_record 2] 1 2).
  set (b2 := mkBatch [demo_record 3; demo_record 4] 3 4).
  assert (Hr : reachable (demo_opts 2) demo_sinks (demo_run 2 race_script)) by demo_reach.
  assert (Hfin : finished (demo_run 2 race_script) = [(b2, false); (b1, false)])
    by (vm_compute; reflexivity).
  assert (HW : Written 2 (demo_run 2 race_script) = (AwaitNil, (Written 2 (demo_run 2 race_script)).2))
    by (vm_compute; reflexivity).
  assert (Hrep : reported (demo_run 2 race_script) = []) by (vm_compute; reflexivity).
  revert Hr Hfin HW Hrep. generalize (demo_run 2 race_script) as p. intros p Hr Hfin HW Hrep.
  exists p, (Written 2 p).2, b1, 2. rewrite Hfin. repeat (split; [done || by right; left|]).
  split; [|done]. intros b' [H|[H|H]%elem_of_cons]%elem_of_cons; [discriminate H|discriminate H|].
  by apply not_elem_of_nil in H.
Qed.

(** ** Liveness *)

(** C6. No deadlock: in every reachable state before [Run] returns in which
    there is something to do (an offer in progress while the pipeline is open,
    a record in the buffer, a batch to hand over, a busy worker, or a
    shutdown under way) some goroutine of the pipeline can step; in particular
    a waiting pull source is never forgotten. *)
Theorem pipeline_progress (o : Options) (ss : list string) (p : Pipeline) :
  reachable o ss p -> fits p -> ph p <> Returned ->
  (closing p = false /\ offers p <> []) \/ buf p <> [] \/ ph p <> Loop \/ busy p <> [] ->
  exists a p', internal a = true /\ step a p = Some p'.
Proof.
  intros Hr Hf Hph Hwork.
  assert (Hrun : (ph p = Loop -> buf p <> []) -> exists a p', internal a = true /\ step a p = Some p').
  { intros H. destruct (run_progress o ss p Hr Hf Hph H) as (a & p' & Ha & Hs).
    exists a, p'. split; [by apply run_action_internal|done]. }
  destruct (decide (ph p = Loop)) as [EL|NL]; [|by apply Hrun].
  destruct (decide (buf p = [])) as [Eb|Nb]; [|by apply Hrun].
  destruct (worker_dichotomy p) as [(i & b & Hi)|[Hb _]].
  { destruct (busy_step p i b Hi) as (a & p' & Ha & Hs).
    exists a, p'. split; [by apply run_action_internal|done]. }
  destruct Hwork as [[Hc Ho]|[?|[?|?]]]; try done.
  assert (Hact : forall x, x ∈ offers p -> pc x <> AtWait ->
                 exists a p', internal a = true /\ step a p = Some p').
  { intros x [i Hi]%list_elem_of_lookup Hx. destruct (pc x) as [| | |c] eqn:Epc; [..|done|].
    - exists (ACheck i). simpl. unfold offer_check. rewrite Hi, Epc. eauto.
    - exists (ATry i). simpl. unfold offer_try. rewrite Hi, Epc.
      destruct (tryOffer (rec x) p) as [[? ?] ?]. eauto.
    - exists (ACount i). simpl. unfold offer_count. rewrite Hi, Epc. destruct c; eauto. }
  destruct (offers p) as [|x xs] eqn:Eo; [done|].
  assert (Hx : x ∈ offers p) by (rewrite Eo; by left). rewrite Eo in Hx.
  destruct (decide (pc x = AtWait)) as [Epc|Epc]; [|by apply (Hact x)].
  destruct (reachable_wait _ _ _ Hr) as [_ W2 _].
  destruct W2 as [Hs|[?|(y & Hy & _ & Hy2)]]; [done| |..|done|].
  - exists x. rewrite Eo. by split.
  - exists (AWake 0). simpl. unfold offer_wake. rewrite Eo. simpl. rewrite Epc, Hs. eauto.
  - rewrite Eo in Hy. apply (Hact y); [done|]. destruct Hy2; congruence.
Qed.

Lemma pipeline_progress_witness :
  let p := demo_run 1 (push 1 ++ push 2 ++ [AOffer true "kafka" (demo_record 3); ACheck 0; ATry 0]) in
  exists a p', internal a = true /\ step a p = Some p'.
Proof.
  intros p. apply (pipeline_progress (demo_opts 1) demo_sinks p);
    [demo_reach|vm_compute; reflexivity|vm_compute; discriminate
    |left; split; vm_compute; [reflexivity|discriminate]].
Defined.

(** C7. Shutdown terminates: once the context is cancelled, [Run] can always
    return within [work p] steps of the batcher and the workers, and no
    schedule of the pipeline's own steps is longer than that. *)
Theorem shutdown_terminates (o : Options) (ss : list string) (p : Pipeline) :
  reachable o ss p -> fits p -> closing p = true ->
  (exists acts p', (length acts <= work p)%nat /\ Forall (fun a => run_action a = true) acts /\
     run_script step acts p = Some p' /\ ph p' = Returned) /\
  (forall acts p', Forall (fun a => internal a = true) acts -> run_script step acts p = Some p' ->
     fits p' -> (length acts + work p' <= work p)%nat).
Proof.
  intros Hr Hf Hc. split; [by eapply shutdown_reaches|].
  intros acts. revert p Hr Hf Hc. induction acts as [|a acts IH]; intros p Hr Hf Hc p' Hall Hrun Hf'.
  - injection Hrun as ->. simpl. lia.
  - simpl in Hrun. destruct (step a p) as [p1|] eqn:Es; [|done].
    apply Forall_cons in Hall as [Ha Hall].
    destruct (reachable_inv _ _ _ Hr Hf) as [Ho _].
    pose proof (work_decreases a p p1 Ho Hc Ha Es).
    assert (Hc1 : closing p1 = true) by (destruct a; try done; step_cases Es; done).
    assert (Hf1 : fits p1).
    { apply run_script_star in Hrun. clear -Hrun Hf'.
      induction Hrun as [|s t u _ IH [b Hb]]; [done|]. apply IH. by eapply fits_back. }
    specialize (IH p1 (reachable_snoc _ _ _ _ _ Hr Es) Hf1 Hc1 p' Hall Hrun Hf'). simpl. lia.
Qed.

Lemma shutdown_terminates_witness :
  let p := demo_run 1 (push 1 ++ [ADone]) in
  exists acts p', (length acts <= work p)%nat /\ Forall (fun a => run_action a = true) acts /\
    run_script step acts p = Some p' /\ ph p' = Returned.
Proof.
  intros p. destruct (shutdown_terminates (demo_opts 1) demo_sinks p) as [H _];
    [demo_reach|vm_compute; reflexivity|vm_compute; reflexivity|exact H].
Defined.

(** ** What a shutdown leaves behind *)

(** Steps after the sources have stopped: anything but a new offer. *)
Definition no_offer (p p' : Pipeline) : Prop :=
  exists a, (forall pl src r, a <> AOffer pl src r) /\ step a p = Some p'.

(** No offer in progress, and once the drain has ended the buffer is empty. *)
Record quiet (acc : list FlowRecord) (p : Pipeline) : Prop := {
  qu_offers : offers p = [];
  qu_accepted : accepted p = acc;
  qu_closing : closing p = true;
  qu_buf : match ph p with FinalFlush | WaitWorkers | Returned => buf p = [] | _ => True end
}.

Lemma quiet_step acc p p' : order_inv p -> quiet acc p -> no_offer p p' -> quiet acc p'.
Proof.
  intros Hord [Q1 Q2 Q3 Q4] (a & Hna & H).
  pose proof (oi_closing p Hord) as Hcl. rewrite Q3 in Hcl.
  destruct a as [pl src r|i|i|i|i|i| | | | |i| |i outs|seq]; simpl in H; [by destruct (Hna pl src r)|..];
    unfold offer_check, offer_try, offer_count, offer_wake, offer_cancel in H; rewrite ?Q1 in H; simpl in H;
    try done;
    unfold batcher_take, batcher_timer, batcher_done, batcher_drained, flush, batcher_return,
      worker_done in H.
  - destruct (buf p) as [|r rest]; [done|]. destruct (ph p) eqn:Eph; try done. injection H as <-.
    destruct (full_batch _); constructor; unfold take; pipe_simpl; rewrite ?Eph; done.
  - by destruct (ph p).
  - by destruct (ph p).
  - destruct (ph p) eqn:Eph; try done. destruct (buf p) eqn:Eb; [|done].
    destruct (pending p); injection H as <-; by constructor; pipe_simpl.
  - destruct (workers p !! i) as [[|]|]; try done.
    destruct (ph p) eqn:Eph; try done; injection H as <-; by constructor; pipe_simpl.
  - destruct (ph p) eqn:Eph; try done. case_match; [|done]. injection H as <-.
    by constructor; pipe_simpl.
  - destruct (workers p !! i) as [[b|]|]; try done. destruct (decide _); [|done].
    injection H as <-. by constructor; pipe_simpl.
  - injection H as <-. unfold Written. destruct (await seq (wmk p)) as [r w'].
    destruct r; by constructor; pipe_simpl.
Qed.

Lemma shutdown_flushes (o : Options) (ss : list string) (p p1 p2 : Pipeline) :
  reachable o ss p -> fits p -> offers p = [] ->
  step ADone p = Some p1 -> star no_offer p1 p2 -> ph p2 = Returned ->
  accepted p2 = accepted p /\
  concat (records <$> handed p2) = accepted p /\
  handed p2 ≡ₚ (finished p2).*1 /\ buf p2 = [] /\ pending p2 = [] /\ offers p2 = [].
Proof.
  intros Hr Hf Hof Hd Hst Hret.
  assert (Hq1 : quiet (accepted p) p1).
  { simpl in Hd. unfold batcher_done in Hd. destruct (ph p); try done. injection Hd as <-.
    by constructor; pipe_simpl. }
  assert (Hr1 : reachable o ss p1) by (by eapply reachable_snoc).
  assert (H2 : quiet (accepted p) p2 /\ reachable o ss p2).
  { clear Hret. induction Hst as [|s t u _ IH (a & Hna & Ha)]; [done|].
    destruct IH as [Hq Hrt]; try done. split; [|by eapply reachable_snoc].
    assert (Hft : fits t) by (unfold fits in *; by rewrite (qu_accepted _ _ Hq)).
    destruct (reachable_inv _ _ _ Hrt Hft) as [Ho _]. apply (quiet_step _ t); try done.
    by exists a. }
  destruct H2 as [[Q1 Q2 Q3 Q4] Hr2]. rewrite Hret in Q4.
  assert (Hf2 : fits p2) by (unfold fits in *; by rewrite Q2).
  destruct (reachable_inv _ _ _ Hr2 Hf2) as [Ho Hw].
  pose proof (oi_pending p2 Ho) as Hp. unfold pending_ok in Hp. rewrite Hret in Hp.
  pose proof (oi_split p2 Ho) as Hs. rewrite Hp, Q4, !app_nil_r in Hs.
  pose proof (wk_handed p2 Hw) as Hh. rewrite (wk_returned p2 Hw Hret) in Hh.
  repeat split; try done. by rewrite <- Q2.
Qed.

(** C4. Nothing accepted is lost by an orderly shutdown: if the context is
    cancelled when no offer is in progress (the sources have stopped) then,
    when [Run] has returned, every record ever accepted is in a batch that has
    been through every sink, and nothing is left buffered or pending. *)
Theorem shutdown_flushes_all (o : Options) (ss : list string) (p p1 p2 : Pipeline) :
  reachable o ss p -> fits p -> offers p = [] ->
  step ADone p = Some p1 -> star no_offer p1 p2 -> ph p2 = Returned ->
  accepted p2 = accepted p /\
  concat (records <$> handed p2) = accepted p /\
  handed p2 ≡ₚ (finished p2).*1 /\ buf p2 = [] /\ pending p2 = [].
Proof.
  intros Hr Hf Ho Hd Hst Hret. destruct (shutdown_flushes o ss p p1 p2) as (? & ? & ? & ? & ? & _); done.
Qed.

Lemma shutdown_flushes_all_witness :
  let p := demo_run 1 (push 1) in
  let p1 := demo_run 1 (push 1 ++ [ADone]) in
  let p2 := demo_run 1 (push 1 ++ [ADone; ATake; ADrained; AFlush 0; AWorker 0 [true; true]; AReturn]) in
  ph p2 = Returned /\ concat (records <$> handed p2) = accepted p.
Proof.
  intros p p1 p2.
  assert (Hret : ph p2 = Returned) by (vm_compute; reflexivity).
  assert (Hst : star no_offer p1 p2).
  { apply (star_snoc _ _ (demo_run 1 (push 1 ++ [ADone; ATake; ADrained; AFlush 0; AWorker 0 [true; true]])));
      [|exists AReturn; split; [done|vm_compute; reflexivity]].
    apply (star_snoc _ _ (demo_run 1 (push 1 ++ [ADone; ATake; ADrained; AFlush 0])));
      [|exists (AWorker 0 [true; true]); split; [done|vm_compute; reflexivity]].
    apply (star_snoc _ _ (demo_run 1 (push 1 ++ [ADone; ATake; ADrained])));
      [|exists (AFlush 0); split; [done|vm_compute; reflexivity]].
    apply (star_snoc _ _ (demo_run 1 (push 1 ++ [ADone; ATake])));
      [|exists ADrained; split; [done|vm_compute; reflexivity]].
    apply (star_snoc _ _ p1); [constructor|exists ATake; split; [done|vm_compute; reflexivity]]. }
  destruct (shutdown_flushes_all (demo_opts 1) demo_sinks p p1 p2) as (_ & H & _);
    [demo_reach|vm_compute; reflexivity|vm_compute; reflexivity|vm_compute; reflexivity
    |exact Hst|exact Hret|].
  split; [exact Hret|exact H].
Defined.

Definition stranded_script : list action :=
  [AOffer false "netflow" (demo_record 1); ACheck 0; ADone; ADrained; AReturn; ATry 0; ACount 0].

(** Without that order a record can be stranded: an [Offer] that passed
    the check of [closing] just before the cancellation can still put its
    record into the buffer after the drain. The record is counted as ingested,
    [Run] has returned, and no step of the pipeline will ever write it. *)
Theorem late_offer_stranded :
  exists p, reachable (demo_opts 1) demo_sinks p /\
    ph p = Returned /\ buf p <> [] /\ ingested p = 1 /\ handed p = [] /\
    forall a, run_action a = true -> step a p = None.
Proof.
  assert (Hr : reachable (demo_opts 1) demo_sinks (demo_run 1 stranded_script)) by demo_reach.
  assert (Hph : ph (demo_run 1 stranded_script) = Returned) by (vm_compute; reflexivity).
  assert (Hb : buf (demo_run 1 stranded_script) <> []) by (vm_compute; discriminate).
  assert (Hi : ingested (demo_run 1 stranded_script) = 1) by (vm_compute; reflexivity).
  assert (Hh : handed (demo_run 1 stranded_script) = []) by (vm_compute; reflexivity).
  assert (Hw : workers (demo_run 1 stranded_script) = [None]) by (vm_compute; reflexivity).
  revert Hr Hph Hb Hi Hh Hw. generalize (demo_run 1 stranded_script) as p.
  intros p Hr Hph Hb Hi Hh Hw. exists p. repeat (split; [done|]).
  intros [| | | | | | | | | |i| |i outs|] Ha; try done; simpl.
  - unfold batcher_take. rewrite Hph. by destruct (buf p).
  - unfold batcher_drained. by rewrite Hph.
  - unfold flush. rewrite Hph. by destruct (workers p !! i) as [[|]|].
  - unfold batcher_return. by rewrite Hph.
  - unfold worker_done. rewrite Hw. by destruct i.
Qed.
