(* ===== verification/Decode.v ===== *)
(** * The NetFlow/IPFIX decoder: [internal/source/netflow/decode.go], [netflow.go]

    The wire parsing itself is goflow2's and is a parameter, [Goflow2]: what
    the collector relies on is stated in [Goflow2Laws]. Everything the
    collector adds is modelled: the version dispatch, the length guard of
    NetFlow v5, the per-exporter template systems, the mapping of information
    elements onto a record, the clock arithmetic, and the read loop. *)

From S2P Require Import Prelude GoTime Netip Flow.

(** ** Integers, addresses and clocks *)

(** [beUint]: [n = n<<8 | uint64(c)] over the bytes. *)
Definition beUint (b : list byte) : Z :=
  foldl (fun n c => Z.lor (u64 (Z.shiftl n 8)) c) 0 b.

Definition addr (b : list byte) : Addr := (AddrFromSlice b).1.

Definition ipv4 (n : Z) : Addr :=
  AddrFrom4 [u8 (Z.shiftr n 24); u8 (Z.shiftr n 16); u8 (Z.shiftr n 8); u8 n].

Definition nextHop4 (n : Z) : Addr := if n =? 0 then AddrZero else ipv4 n.

Definition uptimeToTime (boot : Time) (ms : Z) : Time :=
  TruncateMicro (UTC (Add boot (i64 (ms * Millisecond)))).

(** *** IEEE double arithmetic, as far as [ntpToTime] uses it

    A non-negative [float64] is a dyadic rational [m * 2^e]; [round53] rounds
    to a 53-bit significand, to nearest with ties to even. Division by a power
    of two only changes the exponent (the values here are far from the
    subnormal range). *)

Record f64 := mkF64 { mant : Z; expo : Z }.

Definition round53 (m e : Z) : f64 :=
  let d := Z.log2 m + 1 - 53 in
  if d <=? 0 then mkF64 m e
  else
    let q := m / 2 ^ d in
    let r := m mod 2 ^ d in
    let half := 2 ^ (d - 1) in
    let q' := if r <? half then q
              else if half <? r then q + 1
              else if Z.even q then q else q + 1 in
    mkF64 q' (e + d).

Definition f64_of_uint (z : Z) : f64 := round53 z 0.
Definition f64_div_pow2 (x : f64) (k : Z) : f64 := mkF64 (mant x) (expo x - k).
Definition f64_mul (x y : f64) : f64 := round53 (mant x * mant y) (expo x + expo y).
Definition f64_trunc (x : f64) : Z :=
  if 0 <=? expo x then mant x * 2 ^ expo x else mant x / 2 ^ (- expo x).

Definition ntpEpochOffset : Z := 2208988800.

Definition ntpFrac (v : Z) : Z :=
  f64_trunc (f64_mul (f64_div_pow2 (f64_of_uint (Z.land v 4294967295)) 32) (f64_of_uint Second)).

Definition ntpToTime (v : Z) : Time :=
  let secs := i64 (i64 (Z.shiftr v 32) - ntpEpochOffset) in
  TruncateMicro (UTC (Unix secs (ntpFrac v))).

(** ** What goflow2 provides *)

(** [netflowlegacy.RecordsNetFlowV5] and [PacketNetFlowV5], the fields used. *)
Record RecordV5 := mkRecordV5 {
  v5_SrcAddr : Z; v5_DstAddr : Z; v5_NextHop : Z;
  v5_Input : Z; v5_Output : Z;
  v5_DPkts : Z; v5_DOctets : Z;
  v5_First : Z; v5_Last : Z;
  v5_SrcPort : Z; v5_DstPort : Z;
  v5_TCPFlags : Z; v5_Proto : Z;
  v5_SrcAS : Z; v5_DstAS : Z
}.

Record PacketV5 := mkPacketV5 {
  v5_SysUptime : Z;
  v5_UnixSecs : Z;
  v5_UnixNSecs : Z;
  v5_SamplingInterval : Z;
  v5_Records : list RecordV5
}.

(** The information elements the collector maps, by goflow2's constant names. *)
Inductive InfoElement :=
| octetDeltaCount | packetDeltaCount | protocolIdentifier | tcpControlBits
| sourceTransportPort | destinationTransportPort
| sourceIPv4Address | sourceIPv6Address | destinationIPv4Address | destinationIPv6Address
| ipNextHopIPv4Address | ipNextHopIPv6Address
| ingressInterface | egressInterface | bgpSourceAsNumber | bgpDestinationAsNumber
| samplingInterval | samplerRandomInterval | samplingPacketInterval
| flowStartSysUpTime | flowEndSysUpTime
| flowStartSeconds | flowEndSeconds
| flowStartMilliseconds | flowEndMilliseconds
| flowStartMicroseconds | flowEndMicroseconds
| OtherElement (n : Z).

(** [nf.DataField]: [Value] is an [interface{}] that holds bytes or not. *)
Record DataField := mkDataField {
  PenProvided : bool;
  FieldType : InfoElement;
  Value : option (list byte)
}.

(** A flow set: data records, or anything else (templates, options). *)
Inductive FlowSet := DataFlowSet (recs : list (list DataField)) | OtherFlowSet.

Record NFv9Packet := mkNFv9 {
  nf9_Version : Z; nf9_SystemUptime : Z; nf9_UnixSeconds : Z; nf9_FlowSets : list FlowSet
}.
Record IPFIXPacket := mkIPFIX { ipfix_ExportTime : Z; ipfix_FlowSets : list FlowSet }.

Class Goflow2 := {
  gf_error : Type;
  TemplateSystem : Type;
  CreateTemplateSystem : TemplateSystem;
  DecodeMessageV5 : list byte -> result gf_error PacketV5;
  (* decoding may learn templates whether or not it succeeds *)
  DecodeMessageTemplated :
    list byte -> TemplateSystem -> TemplateSystem * result gf_error (NFv9Packet * IPFIXPacket)
}.

(** Field widths of the decoded structs, and one record per count of the
    header once the payload is long enough. *)
Definition v5_record_typed (r : RecordV5) : Prop :=
  is_uint 32 (v5_SrcAddr r) /\ is_uint 32 (v5_DstAddr r) /\ is_uint 32 (v5_NextHop r) /\
  is_uint 16 (v5_Input r) /\ is_uint 16 (v5_Output r) /\
  is_uint 32 (v5_DPkts r) /\ is_uint 32 (v5_DOctets r) /\
  is_uint 32 (v5_First r) /\ is_uint 32 (v5_Last r) /\
  is_uint 16 (v5_SrcPort r) /\ is_uint 16 (v5_DstPort r) /\
  is_uint 8 (v5_TCPFlags r) /\ is_uint 8 (v5_Proto r) /\
  is_uint 16 (v5_SrcAS r) /\ is_uint 16 (v5_DstAS r).

Definition flowset_typed (fs : FlowSet) : Prop :=
  match fs with
  | DataFlowSet recs =>
    Forall (Forall (fun f => match Value f with Some v => bytes_wf v | None => True end)) recs
  | OtherFlowSet => True
  end.

Definition v5HeaderLen : Z := 24.
Definition v5RecordLen : Z := 48.

(** The count field of a NetFlow v5 header: bytes 2 and 3. *)
Definition v5_count (b : list byte) : Z := be_val (take 2 (drop 2 b)).

Class Goflow2Laws `{Goflow2} : Prop := {
  gf_v5_typed b pkt : bytes_wf b -> DecodeMessageV5 b = Ok pkt ->
    Forall v5_record_typed (v5_Records pkt) /\ is_uint 16 (v5_SamplingInterval pkt) /\
    is_uint 32 (v5_SysUptime pkt) /\ is_uint 32 (v5_UnixSecs pkt) /\ is_uint 32 (v5_UnixNSecs pkt);
  gf_v5_count b pkt : bytes_wf b -> DecodeMessageV5 b = Ok pkt ->
    v5HeaderLen + v5_count b * v5RecordLen <= Z.of_nat (length b) ->
    Z.of_nat (length (v5_Records pkt)) = v5_count b;
  gf_templated_typed b ts ts' v9 ipfix : bytes_wf b ->
    DecodeMessageTemplated b ts = (ts', Ok (v9, ipfix)) ->
    Forall flowset_typed (nf9_FlowSets v9) /\ Forall flowset_typed (ipfix_FlowSets ipfix)
}.

(** ** Information elements *)

Definition applyField (f : DataField) (boot : Time) (r : FlowRecord) : FlowRecord :=
  match Value f with
  | None => r
  | Some v =>
    if PenProvided f || bool_decide (v = []) then r
    else
      match FieldType f with
      | octetDeltaCount => set_Bytes (beUint v) r
      | packetDeltaCount => set_Packets (beUint v) r
      | protocolIdentifier => set_Protocol (u8 (beUint v)) r
      | tcpControlBits => set_TCPFlags (u8 (beUint v)) r
      | sourceTransportPort => set_SrcPort (u16 (beUint v)) r
      | destinationTransportPort => set_DstPort (u16 (beUint v)) r
      | sourceIPv4Address | sourceIPv6Address => set_SrcAddr (addr v) r
      | destinationIPv4Address | destinationIPv6Address => set_DstAddr (addr v) r
      | ipNextHopIPv4Address | ipNextHopIPv6Address =>
        let a := addr v in
        if IsValid a && negb (IsUnspecified a) then set_NextHop a r else r
      | ingressInterface => set_InputIface (u32 (beUint v)) r
      | egressInterface => set_OutputIface (u32 (beUint v)) r
      | bgpSourceAsNumber => set_SrcAS (u32 (beUint v)) r
      | bgpDestinationAsNumber => set_DstAS (u32 (beUint v)) r
      | samplingInterval | samplerRandomInterval | samplingPacketInterval =>
        let n := u32 (beUint v) in if 0 <? n then set_SamplingRate n r else r
      | flowStartSysUpTime => set_FirstSwitched (uptimeToTime boot (u32 (beUint v))) r
      | flowEndSysUpTime => set_LastSwitched (uptimeToTime boot (u32 (beUint v))) r
      | flowStartSeconds => set_FirstSwitched (UTC (Unix (i64 (beUint v)) 0)) r
      | flowEndSeconds => set_LastSwitched (UTC (Unix (i64 (beUint v)) 0)) r
      | flowStartMilliseconds => set_FirstSwitched (UTC (UnixMilli (i64 (beUint v)))) r
      | flowEndMilliseconds => set_LastSwitched (UTC (UnixMilli (i64 (beUint v)))) r
      | flowStartMicroseconds => set_FirstSwitched (ntpToTime (beUint v)) r
      | flowEndMicroseconds => set_LastSwitched (ntpToTime (beUint v)) r
      | OtherElement _ => r
      end
  end.

(** ** The decoder *)

Section decoder.
Context `{Goflow2}.

Inductive DecodeError :=
| errShort
| errV5Payload (len count : Z)
| errVersion (v : Z)
| errGoflow2 (e : gf_error).

(** [decoder.templates]: one template system per exporter. *)
Abbreviation decoder := (gmap Addr TemplateSystem).

Definition templatesFor (exporter : Addr) (d : decoder) : TemplateSystem * decoder :=
  match d !! exporter with
  | Some ts => (ts, d)
  | None => (CreateTemplateSystem, <[exporter := CreateTemplateSystem]> d)
  end.

Definition v5_boot (pkt : PacketV5) : Time :=
  Add (Unix (v5_UnixSecs pkt) (v5_UnixNSecs pkt)) (i64 (- v5_SysUptime pkt * Millisecond)).

Definition v5_rate (pkt : PacketV5) : Z :=
  let rate := u32 (Z.land (v5_SamplingInterval pkt) 16383) in
  if rate =? 0 then 1 else rate.

(** The composite literal appended for one v5 record. *)
Definition v5_record (pkt : PacketV5) (exporter : Addr) (receivedAt : Time) (r : RecordV5) : FlowRecord :=
  mkFlowRecord receivedAt exporter 0 FlowTypeNetFlow5
    (uptimeToTime (v5_boot pkt) (v5_First r)) (uptimeToTime (v5_boot pkt) (v5_Last r))
    (ipv4 (v5_SrcAddr r)) (ipv4 (v5_DstAddr r)) (v5_SrcPort r) (v5_DstPort r)
    (v5_Proto r) (v5_TCPFlags r) (v5_DPkts r) (v5_DOctets r) (v5_rate pkt)
    (v5_Input r) (v5_Output r) (v5_SrcAS r) (v5_DstAS r) (nextHop4 (v5_NextHop r)) None.

Definition decodeV5 (b : list byte) (exporter : Addr) (receivedAt : Time)
  : result DecodeError (list FlowRecord) :=
  if Z.of_nat (length b) <? v5HeaderLen then Err errShort
  else
    let count := be_val (take 2 (drop 2 b)) in
    if Z.of_nat (length b) <? v5HeaderLen + count * v5RecordLen
    then Err (errV5Payload (Z.of_nat (length b)) count)
    else
      match DecodeMessageV5 b with
      | Err e => Err (errGoflow2 e)
      | Ok pkt => Ok (v5_record pkt exporter receivedAt <$> v5_Records pkt)
      end.

(** One data record: apply its fields in order, then default LastSwitched. *)
Definition templated_record (base : FlowRecord) (boot : Time) (fields : list DataField) : FlowRecord :=
  let r := foldl (fun r f => applyField f boot r) base fields in
  if IsZero (LastSwitched r) then set_LastSwitched (FirstSwitched r) r else r.

Definition flowset_records (base : FlowRecord) (boot : Time) (fs : FlowSet) : list FlowRecord :=
  match fs with
  | DataFlowSet recs => templated_record base boot <$> recs
  | OtherFlowSet => []
  end.

(** The header-dependent part: flow sets, flow type and boot anchor. *)
Definition templated_header (v9 : NFv9Packet) (ipfix : IPFIXPacket) : list FlowSet * FlowType * Time :=
  if nf9_Version v9 =? 9 then
    (nf9_FlowSets v9, FlowTypeNetFlow9,
     Add (Unix (nf9_UnixSeconds v9) 0) (i64 (- nf9_SystemUptime v9 * Millisecond)))
  else (ipfix_FlowSets ipfix, FlowTypeIPFIX, Unix (ipfix_ExportTime ipfix) 0).

Definition templated_base (ft : FlowType) (exporter : Addr) (receivedAt : Time) : FlowRecord :=
  set_SamplingRate 1 (set_ExporterAddr exporter (set_ReceivedAt receivedAt (set_FlowType ft zeroRecord))).

Definition decodeTemplated (b : list byte) (exporter : Addr) (receivedAt : Time) (d : decoder)
  : result DecodeError (list FlowRecord) * decoder :=
  let '(ts, d1) := templatesFor exporter d in
  let '(ts', res) := DecodeMessageTemplated b ts in
  let d2 := <[exporter := ts']> d1 in
  match res with
  | Err e => (Err (errGoflow2 e), d2)
  | Ok (v9, ipfix) =>
    let '(flowSets, ft, boot) := templated_header v9 ipfix in
    (Ok (concat (flowset_records (templated_base ft exporter receivedAt) boot <$> flowSets)), d2)
  end.

(** [decoder.decode]: sniff the version and dispatch. *)
Definition decode (b : list byte) (exporter : Addr) (receivedAt : Time) (d : decoder)
  : result DecodeError (list FlowRecord) * decoder :=
  match b with
  | b0 :: b1 :: _ =>
    let version := be_val [b0; b1] in
    if version =? 5 then (decodeV5 b exporter receivedAt, d)
    else if (version =? 9) || (version =? 10) then decodeTemplated b exporter receivedAt d
    else (Err (errVersion version), d)
  | _ => (Err errShort, d)
  end.

(** ** The read loop ([netflow.go])

    What [ReadFrom] returns: a datagram with its sender and the clock at that
    moment, or a transient error, which is logged and skipped. *)

Inductive net_addr := UDPAddr (ip : list byte) | OtherNetAddr.

Definition exporterAddr (a : net_addr) : Addr :=
  match a with
  | UDPAddr ip => let '(x, ok) := AddrFromSlice ip in if ok then Unmap x else AddrZero
  | OtherNetAddr => AddrZero
  end.

(** [sent] is the number of records handed on before the context is done, or
    [None] when it is not done during the datagram. *)
Inductive read_event :=
| ReadDatagram (b : list byte) (from : net_addr) (now : Time) (sent : option nat)
| ReadError (closed : bool).

Record listener := mkListener {
  l_dec : decoder;
  l_running : bool;
  decode_errors : Z;
  emitted : list FlowRecord
}.

Definition read_one (s : listener) (e : read_event) : listener :=
  if negb (l_running s) then s
  else
    match e with
    | ReadError closed => mkListener (l_dec s) (negb closed) (decode_errors s) (emitted s)
    | ReadDatagram b from now sent =>
      let receivedAt := TruncateMicro (UTC now) in
      match decode b (exporterAddr from) receivedAt (l_dec s) with
      | (Err _, d') => mkListener d' true (decode_errors s + 1) (emitted s)
      | (Ok recs, d') =>
        match sent with
        | None => mkListener d' true (decode_errors s) (emitted s ++ recs)
        | Some k =>
          mkListener d' (bool_decide (length recs <= k)%nat) (decode_errors s)
            (emitted s ++ take k recs)
        end
      end
    end.

Definition Start (evs : list read_event) : listener :=
  foldl read_one (mkListener ∅ true 0 []) evs.

End decoder.
