(* ===== verification/DecodeThms.v ===== *)
(** * Properties of the decoder and the UDP read loop *)

From S2P Require Import Prelude GoTime Netip Flow Decode.

(** ** Big-endian integers *)

Lemma lor_byte k c : is_byte c -> Z.lor (k * 256) c = k * 256 + c.
Proof.
  intros Hc. unfold is_byte in Hc.
  replace (k * 256) with (Z.shiftl k 8) by (by rewrite Z.shiftl_mul_pow2).
  symmetry. rewrite <- Z.lxor_lor, Z.add_nocarry_lxor; [done|..];
    (apply Z.bits_inj'; intros i Hi; rewrite Z.land_spec, Z.bits_0;
     destruct (decide (i < 8));
     [by rewrite Z.shiftl_spec_low
     |rewrite <- (Z.mod_small c (2 ^ 8)), Z.mod_pow2_bits_high by lia; apply andb_false_r]).
Qed.

(** [beUint] keeps the low 64 bits of the value. *)
Lemma beUint_mod b : bytes_wf b -> beUint b = u64 (be_val b).
Proof.
  induction b as [|c b IH] using rev_ind; intros H; [done|].
  apply Forall_app in H as [Hb Hc]. apply Forall_cons in Hc as [Hc _].
  unfold beUint in *. rewrite foldl_app, be_val_snoc. simpl. rewrite IH by done.
  rewrite Z.shiftl_mul_pow2 by lia. change (2 ^ 8) with 256.
  unfold wrap_u. rewrite Zmult_mod_idemp_l.
  change (2 ^ 64) with (2 ^ 56 * 256).
  rewrite Z.mul_mod_distr_r, lor_byte by (done || lia). unfold is_byte in Hc.
  rewrite (Z.mul_comm (2 ^ 56) 256), Z.rem_mul_r by lia.
  rewrite (Z.add_comm (be_val b * 256) c), Z.mod_add, (Z.mod_small c), Z.div_add, (Z.div_small c) by lia.
  by rewrite Z.add_0_l, (Z.add_comm c), (Z.mul_comm 256).
Qed.

Lemma beUint_uint b : bytes_wf b -> is_uint 64 (beUint b).
Proof. intros H. rewrite beUint_mod by done. apply wrap_u_range. lia. Qed.

Lemma shr_byte n k : 0 <= k -> u8 (Z.shiftr n k) = n / 2 ^ k mod 256.
Proof. intros. by rewrite Z.shiftr_div_pow2. Qed.

Lemma ipv4_spec n : is_uint 32 n -> ipv4 n = Addr4 n.
Proof.
  intros Hn. unfold ipv4, AddrFrom4. f_equal. rewrite <- (be_val_bytes_exact 4 n Hn) at 5.
  f_equal. unfold be_bytes. simpl. rewrite !shr_byte by lia.
  change (2 ^ 24) with (256 * 256 * 256). change (2 ^ 16) with (256 * 256). change (2 ^ 8) with 256.
  by rewrite <- !Z.div_div by lia.
Qed.

(** ** The NTP fraction is exact *)

Lemma round53_divisible m e d :
  0 < m -> Z.log2 m + 1 - 53 <= d -> 0 <= d -> m mod 2 ^ d = 0 ->
  exists q k, round53 m e = mkF64 q (e + k) /\ 0 <= k /\ m = q * 2 ^ k.
Proof.
  intros Hm Hd Hd0 Hdiv. unfold round53. set (d' := Z.log2 m + 1 - 53) in *.
  destruct (d' <=? 0) eqn:E.
  - exists m, 0. rewrite Z.add_0_r, Z.pow_0_r. repeat split; lia.
  - apply Z.leb_gt in E. exists (m / 2 ^ d'), d'.
    assert (Hr : m mod 2 ^ d' = 0).
    { apply Z.mod_divide; [lia|]. apply Z.mod_divide in Hdiv; [|lia].
      eapply Z.divide_trans; [|exact Hdiv]. exists (2 ^ (d - d')).
      rewrite <- Z.pow_add_r by lia. f_equal. lia. }
    rewrite Hr. assert (0 < 2 ^ (d' - 1)) by (apply Z.pow_pos_nonneg; lia).
    rewrite (proj2 (Z.ltb_lt 0 (2 ^ (d' - 1)))) by done.
    split; [done|]. split; [lia|]. rewrite (Z.div_mod m (2 ^ d')) at 1 by lia. lia.
Qed.

(** Rounding never bites: [10^9] is [2^9] times [5^9 < 2^21], so the product
    with a 32-bit fraction fits the 53-bit significand. *)
Lemma ntpFrac_floor v : 0 <= v -> ntpFrac v = (v mod 2 ^ 32) * Second / 2 ^ 32.
Proof.
  intros Hv. unfold ntpFrac. change 4294967295 with (Z.ones 32). rewrite Z.land_ones by lia.
  pose proof (Z.mod_pos_bound v (2 ^ 32)). set (f := v mod 2 ^ 32) in *.
  destruct (decide (f = 0)) as [->|Hf]; [done|].
  assert (Hlf : Z.log2 f < 32) by (apply Z.log2_lt_pow2; lia).
  assert (E1 : f64_of_uint f = mkF64 f 0).
  { unfold f64_of_uint, round53. by rewrite (proj2 (Z.leb_le _ 0)) by lia. }
  assert (E2 : f64_of_uint Second = mkF64 Second 0) by done.
  rewrite E1, E2. unfold f64_mul, f64_div_pow2. cbn [mant expo].
  assert (Hlog : Z.log2 (f * Second) < 62)
    by (apply Z.log2_lt_pow2; unfold Second; lia).
  destruct (round53_divisible (f * Second) (0 - 32 + 0) 9) as (q & k & -> & Hk & Hq);
    [unfold Second; lia|lia|lia| |].
  { unfold Second. change 1000000000 with (1953125 * 2 ^ 9). rewrite Z.mul_assoc.
    apply Z.mod_mul. lia. }
  unfold f64_trunc. cbn [mant expo]. rewrite Hq.
  destruct (0 <=? 0 - 32 + 0 + k) eqn:E.
  - apply Z.leb_le in E. replace (0 - 32 + 0 + k) with (k - 32) by lia.
    replace (q * 2 ^ k) with (q * 2 ^ (k - 32) * 2 ^ 32); [by rewrite Z.div_mul|].
    rewrite <- Z.mul_assoc, <- Z.pow_add_r by lia. f_equal. f_equal. lia.
  - apply Z.leb_gt in E. replace (- (0 - 32 + 0 + k)) with (32 - k) by lia.
    replace (2 ^ 32) with (2 ^ (32 - k) * 2 ^ k) by (rewrite <- Z.pow_add_r by lia; f_equal; lia).
    rewrite Z.div_mul_cancel_r by lia. done.
Qed.

(** ** Well-formed output *)

Record emit_ok (r : FlowRecord) : Prop := {
  eo_typed : record_typed r;
  eo_received : whole_micro (ReceivedAt r);
  eo_first : whole_micro (FirstSwitched r);
  eo_last : whole_micro (LastSwitched r);
  eo_type : Valid (FlowTypeOf r) = true;
  eo_rate : 1 <= SamplingRate r;
  eo_dedup : DedupKey r = None;
  eo_id : ExporterID r = 0;
  eo_zones : zoneless (SrcAddr r) /\ zoneless (DstAddr r) /\ zoneless (NextHop r) /\
             zoneless (ExporterAddr r);
  eo_exporter : Unmap (ExporterAddr r) = ExporterAddr r
}.

Lemma uptimeToTime_wf b ms : time_wf (uptimeToTime b ms).
Proof. apply TruncateMicro_wf, Add_wf. Qed.
Lemma ntpToTime_wf v : time_wf (ntpToTime v).
Proof. apply TruncateMicro_wf, Unix_wf. Qed.
Lemma addr_typed v : bytes_wf v -> addr_wf (addr v).
Proof. apply AddrFromSlice_wf. Qed.
Lemma addr_zoneless v : zoneless (addr v).
Proof. apply AddrFromSlice_zoneless. Qed.

#[export] Hint Resolve uptimeToTime_wf ntpToTime_wf addr_typed addr_zoneless beUint_uint : gotime.
#[export] Hint Resolve wrap_u_range : gotime.
#[export] Hint Extern 1 (0 <= _) => lia : gotime.
#[export] Hint Extern 1 (whole_micro (uptimeToTime _ _)) => apply TruncateMicro_whole : gotime.
#[export] Hint Extern 1 (whole_micro (ntpToTime _)) => apply TruncateMicro_whole : gotime.

Lemma UnixMilli_wf ms : time_wf (UnixMilli ms).
Proof. apply Unix_wf. Qed.
#[export] Hint Resolve UnixMilli_wf : gotime.
#[export] Hint Unfold UTC : gotime.

(** Every information element keeps a record well formed. *)
Lemma applyField_ok f boot r :
  match Value f with Some v => bytes_wf v | None => True end ->
  emit_ok r -> emit_ok (applyField f boot r).
Proof.
  intros Hv Hr. unfold applyField. destruct (Value f) as [v|]; [|done].
  destruct (_ || _); [done|].
  destruct Hr as [[] ? ? ? ? ? ? ? (? & ? & ? & ?) ?].
  destruct (FieldType f); simpl; try (destruct (_ && _)); try (destruct (0 <? _) eqn:Er);
    (constructor; [constructor|..]); simpl; unfold UTC; auto with gotime;
    try (apply Z.ltb_lt in Er; lia).
Qed.

Lemma templated_record_ok base boot fs :
  Forall (fun f => match Value f with Some v => bytes_wf v | None => True end) fs ->
  emit_ok base -> emit_ok (templated_record base boot fs).
Proof.
  intros Hfs Hb. unfold templated_record.
  assert (Hr : emit_ok (foldl (fun r f => applyField f boot r) base fs)).
  { revert base Hb. induction Hfs as [|f fs Hf _ IH]; intros base Hb; simpl; [done|].
    by apply IH, applyField_ok. }
  destruct (IsZero _); [|done].
  destruct Hr as [[] ? ? ? ? ? ? ? (? & ? & ? & ?) ?].
  constructor; [constructor|..]; simpl; auto.
Qed.

(** ** Decoding as a whole *)

Lemma whole_time_wf t : time_wf t -> time_wf (TruncateMicro (UTC t)).
Proof. apply TruncateMicro_wf. Qed.

Lemma exporterAddr_ok a :
  match a with UDPAddr ip => bytes_wf ip | OtherNetAddr => True end ->
  addr_wf (exporterAddr a) /\ zoneless (exporterAddr a) /\ Unmap (exporterAddr a) = exporterAddr a.
Proof.
  destruct a as [ip|]; [|done]. intros Hip. unfold exporterAddr.
  pose proof (AddrFromSlice_wf ip Hip) as W. pose proof (AddrFromSlice_zoneless ip) as Z.
  destruct (AddrFromSlice ip) as [x []]; [|done]. simpl in *.
  split; [by apply Unmap_wf|]. split; [|apply Unmap_idemp].
  destruct x as [|n|n z]; simpl; [done..|]. by destruct (_ =? _).
Qed.

Section decode_facts.
Context `{GL : Goflow2Laws}.

Definition exporter_ok (e : Addr) : Prop := addr_wf e /\ zoneless e /\ Unmap e = e.

Lemma templated_base_ok ft e t :
  exporter_ok e -> time_wf t -> whole_micro t -> Valid ft = true -> emit_ok (templated_base ft e t).
Proof. intros (? & ? & ?) ? ? ?. constructor; [constructor|..]; done. Qed.

Lemma v5_rate_range pkt : is_uint 16 (v5_SamplingInterval pkt) -> 1 <= v5_rate pkt < 2 ^ 14.
Proof.
  intros Hs. unfold v5_rate. change 16383 with (Z.ones 14). rewrite Z.land_ones by lia.
  pose proof (Z.mod_pos_bound (v5_SamplingInterval pkt) (2 ^ 14)).
  rewrite wrap_u_small by (unfold is_uint; lia). destruct (_ =? 0) eqn:E; lia.
Qed.

Lemma ipv4_ok n : is_uint 32 n -> addr_wf (ipv4 n) /\ zoneless (ipv4 n).
Proof. intros Hn. by rewrite ipv4_spec. Qed.

Lemma v5_record_ok pkt e t r :
  exporter_ok e -> time_wf t -> whole_micro t ->
  is_uint 16 (v5_SamplingInterval pkt) -> v5_record_typed r -> emit_ok (v5_record pkt e t r).
Proof.
  intros (? & ? & ?) ? ? Hs (Hsrc & Hdst & Hnh & Hrest). pose proof (v5_rate_range pkt Hs).
  destruct (ipv4_ok _ Hsrc), (ipv4_ok _ Hdst), (ipv4_ok _ Hnh).
  assert (addr_wf (nextHop4 (v5_NextHop r)) /\ zoneless (nextHop4 (v5_NextHop r))) as [? ?]
    by (unfold nextHop4; by destruct (_ =? 0)).
  unfold is_uint in *.
  constructor; [constructor|..]; unfold is_uint, is_sint; simpl; auto with gotime; intuition lia.
Qed.

Lemma decodeV5_records_ok b e t recs :
  bytes_wf b -> exporter_ok e -> time_wf t -> whole_micro t ->
  decodeV5 b e t = Ok recs -> Forall emit_ok recs.
Proof.
  intros Hb He Ht Hm. unfold decodeV5. do 2 (destruct (_ <? _); [done|]).
  destruct (DecodeMessageV5 b) as [pkt|] eqn:E; [|done]. intros [= <-].
  destruct (gf_v5_typed b pkt Hb E) as (Hr & Hs & _).
  apply Forall_fmap. eapply Forall_impl; [exact Hr|]. intros r Hr'. by apply v5_record_ok.
Qed.

Lemma flowset_records_ok base boot fs :
  emit_ok base -> flowset_typed fs -> Forall emit_ok (flowset_records base boot fs).
Proof.
  intros Hb Hf. destruct fs as [recs|]; simpl in *; [|done].
  apply Forall_fmap. eapply Forall_impl; [exact Hf|]. intros fl Hfl. by apply templated_record_ok.
Qed.

Lemma decodeTemplated_records_ok b e t d recs d' :
  bytes_wf b -> exporter_ok e -> time_wf t -> whole_micro t ->
  decodeTemplated b e t d = (Ok recs, d') -> Forall emit_ok recs.
Proof.
  intros Hb He Ht Hm. unfold decodeTemplated. destruct (templatesFor e d) as [ts d1].
  destruct (DecodeMessageTemplated b ts) as [ts' [[v9 ipfix]|]] eqn:E; [|done].
  destruct (gf_templated_typed _ _ _ _ _ Hb E) as [H9 Hi].
  unfold templated_header. destruct (_ =? 9); intros [= <- _]; apply Forall_concat, Forall_fmap;
    (eapply Forall_impl; [eassumption|]); intros fs Hfs; simpl;
    apply flowset_records_ok; auto; by apply templated_base_ok.
Qed.

Lemma decode_records_ok b e t d recs d' :
  bytes_wf b -> exporter_ok e -> time_wf t -> whole_micro t ->
  decode b e t d = (Ok recs, d') -> Forall emit_ok recs.
Proof.
  intros Hb He Ht Hm. unfold decode. destruct b as [|b0 [|b1 b]]; [done..|].
  destruct (_ =? 5); [intros [= Hd _]; by eapply decodeV5_records_ok in Hd|].
  destruct (_ || _); [by apply decodeTemplated_records_ok|done].
Qed.

Definition event_typed (e : read_event) : Prop :=
  match e with
  | ReadDatagram b from now _ =>
    bytes_wf b /\ time_wf now /\ match from with UDPAddr ip => bytes_wf ip | OtherNetAddr => True end
  | ReadError _ => True
  end.

Lemma read_one_ok s e :
  event_typed e -> Forall emit_ok (emitted s) -> Forall emit_ok (emitted (read_one s e)).
Proof.
  intros He Hs. unfold read_one. destruct (negb _); [done|].
  destruct e as [b from now sent|]; [|done]. destruct He as (Hb & Ht & Hf).
  destruct (decode _ _ _ _) as [[recs|] d'] eqn:E; [|done].
  assert (Forall emit_ok recs).
  { eapply decode_records_ok; [exact Hb| | | |exact E];
      [by apply exporterAddr_ok|by apply whole_time_wf|apply TruncateMicro_whole]. }
  destruct sent; simpl; apply Forall_app; split; try done. by apply Forall_take.
Qed.

End decode_facts.

(** ** Exporters do not interfere *)

Section isolation.
Context `{Goflow2}.

(** Everything but a shutdown: the listener keeps running. *)
Definition uninterrupted (e : read_event) : Prop :=
  match e with ReadDatagram _ _ _ sent => sent = None | ReadError closed => closed = false end.

Definition from_exporter (x : Addr) (e : read_event) : Prop :=
  match e with ReadDatagram _ from _ _ => exporterAddr from = x | ReadError _ => False end.

#[export] Instance from_exporter_dec x e : Decision (from_exporter x e).
Proof. destruct e; simpl; apply _. Defined.

Lemma templatesFor_spec e d :
  templatesFor e d = (default CreateTemplateSystem (d !! e),
                      <[e := default CreateTemplateSystem (d !! e)]> d).
Proof. unfold templatesFor. destruct (d !! e) eqn:E; simpl; [by rewrite insert_id|done]. Qed.

(** What is decoded depends on the exporter's own templates only. *)
Lemma decode_own b e t d1 d2 :
  d1 !! e = d2 !! e ->
  (decode b e t d1).1 = (decode b e t d2).1 /\ (decode b e t d1).2 !! e = (decode b e t d2).2 !! e.
Proof.
  intros E. unfold decode. destruct b as [|b0 [|b1 b]]; [done..|].
  destruct (_ =? 5); [done|]. destruct (_ || _); [|done].
  unfold decodeTemplated. rewrite !templatesFor_spec, E. simpl.
  destruct (DecodeMessageTemplated _ _) as [ts' [[v9 ipfix]|]]; simpl.
  - destruct (templated_header v9 ipfix) as [[fs ft] boot]. simpl. by rewrite !lookup_insert_eq.
  - by rewrite !lookup_insert_eq.
Qed.

Lemma decode_other b e x t d : e <> x -> (decode b e t d).2 !! x = d !! x.
Proof.
  intros Hne. unfold decode. destruct b as [|b0 [|b1 b]]; [done..|].
  destruct (_ =? 5); [done|]. destruct (_ || _); [|done].
  unfold decodeTemplated. rewrite templatesFor_spec. simpl.
  destruct (DecodeMessageTemplated _ _) as [ts' [[v9 ipfix]|]]; simpl.
  - destruct (templated_header v9 ipfix) as [[fs ft] boot]. simpl.
    by rewrite !lookup_insert_ne.
  - by rewrite !lookup_insert_ne.
Qed.

Lemma applyField_exporter f boot r : ExporterAddr (applyField f boot r) = ExporterAddr r.
Proof.
  unfold applyField. destruct (Value f) as [v|]; [|done]. destruct (_ || _); [done|].
  destruct (FieldType f); simpl; try done; by destruct (_ && _) || destruct (_ <? _).
Qed.

Lemma templated_record_exporter base boot fs :
  ExporterAddr (templated_record base boot fs) = ExporterAddr base.
Proof.
  unfold templated_record.
  assert (E : ExporterAddr (foldl (fun r f => applyField f boot r) base fs) = ExporterAddr base).
  { revert base. induction fs as [|f fs IH]; intros base; simpl; [done|].
    by rewrite IH, applyField_exporter. }
  by destruct (IsZero _).
Qed.

Lemma decode_exporter b e t d recs d' :
  decode b e t d = (Ok recs, d') -> Forall (fun r => ExporterAddr r = e) recs.
Proof.
  unfold decode. destruct b as [|b0 [|b1 b]]; [done..|]. destruct (_ =? 5).
  - unfold decodeV5. do 2 (destruct (_ <? _); [done|]).
    destruct (DecodeMessageV5 _); [|done]. intros [= <- _]. by apply Forall_fmap, Forall_true.
  - destruct (_ || _); [|done]. unfold decodeTemplated. destruct (templatesFor e d) as [ts d1].
    destruct (DecodeMessageTemplated _ _) as [ts' [[v9 ipfix]|]]; [|done].
    destruct (templated_header v9 ipfix) as [[fs ft] boot]. intros [= <- _].
    apply Forall_concat, Forall_fmap, Forall_true. intros [recs|]; simpl; [|done].
    apply Forall_fmap, Forall_true. intros fl. simpl. by rewrite templated_record_exporter.
Qed.

(** Two listeners that agree on what concerns exporter [x]. *)
Definition agree (x : Addr) (s1 s2 : listener) : Prop :=
  l_running s1 = true /\ l_running s2 = true /\ l_dec s1 !! x = l_dec s2 !! x /\
  filter (fun r => ExporterAddr r = x) (emitted s1) = emitted s2.

Lemma filter_all {A} (P : A -> Prop) `{!forall a, Decision (P a)} l : Forall P l -> filter P l = l.
Proof. induction 1; [done|]. rewrite filter_cons_True; [by f_equal|done]. Qed.

Lemma filter_none {A} (P : A -> Prop) `{!forall a, Decision (P a)} l :
  Forall (fun a => ~ P a) l -> filter P l = [].
Proof. induction 1; [done|]. by rewrite filter_cons_False. Qed.

Lemma read_one_agree x s1 s2 e :
  uninterrupted e -> agree x s1 s2 ->
  agree x (read_one s1 e) (if decide (from_exporter x e) then read_one s2 e else s2).
Proof.
  intros He (R1 & R2 & D & F). unfold read_one. rewrite R1, R2. simpl.
  destruct e as [b from now sent|closed]; simpl in He; subst; simpl; [|done].
  case_decide as Hx.
  - subst x. destruct (decode_own b (exporterAddr from) (TruncateMicro (UTC now)) _ _ D) as [E1 E2].
    destruct (decode b _ _ (l_dec s1)) as [[recs|] d1] eqn:Ed,
             (decode b _ _ (l_dec s2)) as [[recs'|] d2]; simpl in E1, E2; simplify_eq/=; [|done].
    repeat split; [done|]. simpl. rewrite filter_app, F. f_equal.
    by apply filter_all, (decode_exporter _ _ _ _ _ _ Ed).
  - pose proof (decode_other b _ x (TruncateMicro (UTC now)) (l_dec s1) Hx) as E2.
    destruct (decode b _ _ (l_dec s1)) as [[recs|] d1] eqn:Ed; simpl in E2.
    + repeat split; simpl; [done|by rewrite E2|]. rewrite filter_app, F, filter_none, app_nil_r; [done|].
      eapply Forall_impl; [exact (decode_exporter _ _ _ _ _ _ Ed)|]. intros r Hr. simpl. by rewrite Hr.
    + repeat split; simpl; [done|by rewrite E2|done].
Qed.

Lemma reads_agree x evs s1 s2 :
  Forall uninterrupted evs -> agree x s1 s2 ->
  agree x (foldl read_one s1 evs) (foldl read_one s2 (filter (from_exporter x) evs)).
Proof.
  intros Hevs. revert s1 s2. induction Hevs as [|e evs He _ IH]; intros s1 s2 Hs; [done|].
  rewrite filter_cons. simpl. pose proof (read_one_agree x s1 s2 e He Hs) as Hstep.
  destruct (decide (from_exporter x e)); by apply IH.
Qed.

End isolation.

(** ** A concrete goflow2

    A parser written from the documented v5 layout (24-byte header, 48-byte
    records), and a two-message templated decoder, to exercise the theorems. *)

Definition at_ (b : list byte) (off len : nat) : Z := be_val (take len (drop off b)).

Definition ref_v5_record (b : list byte) : RecordV5 :=
  mkRecordV5 (at_ b 0 4) (at_ b 4 4) (at_ b 8 4) (at_ b 12 2) (at_ b 14 2)
    (at_ b 16 4) (at_ b 20 4) (at_ b 24 4) (at_ b 28 4) (at_ b 32 2) (at_ b 34 2)
    (at_ b 37 1) (at_ b 38 1) (at_ b 40 2) (at_ b 42 2).

Definition ref_v5 (b : list byte) : result unit PacketV5 :=
  Ok (mkPacketV5 (at_ b 4 4) (at_ b 8 4) (at_ b 12 4) (at_ b 22 2)
        ((fun i => ref_v5_record (drop (24 + 48 * i) b)) <$> seq 0 (Z.to_nat (v5_count b)))).

(** Version 9 with a fourth byte of 0 teaches the template; otherwise the
    rest is one four-byte source address, understood once it is known. *)
Definition ref_templated (b : list byte) (known : bool)
  : bool * result unit (NFv9Packet * IPFIXPacket) :=
  let ipfix := mkIPFIX 0 [] in
  match b with
  | _ :: _ :: _ :: 0 :: _ => (true, Ok (mkNFv9 9 0 0 [OtherFlowSet], ipfix))
  | _ :: _ :: _ :: _ :: rest =>
    if known
    then (known, Ok (mkNFv9 9 0 1700000000
           [DataFlowSet [[mkDataField false sourceIPv4Address (Some rest)]]], ipfix))
    else (known, Err ())
  | _ => (known, Err ())
  end.

#[export] Instance refGoflow2 : Goflow2 := {|
  gf_error := unit; TemplateSystem := bool; CreateTemplateSystem := false;
  DecodeMessageV5 := ref_v5; DecodeMessageTemplated := ref_templated |}.

Lemma at_range b off len w :
  bytes_wf b -> 8 * Z.of_nat len <= w -> is_uint w (at_ b off len).
Proof.
  intros Hb Hw. unfold at_.
  assert (Hs : bytes_wf (take len (drop off b))) by (by apply Forall_take, Forall_drop).
  eapply is_uint_le; [|exact (be_val_range _ Hs)]. rewrite length_take. lia.
Qed.

Lemma ref_v5_record_typed b : bytes_wf b -> v5_record_typed (ref_v5_record b).
Proof.
  intros Hb. unfold v5_record_typed, ref_v5_record. simpl.
  do 14 (split; [by apply at_range|]). by apply at_range.
Qed.

#[export] Instance refGoflow2_laws : Goflow2Laws.
Proof.
  split.
  - intros b pkt Hb [= <-]. cbn [v5_Records v5_SamplingInterval v5_SysUptime v5_UnixSecs v5_UnixNSecs].
    split; [|by split_and!; apply at_range].
    apply Forall_fmap, Forall_true. intros i. by apply ref_v5_record_typed, Forall_drop.
  - intros b pkt Hb [= <-] Hlen. cbn [v5_Records]. rewrite length_fmap, length_seq.
    assert (0 <= v5_count b) by (apply (at_range b 2 2 16 Hb); done). lia.
  - intros b ts ts' v9 ipfix Hb. simpl. unfold ref_templated.
    destruct b as [|? [|? [|? [|[] rest]]]]; try done; try (destruct ts; try done); intros [= <- <- <-];
      simpl; repeat constructor; simpl; by repeat (apply Forall_cons in Hb as [_ Hb]).
Qed.

(** A v5 datagram of [n] equal records, each of 1500 bytes in one packet,
    10.0.0.1:80 to 10.0.0.2:80, from boot + 1 s to boot + 2 s. *)
Definition sample_v5 (n : nat) : list byte :=
  [0; 5] ++ be_bytes 2 (Z.of_nat n) ++ be_bytes 4 5000 ++ be_bytes 4 1700000000 ++ be_bytes 4 0
  ++ be_bytes 4 1 ++ [0; 0] ++ be_bytes 2 0
  ++ concat (replicate n (be_bytes 4 167772161 ++ be_bytes 4 167772162 ++ be_bytes 4 0
       ++ be_bytes 2 1 ++ be_bytes 2 2 ++ be_bytes 4 1 ++ be_bytes 4 1500 ++ be_bytes 4 1000
       ++ be_bytes 4 2000 ++ be_bytes 2 80 ++ be_bytes 2 80 ++ [0; 16; 6; 0] ++ be_bytes 2 0
       ++ be_bytes 2 0 ++ [0; 0; 0; 0])).

Definition udp (a b c d : Z) : net_addr := UDPAddr [a; b; c; d].
Definition sample_now : Time := Unix 1700000001 123456789.

(** ** Claims *)

Lemma emitted_ok `{Goflow2Laws} evs : Forall event_typed evs -> Forall emit_ok (emitted (Start evs)).
Proof.
  intros Hevs. unfold Start.
  assert (Hs : Forall emit_ok (emitted (mkListener ∅ true 0 []))) by constructor.
  revert Hs. generalize (mkListener (∅ : gmap Addr TemplateSystem) true 0 []).
  induction Hevs as [|e evs He _ IH]; intros s Hs; simpl; [done|]. by apply IH, read_one_ok.
Qed.

(** C36. Whatever datagrams arrive, malformed or not, every record the
    listener hands on has each field within its Go type, instants of whole
    microseconds, one of the three flow types, a sampling rate of at least
    one, an unmapped exporter address, addresses without zones, and no
    exporter id and no dedup key yet. *)
Theorem emitted_wellformed `{Goflow2Laws} evs :
  Forall event_typed evs -> Forall emit_ok (emitted (Start evs)).
Proof. apply emitted_ok. Qed.

Definition sample_events : list read_event :=
  [ReadDatagram (sample_v5 2) (udp 192 0 2 1) sample_now None;
   ReadDatagram [0; 9; 0; 0] (udp 192 0 2 2) sample_now None;
   ReadDatagram [0; 9; 0; 1; 10; 0; 0; 9] (udp 192 0 2 3) sample_now None;
   ReadDatagram [0; 9; 0; 1; 10; 0; 0; 9] (udp 192 0 2 2) sample_now None].

Lemma emitted_wellformed_witness :
  Forall emit_ok (emitted (Start sample_events)) /\ length (emitted (Start sample_events)) = 3%nat.
Proof.
  split; [|vm_compute; reflexivity].
  apply emitted_wellformed. repeat constructor; vm_compute; intuition congruence.
Defined.

(** The anchoring of v5 uptimes is exact: with the header and record
    fields in their 32-bit types, the instant computed from an uptime is the
    header's wall clock minus the exporter's uptime plus that uptime, rounded
    down to the microsecond; no step of the 64-bit arithmetic overflows. *)
Lemma v5_times_exact pkt ms :
  is_uint 32 (v5_UnixSecs pkt) -> is_uint 32 (v5_UnixNSecs pkt) ->
  is_uint 32 (v5_SysUptime pkt) -> is_uint 32 ms ->
  let n := (v5_UnixSecs pkt + unixToInternal) * Second + v5_UnixNSecs pkt
           + (ms - v5_SysUptime pkt) * Millisecond in
  nanos (uptimeToTime (v5_boot pkt) ms) = n - n mod Microsecond.
Proof.
  intros Hs Hn Hu Hm n. unfold is_uint in Hs, Hn, Hu, Hm. unfold uptimeToTime, v5_boot, UTC. rewrite nanos_TruncateMicro.
  assert (Hq : 0 <= v5_UnixNSecs pkt / Second < 5)
    by (unfold Second; split; [apply Z.div_pos|apply Z.div_lt_upper_bound]; lia).
  assert (E : nanos (Add (Add (Unix (v5_UnixSecs pkt) (v5_UnixNSecs pkt))
    (i64 (- v5_SysUptime pkt * Millisecond))) (i64 (ms * Millisecond))) = n); [|by rewrite E].
  unfold Millisecond in *. wraps.
  set (b := Unix _ _). set (d := - v5_SysUptime pkt * 1000000).
  assert (Hb : nanos b = (v5_UnixSecs pkt + unixToInternal) * Second + v5_UnixNSecs pkt)
    by (apply nanos_Unix; unfold is_sint, unixToInternal; lia).
  assert (Wb : time_wf b) by apply Unix_wf. assert (Wa : time_wf (Add b d)) by apply Add_wf.
  assert (Bs : forall t, time_wf t -> forall k, -5000000000000000 <= k <= 5000000000000000 ->
    0 <= nanos t < 2 ^ 70 -> is_sint 64 (sec t + (nsec t + k) / Second)).
  { intros t [_ Hns] k Hk Ht. unfold nanos, Second, is_sint in *.
    pose proof (Z.div_mod (nsec t + k) 1000000000). 
    pose proof (Z.mod_pos_bound (nsec t + k) 1000000000). lia. }
  assert (Ha : nanos (Add b d) = nanos b + d).
  { apply nanos_Add, Bs; [done|unfold d; lia|]. rewrite Hb. unfold unixToInternal, Second. lia. }
  rewrite nanos_Add, Ha, Hb; [unfold d, n; lia|].
  apply Bs; [done|lia|]. rewrite Ha, Hb. unfold unixToInternal, Second, d. lia.
Qed.

(** What record [r] says of record [x] of packet [pkt]: the same endpoints,
    counters, interfaces and AS numbers; the header's sampling interval, of
    which only the low 14 bits count and zero means one; the header's wall
    clock, less the exporter's uptime, plus the uptimes at which the flow began
    and ended, rounded down to the microsecond. *)
Record carries (pkt : PacketV5) (e : Addr) (t : Time) (x : RecordV5) (r : FlowRecord) : Prop := {
  cy_exporter : ExporterAddr r = e /\ ExporterID r = 0;
  cy_received : ReceivedAt r = t;
  cy_type : FlowTypeOf r = FlowTypeNetFlow5;
  cy_first : let n := (v5_UnixSecs pkt + unixToInternal) * Second + v5_UnixNSecs pkt
                      + (v5_First x - v5_SysUptime pkt) * Millisecond in
             nanos (FirstSwitched r) = n - n mod Microsecond;
  cy_last : let n := (v5_UnixSecs pkt + unixToInternal) * Second + v5_UnixNSecs pkt
                     + (v5_Last x - v5_SysUptime pkt) * Millisecond in
            nanos (LastSwitched r) = n - n mod Microsecond;
  cy_src : SrcAddr r = Addr4 (v5_SrcAddr x) /\ SrcPort r = v5_SrcPort x /\ SrcAS r = v5_SrcAS x;
  cy_dst : DstAddr r = Addr4 (v5_DstAddr x) /\ DstPort r = v5_DstPort x /\ DstAS r = v5_DstAS x;
  cy_proto : Protocol r = v5_Proto x /\ TCPFlags r = v5_TCPFlags x;
  cy_counters : Packets r = v5_DPkts x /\ Bytes r = v5_DOctets x;
  cy_rate : SamplingRate r = Z.max 1 (v5_SamplingInterval pkt mod 2 ^ 14);
  cy_ifaces : InputIface r = v5_Input x /\ OutputIface r = v5_Output x;
  cy_nexthop : NextHop r = if decide (v5_NextHop x = 0) then AddrZero else Addr4 (v5_NextHop x);
  cy_key : DedupKey r = None
}.

Lemma v5_rate_spec pkt : is_uint 16 (v5_SamplingInterval pkt) -> v5_rate pkt = Z.max 1 (v5_SamplingInterval pkt mod 2 ^ 14).
Proof.
  intros Hs. unfold v5_rate. change 16383 with (Z.ones 14). rewrite Z.land_ones by lia.
  pose proof (Z.mod_pos_bound (v5_SamplingInterval pkt) (2 ^ 14) ltac:(lia)).
  unfold u32. rewrite Z.mod_small by lia. destruct (Z.eqb_spec (v5_SamplingInterval pkt mod 2 ^ 14) 0); lia.
Qed.

Lemma v5_record_carries pkt e t x :
  v5_record_typed x -> is_uint 16 (v5_SamplingInterval pkt) -> is_uint 32 (v5_SysUptime pkt) ->
  is_uint 32 (v5_UnixSecs pkt) -> is_uint 32 (v5_UnixNSecs pkt) -> carries pkt e t x (v5_record pkt e t x).
Proof.
  intros (Hsrc & Hdst & Hnh & _ & _ & _ & _ & Hfirst & Hlast & _) Hi Hu Hs Hn.
  constructor; cbn; rewrite ?ipv4_spec by done; try done.
  - by apply v5_times_exact.
  - by apply v5_times_exact.
  - by apply v5_rate_spec.
  - unfold nextHop4. rewrite ipv4_spec by done. by destruct (Z.eqb_spec (v5_NextHop x) 0); case_decide.
Qed.

(** C37. A NetFlow v5 datagram is accepted exactly when it is as long as its
    header claims and goflow2 parses it; then one record comes out per record
    counted in the header, and the i-th is the i-th that goflow2 parsed, field
    by field: its endpoints, counters, interfaces, AS numbers and next hop, the
    header's sampling rate, and the instants the exporter's uptimes mean on its
    wall clock, with the exporter and the reception time of the datagram. A
    datagram cut short is an error and never yields zeroed records. *)
Theorem decodeV5_accepts `{Goflow2Laws} b e t :
  bytes_wf b ->
  match decodeV5 b e t with
  | Ok recs =>
    v5HeaderLen + v5_count b * v5RecordLen <= Z.of_nat (length b) /\
    Z.of_nat (length recs) = v5_count b /\
    exists pkt, DecodeMessageV5 b = Ok pkt /\ Forall2 (carries pkt e t) (v5_Records pkt) recs
  | Err errShort => Z.of_nat (length b) < v5HeaderLen
  | Err (errV5Payload n c) =>
    n = Z.of_nat (length b) /\ c = v5_count b /\ v5HeaderLen <= n < v5HeaderLen + c * v5RecordLen
  | Err (errGoflow2 x) =>
    v5HeaderLen + v5_count b * v5RecordLen <= Z.of_nat (length b) /\ DecodeMessageV5 b = Err x
  | Err (errVersion _) => False
  end.
Proof.
  intros Hb. unfold decodeV5. destruct (Z.ltb_spec (Z.of_nat (length b)) v5HeaderLen); [done|].
  fold (v5_count b). destruct (Z.ltb_spec (Z.of_nat (length b)) (v5HeaderLen + v5_count b * v5RecordLen));
    [done|].
  destruct (DecodeMessageV5 b) as [pkt|] eqn:E; [|done]. split; [done|].
  split; [rewrite length_fmap; by apply gf_v5_count|]. exists pkt. split; [done|].
  destruct (gf_v5_typed b pkt Hb E) as (Hr & Hi & Hu & Hs & Hn). apply Forall2_fmap_r, Forall_Forall2_diag.
  eapply Forall_impl; [exact Hr|]. intros x Hx. by apply v5_record_carries.
Qed.

(** A datagram of two records that differ in everything. *)
Definition two_flows_v5 : list byte :=
  [0; 5; 0; 2] ++ be_bytes 4 5000 ++ be_bytes 4 1700000000 ++ be_bytes 4 0 ++ be_bytes 4 1 ++ [0; 0] ++ be_bytes 2 16484
  ++ be_bytes 4 1 ++ be_bytes 4 2 ++ be_bytes 4 3 ++ be_bytes 2 4 ++ be_bytes 2 5 ++ be_bytes 4 6 ++ be_bytes 4 7
  ++ be_bytes 4 1000 ++ be_bytes 4 2000 ++ be_bytes 2 8 ++ be_bytes 2 9 ++ [0; 10; 6; 0] ++ be_bytes 2 11 ++ be_bytes 2 12 ++ [0; 0; 0; 0]
  ++ be_bytes 4 21 ++ be_bytes 4 22 ++ be_bytes 4 0 ++ be_bytes 2 24 ++ be_bytes 2 25 ++ be_bytes 4 26 ++ be_bytes 4 27
  ++ be_bytes 4 3000 ++ be_bytes 4 4000 ++ be_bytes 2 28 ++ be_bytes 2 29 ++ [0; 30; 17; 0] ++ be_bytes 2 31 ++ be_bytes 2 32 ++ [0; 0; 0; 0].

Lemma decodeV5_accepts_witness :
  match decodeV5 two_flows_v5 (Addr4 1) sample_now with
  | Ok recs => (fun r => (SrcAddr r, DstPort r, SamplingRate r)) <$> recs = [(Addr4 1, 9, 100); (Addr4 21, 29, 100)]
  | Err _ => False
  end /\ decodeV5 (take 100 (sample_v5 3)) (Addr4 1) sample_now = Err (errV5Payload 100 3).
Proof.
  split; [|vm_compute; reflexivity].
  pose proof (decodeV5_accepts two_flows_v5 (Addr4 1) sample_now ltac:(repeat constructor; vm_compute; congruence)) as Hw.
  destruct (decodeV5 two_flows_v5 (Addr4 1) sample_now) eqn:E; [|vm_compute in E; congruence].
  destruct Hw as (_ & _ & pkt & Ep & H). vm_compute in Ep. injection Ep as <-. cbn [v5_Records] in H.
  apply Forall2_cons_inv_l in H as (r1 & l1 & [] & H & ->).
  apply Forall2_cons_inv_l in H as (r2 & l2 & [] & ->%Forall2_nil_inv_l & ->). cbn in *.
  destruct_and!. repeat match goal with H : _ r1 = _ |- _ => rewrite H | H : _ r2 = _ |- _ => rewrite H end.
  reflexivity.
Defined.

(** C38. Exporters do not interfere: as long as the listener runs, what is
    emitted for one exporter is exactly what a listener that receives only
    that exporter's datagrams emits, whatever templates and garbage the
    others send in between. *)
Theorem exporters_isolated `{Goflow2} x evs :
  Forall uninterrupted evs ->
  filter (fun r => ExporterAddr r = x) (emitted (Start evs))
  = emitted (Start (filter (from_exporter x) evs)).
Proof. intros Hevs. apply (reads_agree x evs _ _ Hevs). done. Qed.

Lemma exporters_isolated_witness :
  filter (fun r => ExporterAddr r = Addr4 3221225986) (emitted (Start sample_events))
  = emitted (Start (filter (from_exporter (Addr4 3221225986)) sample_events)) /\
  length (emitted (Start (filter (from_exporter (Addr4 3221225986)) sample_events))) = 1%nat.
Proof.
  split; [|vm_compute; reflexivity].
  apply exporters_isolated. repeat constructor.
Defined.

(** [ntpToTime] computes with floating point and is still exact: for
    every 64-bit NTP timestamp the result is the whole seconds since 1900 plus
    the fraction rounded down to the microsecond, because the product of the
    fraction and [1e9] never needs rounding. *)
Theorem ntpToTime_exact v :
  is_uint 64 v ->
  nanos (ntpToTime v)
  = (v / 2 ^ 32 - ntpEpochOffset + unixToInternal) * Second
    + (v mod 2 ^ 32) * 1000000 / 2 ^ 32 * Microsecond.
Proof.
  unfold is_uint. intros Hv. unfold ntpToTime, UTC. rewrite nanos_TruncateMicro.
  rewrite Z.shiftr_div_pow2, ntpFrac_floor by lia.
  assert (0 <= v / 2 ^ 32 < 2 ^ 32) by (split; [apply Z.div_pos|apply Z.div_lt_upper_bound]; lia).
  pose proof (Z.mod_pos_bound v (2 ^ 32) ltac:(lia)). set (f := v mod 2 ^ 32) in *.
  rewrite (wrap_s_small 64 (v / 2 ^ 32)) by (unfold is_sint; lia).
  rewrite wrap_s_small by (unfold is_sint, ntpEpochOffset; lia).
  assert (Hf : 0 <= f * Second / 2 ^ 32 < Second)
    by (unfold Second; split; [apply Z.div_pos|apply Z.div_lt_upper_bound]; lia).
  rewrite nanos_Unix; [|rewrite (Z.div_small _ _ Hf); unfold is_sint, unixToInternal, ntpEpochOffset; lia].
  set (s := v / 2 ^ 32 - ntpEpochOffset + unixToInternal). set (n := f * Second / 2 ^ 32) in *.
  assert (En : f * 1000000 / 2 ^ 32 = n / 1000).
  { unfold n, Second. rewrite Z.div_div by lia. replace (f * 1000000000) with (f * 1000000 * 1000) by lia.
    by rewrite Z.div_mul_cancel_r by lia. }
  rewrite En. unfold Microsecond, Second.
  replace (s * 1000000000 + n) with (n + s * 1000000 * 1000) at 2 by lia.
  rewrite Z.mod_add by lia. pose proof (Z.div_mod n 1000). lia.
Qed.

Lemma ntpToTime_exact_witness : nanos (ntpToTime (2 ^ 64 - 1)) =
  (2 ^ 32 - 1 - ntpEpochOffset + unixToInternal) * Second + 999999 * Microsecond.
Proof.
  rewrite (ntpToTime_exact (2 ^ 64 - 1)); [vm_compute; reflexivity|vm_compute; intuition congruence].
Defined.
