(* ===== verification/Text.v ===== *)
(** * Text: characters, decimal and hexadecimal numbers

    A Go string is a sequence of bytes; here [text] is a list of [ascii], the
    256 bytes. [strconv]'s printing and parsing of unsigned numbers is what
    addresses, instants, JSON numbers and environment variables are built on. *)

From Stdlib Require Export Ascii.
From S2P Require Import Prelude.

Abbreviation text := (list ascii).
Definition tx (s : string) : text := String.list_ascii_of_string s.
Definition st (t : text) : string := String.string_of_list_ascii t.

Lemma st_tx s : st (tx s) = s.
Proof. apply String.string_of_list_ascii_of_string. Qed.
Lemma tx_st t : tx (st t) = t.
Proof. apply String.list_ascii_of_string_of_list_ascii. Qed.
Lemma tx_inj s s' : tx s = tx s' -> s = s'.
Proof. intros E. by rewrite <- (st_tx s), E, st_tx. Qed.

Definition chr (z : Z) : ascii := ascii_of_N (Z.to_N z).
Definition ord (c : ascii) : Z := Z.of_N (N_of_ascii c).

Lemma ord_range c : 0 <= ord c < 256.
Proof. unfold ord. pose proof (N_ascii_bounded c). lia. Qed.
Lemma chr_ord c : chr (ord c) = c.
Proof. unfold chr, ord. by rewrite N2Z.id, ascii_N_embedding. Qed.
Lemma ord_chr z : 0 <= z < 256 -> ord (chr z) = z.
Proof. intros H. unfold chr, ord. rewrite N_ascii_embedding by lia. lia. Qed.
Lemma ord_inj c d : ord c = ord d -> c = d.
Proof. intros E. by rewrite <- (chr_ord c), E, chr_ord. Qed.

Definition bytes_of (t : text) : list byte := ord <$> t.

(** ** Digits *)

Definition digit_val (c : ascii) : option Z :=
  let n := ord c in
  if (48 <=? n) && (n <=? 57) then Some (n - 48)
  else if (97 <=? n) && (n <=? 102) then Some (n - 87)
  else if (65 <=? n) && (n <=? 70) then Some (n - 55)
  else None.

Definition is_digit (c : ascii) : bool := (48 <=? ord c) && (ord c <=? 57).

(** Lower case, as [strconv] and [netip] print. *)
Definition digit_char (d : Z) : ascii := if d <? 10 then chr (48 + d) else chr (87 + d).

Fixpoint digits (b : Z) (fuel : nat) (n : Z) : list Z :=
  match fuel with
  | O => []
  | S f => if n <? b then [n] else digits b f (n / b) ++ [n mod b]
  end.

Definition digits_val (b : Z) (ds : list Z) : Z := foldl (fun a d => a * b + d) 0 ds.

(** One digit per binary digit is more than enough. *)
Definition print_base (b n : Z) : text := digit_char <$> digits b (S (Z.to_nat (Z.log2 n))) n.
Definition print_dec : Z -> text := print_base 10.
Definition print_hex : Z -> text := print_base 16.

(** Decimal digits only: [None] on the empty text or any other character. *)
Definition dec_digits (t : text) : option (list Z) :=
  if bool_decide (t = []) then None
  else mapM (fun c => if is_digit c then Some (ord c - 48) else None) t.

(** [strconv.ParseUint(s, 10, w)]. *)
Definition ParseUint (w : Z) (t : text) : option Z :=
  match dec_digits t with
  | None => None
  | Some ds => let n := digits_val 10 ds in if n <? 2 ^ w then Some n else None
  end.

(** [strconv.ParseInt(s, 10, w)]: an optional sign. *)
Definition ParseInt (w : Z) (t : text) : option Z :=
  let '(neg, u) := match t with
                   | c :: r => if bool_decide (c = "-"%char) then (true, r)
                               else if bool_decide (c = "+"%char) then (false, r) else (false, t)
                   | [] => (false, t)
                   end in
  match dec_digits u with
  | None => None
  | Some ds =>
    let n := digits_val 10 ds in
    if neg then if n <=? 2 ^ (w - 1) then Some (- n) else None
    else if n <? 2 ^ (w - 1) then Some n else None
  end.

(** The longest prefix of decimal digits. *)
Fixpoint span_digits (s : text) : text * text :=
  match s with
  | c :: r => if is_digit c then let '(a, b) := span_digits r in (c :: a, b) else ([], s)
  | [] => ([], [])
  end.

(** [strconv.FormatInt(n, 10)]. *)
Definition print_int (n : Z) : text := if n <? 0 then "-"%char :: print_dec (- n) else print_dec n.

(** ** Facts *)

Lemma digits_val_snoc b ds d : digits_val b (ds ++ [d]) = digits_val b ds * b + d.
Proof. unfold digits_val. by rewrite foldl_app. Qed.

Lemma digits_val_digits b fuel n :
  2 <= b -> 0 <= n < 2 ^ Z.of_nat fuel -> (0 < fuel)%nat -> digits_val b (digits b fuel n) = n.
Proof.
  intros Hb. revert n. induction fuel as [|f IH]; intros n Hn Hf; [lia|].
  simpl. destruct (Z.ltb_spec n b); [done|]. rewrite digits_val_snoc.
  assert (2 ^ Z.of_nat (S f) = 2 * 2 ^ Z.of_nat f) by (rewrite Nat2Z.inj_succ, Z.pow_succ_r by lia; lia).
  rewrite IH.
  - pose proof (Z.div_mod n b). lia.
  - split; [apply Z.div_pos; lia|]. apply Z.div_lt_upper_bound; nia.
  - destruct f; [simpl in *; lia|lia].
Qed.

Lemma log2_fuel n : 0 <= n -> 0 <= n < 2 ^ Z.of_nat (S (Z.to_nat (Z.log2 n))).
Proof.
  intros Hn. split; [done|]. rewrite Nat2Z.inj_succ, Z2Nat.id by apply Z.log2_nonneg.
  destruct (decide (n = 0)) as [->|]; [done|]. apply Z.log2_spec. lia.
Qed.

Lemma digits_range b fuel n : 2 <= b -> 0 <= n -> Forall (fun d => 0 <= d < b) (digits b fuel n).
Proof.
  intros Hb. revert n. induction fuel as [|f IH]; intros n Hn; simpl; [constructor|].
  destruct (Z.ltb_spec n b); [by constructor|]. apply Forall_app. split.
  - apply IH, Z.div_pos; lia.
  - constructor; [apply Z.mod_pos_bound; lia|constructor].
Qed.

Lemma digit_val_char d : 0 <= d < 16 -> digit_val (digit_char d) = Some d.
Proof.
  intros Hd. unfold digit_val, digit_char. destruct (Z.ltb_spec d 10); rewrite ord_chr by lia.
  - rewrite (proj2 (Z.leb_le 48 _)), (proj2 (Z.leb_le _ 57)) by lia. simpl. f_equal. lia.
  - rewrite (proj2 (Z.leb_le 48 _)), (proj2 (Z.leb_gt _ 57)) by lia. simpl.
    rewrite (proj2 (Z.leb_le 97 _)), (proj2 (Z.leb_le _ 102)) by lia. simpl. f_equal. lia.
Qed.

Lemma is_digit_char d : 0 <= d < 10 -> is_digit (digit_char d) = true /\ ord (digit_char d) = 48 + d.
Proof.
  intros Hd. unfold is_digit, digit_char. rewrite (proj2 (Z.ltb_lt d 10)), ord_chr by lia. lia.
Qed.

Lemma digits_nonempty b fuel n : (0 < fuel)%nat -> digits b fuel n <> [].
Proof. destruct fuel; [lia|]. simpl. destruct (n <? b); [done|]. by destruct (digits b fuel (n / b)). Qed.

Lemma print_base_nonempty b n : print_base b n <> [].
Proof.
  unfold print_base. destruct (digits b _ n) eqn:E; [|done].
  by apply digits_nonempty in E; [|lia].
Qed.

Lemma dec_digits_print n : 0 <= n -> exists ds, dec_digits (print_dec n) = Some ds /\ digits_val 10 ds = n.
Proof.
  intros Hn. exists (digits 10 (S (Z.to_nat (Z.log2 n))) n).
  split; [|apply digits_val_digits; [lia|by apply log2_fuel|lia]].
  unfold dec_digits. rewrite bool_decide_eq_false_2 by apply print_base_nonempty.
  unfold print_dec, print_base.
  pose proof (digits_range 10 (S (Z.to_nat (Z.log2 n))) n ltac:(lia) Hn) as Hr.
  apply mapM_Some, Forall2_fmap_l, Forall_Forall2_diag.
  eapply Forall_impl; [exact Hr|]. intros d Hd. simpl.
  destruct (is_digit_char d Hd) as [-> ->]. f_equal. lia.
Qed.

Lemma ParseUint_print w n : is_uint w n -> ParseUint w (print_dec n) = Some n.
Proof.
  intros [Hn Hw]. unfold ParseUint. destruct (dec_digits_print n Hn) as (ds & -> & ->).
  by rewrite (proj2 (Z.ltb_lt _ _)).
Qed.

Lemma digits_val_nonneg b ds : 0 <= b -> Forall (fun d => 0 <= d) ds -> 0 <= digits_val b ds.
Proof.
  intros Hb Hds. unfold digits_val.
  assert (Hg : forall a, 0 <= a -> 0 <= foldl (fun a d => a * b + d) a ds); [|by apply Hg].
  induction Hds as [|d ds Hd _ IH]; intros a Ha; simpl; [done|]. apply IH. nia.
Qed.

Lemma ParseUint_range w t n : ParseUint w t = Some n -> is_uint w n.
Proof.
  unfold ParseUint, dec_digits. case_bool_decide; [done|].
  destruct (mapM _ t) as [ds|] eqn:E; [|done]. destruct (Z.ltb_spec (digits_val 10 ds) (2 ^ w)); [|done].
  intros [= <-]. split; [|done]. apply mapM_Some in E.
  assert (Hds : Forall (fun d => 0 <= d) ds).
  { eapply Forall2_Forall_r; [exact E|]. apply Forall_true. intros c y. unfold is_digit.
    destruct (48 <=? ord c) eqn:E1; [|done]. destruct (_ <=? 57); [|done]. intros [= <-].
    apply Z.leb_le in E1. lia. }
  by apply digits_val_nonneg.
Qed.

Lemma print_dec_not_sign n c r :
  print_dec n = c :: r -> 0 <= n -> c <> "-"%char /\ c <> "+"%char.
Proof.
  intros E Hn. unfold print_dec, print_base in E.
  pose proof (digits_range 10 (S (Z.to_nat (Z.log2 n))) n ltac:(lia) Hn) as Hr.
  destruct (digits 10 _ n) as [|d ds]; [done|]. simplify_eq/=. apply Forall_cons in Hr as [Hd _].
  destruct (is_digit_char d Hd) as [_ Ho].
  split; intros Hc; rewrite Hc in Ho; [change (45 = 48 + d) in Ho|change (43 = 48 + d) in Ho]; lia.
Qed.

Lemma ParseInt_print w n : 1 <= w -> is_sint w n -> ParseInt w (print_int n) = Some n.
Proof.
  intros Hw [Hl Hu]. unfold print_int, ParseInt. destruct (Z.ltb_spec n 0).
  - rewrite bool_decide_eq_true_2 by done.
    destruct (dec_digits_print (- n) ltac:(lia)) as (ds & -> & ->).
    rewrite (proj2 (Z.leb_le _ _)) by lia. f_equal. lia.
  - destruct (print_dec n) as [|c r] eqn:E; [by apply print_base_nonempty in E|].
    destruct (print_dec_not_sign _ _ _ E) as [? ?]; [lia|].
    rewrite !bool_decide_eq_false_2 by done. rewrite <- E.
    destruct (dec_digits_print n) as (ds & -> & ->); [lia|].
    by rewrite (proj2 (Z.ltb_lt _ _)).
Qed.

Lemma dec_digits_chars ds :
  ds <> [] -> Forall (fun d => 0 <= d < 10) ds -> dec_digits (digit_char <$> ds) = Some ds.
Proof.
  intros Hne Hds. unfold dec_digits. rewrite bool_decide_eq_false_2 by (by destruct ds).
  apply mapM_Some, Forall2_fmap_l, Forall_Forall2_diag. eapply Forall_impl; [exact Hds|].
  intros d Hd. simpl. destruct (is_digit_char d Hd) as [-> ->]. f_equal. lia.
Qed.

Lemma span_digits_chars ds r :
  Forall (fun d => 0 <= d < 10) ds -> match r with c :: _ => is_digit c = false | [] => True end ->
  span_digits ((digit_char <$> ds) ++ r) = (digit_char <$> ds, r).
Proof.
  intros Hds Hr. induction Hds as [|d ds Hd _ IH].
  - destruct r; simpl; [done|]. by rewrite Hr.
  - rewrite fmap_cons, <- app_comm_cons. cbn [span_digits].
    destruct (is_digit_char d Hd) as [-> _]. by rewrite IH.
Qed.

Lemma digits_val_bound b ds :
  1 <= b -> Forall (fun d => 0 <= d < b) ds -> 0 <= digits_val b ds < b ^ Z.of_nat (length ds).
Proof.
  intros Hb. induction ds as [|d ds IH] using rev_ind; intros H; [done|].
  apply Forall_app in H as [Hds Hd]. apply Forall_cons in Hd as [Hd _]. specialize (IH Hds).
  rewrite digits_val_snoc, length_app, Nat.add_1_r, Nat2Z.inj_succ, Z.pow_succ_r by lia. nia.
Qed.

Lemma dec_digits_range t ds :
  dec_digits t = Some ds -> Forall (fun d => 0 <= d < 10) ds /\ length ds = length t.
Proof.
  unfold dec_digits. case_bool_decide; [done|]. intros E%mapM_Some. split.
  - eapply Forall2_Forall_r; [exact E|]. apply Forall_true. intros c y. unfold is_digit.
    destruct (Z.leb_spec 48 (ord c)), (Z.leb_spec (ord c) 57); simpl; try done. intros [= <-]. lia.
  - symmetry. by eapply Forall2_length.
Qed.
