(* ===== verification/Strings.v ===== *)
(** * The [strings] package, as far as the program uses it

    Texts are lists of bytes. White space includes the Unicode spaces beyond
    ASCII, by their UTF-8 bytes; case folding is needed on ASCII only. *)

From S2P Require Import Prelude Text.

Open Scope char_scope.
Open Scope Z_scope.

(** ** [TrimSpace], [ToLower] *)

Definition ascii_space (c : ascii) : bool := let n := ord c in ((9 <=? n) && (n <=? 13)) || (n =? 32).

(** Unicode spaces beyond ASCII, by their UTF-8 bytes. *)
Definition space2 (a b : ascii) : bool := (ord a =? 194) && ((ord b =? 133) || (ord b =? 160)).
Definition space3 (a b c : ascii) : bool :=
  let x := ord a in let y := ord b in let z := ord c in
  ((x =? 225) && (y =? 154) && (z =? 128)) ||
  ((x =? 226) && (y =? 128) && (((128 <=? z) && (z <=? 138)) || (z =? 168) || (z =? 169) || (z =? 175))) ||
  ((x =? 226) && (y =? 129) && (z =? 159)) ||
  ((x =? 227) && (y =? 128) && (z =? 128)).

Fixpoint trim_left (s : text) : text :=
  match s with
  | [] => []
  | a :: r =>
    if ascii_space a then trim_left r
    else
      match r with
      | b :: r1 =>
        if space2 a b then trim_left r1
        else match r1 with c :: r2 => if space3 a b c then trim_left r2 else s | [] => s end
      | [] => s
      end
  end.

(** On the reversed text. *)
Fixpoint trim_right_rev (s : text) : text :=
  match s with
  | [] => []
  | a :: r =>
    if ascii_space a then trim_right_rev r
    else
      match r with
      | b :: r1 =>
        if space2 b a then trim_right_rev r1
        else match r1 with c :: r2 => if space3 c b a then trim_right_rev r2 else s | [] => s end
      | [] => s
      end
  end.

Definition TrimSpace (s : text) : text := rev (trim_right_rev (rev (trim_left s))).

Definition lower (c : ascii) : ascii := if (65 <=? ord c) && (ord c <=? 90) then chr (ord c + 32) else c.

(** [ToLower] of an ASCII text. *)
Definition ToLower (s : text) : text := lower <$> s.

(** ** [HasPrefix], [HasSuffix], [TrimPrefix], [Cut], [Split] *)

Fixpoint HasPrefix (s p : text) {struct p} : bool :=
  match p with
  | [] => true
  | a :: p' => match s with b :: s' => bool_decide (a = b) && HasPrefix s' p' | [] => false end
  end.

Definition HasSuffix (s p : text) : bool := HasPrefix (rev s) (rev p).

Definition TrimPrefix (s p : text) : text := if HasPrefix s p then drop (length p) s else s.

(** [Cut] at the first occurrence of one byte; [None] is [found = false]. *)
Fixpoint Cut (sep : ascii) (s : text) : option (text * text) :=
  match s with
  | [] => None
  | c :: r =>
    if bool_decide (c = sep) then Some ([], r)
    else match Cut sep r with Some (a, b) => Some (c :: a, b) | None => None end
  end.

Fixpoint Split (sep : ascii) (s : text) : list text :=
  match s with
  | [] => [[]]
  | c :: r =>
    if bool_decide (c = sep) then [] :: Split sep r
    else match Split sep r with x :: xs => (c :: x) :: xs | [] => [[c]] end
  end.

(** ** Facts *)

Lemma trim_left_idem s : trim_left (trim_left s) = trim_left s.
Proof.
  induction s as [s IH] using (induction_ltof1 _ (@length ascii)). unfold ltof in IH.
  destruct s as [|a r]; [done|]. cbn [trim_left]. destruct (ascii_space a) eqn:E1; [apply IH; simpl; lia|].
  destruct r as [|b r]; [cbn [trim_left]; by rewrite E1|].
  destruct (space2 a b) eqn:E2; [apply IH; simpl; lia|].
  destruct r as [|c r]; [cbn [trim_left]; by rewrite E1, E2|].
  destruct (space3 a b c) eqn:E3; [apply IH; simpl; lia|].
  cbn [trim_left]. by rewrite E1, E2, E3.
Qed.

Lemma trim_right_rev_idem s : trim_right_rev (trim_right_rev s) = trim_right_rev s.
Proof.
  induction s as [s IH] using (induction_ltof1 _ (@length ascii)). unfold ltof in IH.
  destruct s as [|a r]; [done|]. cbn [trim_right_rev]. destruct (ascii_space a) eqn:E1; [apply IH; simpl; lia|].
  destruct r as [|b r]; [cbn [trim_right_rev]; by rewrite E1|].
  destruct (space2 b a) eqn:E2; [apply IH; simpl; lia|].
  destruct r as [|c r]; [cbn [trim_right_rev]; by rewrite E1, E2|].
  destruct (space3 c b a) eqn:E3; [apply IH; simpl; lia|].
  cbn [trim_right_rev]. by rewrite E1, E2, E3.
Qed.

(** Right-trimming removes a suffix. *)
Lemma trim_right_rev_suffix s : trim_right_rev s `suffix_of` s.
Proof.
  induction s as [s IH] using (induction_ltof1 _ (@length ascii)). unfold ltof in IH.
  destruct s as [|a r]; [done|]. cbn [trim_right_rev]. destruct (ascii_space a).
  { apply suffix_cons_r, IH. simpl. lia. }
  destruct r as [|b r]; [done|]. destruct (space2 b a).
  { do 2 apply suffix_cons_r. apply IH. simpl. lia. }
  destruct r as [|c r]; [done|]. destruct (space3 c b a); [|done].
  do 3 apply suffix_cons_r. apply IH. simpl. lia.
Qed.

(** A text that starts with no space keeps that when its end is cut. *)
Lemma trim_left_prefix s p : trim_left s = s -> p `prefix_of` s -> trim_left p = p.
Proof.
  assert (Hl : forall s, (length (trim_left s) <= length s)%nat).
  { intros u. induction u as [u IH] using (induction_ltof1 _ (@length ascii)). unfold ltof in IH.
    destruct u as [|a r]; [done|]. cbn [trim_left]. destruct (ascii_space a).
    { etrans; [apply IH|]; simpl; lia. }
    destruct r as [|b r]; [done|]. destruct (space2 a b).
    { etrans; [apply IH|]; simpl; lia. }
    destruct r as [|c r]; [done|]. destruct (space3 a b c); [etrans; [apply IH|]; simpl; lia|done]. }
  assert (Hno : forall u v, trim_left u = v -> (length u < length v)%nat -> False)
    by (intros u v <- H; specialize (Hl u); lia).
  intros Hs [k ->]. destruct p as [|a r]; [done|]. cbn [trim_left app] in *.
  destruct (ascii_space a); [exfalso; eapply Hno; [exact Hs|simpl; lia]|].
  destruct r as [|b r]; [done|]. cbn [app] in *.
  destruct (space2 a b); [exfalso; eapply Hno; [exact Hs|simpl; lia]|].
  destruct r as [|c r]; [done|]. cbn [app] in *.
  destruct (space3 a b c); [exfalso; eapply Hno; [exact Hs|simpl; lia]|done].
Qed.

Lemma TrimSpace_idem s : TrimSpace (TrimSpace s) = TrimSpace s.
Proof.
  unfold TrimSpace. set (u := trim_left s).
  rewrite (trim_left_prefix u (rev (trim_right_rev (rev u)))).
  - by rewrite rev_involutive, trim_right_rev_idem.
  - apply trim_left_idem.
  - destruct (trim_right_rev_suffix (rev u)) as [k Hk]. exists (rev k).
    rewrite <- rev_app_distr, <- Hk. by rewrite rev_involutive.
Qed.

Lemma HasPrefix_spec s p : HasPrefix s p = true <-> exists k, s = p ++ k.
Proof.
  revert s. induction p as [|a p IH]; intros s; simpl; [split; [intros _; by exists s|done]|].
  destruct s as [|b s]; [split; [done|by intros [k [=]]]|].
  rewrite andb_true_iff, bool_decide_eq_true, IH. split.
  - intros [-> [k ->]]. by exists k.
  - intros [k [= -> ->]]. split; [done|by exists k].
Qed.

Lemma HasSuffix_spec s p : HasSuffix s p = true <-> exists k, s = k ++ p.
Proof.
  unfold HasSuffix. rewrite HasPrefix_spec. split; intros [k E]; exists (rev k).
  - by rewrite <- (rev_involutive s), E, rev_app_distr, rev_involutive.
  - by rewrite E, rev_app_distr.
Qed.

Lemma Cut_some sep a b : sep ∉ a -> Cut sep (a ++ sep :: b) = Some (a, b).
Proof.
  induction a as [|c a IH]; simpl; [by rewrite bool_decide_eq_true_2|].
  rewrite not_elem_of_cons. intros [Hc Ha]. rewrite bool_decide_eq_false_2 by done. by rewrite IH.
Qed.

Lemma Split_none sep a : sep ∉ a -> Split sep a = [a].
Proof.
  induction a as [|c a IH]; [done|]. rewrite not_elem_of_cons. intros [Hc Ha]. simpl.
  rewrite bool_decide_eq_false_2 by done. by rewrite IH.
Qed.

Lemma Split_cons sep a b : sep ∉ a -> Split sep (a ++ sep :: b) = a :: Split sep b.
Proof.
  induction a as [|c a IH]; simpl; [by rewrite bool_decide_eq_true_2|].
  rewrite not_elem_of_cons. intros [Hc Ha]. rewrite bool_decide_eq_false_2 by done. by rewrite IH.
Qed.
