(* ===== verification/NetipText.v ===== *)
(** * [netip.Addr] as text: [String], [MarshalText], [ParseAddr], [UnmarshalText]

    The standard library's algorithms, loop by loop: dotted decimal without
    leading zeros for IPv4, RFC 5952 for IPv6 (the longest run of two or more
    zero groups is elided), the mixed notation for IPv4-mapped addresses. *)

From S2P Require Import Prelude Netip Text.

Open Scope char_scope.
Open Scope Z_scope.

(** ** Parsing *)

(** [parseIPv4Fields]; [s[i-1] == '.'] and [i == 0] say that no digit has been
    seen since the last dot. *)
Fixpoint v4_fields (s : text) (val pos digLen : Z) (acc : list Z) : option (list Z) :=
  match s with
  | [] => if pos <? 3 then None else Some (acc ++ [val])
  | c :: r =>
    if is_digit c then
      if (digLen =? 1) && (val =? 0) then None
      else
        let val' := val * 10 + (ord c - 48) in
        if 255 <? val' then None else v4_fields r val' pos (digLen + 1) acc
    else if bool_decide (c = ".") then
      if (digLen =? 0) || bool_decide (r = []) then None
      else if pos =? 3 then None
      else v4_fields r 0 (pos + 1) 0 (acc ++ [val])
    else None
  end.

Definition parseIPv4 (s : text) : option Addr :=
  match v4_fields s 0 0 0 [] with Some fs => Some (Addr4 (be_val fs)) | None => None end.

(** The inner loop over one group: value, number of digits, what follows. *)
Fixpoint hexnum (s : text) (off acc : Z) : option (Z * Z * text) :=
  match s with
  | [] => Some (acc, off, [])
  | c :: r =>
    match digit_val c with
    | Some d =>
      let acc' := acc * 16 + d in
      if 3 <? off then None
      else if 65535 <? acc' then None
      else hexnum r (off + 1) acc'
    | None => Some (acc, off, s)
    end
  end.

(** The end of [parseIPv6]: nothing may be left; the ellipsis is expanded. *)
Definition v6_finish (s : text) (words : list Z) (ellipsis : option nat) : option (list Z) :=
  if negb (bool_decide (s = [])) then None
  else if (length words <? 8)%nat then
    match ellipsis with
    | None => None
    | Some e => Some (take e words ++ replicate (8 - length words) 0 ++ drop e words)
    end
  else match ellipsis with Some _ => None | None => Some words end.

(** The loop of [parseIPv6]; two bytes of [ip] are one entry of [words]. *)
Fixpoint v6_loop (fuel : nat) (s : text) (words : list Z) (ellipsis : option nat)
  : option (list Z) :=
  match fuel with
  | O => v6_finish s words ellipsis
  | S f =>
    match hexnum s 0 0 with
    | None => None
    | Some (acc, off, r) =>
      if off =? 0 then None
      else
        match r with
        | [] => v6_finish [] (words ++ [acc]) ellipsis
        | c :: r1 =>
          if bool_decide (c = ".") then
            if bool_decide (ellipsis = None) && negb (length words =? 6)%nat then None
            else if (8 <? length words + 2)%nat then None
            else
              match v4_fields s 0 0 0 [] with
              | Some [x; y; z; w] => v6_finish [] (words ++ [x * 256 + y; z * 256 + w]) ellipsis
              | _ => None
              end
          else if negb (bool_decide (c = ":")) then None
          else
            match r1 with
            | [] => None
            | c1 :: r2 =>
              let words' := words ++ [acc] in
              if bool_decide (c1 = ":") then
                match ellipsis with
                | Some _ => None
                | None =>
                  if bool_decide (r2 = []) then v6_finish [] words' (Some (length words'))
                  else v6_loop f r2 words' (Some (length words'))
                end
              else v6_loop f r1 words' ellipsis
            end
        end
    end
  end.

Fixpoint split_zone (s : text) : text * option text :=
  match s with
  | [] => ([], None)
  | c :: r => if bool_decide (c = "%") then ([], Some r)
              else let '(a, z) := split_zone r in (c :: a, z)
  end.

Definition words_val (ws : list Z) : Z := digits_val 65536 ws.

(** Eight 16-bit groups bound the loop: every round but the last adds one. *)
Definition parseIPv6 (s : text) : option Addr :=
  let '(s, z) := split_zone s in
  if bool_decide (z = Some []) then None
  else
    let zone := st (default [] z) in
    let '(s, ellipsis) :=
      match s with
      | c :: c1 :: r => if bool_decide (c = ":") && bool_decide (c1 = ":") then (r, Some 0%nat) else (s, None)
      | _ => (s, None)
      end in
    if bool_decide (s = []) && bool_decide (ellipsis = Some 0%nat) then Some (Addr6 0 zone)
    else
      match v6_loop 8 s [] ellipsis with
      | Some ws => Some (Addr6 (words_val ws) zone)
      | None => None
      end.

Definition addr_special (c : ascii) : bool :=
  bool_decide (c = ".") || bool_decide (c = ":") || bool_decide (c = "%").

Definition ParseAddr (s : text) : option Addr :=
  match List.find addr_special s with
  | Some c =>
    if bool_decide (c = ".") then parseIPv4 s
    else if bool_decide (c = ":") then parseIPv6 s
    else None
  | None => None
  end.

(** [UnmarshalText]: the empty text is the zero address. *)
Definition Addr_UnmarshalText (s : text) : option Addr :=
  if bool_decide (s = []) then Some AddrZero else ParseAddr s.

(** ** Printing *)

Definition string4 (n : Z) : text :=
  match be_bytes 4 n with
  | [a; b; c; d] => print_dec a ++ "." :: print_dec b ++ "." :: print_dec c ++ "." :: print_dec d
  | _ => []
  end.

Definition words6 (n : Z) : list Z :=
  (fun i => n / 2 ^ (112 - 16 * Z.of_nat i) mod 65536) <$> seq 0 8.

(** The length of the run of zero groups that starts here. *)
Fixpoint zero_run (ws : list Z) : nat :=
  match ws with
  | w :: r => if w =? 0 then S (zero_run r) else 0
  | [] => 0
  end.

(** The first longest run of at least two; [(255, 255)] when there is none. *)
Definition zero_span (ws : list Z) : nat * nat :=
  foldl (fun '(zs, ze) i =>
    let l := zero_run (drop i ws) in
    if (2 <=? l)%nat && (ze - zs <? l)%nat then (i, i + l) else (zs, ze))%nat
    (255, 255)%nat (seq 0 8).

Fixpoint print_groups (fuel i : nat) (ws : list Z) (zs ze : nat) : text :=
  match fuel with
  | O => []
  | S f =>
    if (8 <=? i)%nat then []
    else if (i =? zs)%nat then
      ":" :: ":" ::
        (if (8 <=? ze)%nat then []
         else print_hex (nth ze ws 0) ++ print_groups f (S ze) ws zs ze)
    else (if (0 <? i)%nat then [":"] else []) ++ print_hex (nth i ws 0)
         ++ print_groups f (S i) ws zs ze
  end.

Definition string6 (n : Z) : text :=
  let ws := words6 n in
  let '(zs, ze) := zero_span ws in print_groups 8 0 ws zs ze.

Definition Addr_String (a : Addr) : text :=
  match a with
  | AddrZero => tx "invalid IP"
  | Addr4 n => string4 n
  | Addr6 n z =>
    (if Is4In6 a then tx "::ffff:" ++ string4 (n mod 2 ^ 32) else string6 n)
    ++ (if bool_decide (z = ""%string) then [] else "%" :: tx z)
  end.

Definition Addr_MarshalText (a : Addr) : text :=
  match a with AddrZero => [] | _ => Addr_String a end.
