(* ===== verification/NetipTextFacts.v ===== *)
(** * Printed addresses parse back *)

From S2P Require Import Prelude Netip Text NetipText.

Open Scope char_scope.
Open Scope Z_scope.

(** ** Octets and IPv4 *)

Lemma byte_ind (P : Z -> Prop) : (forall c, P (ord c)) -> forall z, 0 <= z < 256 -> P z.
Proof. intros H z Hz. rewrite <- (ord_chr z) by done. apply H. Qed.

Lemma v4_fields_octet z r pos acc :
  0 <= z < 256 ->
  exists k, 0 < k /\ v4_fields (print_dec z ++ r) 0 pos 0 acc = v4_fields r z pos k acc.
Proof.
  revert z. apply byte_ind. intros c. exists (Z.of_nat (length (print_dec (ord c)))).
  destruct c as [[] [] [] [] [] [] [] []]; split; reflexivity.
Qed.

Lemma v4_fields_dot c r v pos k acc :
  0 < k -> pos <> 3 -> v4_fields ("." :: c :: r) v pos k acc = v4_fields (c :: r) 0 (pos + 1) 0 (acc ++ [v]).
Proof.
  intros Hk Hp. cbn -[v4_fields Z.add]. cbn [v4_fields]. change (is_digit ".") with false. cbv iota.
  rewrite bool_decide_eq_true_2 by done.
  rewrite (proj2 (Z.eqb_neq k 0)), (proj2 (Z.eqb_neq pos 3)) by lia. done.
Qed.

Lemma print_dec_cons n : exists c r, print_dec n = c :: r.
Proof. destruct (print_dec n) as [|c r] eqn:E; [by apply print_base_nonempty in E|eauto]. Qed.

Lemma v4_fields_dotted a b c d :
  0 <= a < 256 -> 0 <= b < 256 -> 0 <= c < 256 -> 0 <= d < 256 ->
  v4_fields (print_dec a ++ "." :: print_dec b ++ "." :: print_dec c ++ "." :: print_dec d) 0 0 0 []
  = Some [a; b; c; d].
Proof.
  intros Ha Hb Hc Hd.
  assert (Hdot : forall z r v pos k acc, 0 <= z < 256 -> 0 < k -> pos <> 3 ->
    exists k', 0 < k' /\
    v4_fields ("." :: print_dec z ++ r) v pos k acc = v4_fields r z (pos + 1) k' (acc ++ [v])).
  { intros z r v pos k acc Hz Hk Hp. destruct (v4_fields_octet z r (pos + 1) (acc ++ [v]) Hz) as (k' & Hk' & E).
    exists k'. split; [done|]. destruct (print_dec_cons z) as (x & y & Exy). rewrite Exy in *. simpl app.
    rewrite v4_fields_dot by done. exact E. }
  destruct (v4_fields_octet a ("." :: print_dec b ++ "." :: print_dec c ++ "." :: print_dec d) 0 [] Ha)
    as (k1 & H1 & ->).
  destruct (Hdot b ("." :: print_dec c ++ "." :: print_dec d) a 0 k1 [] Hb H1) as (k2 & H2 & ->); [lia|].
  destruct (Hdot c ("." :: print_dec d) b (0 + 1) k2 ([] ++ [a]) Hc H2) as (k3 & H3 & ->); [lia|].
  destruct (Hdot d [] c (0 + 1 + 1) k3 (([] ++ [a]) ++ [b]) Hd H3) as (k4 & H4 & E); [lia|].
  rewrite app_nil_r in E. rewrite E. done.
Qed.

Lemma string4_fields n :
  is_uint 32 n -> v4_fields (string4 n) 0 0 0 [] = Some (be_bytes 4 n).
Proof.
  intros Hn. unfold string4. pose proof (be_bytes_wf 4 n) as W. pose proof (length_be_bytes 4 n) as L.
  destruct (be_bytes 4 n) as [|a [|b [|c [|d [|]]]]]; try done.
  repeat (apply Forall_cons in W as [? W]). unfold is_byte in *. by apply v4_fields_dotted.
Qed.

(** ** What the first special character is *)

Lemma digit_char_not_special d : 0 <= d < 16 -> addr_special (digit_char d) = false.
Proof.
  intros Hd. assert (E : exists c, digit_char d = c /\ digit_val c = Some d)
    by (exists (digit_char d); split; [done|by apply digit_val_char]).
  destruct E as (c & -> & E). unfold addr_special. 
  repeat case_bool_decide; subst; by vm_compute in E.
Qed.

Lemma print_base_not_special b n r :
  2 <= b <= 16 -> 0 <= n -> List.find addr_special (print_base b n ++ r) = List.find addr_special r.
Proof.
  intros Hb Hn. unfold print_base. pose proof (digits_range b (S (Z.to_nat (Z.log2 n))) n ltac:(lia) Hn) as Hr.
  induction Hr as [|d ds Hd _ IH]; [done|]. simpl. rewrite digit_char_not_special by lia. exact IH.
Qed.

Lemma print_dec_head n r : 0 <= n -> exists c s, print_dec n ++ r = c :: s /\ addr_special c = false.
Proof.
  intros Hn. unfold print_dec, print_base.
  pose proof (digits_range 10 (S (Z.to_nat (Z.log2 n))) n ltac:(lia) Hn) as Hr.
  pose proof (digits_nonempty 10 (S (Z.to_nat (Z.log2 n))) n ltac:(lia)).
  destruct Hr as [|d ds Hd _]; [done|]. eexists _, _. split; [reflexivity|].
  apply digit_char_not_special. lia.
Qed.

Lemma ParseAddr_string4 n : is_uint 32 n -> ParseAddr (string4 n) = Some (Addr4 n).
Proof.
  intros Hn. unfold ParseAddr, parseIPv4. rewrite string4_fields by done.
  assert (E : List.find addr_special (string4 n) = Some ".").
  { unfold string4. pose proof (be_bytes_wf 4 n) as W. pose proof (length_be_bytes 4 n) as L.
    destruct (be_bytes 4 n) as [|a [|b [|c [|d [|]]]]]; try done.
    apply Forall_cons in W as [W _]. unfold is_byte in W.
    unfold print_dec. rewrite print_base_not_special by lia. done. }
  rewrite E. simpl. by rewrite be_val_bytes_exact.
Qed.

(** ** Hexadecimal groups *)

Definition stops (r : text) : Prop := match r with [] => True | c :: _ => digit_val c = None end.

Lemma hexnum_stop r off acc : stops r -> hexnum r off acc = Some (acc, off, r).
Proof. destruct r as [|c r]; simpl; [done|]. by intros ->. Qed.

Lemma digits_val_app b a ds : foldl (fun a d => a * b + d) a ds = a * b ^ Z.of_nat (length ds) + digits_val b ds.
Proof.
  revert a. induction ds as [|d ds IH] using rev_ind; intros a.
  - simpl. unfold digits_val. simpl. lia.
  - rewrite foldl_app, length_app, digits_val_snoc. simpl. rewrite IH.
    replace (Z.of_nat (length ds + 1)) with (Z.succ (Z.of_nat (length ds))) by lia.
    rewrite Z.pow_succ_r by lia. lia.
Qed.

Lemma hexnum_digits ds r off acc :
  Forall (fun d => 0 <= d < 16) ds -> 0 <= acc -> off + Z.of_nat (length ds) <= 4 ->
  foldl (fun a d => a * 16 + d) acc ds <= 65535 ->
  hexnum ((digit_char <$> ds) ++ r) off acc
  = hexnum r (off + Z.of_nat (length ds)) (foldl (fun a d => a * 16 + d) acc ds).
Proof.
  intros Hds. revert off acc. induction Hds as [|d ds Hd Hds IH]; intros off acc Ha Ho Hv; simpl in *.
  - f_equal. lia.
  - rewrite digit_val_char by done. rewrite (proj2 (Z.ltb_ge 3 off)) by lia.
    assert (acc * 16 + d <= 65535).
    { rewrite digits_val_app in Hv.
      assert (0 <= digits_val 16 ds) by (apply digits_val_nonneg; [lia|]; eapply Forall_impl; [exact Hds|]; simpl; lia).
      assert (1 <= 16 ^ Z.of_nat (length ds)) by (apply (Z.pow_le_mono_r 16 0); lia). nia. }
    rewrite (proj2 (Z.ltb_ge 65535 _)) by lia. rewrite IH by lia. f_equal. lia.
Qed.

Lemma digits_length b fuel k n :
  2 <= b -> 0 <= n < b ^ Z.of_nat k -> (0 < k)%nat -> (length (digits b fuel n) <= k)%nat.
Proof.
  intros Hb. revert k n. induction fuel as [|f IH]; intros k n Hn Hk; simpl; [lia|].
  destruct (Z.ltb_spec n b); [simpl; lia|]. rewrite length_app. simpl.
  destruct k as [|k]; [lia|]. rewrite Nat2Z.inj_succ, Z.pow_succ_r in Hn by lia.
  destruct k as [|k].
  - simpl in Hn. lia.
  - assert ((length (digits b f (n / b)) <= S k)%nat); [|lia].
    apply IH; [|lia]. split; [apply Z.div_pos; lia|apply Z.div_lt_upper_bound; lia].
Qed.

Lemma hexnum_print w r :
  0 <= w < 65536 -> stops r -> exists k, 0 < k /\ hexnum (print_hex w ++ r) 0 0 = Some (w, k, r).
Proof.
  intros Hw Hr. unfold print_hex, print_base. set (fuel := S _).
  assert (Hd := digits_range 16 fuel w ltac:(lia) ltac:(lia)).
  assert (Hv : digits_val 16 (digits 16 fuel w) = w)
    by (apply digits_val_digits; [lia|apply log2_fuel; lia|unfold fuel; lia]).
  assert (Hl := digits_length 16 fuel 4 w ltac:(lia) ltac:(lia) ltac:(lia)).
  assert (Hne := digits_nonempty 16 fuel w ltac:(unfold fuel; lia)).
  exists (0 + Z.of_nat (length (digits 16 fuel w))).
  unfold digits_val in Hv. rewrite hexnum_digits, Hv; [|done|lia|lia|lia].
  rewrite hexnum_stop by done. split; [|done]. destruct (digits 16 fuel w); [done|simpl; lia].
Qed.

(** ** IPv6: one lemma per way a group can be followed *)

Definition word (w : Z) : Prop := 0 <= w < 65536.

Lemma print_hex_head w r : word w -> exists c s, print_hex w ++ r = c :: s /\ addr_special c = false.
Proof.
  unfold word. intros Hw. unfold print_hex, print_base.
  pose proof (digits_range 16 (S (Z.to_nat (Z.log2 w))) w ltac:(lia) ltac:(lia)) as Hr.
  pose proof (digits_nonempty 16 (S (Z.to_nat (Z.log2 w))) w ltac:(lia)).
  destruct Hr as [|d ds Hd _]; [done|]. eexists _, _. split; [reflexivity|].
  by apply digit_char_not_special.
Qed.

Lemma not_colon c : addr_special c = false -> bool_decide (c = ":") = false.
Proof. unfold addr_special. by repeat case_bool_decide. Qed.

Section v6_steps.
Context (f : nat) (ws : list Z) (w : Z) (Hw : word w).

Lemma v6_loop_end e : v6_loop (S f) (print_hex w) ws e = v6_finish [] (ws ++ [w]) e.
Proof.
  destruct (hexnum_print w [] Hw I) as (k & Hk & E). rewrite app_nil_r in E.
  simpl. rewrite E, (proj2 (Z.eqb_neq k 0)) by lia. done.
Qed.

Lemma v6_loop_colon c r e :
  addr_special c = false ->
  v6_loop (S f) (print_hex w ++ ":" :: c :: r) ws e = v6_loop f (c :: r) (ws ++ [w]) e.
Proof.
  intros Hc. destruct (hexnum_print w (":" :: c :: r) Hw eq_refl) as (k & Hk & E).
  simpl. rewrite E, (proj2 (Z.eqb_neq k 0)) by lia. simpl. by rewrite not_colon.
Qed.

Lemma v6_loop_mid w' r e :
  word w' ->
  v6_loop (S f) (print_hex w ++ ":" :: print_hex w' ++ r) ws e
  = v6_loop f (print_hex w' ++ r) (ws ++ [w]) e.
Proof. intros H'. destruct (print_hex_head w' r H') as (c & s & -> & Hc). by apply v6_loop_colon. Qed.

Lemma v6_loop_ellipsis c r :
  v6_loop (S f) (print_hex w ++ ":" :: ":" :: c :: r) ws None
  = v6_loop f (c :: r) (ws ++ [w]) (Some (length (ws ++ [w]))).
Proof.
  destruct (hexnum_print w (":" :: ":" :: c :: r) Hw eq_refl) as (k & Hk & E).
  simpl. rewrite E, (proj2 (Z.eqb_neq k 0)) by lia. done.
Qed.

Lemma v6_loop_ellipsis_mid w' r :
  word w' ->
  v6_loop (S f) (print_hex w ++ ":" :: ":" :: print_hex w' ++ r) ws None
  = v6_loop f (print_hex w' ++ r) (ws ++ [w]) (Some (length (ws ++ [w]))).
Proof. intros H'. destruct (print_hex_head w' r H') as (c & s & -> & Hc). by apply v6_loop_ellipsis. Qed.

Lemma v6_loop_ellipsis_end :
  v6_loop (S f) (print_hex w ++ [":"; ":"]) ws None
  = v6_finish [] (ws ++ [w]) (Some (length (ws ++ [w]))).
Proof.
  destruct (hexnum_print w [":"; ":"] Hw eq_refl) as (k & Hk & E).
  simpl. rewrite E, (proj2 (Z.eqb_neq k 0)) by lia. done.
Qed.
End v6_steps.

(** A list of groups separated by colons. *)
Fixpoint colons (ws : list Z) : text :=
  match ws with
  | [] => []
  | [w] => print_hex w
  | w :: r => print_hex w ++ ":" :: colons r
  end.

Lemma colons_cons w w' r : colons (w :: w' :: r) = print_hex w ++ ":" :: colons (w' :: r).
Proof. done. Qed.

Lemma colons_head w r : word w -> exists c s, colons (w :: r) = c :: s /\ addr_special c = false.
Proof.
  intros Hw. destruct r as [|w' r].
  - simpl. rewrite <- (app_nil_r (print_hex w)). by apply print_hex_head.
  - rewrite colons_cons. by apply print_hex_head.
Qed.

(** Groups up to the end of the text. *)
Lemma v6_loop_colons f w gs ws e :
  Forall word (w :: gs) -> (length gs < f)%nat ->
  v6_loop f (colons (w :: gs)) ws e = v6_finish [] (ws ++ w :: gs) e.
Proof.
  revert f w ws. induction gs as [|w' gs IH]; intros f w ws Hw Hf; apply Forall_cons in Hw as [Hw Hgs];
    destruct f as [|f]; try (simpl in Hf; lia).
  - simpl colons. by apply v6_loop_end.
  - rewrite colons_cons. apply Forall_cons in Hgs as Hgs'. destruct Hgs' as [Hw' _].
    destruct (colons_head w' gs Hw') as (c & s & Ec & Hc).
    rewrite Ec, v6_loop_colon, <- Ec by done. rewrite IH by (done || (simpl in Hf; lia)).
    by rewrite <- app_assoc.
Qed.

(** Groups, then an ellipsis, then groups or the end. *)
Lemma v6_loop_elided f w gs ps ws :
  Forall word (w :: gs) -> Forall word ps -> (length gs + length ps < f)%nat ->
  v6_loop f (colons (w :: gs) ++ ":" :: ":" :: colons ps) ws None
  = v6_finish [] (ws ++ (w :: gs) ++ ps) (Some (length (ws ++ w :: gs))).
Proof.
  revert f w ws. induction gs as [|w' gs IH]; intros f w ws Hw Hp Hf; apply Forall_cons in Hw as [Hw Hgs];
    destruct f as [|f]; try (simpl in Hf; lia).
  - change (colons [w]) with (print_hex w). destruct ps as [|p ps].
    + simpl colons. rewrite v6_loop_ellipsis_end by done. by rewrite app_nil_r.
    + pose proof (Forall_cons_1 _ _ _ Hp) as [Hp1 _].
      destruct (colons_head p ps Hp1) as (c & s & Ec & Hc).
      rewrite Ec, v6_loop_ellipsis, <- Ec by done.
      rewrite v6_loop_colons by (done || (simpl in Hf; lia)). by rewrite <- app_assoc.
  - rewrite colons_cons, <- app_assoc, <- app_comm_cons. apply Forall_cons in Hgs as Hgs'. destruct Hgs' as [Hw' _].
    destruct (colons_head w' gs Hw') as (c & s & Ec & Hc). 
    rewrite Ec, <- app_comm_cons. rewrite v6_loop_colon by done.
    change (c :: s ++ ":" :: ":" :: colons ps) with ((c :: s) ++ ":" :: ":" :: colons ps).
    rewrite <- Ec, IH by (done || (simpl in Hf; lia)).
    rewrite <- !app_assoc. done.
Qed.

(** ** The printed groups *)

Lemma zero_run_spec l : take (zero_run l) l = replicate (zero_run l) 0 /\ (zero_run l <= length l)%nat.
Proof.
  induction l as [|w l [IH1 IH2]]; simpl; [done|]. destruct (Z.eqb_spec w 0) as [->|]; simpl; [|split; [done|lia]].
  rewrite IH1. split; [done|lia].
Qed.

Definition span_ok (ws : list Z) (z : nat * nat) : Prop :=
  z = (255, 255)%nat \/
  (z.1 + 2 <= z.2 /\ z.2 <= length ws)%nat /\ take (z.2 - z.1) (drop z.1 ws) = replicate (z.2 - z.1) 0.

Lemma zero_span_ok ws : span_ok ws (zero_span ws).
Proof.
  unfold zero_span. assert (H0 : span_ok ws (255, 255)%nat) by (by left). revert H0.
  generalize (255, 255)%nat. induction (seq 0 8) as [|i l IH]; intros z Hz; [done|].
  apply IH. destruct z as [zs ze]. cbv beta iota zeta. destruct (_ && _) eqn:E; [|done].
  apply andb_true_iff in E as [E _]. apply Nat.leb_le in E.
  destruct (zero_run_spec (drop i ws)) as [Ht Hl]. rewrite length_drop in Hl. right. simpl.
  replace (i + zero_run (drop i ws) - i)%nat with (zero_run (drop i ws)) by lia. split; [lia|done].
Qed.

Lemma eight_words (ws : list Z) : length ws = 8%nat -> exists a b c d e f g h, ws = [a; b; c; d; e; f; g; h].
Proof. intros H. do 8 (destruct ws as [|? ws]; [done|]). destruct ws; [|done]. naive_solver. Qed.

Lemma print_groups_plain ws : length ws = 8%nat -> print_groups 8 0 ws 255 255 = colons ws.
Proof.
  intros (a & b & c & d & e & f & g & h & ->)%eight_words.
  cbn -[print_hex]. by rewrite app_nil_r.
Qed.

Lemma print_groups_elided ws zs ze :
  length ws = 8%nat -> (zs + 2 <= ze <= 8)%nat ->
  print_groups 8 0 ws zs ze = colons (take zs ws) ++ ":" :: ":" :: colons (drop ze ws).
Proof.
  intros (a & b & c & d & e & f & g & h & ->)%eight_words H.
  do 7 (destruct zs as [|zs]; [
    do 9 (destruct ze as [|ze]; [try lia; cbn -[print_hex]; rewrite ?app_nil_r;
      repeat (rewrite <- app_assoc; cbn -[print_hex]); reflexivity|]); lia|]). lia.
Qed.

Lemma length_words6 n : length (words6 n) = 8%nat.
Proof. done. Qed.

Lemma words6_word n : Forall word (words6 n).
Proof. apply Forall_fmap, Forall_true. intros i. apply Z.mod_pos_bound. lia. Qed.

Lemma words_val_words6 n : is_uint 128 n -> words_val (words6 n) = n.
Proof.
  intros [Hl Hu]. unfold words_val, digits_val, words6. simpl.
  assert (Hs : forall k k', 0 <= k -> k' = k + 16 ->
    n / 2 ^ k = 65536 * (n / 2 ^ k') + n / 2 ^ k mod 65536).
  { intros k k' Hk ->. rewrite Z.pow_add_r, <- Z.div_div by lia. apply Z.div_mod. lia. }
  assert (H128 : n / 2 ^ 128 = 0) by (by apply Z.div_small).
  assert (H0 : n / 2 ^ 0 = n) by apply Z.div_1_r.
  pose proof (Hs 0 16 ltac:(lia) eq_refl). pose proof (Hs 16 32 ltac:(lia) eq_refl).
  pose proof (Hs 32 48 ltac:(lia) eq_refl). pose proof (Hs 48 64 ltac:(lia) eq_refl).
  pose proof (Hs 64 80 ltac:(lia) eq_refl). pose proof (Hs 80 96 ltac:(lia) eq_refl).
  pose proof (Hs 96 112 ltac:(lia) eq_refl). pose proof (Hs 112 128 ltac:(lia) eq_refl).
  clear Hs. change (112 - 16 * Z.of_nat 0) with 112. change (112 - 16 * Z.of_nat 1) with 96.
  change (112 - 16 * Z.of_nat 2) with 80. change (112 - 16 * Z.of_nat 3) with 64. change (112 - 16 * Z.of_nat 4) with 48.
  change (112 - 16 * Z.of_nat 5) with 32. change (112 - 16 * Z.of_nat 6) with 16. change (112 - 16 * Z.of_nat 7) with 0.
  generalize dependent (n / 2 ^ 128). intros q8 ? ?. generalize dependent (n / 2 ^ 112).
  generalize dependent (n / 2 ^ 96). generalize dependent (n / 2 ^ 80). generalize dependent (n / 2 ^ 64).
  generalize dependent (n / 2 ^ 48). generalize dependent (n / 2 ^ 32). generalize dependent (n / 2 ^ 16).
  generalize dependent (n / 2 ^ 0). intros. lia.
Qed.

Definition no_pct (t : text) : Prop := Forall (fun c => c <> "%") t.

Lemma split_zone_none t : no_pct t -> split_zone t = (t, None).
Proof. induction 1 as [|c t Hc _ IH]; simpl; [done|]. rewrite bool_decide_eq_false_2, IH by done. done. Qed.

Lemma print_base_no_pct b n : 2 <= b <= 16 -> 0 <= n -> no_pct (print_base b n).
Proof.
  intros Hb Hn. unfold no_pct, print_base. apply Forall_fmap.
  eapply Forall_impl; [apply digits_range; [lia|done]|]. intros d Hd E. simpl in *.
  assert (F : addr_special (digit_char d) = false) by (apply digit_char_not_special; lia).
  by rewrite E in F.
Qed.

Lemma colons_no_pct ws : Forall word ws -> no_pct (colons ws).
Proof.
  induction 1 as [|w ws Hw Hws IH]; [constructor|].
  assert (no_pct (print_hex w)) by (unfold word in Hw; apply print_base_no_pct; lia).
  destruct ws as [|w' ws]; [done|]. rewrite colons_cons. apply Forall_app. split; [done|].
  by constructor.
Qed.

Lemma find_colons w gs r :
  word w -> List.find addr_special (colons (w :: gs) ++ ":" :: r) = Some ":".
Proof.
  unfold word. intros Hw. destruct gs as [|w' gs].
  - simpl colons. unfold print_hex. by rewrite print_base_not_special by lia.
  - rewrite colons_cons, <- app_assoc. unfold print_hex. by rewrite print_base_not_special by lia.
Qed.

Lemma replace_span {A} (ws : list A) zs ze x :
  (zs <= ze)%nat -> take (ze - zs) (drop zs ws) = x -> take zs ws ++ x ++ drop ze ws = ws.
Proof.
  intros H <-. rewrite <- (take_drop zs ws) at 4. f_equal.
  rewrite <- (take_drop (ze - zs) (drop zs ws)) at 2. rewrite drop_drop. do 2 f_equal. lia.
Qed.

Lemma v6_finish_elided ws zs ze :
  length ws = 8%nat -> (zs + 2 <= ze <= 8)%nat -> take (ze - zs) (drop zs ws) = replicate (ze - zs) 0 ->
  v6_finish [] (take zs ws ++ drop ze ws) (Some zs) = Some ws.
Proof.
  intros Hl H Hz. unfold v6_finish. simpl. rewrite length_app, length_take, length_drop, Hl.
  rewrite (proj2 (Nat.ltb_lt _ 8)) by lia. f_equal.
  replace (8 - (zs `min` 8 + (8 - ze)))%nat with (ze - zs)%nat by lia.
  rewrite take_app_le, take_take, Nat.min_id by (rewrite length_take; lia).
  rewrite drop_app_ge by (rewrite length_take; lia). rewrite length_take, Hl.
  replace (zs - zs `min` 8)%nat with 0%nat by lia. rewrite drop_0. apply replace_span; [lia|done].
Qed.

Lemma words_val_zeros k : words_val (replicate k 0) = 0.
Proof. unfold words_val, digits_val. induction k; simpl; [done|]. exact IHk. Qed.

(** The text of a parsed address starts with a group or with the ellipsis. *)
Lemma parseIPv6_group c r :
  no_pct (c :: r) -> addr_special c = false ->
  parseIPv6 (c :: r) = match v6_loop 8 (c :: r) [] None with
                       | Some ws => Some (Addr6 (words_val ws) "") | None => None end.
Proof.
  intros Hp Hc. unfold parseIPv6. rewrite split_zone_none by done. simpl.
  destruct r as [|c1 r]; [done|]. by rewrite not_colon.
Qed.

Lemma parseIPv6_ellipsis r :
  no_pct r -> r <> [] ->
  parseIPv6 (":" :: ":" :: r) = match v6_loop 8 r [] (Some 0%nat) with
                       | Some ws => Some (Addr6 (words_val ws) "") | None => None end.
Proof.
  intros Hp Hr. unfold parseIPv6. rewrite split_zone_none by (by repeat constructor).
  simpl. by rewrite (bool_decide_eq_false_2 (r = [])).
Qed.

Lemma ParseAddr_colon s : List.find addr_special s = Some ":" -> ParseAddr s = parseIPv6 s.
Proof. unfold ParseAddr. by intros ->. Qed.

Lemma colons_group w gs r :
  word w -> exists c s, colons (w :: gs) ++ r = c :: s /\ addr_special c = false.
Proof. intros Hw. destruct (colons_head w gs Hw) as (c & s & -> & ?). by exists c, (s ++ r). Qed.

(** The plain, the leading and the inner ellipsis form. *)
Lemma ParseAddr_plain ws :
  length ws = 8%nat -> Forall word ws -> ParseAddr (colons ws) = Some (Addr6 (words_val ws) "").
Proof.
  intros Hl Hw. destruct ws as [|w [|w' gs]]; [done..|]. apply Forall_cons in Hw as Hw'. destruct Hw' as [Hw1 _].
  rewrite ParseAddr_colon.
  - pose proof (colons_no_pct _ Hw) as Hp. destruct (colons_group w (w' :: gs) [] Hw1) as (c & s & E & Hc).
    rewrite app_nil_r in E. rewrite E in *. rewrite parseIPv6_group, <- E by done.
    rewrite v6_loop_colons by (done || (simpl in *; lia)). unfold v6_finish. simpl app. rewrite Hl. done.
  - rewrite colons_cons. unfold print_hex. unfold word in Hw1. by rewrite print_base_not_special by lia.
Qed.

Lemma ParseAddr_lead ws ze :
  length ws = 8%nat -> Forall word ws -> (2 <= ze <= 8)%nat -> take ze ws = replicate ze 0 ->
  ParseAddr (":" :: ":" :: colons (drop ze ws)) = Some (Addr6 (words_val ws) "").
Proof.
  intros Hl Hw Hze Hz. rewrite ParseAddr_colon by done.
  assert (Hf := v6_finish_elided ws 0 ze Hl ltac:(lia)). rewrite Nat.sub_0_r in Hf. specialize (Hf Hz).
  destruct (drop ze ws) as [|p ps] eqn:E.
  - assert (Ews : ws = replicate ze 0) by (by rewrite <- (take_drop ze ws), E, app_nil_r, Hz).
    rewrite Ews, words_val_zeros. done.
  - assert (Hd : Forall word (p :: ps)) by (rewrite <- E; by apply Forall_drop).
    pose proof (Forall_cons_1 _ _ _ Hd) as [Hp _].
    rewrite parseIPv6_ellipsis; [|by apply colons_no_pct|].
    + assert (length (p :: ps) <= 8)%nat by (rewrite <- E, length_drop; lia).
      rewrite v6_loop_colons by (done || (simpl in *; lia)). simpl in Hf |- *. by rewrite Hf.
    + destruct (colons_head p ps Hp) as (c & s & -> & _). done.
Qed.

Lemma ParseAddr_inner ws zs ze :
  length ws = 8%nat -> Forall word ws -> (0 < zs)%nat -> (zs + 2 <= ze <= 8)%nat ->
  take (ze - zs) (drop zs ws) = replicate (ze - zs) 0 ->
  ParseAddr (colons (take zs ws) ++ ":" :: ":" :: colons (drop ze ws)) = Some (Addr6 (words_val ws) "").
Proof.
  intros Hl Hw Hzs H Hz. assert (Hf := v6_finish_elided ws zs ze Hl H Hz).
  assert (Hlt : length (take zs ws) = zs) by (rewrite length_take; lia).
  assert (Hd : Forall word (drop ze ws)) by (by apply Forall_drop).
  assert (Ht : Forall word (take zs ws)) by (by apply Forall_take).
  destruct (take zs ws) as [|w gs]; [simpl in Hlt; lia|].
  pose proof (Forall_cons_1 _ _ _ Ht) as [Hw1 _].
  rewrite ParseAddr_colon by (by apply find_colons).
  assert (Hp : no_pct (colons (w :: gs) ++ ":" :: ":" :: colons (drop ze ws))).
  { apply Forall_app. split; [by apply colons_no_pct|]. do 2 (constructor; [done|]). by apply colons_no_pct. }
  destruct (colons_group w gs (":" :: ":" :: colons (drop ze ws)) Hw1) as (c & s & E & Hc).
  rewrite E in *. rewrite parseIPv6_group, <- E by done.
  rewrite v6_loop_elided by (done || (rewrite length_drop; simpl in Hlt; lia)).
  rewrite !app_nil_l, Hlt, Hf. done.
Qed.

Lemma ParseAddr_string6 n : is_uint 128 n -> ParseAddr (string6 n) = Some (Addr6 n "").
Proof.
  intros Hn. rewrite <- (words_val_words6 n Hn) at 2. unfold string6.
  pose proof (zero_span_ok (words6 n)) as Hs. destruct (zero_span (words6 n)) as [zs ze].
  pose proof (words6_word n). pose proof (length_words6 n).
  destruct Hs as [[= -> ->]|[Hs Hz]]; simpl fst in *; simpl snd in *.
  - rewrite print_groups_plain by done. by apply ParseAddr_plain.
  - rewrite print_groups_elided by lia. destruct zs as [|zs].
    + rewrite Nat.sub_0_r in Hz. apply ParseAddr_lead; [done..|lia|done].
    + apply ParseAddr_inner; [done..|lia|lia|done].
Qed.

(** ** IPv4-mapped addresses *)

Lemma hexnum_octet z r :
  0 <= z < 256 -> exists v k, k <> 0 /\ hexnum (print_dec z ++ "." :: r) 0 0 = Some (v, k, "." :: r).
Proof.
  revert z. apply byte_ind. intros c. destruct c as [[] [] [] [] [] [] [] []];
    eexists _, _; (split; [|reflexivity]); lia.
Qed.

Lemma v6_loop_v4 f n :
  is_uint 32 n ->
  v6_loop (S f) (string4 n) [65535] (Some 0%nat)
  = Some ([0; 0; 0; 0; 0; 65535] ++ [n / 2 ^ 16; n mod 2 ^ 16]).
Proof.
  intros Hn. pose proof (string4_fields n Hn) as E4.
  assert (Hx : exists v k r, k <> 0 /\ hexnum (string4 n) 0 0 = Some (v, k, "." :: r)).
  { unfold string4. pose proof (be_bytes_wf 4 n) as W. pose proof (length_be_bytes 4 n) as L.
    destruct (be_bytes 4 n) as [|a [|b [|c [|d [|]]]]]; try done. apply Forall_cons in W as [Wa _].
    destruct (hexnum_octet a (print_dec b ++ "." :: print_dec c ++ "." :: print_dec d) Wa) as (v & k & ? & ?).
    by eexists _, _, _. }
  destruct Hx as (v & k & r & Hk & Ex). cbn [v6_loop]. rewrite Ex, (proj2 (Z.eqb_neq k 0)) by done.
  rewrite bool_decide_eq_true_2 by done. cbn -[v4_fields v6_finish Z.pow Z.div Z.modulo]. rewrite E4.
  unfold be_bytes. cbn -[Z.pow Z.div Z.modulo]. unfold v6_finish. cbn -[Z.pow Z.div Z.modulo].
  unfold is_uint in Hn.
  assert (E1 : n / 256 / 256 / 256 mod 256 * 256 + n / 256 / 256 mod 256 = n / 2 ^ 16).
  { rewrite (Z.div_div n 256 256) by lia. change (256 * 256) with (2 ^ 16).
    set (q := n / 2 ^ 16). assert (0 <= q < 65536)
      by (unfold q; split; [apply Z.div_pos; lia|apply Z.div_lt_upper_bound; lia]).
    pose proof (Z.div_mod q 256). rewrite (Z.mod_small (q / 256)); [lia|].
    split; [apply Z.div_pos; lia|apply Z.div_lt_upper_bound; lia]. }
  assert (E2 : n / 256 mod 256 * 256 + n mod 256 = n mod 2 ^ 16).
  { change (2 ^ 16) with (256 * 256). rewrite Z.rem_mul_r by lia. lia. }
  by rewrite E1, E2.
Qed.

Lemma ParseAddr_mapped n :
  is_uint 32 n -> ParseAddr (tx "::ffff:" ++ string4 n) = Some (Addr6 (v4mapped n) "").
Proof.
  intros Hn. change (tx "::ffff:") with (":" :: ":" :: print_hex 65535 ++ [":"]).
  rewrite <- !app_comm_cons, <- app_assoc, ParseAddr_colon by done.
  assert (Hh : exists c s, string4 n = c :: s /\ addr_special c = false).
  { unfold string4. pose proof (be_bytes_wf 4 n) as W. pose proof (length_be_bytes 4 n) as L.
    destruct (be_bytes 4 n) as [|a [|b [|c [|d [|]]]]]; try done. apply Forall_cons in W as [Wa _].
    unfold is_byte in Wa. apply print_dec_head. lia. }
  assert (Hp : no_pct (string4 n)).
  { unfold string4. pose proof (be_bytes_wf 4 n) as W. pose proof (length_be_bytes 4 n) as L.
    destruct (be_bytes 4 n) as [|a [|b [|c [|d [|]]]]]; try done.
    repeat (apply Forall_cons in W as [? W]). unfold is_byte in *.
    repeat (apply Forall_app; split; [apply print_base_no_pct; lia|constructor; [done|]]).
    apply print_base_no_pct; lia. }
  rewrite parseIPv6_ellipsis; [|apply Forall_app; split; [by apply print_base_no_pct|by constructor]|done].
  destruct Hh as (c & s & E & Hc). rewrite E in *. change ([":"] ++ c :: s) with (":" :: c :: s).
  rewrite v6_loop_colon, <- E by (done || (unfold word; lia)).
  change ([] ++ [65535]) with [65535]. rewrite v6_loop_v4 by done.
  unfold words_val, digits_val, v4mapped. cbn -[Z.pow Z.div Z.modulo Z.mul].
  change (2 ^ 32) with (65536 * 65536). change (2 ^ 16) with 65536.
  pose proof (Z.div_mod n 65536). do 2 f_equal. lia.
Qed.

(** Every valid address without a zone is read back from its text. *)
Lemma ParseAddr_String a :
  addr_wf a -> zoneless a -> IsValid a = true -> ParseAddr (Addr_String a) = Some a.
Proof.
  destruct a as [|n|n z]; intros Hw Hz Hv; [done|by apply ParseAddr_string4|].
  simpl in Hz. subst z. unfold Addr_String. rewrite bool_decide_eq_true_2, app_nil_r by done.
  destruct (Is4In6 _) eqn:E; [|by apply ParseAddr_string6]. simpl in E. apply Z.eqb_eq in E.
  simpl in Hw. unfold is_uint in Hw.
  rewrite ParseAddr_mapped by (apply Z.mod_pos_bound; lia). do 2 f_equal. unfold v4mapped.
  pose proof (Z.div_mod n (2 ^ 32)). lia.
Qed.

Lemma Addr_String_nonempty a : addr_wf a -> zoneless a -> Addr_String a <> [].
Proof.
  intros Hw Hz E. destruct (IsValid a) eqn:V; [|by destruct a].
  pose proof (ParseAddr_String a Hw Hz V) as P. by rewrite E in P.
Qed.

Lemma Addr_text_roundtrip a :
  addr_wf a -> zoneless a -> Addr_UnmarshalText (Addr_MarshalText a) = Some a.
Proof.
  intros Hw Hz. unfold Addr_UnmarshalText. destruct (IsValid a) eqn:E; [|by destruct a].
  replace (Addr_MarshalText a) with (Addr_String a) by (by destruct a).
  rewrite bool_decide_eq_false_2 by (by apply Addr_String_nonempty). by apply ParseAddr_String.
Qed.

(** ** Parsed addresses are well formed *)

Lemma v4_fields_wf s val pos k acc fs :
  0 <= val <= 255 -> Forall is_byte acc -> Z.of_nat (length acc) = pos -> pos <= 3 ->
  v4_fields s val pos k acc = Some fs -> Forall is_byte fs /\ length fs = 4%nat.
Proof.
  revert val pos k acc. induction s as [|c s IH]; intros val pos k acc Hv Ha Hp H3; cbn [v4_fields].
  - destruct (Z.ltb_spec pos 3); [done|]. intros [= <-]. split.
    + apply Forall_app. split; [done|]. constructor; [unfold is_byte; lia|constructor].
    + rewrite length_app. simpl. lia.
  - destruct (is_digit c) eqn:Ec.
    + destruct (_ && _); [done|]. destruct (Z.ltb_spec 255 (val * 10 + (ord c - 48))); [done|].
      unfold is_digit in Ec. apply andb_true_iff in Ec as [Ec%Z.leb_le _]. apply IH; [lia|done..].
    + case_bool_decide; [|done]. destruct (_ || _); [done|]. destruct (Z.eqb_spec pos 3); [done|].
      apply IH; [lia| |rewrite length_app; simpl; lia|lia].
      apply Forall_app. split; [done|]. constructor; [unfold is_byte; lia|constructor].
Qed.

Lemma hexnum_wf s off acc v k r : 0 <= acc <= 65535 -> hexnum s off acc = Some (v, k, r) -> word v.
Proof.
  revert off acc. induction s as [|c s IH]; intros off acc Ha; cbn [hexnum].
  - intros [= <- _ _]. unfold word. lia.
  - destruct (digit_val c) as [d|] eqn:Ed; [|intros [= <- _ _]; unfold word; lia].
    destruct (3 <? off); [done|]. destruct (Z.ltb_spec 65535 (acc * 16 + d)); [done|]. apply IH.
    assert (0 <= d); [|lia]. unfold digit_val in Ed. pose proof (ord_range c).
    repeat match type of Ed with context [if ?b then _ else _] => destruct b eqn:? end; simplify_eq;
      match goal with Hb : _ && _ = true |- _ => apply andb_true_iff in Hb as [Hb%Z.leb_le _] end; lia.
Qed.

Lemma v6_finish_wf s ws e out :
  Forall word ws -> (length ws <= 8)%nat -> v6_finish s ws e = Some out ->
  Forall word out /\ length out = 8%nat.
Proof.
  intros Hw Hl. unfold v6_finish. destruct (negb _); [done|]. destruct (Nat.ltb_spec (length ws) 8).
  - destruct e as [e|]; [|done]. intros [= <-]. split.
    + repeat (apply Forall_app; split); [by apply Forall_take| |by apply Forall_drop].
      apply Forall_replicate. unfold word. lia.
    + rewrite !length_app, length_take, length_replicate, length_drop. lia.
  - destruct e; [done|]. intros [= <-]. split; [done|lia].
Qed.

Lemma v6_loop_wf f s ws e out :
  Forall word ws -> (length ws + f <= 8)%nat -> v6_loop f s ws e = Some out ->
  Forall word out /\ length out = 8%nat.
Proof.
  revert s ws e. induction f as [|f IH]; intros s ws e Hw Hl.
  - apply v6_finish_wf; [done|lia].
  - cbn [v6_loop]. destruct (hexnum s 0 0) as [[[acc off] r]|] eqn:Eh; [|done].
    apply hexnum_wf in Eh; [|lia]. destruct (off =? 0); [done|].
    assert (Hw' : Forall word (ws ++ [acc])) by (apply Forall_app; split; [done|by constructor]).
    assert (Hl' : length (ws ++ [acc]) = S (length ws)) by (rewrite length_app; simpl; lia).
    destruct r as [|c r1]; [apply v6_finish_wf; [done|lia]|]. case_bool_decide.
    { destruct (_ && _); [done|]. destruct (Nat.ltb_spec 8 (length ws + 2)); [done|].
      destruct (v4_fields s 0 0 0 []) as [fs|] eqn:E4; [|done].
      apply v4_fields_wf in E4 as [E4 _]; [|lia|constructor|done|lia].
      destruct fs as [|a [|b [|c' [|d [|]]]]]; try done. repeat (apply Forall_cons in E4 as [? E4]).
      unfold is_byte in *. apply v6_finish_wf; [|rewrite length_app; simpl; lia].
      apply Forall_app. split; [done|]. repeat constructor; unfold word in *; lia. }
    destruct (negb _); [done|]. destruct r1 as [|c1 r2]; [done|]. case_bool_decide.
    + destruct e; [done|]. case_bool_decide; [apply v6_finish_wf; [done|lia]|apply IH; [done|lia]].
    + apply IH; [done|lia].
Qed.

Lemma ParseAddr_wf s a : ParseAddr s = Some a -> addr_wf a.
Proof.
  unfold ParseAddr. destruct (List.find addr_special s) as [c|]; [|done]. case_bool_decide.
  - unfold parseIPv4. destruct (v4_fields s 0 0 0 []) as [fs|] eqn:E; [|done]. intros [= <-].
    apply v4_fields_wf in E as [E L]; [|lia|constructor|done|lia]. simpl.
    pose proof (be_val_range fs E) as R. by rewrite L in R.
  - case_bool_decide; [|done]. unfold parseIPv6. destruct (split_zone s) as [s' z].
    case_bool_decide; [done|]. destruct (match s' with _ :: _ => _ | [] => _ end) as [s'' e].
    destruct (_ && _); [by intros [= <-]|]. destruct (v6_loop 8 s'' [] e) as [ws|] eqn:E; [|done].
    intros [= <-]. apply v6_loop_wf in E as [E L]; [|constructor|done]. simpl. unfold words_val.
    pose proof (digits_val_bound 65536 ws ltac:(lia) E) as R. rewrite L in R. exact R.
Qed.

Lemma Addr_UnmarshalText_wf s a : Addr_UnmarshalText s = Some a -> addr_wf a.
Proof. unfold Addr_UnmarshalText. case_bool_decide; [by intros [= <-]|]. apply ParseAddr_wf. Qed.

(** ** The characters of an address

    Hexadecimal digits, dots and colons: what holds of these holds of every
    character of a printed address without a zone. *)
Section chars.
Context (P : ascii -> Prop).
Hypothesis P_digit : forall d, 0 <= d < 16 -> P (digit_char d).
Hypothesis P_dot : P ".".
Hypothesis P_colon : P ":".

Lemma digits_chars b ds : 2 <= b <= 16 -> Forall (fun d => 0 <= d < b) ds -> Forall P (digit_char <$> ds).
Proof.
  intros Hb H. apply Forall_fmap. eapply Forall_impl; [exact H|]. intros d Hd. simpl in *. apply P_digit. lia.
Qed.

Lemma base_chars b n : 2 <= b <= 16 -> 0 <= n -> Forall P (print_base b n).
Proof. intros Hb Hn. apply (digits_chars b); [done|]. apply digits_range; lia. Qed.

Lemma string4_chars n : Forall P (string4 n).
Proof.
  unfold string4. pose proof (be_bytes_wf 4 n) as W. pose proof (length_be_bytes 4 n) as L.
  destruct (be_bytes 4 n) as [|a [|b [|c [|d [|]]]]]; try done.
  repeat (apply Forall_cons in W as [? W]). unfold is_byte in *.
  rewrite !Forall_app, !Forall_cons, !Forall_app, !Forall_cons, !Forall_app, !Forall_cons.
  split_and!; try apply base_chars; done || lia.
Qed.

Lemma colons_chars ws : Forall word ws -> Forall P (colons ws).
Proof.
  induction 1 as [|w ws Hw Hws IH]; [constructor|].
  assert (Forall P (print_hex w)) by (unfold word in Hw; apply base_chars; lia).
  destruct ws as [|w' ws]; [done|]. rewrite colons_cons, Forall_app, Forall_cons. done.
Qed.

Lemma string6_chars n : Forall P (string6 n).
Proof.
  unfold string6. pose proof (zero_span_ok (words6 n)) as Hs. destruct (zero_span (words6 n)) as [zs ze].
  pose proof (words6_word n). pose proof (length_words6 n).
  destruct Hs as [[= -> ->]|[Hs _]]; simpl fst in *; simpl snd in *.
  - rewrite print_groups_plain by done. by apply colons_chars.
  - rewrite print_groups_elided by lia. rewrite Forall_app, !Forall_cons.
    split_and!; try done; apply colons_chars; [by apply Forall_take|by apply Forall_drop].
Qed.

Lemma addr_chars a : zoneless a -> Forall P (Addr_MarshalText a).
Proof.
  destruct a as [|n|n z]; intros Hz; [constructor|apply string4_chars|]. simpl in Hz. subst z.
  unfold Addr_MarshalText, Addr_String. rewrite bool_decide_eq_true_2, app_nil_r by done.
  destruct (Is4In6 _); [|apply string6_chars]. apply Forall_app. split; [|apply string4_chars].
  pose proof (P_digit 15 ltac:(lia)) as Hf. cbn. rewrite !Forall_cons. done.
Qed.

End chars.
