(* ===== verification/TimeText.v ===== *)
(** * [time.Time] as text: RFC 3339, as [encoding/json] writes and reads it

    [Time.MarshalJSON] prints [RFC3339Nano] and refuses years outside
    [0, 9999]. [Time.UnmarshalJSON] tries the fixed-layout parser
    [parseRFC3339] first and falls back to the layout-driven [time.Parse] for
    the few extra spellings that one allows; the fallback is a parameter. *)

From S2P Require Import Prelude GoTime Text.

Open Scope char_scope.
Open Scope Z_scope.

(** ** The proleptic Gregorian calendar, days counted from 1 January of year 1 *)

Definition isLeap (y : Z) : bool := (y mod 4 =? 0) && (negb (y mod 100 =? 0) || (y mod 400 =? 0)).

Definition daysIn (m y : Z) : Z :=
  if m =? 2 then if isLeap y then 29 else 28
  else if (m =? 4) || (m =? 6) || (m =? 9) || (m =? 11) then 30 else 31.

(** The package's table [daysBefore]: days of a common year before month [i+1]. *)
Definition daysBefore (i : Z) : Z :=
  nth (Z.to_nat i) [0; 31; 59; 90; 120; 151; 181; 212; 243; 273; 304; 334; 365] 0.

(** Year and day of the year, by 400-, 100-, 4- and 1-year cycles; [n -= n >> 2]
    keeps the last day of a cycle in its last part. *)
Definition year_of_days (days : Z) : Z * Z :=
  let d := days mod 146097 in
  let n100 := d / 36524 - d / 36524 / 4 in
  let d1 := d - 36524 * n100 in
  let n4 := d1 / 1461 in
  let d2 := d1 - 1461 * n4 in
  let n1 := d2 / 365 - d2 / 365 / 4 in
  (400 * (days / 146097) + 100 * n100 + 4 * n4 + n1 + 1, d2 - 365 * n1).

(** Month and day from the day of the year. *)
Definition month_of_yday (leap : bool) (yday : Z) : Z * Z :=
  if leap && (yday =? 59) then (2, 29)
  else
    let day := if leap && (59 <? yday) then yday - 1 else yday in
    let month := day / 31 in
    let fin := daysBefore (month + 1) in
    if fin <=? day then (month + 2, day - fin + 1)
    else (month + 1, day - daysBefore month + 1).

Definition civil_of_days (days : Z) : Z * Z * Z :=
  let '(y, yday) := year_of_days days in
  let '(m, d) := month_of_yday (isLeap y) yday in (y, m, d).

Definition daysSinceEpoch (y : Z) : Z :=
  let z := y - 1 in
  z / 400 * 146097 + z mod 400 / 100 * 36524 + z mod 100 / 4 * 1461 + z mod 4 * 365.

Definition yday_of_month (leap : bool) (m d : Z) : Z :=
  daysBefore (m - 1) + (if leap && (3 <=? m) then 1 else 0) + d - 1.

Definition days_of_civil (y m d : Z) : Z := daysSinceEpoch y + yday_of_month (isLeap y) m d.

Definition Date (y m d hh mm ss ns : Z) : Time :=
  mkTime (days_of_civil y m d * 86400 + hh * 3600 + mm * 60 + ss) ns.

Definition Year (t : Time) : Z := (civil_of_days (sec t / 86400)).1.1.

(** ** Printing *)

(** Fixed-width decimal. *)
Fixpoint pad (w : nat) (n : Z) : list Z :=
  match w with O => [] | S w' => pad w' (n / 10) ++ [n mod 10] end.
Definition print_pad (w : nat) (n : Z) : text := digit_char <$> pad w n.

Fixpoint rtrim (ds : list Z) : list Z :=
  match ds with
  | [] => []
  | d :: r => match rtrim r with [] => if d =? 0 then [] else [d] | r' => d :: r' end
  end.

Definition print_frac (ns : Z) : text :=
  if ns =? 0 then [] else "." :: (digit_char <$> rtrim (pad 9 ns)).

(** [appendInt] with width four: years outside [0, 9999] take more room. *)
Definition print_year (y : Z) : text :=
  let digits n := if n <? 10000 then print_pad 4 n else print_dec n in
  if y <? 0 then "-" :: digits (- y) else digits y.

(** Date and time of day, as both layouts begin. *)
Definition print_civil (t : Time) : text :=
  let '(y, mo, d) := civil_of_days (sec t / 86400) in
  let s := sec t mod 86400 in
  print_year y ++ "-" :: print_pad 2 mo ++ "-" :: print_pad 2 d ++ "T" ::
  print_pad 2 (s / 3600) ++ ":" :: print_pad 2 (s mod 3600 / 60) ++ ":" :: print_pad 2 (s mod 60).

Definition FormatRFC3339Nano (t : Time) : text := print_civil t ++ print_frac (nsec t) ++ ["Z"].

(** The layout [2006-01-02T15:04:05.000000Z07:00]: always six digits. *)
Definition FormatMicro (t : Time) : text :=
  print_civil t ++ ("." :: print_pad 6 (nsec t / 1000)) ++ ["Z"].

(** [MarshalJSON], without the quotes. *)
Definition Time_MarshalText (t : Time) : option text :=
  if (0 <=? Year t) && (Year t <=? 9999) then Some (FormatRFC3339Nano t) else None.

(** ** Parsing *)

Definition num (t : text) (lo hi : Z) : option Z :=
  match dec_digits t with
  | Some ds => let n := digits_val 10 ds in if (lo <=? n) && (n <=? hi) then Some n else None
  | None => None
  end.

(** [parseNanoseconds]: at most nine digits count. *)
Definition nanoseconds (ds : text) : option Z :=
  let ds := take 9 ds in
  match dec_digits ds with
  | Some l => Some (digits_val 10 l * 10 ^ (9 - Z.of_nat (length l)))
  | None => None
  end.

Definition parse_frac (s : text) : option (Z * text) :=
  match s with
  | c :: c1 :: _ =>
    if bool_decide (c = ".") && is_digit c1 then
      let '(ds, r) := span_digits (tail s) in
      match nanoseconds ds with Some n => Some (n, r) | None => None end
    else Some (0, s)
  | _ => Some (0, s)
  end.

(** The offset east of UTC, in seconds. *)
Definition parse_zone (s : text) : option Z :=
  match s with
  | [c] => if bool_decide (c = "Z") then Some 0 else None
  | [c; h1; h2; c1; m1; m2] =>
    if (bool_decide (c = "+") || bool_decide (c = "-")) && bool_decide (c1 = ":") then
      match num [h1; h2] 0 23, num [m1; m2] 0 59 with
      | Some h, Some m =>
        let off := (h * 60 + m) * 60 in Some (if bool_decide (c = "-") then - off else off)
      | _, _ => None
      end
    else None
  | _ => None
  end.

Definition parseRFC3339 (s : text) : option Time :=
  match s with
  | y1 :: y2 :: y3 :: y4 :: c1 :: m1 :: m2 :: c2 :: d1 :: d2 :: c3 :: h1 :: h2 :: c4 ::
    i1 :: i2 :: c5 :: s1 :: s2 :: rest =>
    match num [y1; y2; y3; y4] 0 9999, num [m1; m2] 1 12 with
    | Some y, Some mo =>
      match num [d1; d2] 1 (daysIn mo y), num [h1; h2] 0 23, num [i1; i2] 0 59, num [s1; s2] 0 59 with
      | Some d, Some hh, Some mi, Some ss =>
        if bool_decide ([c1; c2; c3; c4; c5] = ["-"; "-"; "T"; ":"; ":"]) then
          match parse_frac rest with
          | Some (ns, z) =>
            match parse_zone z with
            | Some off =>
              let t := Date y mo d hh mi ss ns in Some (mkTime (sec t - off) (nsec t))
            | None => None
            end
          | None => None
          end
        else None
      | _, _, _, _ => None
      end
    | _, _ => None
    end
  | _ => None
  end.

(** [UnmarshalJSON] on the characters between the quotes. *)
Definition Time_UnmarshalText (timeParse : text -> option Time) (s : text) : option Time :=
  match parseRFC3339 s with Some t => Some t | None => timeParse s end.

(** ** Facts *)

Fixpoint all_from (p : Z -> bool) (n : nat) (z : Z) : bool :=
  match n with O => true | S k => p z && all_from p k (z + 1) end.

Lemma all_from_spec p n z0 z : all_from p n z0 = true -> z0 <= z < z0 + Z.of_nat n -> p z = true.
Proof.
  revert z0. induction n as [|n IH]; intros z0; [lia|]. simpl. intros [Hp Hn]%andb_true_iff Hz.
  destruct (decide (z = z0)) as [->|]; [done|apply (IH (z0 + 1)); [done|lia]].
Qed.

(** Every day of a year has an existing month and day, and is found again. *)
Definition yday_ok (leap : bool) (yday : Z) : bool :=
  let '(m, d) := month_of_yday leap yday in
  (yday_of_month leap m d =? yday) && (1 <=? m) && (m <=? 12) && (1 <=? d) &&
  (d <=? daysIn m (if leap then 4 else 1)).

Lemma ydays_ok : all_from (yday_ok true) 366 0 && all_from (yday_ok false) 365 0 = true.
Proof. vm_compute. reflexivity. Qed.

Lemma month_of_yday_ok y yday m d :
  0 <= yday < 365 + (if isLeap y then 1 else 0) -> month_of_yday (isLeap y) yday = (m, d) ->
  yday_of_month (isLeap y) m d = yday /\ 1 <= m <= 12 /\ 1 <= d <= daysIn m y.
Proof.
  intros Hy E. pose proof ydays_ok as [Ht Hf]%andb_true_iff.
  assert (Hok : yday_ok (isLeap y) yday = true)
    by (destruct (isLeap y); [apply (all_from_spec _ _ _ _ Ht)|apply (all_from_spec _ _ _ _ Hf)]; lia).
  unfold yday_ok in Hok. rewrite E in Hok.
  assert (Ed : daysIn m (if isLeap y then 4 else 1) = daysIn m y)
    by (unfold daysIn; destruct (isLeap y); done).
  rewrite Ed, !andb_true_iff, Z.eqb_eq, !Z.leb_le in Hok. tauto.
Qed.

(** The decomposition of a year number into its cycles. *)
Lemma year_parts a b c e :
  0 <= b <= 3 -> 0 <= c <= 24 -> 0 <= e <= 3 ->
  daysSinceEpoch (400 * a + 100 * b + 4 * c + e + 1) = 146097 * a + 36524 * b + 1461 * c + 365 * e /\
  isLeap (400 * a + 100 * b + 4 * c + e + 1) = (e =? 3) && (negb (c =? 24) || (b =? 3)).
Proof.
  intros Hb Hc He. unfold daysSinceEpoch, isLeap.
  replace (400 * a + 100 * b + 4 * c + e + 1 - 1) with (100 * b + 4 * c + e + a * 400) by lia.
  set (y := 400 * a + 100 * b + 4 * c + e + 1).
  rewrite Z.div_add, Z.mod_add by lia.
  assert (E1 : (100 * b + 4 * c + e + a * 400) mod 100 = 4 * c + e)
    by (symmetry; apply (Z.mod_unique _ _ (b + 4 * a)); lia).
  assert (E2 : (100 * b + 4 * c + e + a * 400) mod 4 = e)
    by (symmetry; apply (Z.mod_unique _ _ (25 * b + c + 100 * a)); lia).
  rewrite E1, E2, (Z.div_small _ 400), (Z.mod_small _ 400) by lia.
  assert (E3 : (100 * b + 4 * c + e) / 100 = b) by (symmetry; apply (Z.div_unique _ _ _ (4 * c + e)); lia).
  assert (E4 : (4 * c + e) / 4 = c) by (symmetry; apply (Z.div_unique _ _ _ e); lia).
  rewrite E3, E4. split; [lia|]. apply eq_true_iff_eq.
  rewrite !andb_true_iff, !orb_true_iff, !negb_true_iff, !Z.eqb_eq, !Z.eqb_neq.
  pose proof (Z.div_mod y 4). pose proof (Z.mod_pos_bound y 4). pose proof (Z.div_mod y 100).
  pose proof (Z.mod_pos_bound y 100). pose proof (Z.div_mod y 400). pose proof (Z.mod_pos_bound y 400).
  unfold y in *. lia.
Qed.

Lemma year_of_days_ok days y yday :
  year_of_days days = (y, yday) ->
  daysSinceEpoch y + yday = days /\ 0 <= yday < 365 + (if isLeap y then 1 else 0).
Proof.
  unfold year_of_days. pose proof (Z.mod_pos_bound days 146097 ltac:(lia)) as Hd.
  pose proof (Z.div_mod days 146097 ltac:(lia)) as Ed.
  set (q := days / 146097) in *. set (d := days mod 146097) in *.
  pose proof (Z.div_mod d 36524 ltac:(lia)). pose proof (Z.mod_pos_bound d 36524 ltac:(lia)).
  set (k := d / 36524) in *. assert (Hk : 0 <= k <= 4) by lia.
  assert (Hb : k - k / 4 = Z.min k 3)
    by (assert (k = 0 \/ k = 1 \/ k = 2 \/ k = 3 \/ k = 4) as [->|[->|[->|[->| ->]]]] by lia; done).
  rewrite Hb. set (b := Z.min k 3) in *. set (d1 := d - 36524 * b) in *.
  assert (Hd1 : 0 <= d1 <= 36524 - (if b =? 3 then 0 else 1)) by (destruct (Z.eqb_spec b 3); lia).
  pose proof (Z.div_mod d1 1461 ltac:(lia)). pose proof (Z.mod_pos_bound d1 1461 ltac:(lia)).
  set (c := d1 / 1461) in *. set (d2 := d1 - 1461 * c) in *.
  pose proof (Z.div_mod d2 365 ltac:(lia)). pose proof (Z.mod_pos_bound d2 365 ltac:(lia)).
  set (j := d2 / 365) in *. assert (Hj : 0 <= j <= 4) by lia.
  assert (He : j - j / 4 = Z.min j 3)
    by (assert (j = 0 \/ j = 1 \/ j = 2 \/ j = 3 \/ j = 4) as [->|[->|[->|[->| ->]]]] by lia; done).
  rewrite He. set (e := Z.min j 3) in *. intros [= <- <-].
  destruct (year_parts q b c e) as [-> ->]; [lia|destruct (b =? 3); lia|lia|].
  split; [lia|]. destruct (Z.eqb_spec b 3), (Z.eqb_spec c 24), (Z.eqb_spec e 3); simpl; lia.
Qed.

Lemma civil_of_days_ok days y m d :
  civil_of_days days = (y, m, d) ->
  days_of_civil y m d = days /\ 1 <= m <= 12 /\ 1 <= d <= daysIn m y.
Proof.
  unfold civil_of_days, days_of_civil. destruct (year_of_days days) as [y0 yday] eqn:Ey.
  destruct (month_of_yday (isLeap y0) yday) as [m0 d0] eqn:Em. intros [= <- <- <-].
  destruct (year_of_days_ok _ _ _ Ey) as [Hd Hr].
  destruct (month_of_yday_ok _ _ _ _ Hr Em) as (Hy & Hm & Hdd). lia.
Qed.

Lemma pad_range w n : 0 <= n -> Forall (fun d => 0 <= d < 10) (pad w n).
Proof.
  revert n. induction w as [|w IH]; intros n Hn; simpl; [constructor|]. apply Forall_app. split.
  - apply IH, Z.div_pos; lia.
  - constructor; [apply Z.mod_pos_bound; lia|constructor].
Qed.

Lemma length_pad w n : length (pad w n) = w.
Proof. revert n. induction w; intros; simpl; [done|]. rewrite length_app, IHw. simpl. lia. Qed.

Lemma digits_val_pad w n : 0 <= n < 10 ^ Z.of_nat w -> digits_val 10 (pad w n) = n.
Proof.
  revert n. induction w as [|w IH]; intros n Hn.
  - simpl in *. unfold digits_val. simpl. lia.
  - rewrite Nat2Z.inj_succ, Z.pow_succ_r in Hn by lia. simpl. rewrite digits_val_snoc, IH.
    + pose proof (Z.div_mod n 10). lia.
    + split; [apply Z.div_pos; lia|apply Z.div_lt_upper_bound; lia].
Qed.

Lemma num_pad w n lo hi :
  (0 < w)%nat -> 0 <= n < 10 ^ Z.of_nat w -> lo <= n <= hi -> num (print_pad w n) lo hi = Some n.
Proof.
  intros Hw Hn Hb. unfold num, print_pad.
  rewrite dec_digits_chars, digits_val_pad; [| done | | apply pad_range; lia].
  - by rewrite (proj2 (Z.leb_le _ _)), (proj2 (Z.leb_le _ _)) by lia.
  - intros E. apply (f_equal length) in E. rewrite length_pad in E. simpl in E. lia.
Qed.

Lemma rtrim_spec ds : exists k, ds = rtrim ds ++ replicate k 0.
Proof.
  induction ds as [|d ds [k IH]]; [by exists 0%nat|]. simpl. destruct (rtrim ds) as [|x r] eqn:E.
  - destruct (Z.eqb_spec d 0) as [->|]; [exists (S k)|exists k]; simpl in *; by rewrite IH at 1.
  - exists k. rewrite IH at 1. done.
Qed.

Lemma digits_val_zeros b ds k : 0 <= b -> digits_val b (ds ++ replicate k 0) = digits_val b ds * b ^ Z.of_nat k.
Proof.
  intros Hb. revert ds. induction k as [|k IH]; intros ds.
  - simpl replicate. rewrite app_nil_r. simpl. lia.
  - replace (ds ++ replicate (S k) 0) with ((ds ++ [0]) ++ replicate k 0) by (by rewrite <- app_assoc).
    rewrite IH, digits_val_snoc, Nat2Z.inj_succ, Z.pow_succ_r by lia. lia.
Qed.

Lemma parse_frac_print ns :
  0 <= ns < Second -> parse_frac (print_frac ns ++ ["Z"]) = Some (ns, ["Z"]).
Proof.
  intros Hns. unfold print_frac. destruct (Z.eqb_spec ns 0) as [->|Hne]; [done|].
  pose proof (pad_range 9 ns ltac:(lia)) as Hr. destruct (rtrim_spec (pad 9 ns)) as [k Hk].
  pose proof (digits_val_pad 9 ns Hns) as Hv. pose proof (length_pad 9 ns) as Hl.
  rewrite Hk in Hv, Hr, Hl. rewrite digits_val_zeros in Hv by lia. apply Forall_app in Hr as [Hr _].
  rewrite length_app, length_replicate in Hl. set (ds := rtrim (pad 9 ns)) in *.
  destruct ds as [|d ds]; [unfold digits_val in Hv; simpl in Hv; lia|].
  pose proof (Forall_cons_1 _ _ _ Hr) as [Hd _]. rewrite fmap_cons. unfold parse_frac.
  rewrite <- !app_comm_cons. rewrite bool_decide_eq_true_2 by done. destruct (is_digit_char d Hd) as [-> _].
  cbn [andb tail]. change (digit_char d :: (digit_char <$> ds) ++ ["Z"]) with ((digit_char <$> d :: ds) ++ ["Z"]).
  rewrite span_digits_chars by done. unfold nanoseconds.
  rewrite take_ge by (rewrite length_fmap; lia). rewrite dec_digits_chars by done.
  replace (9 - Z.of_nat (length (d :: ds))) with (Z.of_nat k) by lia. by rewrite Hv.
Qed.

Lemma parse_frac_micro k :
  0 <= k < 1000000 -> parse_frac (("." :: print_pad 6 k) ++ ["Z"]) = Some (k * 1000, ["Z"]).
Proof.
  intros Hk. pose proof (pad_range 6 k ltac:(lia)) as Hr. pose proof (length_pad 6 k) as Hl.
  pose proof (digits_val_pad 6 k Hk) as Hv. unfold print_pad. set (ds := pad 6 k) in *.
  destruct ds as [|d ds]; [done|]. pose proof (Forall_cons_1 _ _ _ Hr) as [Hd _].
  rewrite fmap_cons. unfold parse_frac. rewrite <- !app_comm_cons. rewrite bool_decide_eq_true_2 by done.
  destruct (is_digit_char d Hd) as [-> _]. cbn [andb tail].
  change (digit_char d :: (digit_char <$> ds) ++ ["Z"]) with ((digit_char <$> d :: ds) ++ ["Z"]).
  rewrite span_digits_chars by done. unfold nanoseconds.
  rewrite take_ge by (rewrite length_fmap; lia). rewrite dec_digits_chars by done.
  rewrite Hl, Hv. done.
Qed.

(** The date and the time of day are read back exactly, whatever fraction follows. *)
Lemma parse_civil t f ns :
  0 <= Year t <= 9999 -> parse_frac (f ++ ["Z"]) = Some (ns, ["Z"]) ->
  parseRFC3339 (print_civil t ++ f ++ ["Z"]) = Some (mkTime (sec t) ns).
Proof.
  unfold Year, print_civil.
  destruct (civil_of_days (sec t / 86400)) as [[y mo] d] eqn:Ec. cbn [fst snd].
  intros [Ey1 Ey2] Hf. destruct (civil_of_days_ok _ _ _ _ Ec) as (Ed & Hm & Hd).
  assert (daysIn mo y <= 31) by (unfold daysIn; repeat case_match; lia).
  pose proof (Z.mod_pos_bound (sec t) 86400 ltac:(lia)) as Hs. set (s := sec t mod 86400) in *.
  assert (0 <= s / 3600 <= 23) by (split; [apply Z.div_pos; lia|apply Z.lt_succ_r, Z.div_lt_upper_bound; lia]).
  pose proof (Z.mod_pos_bound s 3600 ltac:(lia)). pose proof (Z.mod_pos_bound s 60 ltac:(lia)).
  assert (0 <= s mod 3600 / 60 <= 59) by (split; [apply Z.div_pos; lia|apply Z.lt_succ_r, Z.div_lt_upper_bound; lia]).
  pose proof (num_pad 4 y 0 9999 ltac:(lia) ltac:(lia) ltac:(lia)) as N1.
  pose proof (num_pad 2 mo 1 12 ltac:(lia) ltac:(lia) ltac:(lia)) as N2.
  pose proof (num_pad 2 d 1 (daysIn mo y) ltac:(lia) ltac:(lia) ltac:(lia)) as N3.
  pose proof (num_pad 2 (s / 3600) 0 23 ltac:(lia) ltac:(lia) ltac:(lia)) as N4.
  pose proof (num_pad 2 (s mod 3600 / 60) 0 59 ltac:(lia) ltac:(lia) ltac:(lia)) as N5.
  pose proof (num_pad 2 (s mod 60) 0 59 ltac:(lia) ltac:(lia) ltac:(lia)) as N6.
  unfold print_year. rewrite (proj2 (Z.ltb_ge y 0)), (proj2 (Z.ltb_lt y 10000)) by lia.
  unfold print_pad in *. cbn -[num digit_char parse_frac Z.div Z.modulo Z.mul daysIn Date] in *.
  rewrite N1, N2, N3, N4, N5, N6. rewrite bool_decide_eq_true_2 by done.
  rewrite Hf. simpl parse_zone. cbv iota beta. unfold Date. cbn [sec nsec].
  do 2 f_equal. rewrite Ed. subst s.
  pose proof (Z.div_mod (sec t) 86400). pose proof (Z.div_mod (sec t mod 86400) 3600).
  assert (E60 : sec t mod 86400 mod 3600 mod 60 = sec t mod 86400 mod 60).
  { change 3600 with (60 * 60). rewrite Z.rem_mul_r, Z.mul_comm, Z.mod_add, Z.mod_mod by lia. done. }
  pose proof (Z.div_mod (sec t mod 86400 mod 3600) 60). lia.
Qed.

(** An instant of a representable year is read back exactly. *)
Lemma Time_text_roundtrip p t s :
  time_wf t -> Time_MarshalText t = Some s -> Time_UnmarshalText p s = Some t.
Proof.
  intros [_ Hns]. unfold Time_MarshalText. destruct (_ && _) eqn:Ey; [|done]. intros [= <-].
  apply andb_true_iff in Ey as [Ey1%Z.leb_le Ey2%Z.leb_le]. unfold Time_UnmarshalText, FormatRFC3339Nano.
  rewrite (parse_civil t _ (nsec t)) by (lia || by apply parse_frac_print). by destruct t.
Qed.

(** The six-digit layout keeps whole microseconds. *)
Lemma FormatMicro_parses t :
  time_wf t -> 0 <= Year t <= 9999 -> parseRFC3339 (FormatMicro t) = Some (TruncateMicro t).
Proof.
  intros [_ Hns] Hy. unfold FormatMicro, Second in *.
  rewrite (parse_civil t _ (nsec t / 1000 * 1000)); [|done|apply parse_frac_micro].
  - unfold TruncateMicro, Microsecond. do 2 f_equal. pose proof (Z.div_mod (nsec t) 1000). lia.
  - split; [apply Z.div_pos; lia|apply Z.div_lt_upper_bound; lia].
Qed.

(** ** Parsed instants are well formed *)

Lemma num_range t lo hi n : num t lo hi = Some n -> lo <= n <= hi.
Proof.
  unfold num. destruct (dec_digits t); [|done]. destruct (Z.leb_spec lo (digits_val 10 l)),
    (Z.leb_spec (digits_val 10 l) hi); simpl; try done. by intros [= <-].
Qed.

Lemma nanoseconds_range ds n : nanoseconds ds = Some n -> 0 <= n < Second.
Proof.
  unfold nanoseconds. destruct (dec_digits (take 9 ds)) as [l|] eqn:E; [|done]. intros [= <-].
  apply dec_digits_range in E as [Hl Hlen]. rewrite length_take in Hlen.
  pose proof (digits_val_bound 10 l ltac:(lia) Hl). set (k := Z.of_nat (length l)) in *.
  assert (0 <= k <= 9) by lia. assert (E : Second = 10 ^ k * 10 ^ (9 - k)).
  { rewrite <- Z.pow_add_r by lia. by replace (k + (9 - k)) with 9 by lia. }
  assert (0 < 10 ^ (9 - k)) by (apply Z.pow_pos_nonneg; lia). rewrite E. nia.
Qed.

Lemma parse_frac_range s n r : parse_frac s = Some (n, r) -> 0 <= n < Second.
Proof.
  unfold parse_frac. destruct s as [|c [|c1 s]]; try (by intros [= <- _]).
  destruct (_ && _); [|by intros [= <- _]]. destruct (span_digits _) as [ds k].
  destruct (nanoseconds ds) eqn:E; [|done]. intros [= <- _]. by eapply nanoseconds_range.
Qed.

Lemma parse_zone_range s off : parse_zone s = Some off -> -86400 <= off <= 86400.
Proof.
  unfold parse_zone.
  destruct s as [|c [|h1 [|h2 [|c1 [|m1 [|m2 [|]]]]]]]; try done.
  - case_bool_decide; [|done]. intros [= <-]. lia.
  - destruct (_ && _); [|done]. destruct (num [h1; h2] 0 23) eqn:E1; [|done].
    destruct (num [m1; m2] 0 59) eqn:E2; [|done]. apply num_range in E1, E2.
    intros [= <-]. case_bool_decide; lia.
Qed.

Lemma daysSinceEpoch_range y : 0 <= y <= 9999 -> -1000 <= daysSinceEpoch y <= 5000000.
Proof.
  intros Hy. unfold daysSinceEpoch. set (z := y - 1).
  pose proof (Z.div_mod z 400). pose proof (Z.mod_pos_bound z 400).
  pose proof (Z.mod_pos_bound z 100). pose proof (Z.mod_pos_bound z 4).
  assert (0 <= z mod 400 / 100 < 4) by (split; [apply Z.div_pos|apply Z.div_lt_upper_bound]; lia).
  assert (0 <= z mod 100 / 4 < 25) by (split; [apply Z.div_pos|apply Z.div_lt_upper_bound]; lia).
  assert (-1 <= z / 400 <= 25) by lia. split; [|lia].
  destruct (decide (z = -1)) as [->|]; [vm_compute; congruence|]. assert (0 <= z / 400) by lia. lia.
Qed.

Lemma daysBefore_range i : 0 <= daysBefore i <= 365.
Proof.
  unfold daysBefore. generalize (Z.to_nat i). intros k.
  do 13 (destruct k as [|k]; [vm_compute; intuition congruence|]). by destruct k.
Qed.

Lemma parseRFC3339_wf s t : parseRFC3339 s = Some t -> time_wf t.
Proof.
  unfold parseRFC3339. do 19 (destruct s as [|? s]; [done|]).
  destruct (num _ 0 9999) as [y|] eqn:Ey; [|done]. destruct (num _ 1 12) as [mo|] eqn:Em; [|done].
  destruct (num _ 1 (daysIn mo y)) as [d|] eqn:Ed; [|done].
  destruct (num _ 0 23) as [hh|] eqn:Eh; [|done].
  match goal with |- context [num ?t 0 59] => destruct (num t 0 59) as [mi|] eqn:Ei; [|done] end.
  match goal with |- context [num ?t 0 59] => destruct (num t 0 59) as [ss|] eqn:Es; [|done] end.
  case_bool_decide; [|done]. destruct (parse_frac s) as [[ns z]|] eqn:Ef; [|done].
  destruct (parse_zone z) as [off|] eqn:Ez; [|done]. intros [= <-].
  apply num_range in Ey, Em, Ed, Eh, Ei, Es. apply parse_frac_range in Ef. apply parse_zone_range in Ez.
  assert (daysIn mo y <= 31) by (unfold daysIn; repeat case_match; lia).
  pose proof (daysSinceEpoch_range y Ey). pose proof (daysBefore_range (mo - 1)).
  split; [|done]. unfold is_sint. simpl. unfold days_of_civil, yday_of_month.
  destruct (_ && _); lia.
Qed.
