(* ===== verification/Json.v ===== *)
(** * [encoding/json]: JSON text and values

    The scanner and the literal decoders of Go's [encoding/json], as far as
    flat objects of scalars need them, and the printer [json.Marshal] uses. A
    parsed string keeps its raw characters ([time.Time] reads those); [unquote]
    gives the value Go stores in a [string]. The scanner's nesting limit of
    10000 levels is not modelled. *)

From S2P Require Import Prelude Text.

Open Scope char_scope.
Open Scope Z_scope.

#[warnings="-register-all"]
Inductive json :=
| JNull
| JBool (b : bool)
| JNum (lit : text)
| JStr (raw : text)
| JArr (l : list json)
| JObj (kvs : list (text * json)).

Definition quot : ascii := "034".
Definition bsl : ascii := "\".

(** ** Scanning *)

Definition is_ws (c : ascii) : bool :=
  let n := ord c in (n =? 32) || (n =? 9) || (n =? 10) || (n =? 13).

Fixpoint skip_ws (s : text) : text :=
  match s with c :: r => if is_ws c then skip_ws r else s | [] => [] end.

Definition is_hex (c : ascii) : bool := match digit_val c with Some _ => true | None => false end.

Definition simple_escape (e : ascii) : option ascii :=
  if bool_decide (e = quot) then Some quot
  else if bool_decide (e = bsl) then Some bsl
  else if bool_decide (e = "/") then Some "/"
  else if bool_decide (e = "b") then Some (chr 8)
  else if bool_decide (e = "f") then Some (chr 12)
  else if bool_decide (e = "n") then Some (chr 10)
  else if bool_decide (e = "r") then Some (chr 13)
  else if bool_decide (e = "t") then Some (chr 9)
  else None.

(** What follows the opening quote: the raw contents and the rest. *)
Fixpoint scan_string (s : text) : option (text * text) :=
  match s with
  | [] => None
  | c :: r =>
    if bool_decide (c = quot) then Some ([], r)
    else if bool_decide (c = bsl) then
      match r with
      | [] => None
      | e :: r2 =>
        if bool_decide (e = "u") then
          match r2 with
          | h1 :: h2 :: h3 :: h4 :: r3 =>
            if is_hex h1 && is_hex h2 && is_hex h3 && is_hex h4 then
              match scan_string r3 with
              | Some (raw, k) => Some (c :: e :: h1 :: h2 :: h3 :: h4 :: raw, k)
              | None => None
              end
            else None
          | _ => None
          end
        else
          match simple_escape e, scan_string r2 with
          | Some _, Some (raw, k) => Some (c :: e :: raw, k)
          | _, _ => None
          end
      end
    else if ord c <? 32 then None
    else match scan_string r with Some (raw, k) => Some (c :: raw, k) | None => None end
  end.

(** The digits after a point or an exponent: at least one. *)
Definition scan_digits1 (s : text) : option (text * text) :=
  match span_digits s with ([], _) => None | (ds, r) => Some (ds, r) end.

Definition scan_exp (s : text) : option (text * text) :=
  match s with
  | e :: r =>
    if bool_decide (e = "e") || bool_decide (e = "E") then
      let '(sg, r) := match r with
                      | c :: r' => if bool_decide (c = "+") || bool_decide (c = "-") then ([c], r') else ([], r)
                      | [] => ([], [])
                      end in
      match scan_digits1 r with Some (ds, k) => Some (e :: sg ++ ds, k) | None => None end
    else Some ([], s)
  | [] => Some ([], [])
  end.

Definition scan_frac (s : text) : option (text * text) :=
  match s with
  | c :: r =>
    if bool_decide (c = ".") then
      match scan_digits1 r with Some (ds, k) => Some (c :: ds, k) | None => None end
    else Some ([], s)
  | [] => Some ([], [])
  end.

Definition scan_int (s : text) : option (text * text) :=
  match s with
  | c :: r =>
    if bool_decide (c = "0") then Some ([c], r)
    else if is_digit c then let '(ds, k) := span_digits s in Some (ds, k)
    else None
  | [] => None
  end.

Definition scan_number (s : text) : option (text * text) :=
  let '(sg, r) := match s with c :: r => if bool_decide (c = "-") then ([c], r) else ([], s) | [] => ([], []) end in
  match scan_int r with
  | None => None
  | Some (i, r) =>
    match scan_frac r with
    | None => None
    | Some (fr, r) =>
      match scan_exp r with
      | None => None
      | Some (ex, r) => Some (sg ++ i ++ fr ++ ex, r)
      end
    end
  end.

Fixpoint strip (p s : text) : option text :=
  match p, s with
  | [], _ => Some s
  | a :: p', b :: s' => if bool_decide (a = b) then strip p' s' else None
  | _, [] => None
  end.

(** A scalar, or nothing. *)
Definition scan_scalar (s : text) : option (json * text) :=
  match s with
  | [] => None
  | c :: r =>
    if bool_decide (c = quot) then
      match scan_string r with Some (raw, k) => Some (JStr raw, k) | None => None end
    else if bool_decide (c = "n") then
      match strip (tx "null") s with Some k => Some (JNull, k) | None => None end
    else if bool_decide (c = "t") then
      match strip (tx "true") s with Some k => Some (JBool true, k) | None => None end
    else if bool_decide (c = "f") then
      match strip (tx "false") s with Some k => Some (JBool false, k) | None => None end
    else match scan_number s with Some (lit, k) => Some (JNum lit, k) | None => None end
  end.

(** Values, array elements and object members; each nested
    call is at most two deep per character consumed, so twice the length of the
    text is fuel enough. *)
Fixpoint scan_value (fuel : nat) (s : text) : option (json * text) :=
  match fuel with
  | O => None
  | S f =>
    match skip_ws s with
    | c :: r =>
      if bool_decide (c = "{") then
        match skip_ws r with
        | c1 :: r1 =>
          if bool_decide (c1 = "}") then Some (JObj [], r1)
          else match scan_members f (c1 :: r1) with Some (l, k) => Some (JObj l, k) | None => None end
        | [] => None
        end
      else if bool_decide (c = "[") then
        match skip_ws r with
        | c1 :: r1 =>
          if bool_decide (c1 = "]") then Some (JArr [], r1)
          else match scan_elements f (c1 :: r1) with Some (l, k) => Some (JArr l, k) | None => None end
        | [] => None
        end
      else scan_scalar (c :: r)
    | [] => None
    end
  end
with scan_elements (fuel : nat) (s : text) : option (list json * text) :=
  match fuel with
  | O => None
  | S f =>
    match scan_value f s with
    | None => None
    | Some (v, r) =>
      match skip_ws r with
      | c :: r1 =>
        if bool_decide (c = "]") then Some ([v], r1)
        else if bool_decide (c = ",") then
          match scan_elements f r1 with Some (l, k) => Some (v :: l, k) | None => None end
        else None
      | [] => None
      end
    end
  end
with scan_members (fuel : nat) (s : text) : option (list (text * json) * text) :=
  match fuel with
  | O => None
  | S f =>
    match skip_ws s with
    | c :: r =>
      if negb (bool_decide (c = quot)) then None
      else
        match scan_string r with
        | None => None
        | Some (key, r1) =>
          match skip_ws r1 with
          | c1 :: r2 =>
            if negb (bool_decide (c1 = ":")) then None
            else
              match scan_value f r2 with
              | None => None
              | Some (v, r3) =>
                match skip_ws r3 with
                | c2 :: r4 =>
                  if bool_decide (c2 = "}") then Some ([(key, v)], r4)
                  else if bool_decide (c2 = ",") then
                    match scan_members f r4 with Some (l, k) => Some ((key, v) :: l, k) | None => None end
                  else None
                | [] => None
                end
              end
          | [] => None
          end
        end
    | [] => None
    end
  end.

(** The validity check of [json.Unmarshal]: one value and nothing after it. *)
Definition parse_json (s : text) : option json :=
  match scan_value (S (2 * length s)) s with
  | Some (v, r) => if bool_decide (skip_ws r = []) then Some v else None
  | None => None
  end.

(** ** UTF-8 *)

Definition cont (c : ascii) : bool := (128 <=? ord c) && (ord c <=? 191).
Definition between (lo hi : Z) (c : ascii) : bool := (lo <=? ord c) && (ord c <=? hi).

Definition utf8_2 (c c1 : ascii) : bool := between 194 223 c && cont c1.
Definition utf8_3 (c c1 c2 : ascii) : bool :=
  cont c2 &&
  ((between 224 224 c && between 160 191 c1) || (between 225 236 c && cont c1) ||
   (between 237 237 c && between 128 159 c1) || (between 238 239 c && cont c1)).
Definition utf8_4 (c c1 c2 c3 : ascii) : bool :=
  cont c2 && cont c3 &&
  ((between 240 240 c && between 144 191 c1) || (between 241 243 c && cont c1) ||
   (between 244 244 c && between 128 143 c1)).

Definition utf8_encode (r : Z) : text :=
  if r <? 128 then [chr r]
  else if r <? 2048 then [chr (192 + r / 64); chr (128 + r mod 64)]
  else if r <? 65536 then [chr (224 + r / 4096); chr (128 + r / 64 mod 64); chr (128 + r mod 64)]
  else [chr (240 + r / 262144); chr (128 + r / 4096 mod 64); chr (128 + r / 64 mod 64); chr (128 + r mod 64)].

Definition RuneError : Z := 65533.

(** ** Strings *)

Definition hex4 (a b c d : ascii) : Z :=
  digits_val 16 (default 0 <$> [digit_val a; digit_val b; digit_val c; digit_val d]).

Definition is_surrogate (r : Z) : bool := (55296 <=? r) && (r <? 57344).

(** The value of a raw string: escapes, surrogate pairs, and the replacement
    character for anything that is not UTF-8. *)
Fixpoint unquote (s : text) : text :=
  match s with
  | [] => []
  | c :: r =>
    if bool_decide (c = bsl) then
      match r with
      | [] => []
      | e :: r2 =>
        if bool_decide (e = "u") then
          match r2 with
          | h1 :: h2 :: h3 :: h4 :: r3 =>
            let rune := hex4 h1 h2 h3 h4 in
            if is_surrogate rune then
              match r3 with
              | b1 :: u1 :: k1 :: k2 :: k3 :: k4 :: r4 =>
                let low := hex4 k1 k2 k3 k4 in
                if bool_decide (b1 = bsl) && bool_decide (u1 = "u") && (rune <? 56320)
                   && (56320 <=? low) && (low <? 57344)
                then utf8_encode (65536 + (rune - 55296) * 1024 + (low - 56320)) ++ unquote r4
                else utf8_encode RuneError ++ unquote r3
              | _ => utf8_encode RuneError ++ unquote r3
              end
            else utf8_encode rune ++ unquote r3
          | _ => []
          end
        else match simple_escape e with Some x => x :: unquote r2 | None => [] end
      end
    else if ord c <? 128 then c :: unquote r
    else
      match r with
      | c1 :: r1 =>
        if utf8_2 c c1 then c :: c1 :: unquote r1
        else
          match r1 with
          | c2 :: r2 =>
            if utf8_3 c c1 c2 then c :: c1 :: c2 :: unquote r2
            else
              match r2 with
              | c3 :: r3 =>
                if utf8_4 c c1 c2 c3 then c :: c1 :: c2 :: c3 :: unquote r3
                else utf8_encode RuneError ++ unquote r
              | [] => utf8_encode RuneError ++ unquote r
              end
          | [] => utf8_encode RuneError ++ unquote r
          end
      | [] => utf8_encode RuneError
      end
  end.

Definition html_unsafe (c : ascii) : bool :=
  bool_decide (c = "<") || bool_decide (c = ">") || bool_decide (c = "&").

Definition esc_u (n : Z) : text :=
  bsl :: "u" :: (digit_char <$> [n / 4096 mod 16; n / 256 mod 16; n / 16 mod 16; n mod 16]).

(** One character below 128, as [appendString] writes it with HTML escaping. *)
Definition esc_ascii (c : ascii) : text :=
  let n := ord c in
  if bool_decide (c = quot) || bool_decide (c = bsl) then [bsl; c]
  else if n =? 8 then [bsl; "b"] else if n =? 12 then [bsl; "f"]
  else if n =? 10 then [bsl; "n"] else if n =? 13 then [bsl; "r"] else if n =? 9 then [bsl; "t"]
  else if (n <? 32) || html_unsafe c then esc_u n
  else [c].

Fixpoint quote (s : text) : text :=
  match s with
  | [] => []
  | c :: r =>
    if ord c <? 128 then esc_ascii c ++ quote r
    else
      match r with
      | c1 :: r1 =>
        if utf8_2 c c1 then c :: c1 :: quote r1
        else
          match r1 with
          | c2 :: r2 =>
            if utf8_3 c c1 c2 then
              (if (ord c =? 226) && (ord c1 =? 128) && ((ord c2 =? 168) || (ord c2 =? 169))
               then esc_u (8232 + (ord c2 - 168)) else [c; c1; c2]) ++ quote r2
            else
              match r2 with
              | c3 :: r3 =>
                if utf8_4 c c1 c2 c3 then c :: c1 :: c2 :: c3 :: quote r3
                else esc_u RuneError ++ quote r
              | [] => esc_u RuneError ++ quote r
              end
          | [] => esc_u RuneError ++ quote r
          end
      | [] => esc_u RuneError
      end
  end.

(** ** Printing *)

Fixpoint print_json (j : json) : text :=
  match j with
  | JNull => tx "null"
  | JBool true => tx "true"
  | JBool false => tx "false"
  | JNum lit => lit
  | JStr raw => quot :: raw ++ [quot]
  | JArr l =>
    "[" :: (fix go l := match l with
                        | [] => []
                        | [x] => print_json x
                        | x :: r => print_json x ++ "," :: go r
                        end) l ++ ["]"]
  | JObj l =>
    "{" :: (fix go l := match l with
                        | [] => []
                        | [(k, x)] => quot :: k ++ quot :: ":" :: print_json x
                        | (k, x) :: r => quot :: k ++ quot :: ":" :: print_json x ++ "," :: go r
                        end) l ++ ["}"]
  end.

(** ** Struct fields

    [encoding/json] matches a key to a field by its exact name or else case
    insensitively; the fields here are told apart by either rule, so folding
    decides. Two characters outside ASCII fold to [s] and [k]. *)

Fixpoint fold_name (s : text) : text :=
  match s with
  | [] => []
  | c :: r =>
    let lower := if between 65 90 c then chr (ord c + 32) else c in
    match r with
    | c1 :: r1 =>
      if (ord c =? 197) && (ord c1 =? 191) then "s" :: fold_name r1
      else
        match r1 with
        | c2 :: r2 =>
          if (ord c =? 226) && (ord c1 =? 132) && (ord c2 =? 170) then "k" :: fold_name r2
          else lower :: fold_name r
        | [] => lower :: fold_name r
        end
    | [] => [lower]
    end
  end.

Definition is_field (name : string) (key : text) : bool := bool_decide (fold_name (unquote key) = tx name).

(** ** Facts: what is printed is read back *)

(** The members of an object, as [print_json] writes them. *)
Fixpoint members_text (l : list (text * json)) : text :=
  match l with
  | [] => []
  | [(k, x)] => quot :: k ++ quot :: ":" :: print_json x
  | (k, x) :: r => quot :: k ++ quot :: ":" :: print_json x ++ "," :: members_text r
  end.

Lemma print_json_obj l : print_json (JObj l) = "{" :: members_text l ++ ["}"].
Proof.
  reflexivity.
Qed.

Definition is_ascii (c : ascii) : Prop := ord c < 128.

Lemma esc_ascii_scan c x :
  is_ascii c ->
  scan_string (esc_ascii c ++ x) =
  match scan_string x with Some (raw, k) => Some (esc_ascii c ++ raw, k) | None => None end.
Proof.
  unfold is_ascii. destruct c as [[] [] [] [] [] [] [] []]; intros H; try (vm_compute in H; discriminate H);
    simpl; by destruct (scan_string x) as [[]|].
Qed.

Lemma esc_ascii_unquote c x : is_ascii c -> unquote (esc_ascii c ++ x) = c :: unquote x.
Proof.
  unfold is_ascii. destruct c as [[] [] [] [] [] [] [] []]; intros H; try (vm_compute in H; discriminate H);
    reflexivity.
Qed.

Definition raw_ok (raw : text) : Prop := forall r, scan_string (raw ++ quot :: r) = Some (raw, r).

Lemma quote_cons c s : is_ascii c -> quote (c :: s) = esc_ascii c ++ quote s.
Proof. intros H. cbn [quote]. by rewrite (proj2 (Z.ltb_lt _ _) H). Qed.

Lemma quote_raw_ok s : Forall is_ascii s -> raw_ok (quote s).
Proof.
  intros Hs r. induction Hs as [|c s Hc _ IH]; [done|].
  rewrite quote_cons, <- app_assoc, esc_ascii_scan, IH by done. done.
Qed.

Lemma unquote_quote s : Forall is_ascii s -> unquote (quote s) = s.
Proof.
  induction 1 as [|c s Hc _ IH]; [done|]. by rewrite quote_cons, esc_ascii_unquote, IH by done.
Qed.

(** *** Scalars *)

Definition delim (r : text) : Prop :=
  match r with c :: _ => c = "," \/ c = "}" \/ c = "]" | [] => False end.

Definition scalar_ok (j : json) : Prop :=
  (forall r, delim r -> scan_scalar (print_json j ++ r) = Some (j, r)) /\
  exists c t, print_json j = c :: t /\ is_ws c = false /\ c <> "{" /\ c <> "[".

Lemma JNull_ok : scalar_ok JNull.
Proof. split; [done|]. by exists "n", (tx "ull"). Qed.

Lemma JStr_ok raw : raw_ok raw -> scalar_ok (JStr raw).
Proof.
  intros H. split; [|by exists quot, (raw ++ [quot])]. intros r _. cbn [print_json].
  rewrite <- app_comm_cons, <- app_assoc. cbn [scan_scalar]. rewrite bool_decide_eq_true_2 by done.
  change ([quot] ++ r) with (quot :: r). by rewrite H.
Qed.

Lemma digits_head b fuel n d ds :
  2 <= b -> 0 < n < 2 ^ Z.of_nat fuel -> digits b fuel n = d :: ds -> 0 < d.
Proof.
  intros Hb. revert n d ds. induction fuel as [|f IH]; intros n d ds Hn; simpl; [done|].
  destruct (Z.ltb_spec n b); [by intros [= <- _]; lia|].
  rewrite Nat2Z.inj_succ, Z.pow_succ_r in Hn by lia.
  assert (Hq : 0 < n / b < 2 ^ Z.of_nat f)
    by (split; [apply Z.div_str_pos; lia|apply Z.div_lt_upper_bound; nia]).
  destruct (digits b f (n / b)) as [|d0 ds0] eqn:E; simpl.
  - destruct f; [simpl in Hq; lia|]. by apply digits_nonempty in E; [|lia].
  - intros [= <- _]. by eapply IH.
Qed.

Lemma delim_plain r : delim r -> scan_frac r = Some ([], r) /\ scan_exp r = Some ([], r) /\
  match r with c :: _ => is_digit c = false | [] => True end.
Proof. destruct r as [|c r]; [done|]. intros [-> | [-> | ->]]; done. Qed.

Lemma scan_int_dec n r :
  0 <= n -> match r with c :: _ => is_digit c = false | [] => True end ->
  scan_int (print_dec n ++ r) = Some (print_dec n, r).
Proof.
  intros Hn Hr. destruct (decide (n = 0)) as [->|Hne]; [done|].
  unfold print_dec, print_base. set (fuel := S _).
  assert (Hd := digits_range 10 fuel n ltac:(lia) Hn).
  assert (Hf := log2_fuel n Hn). fold fuel in Hf.
  destruct (digits 10 fuel n) as [|d ds] eqn:E; [by apply digits_nonempty in E; [|unfold fuel; lia]|].
  apply digits_head in E; [|lia|lia].
  pose proof (Forall_cons_1 _ _ _ Hd) as [Hd1 _]. destruct (is_digit_char d Hd1) as [D O].
  rewrite fmap_cons, <- app_comm_cons. unfold scan_int. rewrite bool_decide_eq_false_2, D.
  - change (digit_char d :: (digit_char <$> ds) ++ r) with ((digit_char <$> d :: ds) ++ r).
    by rewrite span_digits_chars.
  - intros C. rewrite C in O. change (48 = 48 + d) in O. lia.
Qed.

Lemma print_dec_digit n c t : 0 <= n -> print_dec n = c :: t -> is_digit c = true.
Proof.
  intros Hn. unfold print_dec, print_base.
  pose proof (digits_range 10 (S (Z.to_nat (Z.log2 n))) n ltac:(lia) Hn) as Hr.
  destruct Hr as [|d ds Hd _]; [done|]. rewrite fmap_cons. intros [= <- _]. by apply is_digit_char.
Qed.

Lemma scan_scalar_number c t :
  is_digit c = true \/ c = "-" ->
  scan_scalar (c :: t) = match scan_number (c :: t) with Some (lit, k) => Some (JNum lit, k) | None => None end.
Proof.
  intros H. cbn [scan_scalar].
  repeat (rewrite bool_decide_eq_false_2; [|intros ->; destruct H as [H|H]; vm_compute in H; discriminate H]).
  done.
Qed.

Lemma digit_plain c : is_digit c = true \/ c = "-" -> is_ws c = false /\ c <> "{" /\ c <> "[".
Proof.
  intros H. split; [|split; intros ->; destruct H as [H|H]; vm_compute in H; discriminate H].
  unfold is_ws. unfold is_digit in H. destruct H as [H| ->]; [|done].
  rewrite andb_true_iff, !Z.leb_le in H. rewrite !orb_false_iff, !Z.eqb_neq. lia.
Qed.

Lemma JNum_int_ok n : scalar_ok (JNum (print_int n)).
Proof.
  unfold print_int. destruct (Z.ltb_spec n 0).
  - split; [|eexists _, _; split; [reflexivity|apply digit_plain; by right]].
    intros r Hr. cbn [print_json]. rewrite <- app_comm_cons, scan_scalar_number by (by right).
    unfold scan_number. rewrite bool_decide_eq_true_2 by done.
    destruct (delim_plain r Hr) as (F & X & D). rewrite scan_int_dec by (done || lia).
    rewrite F, X. by rewrite !app_nil_r.
  - destruct (print_dec n) as [|c t] eqn:E; [by apply print_base_nonempty in E|].
    assert (Hc := print_dec_digit _ _ _ H E).
    split; [|eexists _, _; split; [reflexivity|apply digit_plain; by left]].
    intros r Hr. cbn [print_json]. rewrite <- app_comm_cons, scan_scalar_number by (by left).
    destruct (delim_plain r Hr) as (F & X & D). unfold scan_number.
    rewrite bool_decide_eq_false_2 by (intros ->; vm_compute in Hc; discriminate Hc).
    rewrite app_comm_cons, <- E, scan_int_dec, F, X by done. by rewrite !app_nil_r.
Qed.

Lemma JNum_ok n : 0 <= n -> scalar_ok (JNum (print_dec n)).
Proof.
  intros H. pose proof (JNum_int_ok n) as Hn. unfold print_int in Hn.
  by rewrite (proj2 (Z.ltb_ge n 0) H) in Hn.
Qed.

(** *** Objects *)

Lemma skip_ws_head c t : is_ws c = false -> skip_ws (c :: t) = c :: t.
Proof. intros H. cbn [skip_ws]. by rewrite H. Qed.

Lemma scan_value_scalar f j r : scalar_ok j -> delim r -> scan_value (S f) (print_json j ++ r) = Some (j, r).
Proof.
  intros [Hj (c & t & E & Hw & H1 & H2)] Hr. specialize (Hj r Hr). rewrite E in *.
  cbn [scan_value]. rewrite <- app_comm_cons in *. rewrite skip_ws_head by done.
  by rewrite !bool_decide_eq_false_2.
Qed.

(** A value is readable when the scanner gives it back, with fuel within twice
    the length of its text. *)
Definition scans (n : nat) (j : json) : Prop :=
  forall f r, (n <= f)%nat -> delim r -> scan_value f (print_json j ++ r) = Some (j, r).
Definition readable (j : json) : Prop :=
  exists n c t, (n <= 2 * length (print_json j))%nat /\ scans n j /\
    print_json j = c :: t /\ is_ws c = false /\ c <> "]".

Lemma scan_scalar_bracket t : scan_scalar ("]" :: t) = None.
Proof. reflexivity. Qed.

Lemma scalar_readable j : scalar_ok j -> readable j.
Proof.
  intros Hj. pose proof Hj as [Hs (c & t & E & Hw & _)]. exists 1%nat, c, t. split_and!; try done.
  - rewrite E. simpl. lia.
  - intros [|f] r Hf Hr; [lia|]. by apply scan_value_scalar.
  - intros ->. specialize (Hs ["," ] ltac:(by left)). by rewrite E, <- app_comm_cons, scan_scalar_bracket in Hs.
Qed.

(** *** Members and elements *)

Definition member_readable (m : text * json) : Prop := raw_ok m.1 /\ readable m.2.

Lemma scan_member f n k j c r :
  raw_ok k -> scans n j -> (n <= f)%nat -> c = "," \/ c = "}" ->
  scan_members (S f) (quot :: k ++ quot :: ":" :: print_json j ++ c :: r) =
  if bool_decide (c = "}") then Some ([(k, j)], r)
  else match scan_members f r with Some (l, k') => Some ((k, j) :: l, k') | None => None end.
Proof.
  intros Hk Hj Hf Hc. cbn [scan_members]. rewrite skip_ws_head by done.
  rewrite bool_decide_eq_true_2 by done. cbn [negb]. rewrite Hk. rewrite skip_ws_head by done.
  rewrite bool_decide_eq_true_2 by done. cbn [negb]. rewrite Hj by (done || (destruct Hc; subst; simpl; auto)).
  rewrite skip_ws_head by (destruct Hc as [-> | ->]; done). by destruct Hc as [-> | ->].
Qed.

Lemma members_text_cons k x m l :
  members_text ((k, x) :: m :: l) = quot :: k ++ quot :: ":" :: print_json x ++ "," :: members_text (m :: l).
Proof. reflexivity. Qed.

Lemma scan_members_text m l :
  Forall member_readable (m :: l) ->
  forall f r, (S (2 * length (members_text (m :: l))) <= f)%nat ->
  scan_members f (members_text (m :: l) ++ "}" :: r) = Some (m :: l, r).
Proof.
  revert m. induction l as [|m' l IH]; intros [k j] Hm f r Hf;
    (destruct f as [|f]; [simpl in Hf; lia|]);
    apply Forall_cons in Hm as [[Hk (n & c & t & Hn & Hj & _)] Hl]; simpl in Hk, Hj, Hn.
  - cbn [members_text] in *. rewrite <- app_comm_cons, <- app_assoc, <- !app_comm_cons.
    rewrite (scan_member f n k j) by (done || (by right) || (cbn [length] in Hf; rewrite length_app in Hf; cbn [length] in Hf; lia)).
    done.
  - rewrite members_text_cons in *. rewrite <- app_comm_cons, <- app_assoc, <- !app_comm_cons, <- app_assoc, <- app_comm_cons.
    cbn [length] in Hf. rewrite length_app in Hf. cbn [length] in Hf. rewrite length_app in Hf. cbn [length] in Hf.
    rewrite (scan_member f n k j) by (done || (by left) || lia). rewrite bool_decide_eq_false_2 by done.
    by rewrite IH by (done || lia).
Qed.

(** The elements of an array, as [print_json] writes them. *)
Fixpoint elements_text (l : list json) : text :=
  match l with
  | [] => []
  | [x] => print_json x
  | x :: r => print_json x ++ "," :: elements_text r
  end.

Lemma print_json_arr l : print_json (JArr l) = "[" :: elements_text l ++ ["]"].
Proof. reflexivity. Qed.

Lemma scan_elements_text x l :
  Forall readable (x :: l) ->
  forall f r, (S (2 * length (elements_text (x :: l))) <= f)%nat ->
  scan_elements f (elements_text (x :: l) ++ "]" :: r) = Some (x :: l, r).
Proof.
  revert x. induction l as [|y l IH]; intros x Hx f r Hf; (destruct f as [|f]; [simpl in Hf; lia|]);
    apply Forall_cons in Hx as [(n & c & t & Hn & Hj & _) Hl].
  - cbn [elements_text] in *. cbn [scan_elements]. rewrite Hj by (lia || (simpl; auto)). by rewrite skip_ws_head.
  - change (elements_text (x :: y :: l)) with (print_json x ++ "," :: elements_text (y :: l)) in *.
    rewrite length_app in Hf. cbn [length] in Hf. rewrite <- app_assoc, <- app_comm_cons. cbn [scan_elements].
    rewrite Hj by (lia || (simpl; auto)). rewrite skip_ws_head by done. rewrite bool_decide_eq_false_2 by done.
    rewrite bool_decide_eq_true_2 by done. by rewrite IH by (done || lia).
Qed.

(** *** Objects and arrays *)

Lemma members_text_head k x l : exists t, members_text ((k, x) :: l) = quot :: t.
Proof. destruct l; eexists; reflexivity. Qed.

Lemma scan_object m l f r :
  Forall member_readable (m :: l) -> (2 * length (print_json (JObj (m :: l))) <= f)%nat ->
  scan_value f (print_json (JObj (m :: l)) ++ r) = Some (JObj (m :: l), r).
Proof.
  intros Hm. rewrite print_json_obj. cbn [length]. rewrite length_app. cbn [length]. intros Hf.
  destruct f as [|f]; [lia|]. cbn [scan_value]. rewrite <- app_comm_cons, skip_ws_head by done.
  rewrite bool_decide_eq_true_2 by done. rewrite <- app_assoc. cbn [app].
  destruct m as [k x]. destruct (members_text_head k x l) as [t E].
  assert (Hs : skip_ws (members_text ((k, x) :: l) ++ "}" :: r) = quot :: (t ++ "}" :: r)) by (by rewrite E).
  rewrite Hs, bool_decide_eq_false_2 by done.
  rewrite app_comm_cons, <- E, scan_members_text by (done || lia). done.
Qed.

Lemma object_readable m l : Forall member_readable (m :: l) -> readable (JObj (m :: l)).
Proof.
  intros Hm. exists (2 * length (print_json (JObj (m :: l))))%nat. eexists _, _.
  split; [done|]. split; [|rewrite print_json_obj; split; [reflexivity|done]].
  intros f r Hf _. by apply scan_object.
Qed.

Lemma array_readable l : Forall readable l -> readable (JArr l).
Proof.
  intros Hl. exists (2 * length (print_json (JArr l)))%nat. eexists _, _.
  split; [done|]. split; [|rewrite print_json_arr; split; [reflexivity|done]].
  intros f r. rewrite print_json_arr. cbn [length]. rewrite length_app. cbn [length]. intros Hf _.
  destruct f as [|f]; [lia|]. cbn [scan_value]. rewrite <- app_comm_cons, skip_ws_head by done.
  rewrite bool_decide_eq_false_2 by done. rewrite bool_decide_eq_true_2 by done. rewrite <- app_assoc. cbn [app].
  destruct l as [|x l]; [done|]. pose proof Hl as Hx. apply Forall_cons in Hx as [(n & c & t & _ & _ & E & Hw & Hc) _].
  assert (Hs : exists u, elements_text (x :: l) ++ "]" :: r = c :: u /\
    skip_ws (elements_text (x :: l) ++ "]" :: r) = c :: u).
  { destruct l as [|y l]; cbn [elements_text]; rewrite E; eexists; (split; [reflexivity|]);
      rewrite <- !app_comm_cons; by apply skip_ws_head. }
  destruct Hs as (u & Eu & ->). rewrite bool_decide_eq_false_2 by done.
  rewrite <- Eu, scan_elements_text by (done || lia). done.
Qed.

(** An object with at least one member, values nested to any depth, is read
    back as it was printed. *)
Lemma parse_print_object m l :
  Forall member_readable (m :: l) -> parse_json (print_json (JObj (m :: l))) = Some (JObj (m :: l)).
Proof.
  intros Hm. unfold parse_json. pose proof (scan_object m l (S (2 * length (print_json (JObj (m :: l))))) [] Hm) as H.
  rewrite app_nil_r in H. rewrite H by lia. done.
Qed.

Definition member_ok (m : text * json) : Prop := raw_ok m.1 /\ scalar_ok m.2.

Lemma parse_print_flat m l :
  Forall member_ok (m :: l) -> parse_json (print_json (JObj (m :: l))) = Some (JObj (m :: l)).
Proof.
  intros Hm. apply parse_print_object. eapply Forall_impl; [exact Hm|]. intros x [? ?]. by split; [|apply scalar_readable].
Qed.
