(* ===== verification/Wire.v ===== *)
(** * The wire format: [internal/wire/wire.go]

    One flow record per JSON message body. [Encode] and [Decode] work on the
    text of the message; the JSON, address and instant texts are the standard
    library's ([Json], [NetipText], [TimeText]). *)

From S2P Require Import Prelude GoTime Netip Flow Text NetipText NetipTextFacts TimeText Json.

Open Scope char_scope.
Open Scope Z_scope.

Definition Format : string := "netflow-collector/v1".

Record Message := mkMessage {
  m_Format : string;
  m_ExporterAddr : Addr;
  m_FlowType : string;
  m_ReceivedAt : option Time;
  m_FirstSwitched : Time;
  m_LastSwitched : Time;
  m_SrcAddr : Addr;
  m_DstAddr : Addr;
  m_SrcPort : Z;
  m_DstPort : Z;
  m_Protocol : Z;
  m_TCPFlags : Z;
  m_Packets : Z;
  m_Bytes : Z;
  m_SamplingRate : Z;
  m_InputIface : Z;
  m_OutputIface : Z;
  m_SrcAS : Z;
  m_DstAS : Z;
  m_NextHop : option Addr
}.

Definition zeroMessage : Message :=
  mkMessage "" AddrZero "" None zeroTime zeroTime AddrZero AddrZero 0 0 0 0 0 0 0 0 0 0 0 None.

Definition message_eta (m : Message) : Message :=
  mkMessage (m_Format m) (m_ExporterAddr m) (m_FlowType m) (m_ReceivedAt m) (m_FirstSwitched m)
    (m_LastSwitched m) (m_SrcAddr m) (m_DstAddr m) (m_SrcPort m) (m_DstPort m) (m_Protocol m)
    (m_TCPFlags m) (m_Packets m) (m_Bytes m) (m_SamplingRate m) (m_InputIface m) (m_OutputIface m)
    (m_SrcAS m) (m_DstAS m) (m_NextHop m).

Definition put_Format v m : Message := ltac:(set_field message_eta m m_Format v).
Definition put_ExporterAddr v m : Message := ltac:(set_field message_eta m m_ExporterAddr v).
Definition put_FlowType v m : Message := ltac:(set_field message_eta m m_FlowType v).
Definition put_ReceivedAt v m : Message := ltac:(set_field message_eta m m_ReceivedAt v).
Definition put_FirstSwitched v m : Message := ltac:(set_field message_eta m m_FirstSwitched v).
Definition put_LastSwitched v m : Message := ltac:(set_field message_eta m m_LastSwitched v).
Definition put_SrcAddr v m : Message := ltac:(set_field message_eta m m_SrcAddr v).
Definition put_DstAddr v m : Message := ltac:(set_field message_eta m m_DstAddr v).
Definition put_SrcPort v m : Message := ltac:(set_field message_eta m m_SrcPort v).
Definition put_DstPort v m : Message := ltac:(set_field message_eta m m_DstPort v).
Definition put_Protocol v m : Message := ltac:(set_field message_eta m m_Protocol v).
Definition put_TCPFlags v m : Message := ltac:(set_field message_eta m m_TCPFlags v).
Definition put_Packets v m : Message := ltac:(set_field message_eta m m_Packets v).
Definition put_Bytes v m : Message := ltac:(set_field message_eta m m_Bytes v).
Definition put_SamplingRate v m : Message := ltac:(set_field message_eta m m_SamplingRate v).
Definition put_InputIface v m : Message := ltac:(set_field message_eta m m_InputIface v).
Definition put_OutputIface v m : Message := ltac:(set_field message_eta m m_OutputIface v).
Definition put_SrcAS v m : Message := ltac:(set_field message_eta m m_SrcAS v).
Definition put_DstAS v m : Message := ltac:(set_field message_eta m m_DstAS v).
Definition put_NextHop v m : Message := ltac:(set_field message_eta m m_NextHop v).

(** ** The schema: the struct's JSON tags, in order *)

Inductive Field :=
| FFormat | FExporterAddr | FFlowType | FReceivedAt | FFirstSwitched | FLastSwitched
| FSrcAddr | FDstAddr | FSrcPort | FDstPort | FProtocol | FTCPFlags | FPackets | FBytes
| FSamplingRate | FInputIface | FOutputIface | FSrcAS | FDstAS | FNextHop.

Definition field_name (f : Field) : string :=
  match f with
  | FFormat => "format" | FExporterAddr => "exporter_addr" | FFlowType => "flow_type"
  | FReceivedAt => "received_at" | FFirstSwitched => "first_switched"
  | FLastSwitched => "last_switched" | FSrcAddr => "src_addr" | FDstAddr => "dst_addr"
  | FSrcPort => "src_port" | FDstPort => "dst_port" | FProtocol => "protocol"
  | FTCPFlags => "tcp_flags" | FPackets => "packets" | FBytes => "bytes"
  | FSamplingRate => "sampling_rate" | FInputIface => "input_iface"
  | FOutputIface => "output_iface" | FSrcAS => "src_as" | FDstAS => "dst_as"
  | FNextHop => "next_hop"
  end.

Definition all_fields : list Field :=
  [FFormat; FExporterAddr; FFlowType; FReceivedAt; FFirstSwitched; FLastSwitched; FSrcAddr; FDstAddr;
   FSrcPort; FDstPort; FProtocol; FTCPFlags; FPackets; FBytes; FSamplingRate; FInputIface;
   FOutputIface; FSrcAS; FDstAS; FNextHop].

Definition field_of_key (key : text) : option Field :=
  List.find (fun f => is_field (field_name f) key) all_fields.

(** ** [json.Marshal] of a message *)

Definition j_string (s : string) : json := JStr (quote (tx s)).
Definition j_addr (a : Addr) : json := JStr (quote (Addr_MarshalText a)).
Definition j_uint (n : Z) : json := JNum (print_dec n).
Definition j_time (t : Time) : option json := JStr <$> Time_MarshalText t.

Definition message_fields (m : Message) : option (list (Field * json)) :=
  match match m_ReceivedAt m with Some t => j_time t | None => Some JNull end,
        j_time (m_FirstSwitched m), j_time (m_LastSwitched m) with
  | Some received, Some first, Some last =>
    Some [(FFormat, j_string (m_Format m)); (FExporterAddr, j_addr (m_ExporterAddr m));
      (FFlowType, j_string (m_FlowType m)); (FReceivedAt, received);
      (FFirstSwitched, first); (FLastSwitched, last);
      (FSrcAddr, j_addr (m_SrcAddr m)); (FDstAddr, j_addr (m_DstAddr m));
      (FSrcPort, j_uint (m_SrcPort m)); (FDstPort, j_uint (m_DstPort m));
      (FProtocol, j_uint (m_Protocol m)); (FTCPFlags, j_uint (m_TCPFlags m));
      (FPackets, j_uint (m_Packets m)); (FBytes, j_uint (m_Bytes m));
      (FSamplingRate, j_uint (m_SamplingRate m)); (FInputIface, j_uint (m_InputIface m));
      (FOutputIface, j_uint (m_OutputIface m)); (FSrcAS, j_uint (m_SrcAS m));
      (FDstAS, j_uint (m_DstAS m));
      (FNextHop, match m_NextHop m with Some a => j_addr a | None => JNull end)]
  | _, _, _ => None
  end.

Definition marshal (m : Message) : option text :=
  (fun fs => print_json (JObj ((fun fj : Field * json => (tx (field_name fj.1), fj.2)) <$> fs)))
  <$> message_fields m.

(** ** [json.Unmarshal] into a message *)

Section unmarshal.
(** [time.Parse] with the RFC 3339 layout, for what the fixed parser rejects. *)
Context (timeParse : text -> option Time).

Definition get_string (old : string) (j : json) : option string :=
  match j with JNull => Some old | JStr raw => Some (st (unquote raw)) | _ => None end.
Definition get_addr (old : Addr) (j : json) : option Addr :=
  match j with JNull => Some old | JStr raw => Addr_UnmarshalText (unquote raw) | _ => None end.
Definition get_time (old : Time) (j : json) : option Time :=
  match j with JNull => Some old | JStr raw => Time_UnmarshalText timeParse raw | _ => None end.
Definition get_uint (w old : Z) (j : json) : option Z :=
  match j with JNull => Some old | JNum lit => ParseUint w lit | _ => None end.
(** Pointer fields: [null] is nil. *)
Definition get_ptr {A} (get : json -> option A) (j : json) : option (option A) :=
  match j with JNull => Some None | _ => Some <$> get j end.

Definition put_field (f : Field) (j : json) (m : Message) : option Message :=
  match f with
  | FFormat => (fun v => put_Format v m) <$> get_string (m_Format m) j
  | FExporterAddr => (fun v => put_ExporterAddr v m) <$> get_addr (m_ExporterAddr m) j
  | FFlowType => (fun v => put_FlowType v m) <$> get_string (m_FlowType m) j
  | FReceivedAt => (fun v => put_ReceivedAt v m) <$> get_ptr (get_time zeroTime) j
  | FFirstSwitched => (fun v => put_FirstSwitched v m) <$> get_time (m_FirstSwitched m) j
  | FLastSwitched => (fun v => put_LastSwitched v m) <$> get_time (m_LastSwitched m) j
  | FSrcAddr => (fun v => put_SrcAddr v m) <$> get_addr (m_SrcAddr m) j
  | FDstAddr => (fun v => put_DstAddr v m) <$> get_addr (m_DstAddr m) j
  | FSrcPort => (fun v => put_SrcPort v m) <$> get_uint 16 (m_SrcPort m) j
  | FDstPort => (fun v => put_DstPort v m) <$> get_uint 16 (m_DstPort m) j
  | FProtocol => (fun v => put_Protocol v m) <$> get_uint 8 (m_Protocol m) j
  | FTCPFlags => (fun v => put_TCPFlags v m) <$> get_uint 8 (m_TCPFlags m) j
  | FPackets => (fun v => put_Packets v m) <$> get_uint 64 (m_Packets m) j
  | FBytes => (fun v => put_Bytes v m) <$> get_uint 64 (m_Bytes m) j
  | FSamplingRate => (fun v => put_SamplingRate v m) <$> get_uint 32 (m_SamplingRate m) j
  | FInputIface => (fun v => put_InputIface v m) <$> get_uint 32 (m_InputIface m) j
  | FOutputIface => (fun v => put_OutputIface v m) <$> get_uint 32 (m_OutputIface m) j
  | FSrcAS => (fun v => put_SrcAS v m) <$> get_uint 32 (m_SrcAS m) j
  | FDstAS => (fun v => put_DstAS v m) <$> get_uint 32 (m_DstAS m) j
  | FNextHop => (fun v => put_NextHop v m) <$> get_ptr (get_addr AddrZero) j
  end.

(** Members in order, unknown keys ignored. Go remembers a type mismatch and
    goes on; the error it returns in the end is all the caller looks at. *)
Fixpoint put_members (kvs : list (text * json)) (m : Message) : option Message :=
  match kvs with
  | [] => Some m
  | (k, v) :: r =>
    match field_of_key k with
    | None => put_members r m
    | Some f => match put_field f v m with Some m' => put_members r m' | None => None end
    end
  end.

Definition unmarshal (body : text) : option Message :=
  match parse_json body with
  | Some (JObj kvs) => put_members kvs zeroMessage
  | Some JNull => Some zeroMessage
  | _ => None
  end.

(** ** Encode and Decode *)

Inductive WireError :=
| errEncode | errUnmarshal | errExporter | errFlowType (s : string) | errAddrs | errTimes | errNoReceivedAt.

Definition toMessage (r : FlowRecord) : Message :=
  mkMessage Format (ExporterAddr r) (FlowTypeOf r) (Some (TruncateMicro (UTC (ReceivedAt r))))
    (TruncateMicro (UTC (FirstSwitched r))) (TruncateMicro (UTC (LastSwitched r)))
    (SrcAddr r) (DstAddr r) (SrcPort r) (DstPort r) (Protocol r) (TCPFlags r) (Packets r) (Bytes r)
    (SamplingRate r) (InputIface r) (OutputIface r) (SrcAS r) (DstAS r)
    (if IsValid (NextHop r) then Some (NextHop r) else None).

Definition Encode (r : FlowRecord) : result WireError text :=
  match marshal (toMessage r) with Some body => Ok body | None => Err errEncode end.

Definition fromMessage (m : Message) (recordTime : Time) : result WireError FlowRecord :=
  let ft := m_FlowType m in
  if negb (IsValid (m_ExporterAddr m)) then Err errExporter
  else if negb (Valid ft) then Err (errFlowType ft)
  else if negb (IsValid (m_SrcAddr m)) || negb (IsValid (m_DstAddr m)) then Err errAddrs
  else if IsZero (m_FirstSwitched m) || IsZero (m_LastSwitched m) then Err errTimes
  else
    let receivedAt := match m_ReceivedAt m with Some t => t | None => recordTime end in
    if IsZero receivedAt then Err errNoReceivedAt
    else
      Ok (mkFlowRecord (TruncateMicro (UTC receivedAt)) (Unmap (m_ExporterAddr m)) 0 ft
        (TruncateMicro (UTC (m_FirstSwitched m))) (TruncateMicro (UTC (m_LastSwitched m)))
        (Unmap (m_SrcAddr m)) (Unmap (m_DstAddr m)) (m_SrcPort m) (m_DstPort m) (m_Protocol m)
        (m_TCPFlags m) (m_Packets m) (m_Bytes m)
        (if m_SamplingRate m =? 0 then 1 else m_SamplingRate m)
        (m_InputIface m) (m_OutputIface m) (m_SrcAS m) (m_DstAS m)
        (match m_NextHop m with Some a => if IsValid a then Unmap a else AddrZero | None => AddrZero end)
        None).

Definition Decode (body : text) (recordTime : Time) : result WireError FlowRecord :=
  match unmarshal body with Some m => fromMessage m recordTime | None => Err errUnmarshal end.

End unmarshal.
