(* ===== verification/WireThms.v ===== *)
(** * Properties of the wire format *)

From S2P Require Import Prelude GoTime Netip Flow Text NetipText NetipTextFacts TimeText Json Wire.
From S2P Require Import Decode DecodeThms.

Open Scope char_scope.
Open Scope Z_scope.

(** ** Texts that need no escaping *)

Definition plain_char (c : ascii) : Prop := is_ascii c /\ esc_ascii c = [c].
Abbreviation plain := (Forall plain_char).

Lemma plain_ascii t : plain t -> Forall is_ascii t.
Proof. intros H. eapply Forall_impl; [exact H|]. by intros c []. Qed.

Lemma plain_quote t : plain t -> quote t = t.
Proof. induction 1 as [|c t [Ha He] _ IH]; [done|]. by rewrite quote_cons, He, IH by done. Qed.

Lemma plain_raw t : plain t -> raw_ok t.
Proof. intros H. rewrite <- (plain_quote t H). by apply quote_raw_ok, plain_ascii. Qed.

Lemma plain_digit d : 0 <= d < 16 -> plain_char (digit_char d).
Proof.
  intros H.
  assert (d = 0 \/ d = 1 \/ d = 2 \/ d = 3 \/ d = 4 \/ d = 5 \/ d = 6 \/ d = 7 \/ d = 8 \/ d = 9 \/ d = 10 \/
    d = 11 \/ d = 12 \/ d = 13 \/ d = 14 \/ d = 15) as Hd by lia.
  repeat destruct Hd as [->|Hd]; [split; done..|]. subst d. by split.
Qed.

Lemma plain_digits b ds : 2 <= b <= 16 -> Forall (fun d => 0 <= d < b) ds -> plain (digit_char <$> ds).
Proof. by apply digits_chars, plain_digit. Qed.

Ltac plains :=
  repeat match goal with
  | |- Forall _ [] => apply Forall_nil
  | |- True => exact I
  | |- Forall _ (_ ++ _) => apply Forall_app; split
  | |- Forall _ (_ :: _) => apply Forall_cons; split
  | |- plain_char (Ascii _ _ _ _ _ _ _ _) => by (split; reflexivity)
  | H : plain ?t |- Forall _ ?t => exact H
  end.

Lemma plain_addr a : zoneless a -> plain (Addr_MarshalText a).
Proof. apply addr_chars; [apply plain_digit|by split..]. Qed.

Lemma plain_pad w n : 0 <= n -> plain (print_pad w n).
Proof. intros Hn. apply (plain_digits 10); [lia|by apply pad_range]. Qed.

Lemma rtrim_Forall (P : Z -> Prop) ds : Forall P ds -> Forall P (rtrim ds).
Proof. intros H. destruct (rtrim_spec ds) as [k E]. rewrite E in H. by apply Forall_app in H as [H _]. Qed.

Lemma plain_time t s : time_wf t -> Time_MarshalText t = Some s -> plain s.
Proof.
  intros [_ Hns]. unfold Time_MarshalText, Year, FormatRFC3339Nano, print_civil.
  destruct (civil_of_days (sec t / 86400)) as [[y mo] d] eqn:Ec. cbn [fst snd].
  destruct (_ && _) eqn:Ey; [|done]. intros E%(inj Some). subst s.
  apply andb_true_iff in Ey as [Ey1%Z.leb_le Ey2%Z.leb_le].
  unfold print_year. rewrite (proj2 (Z.ltb_ge y 0)), (proj2 (Z.ltb_lt y 10000)) by lia.
  destruct (civil_of_days_ok _ _ _ _ Ec) as (_ & Hm & Hd).
  pose proof (Z.mod_pos_bound (sec t) 86400 ltac:(lia)) as Hs. set (r := sec t mod 86400) in *.
  pose proof (Z.mod_pos_bound r 3600 ltac:(lia)). pose proof (Z.mod_pos_bound r 60 ltac:(lia)).
  plains; try (apply plain_pad; try lia; apply Z.div_pos; lia).
  unfold print_frac. destruct (nsec t =? 0); [constructor|]. constructor; [done|].
  apply (plain_digits 10); [lia|]. apply rtrim_Forall, pad_range. lia.
Qed.

(** ** A marshalled message is unmarshalled as it was *)

Record message_ok (m : Message) : Prop := {
  mo_format : Forall is_ascii (tx (m_Format m));
  mo_type : Forall is_ascii (tx (m_FlowType m));
  mo_exporter : addr_wf (m_ExporterAddr m) /\ zoneless (m_ExporterAddr m);
  mo_src : addr_wf (m_SrcAddr m) /\ zoneless (m_SrcAddr m);
  mo_dst : addr_wf (m_DstAddr m) /\ zoneless (m_DstAddr m);
  mo_nh : match m_NextHop m with Some a => addr_wf a /\ zoneless a | None => True end;
  mo_received : match m_ReceivedAt m with Some t => time_wf t | None => True end;
  mo_first : time_wf (m_FirstSwitched m);
  mo_last : time_wf (m_LastSwitched m);
  mo_ports : is_uint 16 (m_SrcPort m) /\ is_uint 16 (m_DstPort m);
  mo_proto : is_uint 8 (m_Protocol m) /\ is_uint 8 (m_TCPFlags m);
  mo_counts : is_uint 64 (m_Packets m) /\ is_uint 64 (m_Bytes m);
  mo_words : is_uint 32 (m_SamplingRate m) /\ is_uint 32 (m_InputIface m) /\
             is_uint 32 (m_OutputIface m) /\ is_uint 32 (m_SrcAS m) /\ is_uint 32 (m_DstAS m)
}.

Lemma j_string_ok s : Forall is_ascii (tx s) -> scalar_ok (j_string s).
Proof. intros H. by apply JStr_ok, quote_raw_ok. Qed.
Lemma j_addr_ok a : zoneless a -> scalar_ok (j_addr a).
Proof. intros H. apply JStr_ok, quote_raw_ok, plain_ascii. by apply plain_addr. Qed.
Lemma j_uint_ok w n : is_uint w n -> scalar_ok (j_uint n).
Proof. intros [H _]. by apply JNum_ok. Qed.
Lemma j_time_ok t j : time_wf t -> j_time t = Some j -> scalar_ok j.
Proof.
  unfold j_time. intros Ht. destruct (Time_MarshalText t) as [s|] eqn:E; [|done]. intros [= <-].
  apply JStr_ok, plain_raw. by eapply plain_time.
Qed.

Lemma get_string_j old s : Forall is_ascii (tx s) -> get_string old (j_string s) = Some s.
Proof. intros H. simpl. by rewrite unquote_quote, st_tx. Qed.
Lemma get_addr_j old a : addr_wf a -> zoneless a -> get_addr old (j_addr a) = Some a.
Proof.
  intros Hw Hz. simpl. rewrite unquote_quote by (by apply plain_ascii, plain_addr).
  by apply Addr_text_roundtrip.
Qed.
Lemma get_uint_j w old n : is_uint w n -> get_uint w old (j_uint n) = Some n.
Proof. apply ParseUint_print. Qed.
Lemma get_time_j p old t j : time_wf t -> j_time t = Some j -> get_time p old j = Some t /\ j <> JNull.
Proof.
  unfold j_time. intros Ht. destruct (Time_MarshalText t) as [s|] eqn:E; [|done]. intros [= <-].
  split; [|done]. by apply Time_text_roundtrip.
Qed.

Lemma field_of_name f : field_of_key (tx (field_name f)) = Some f.
Proof. by destruct f. Qed.

Lemma field_raw f : raw_ok (tx (field_name f)).
Proof. apply plain_raw. destruct f; cbn; plains. Qed.

Fixpoint put_fields (p : text -> option Time) (fs : list (Field * json)) (m : Message) : option Message :=
  match fs with
  | [] => Some m
  | (f, j) :: r => match put_field p f j m with Some m' => put_fields p r m' | None => None end
  end.

Lemma put_members_fields p fs m :
  put_members p ((fun fj : Field * json => (tx (field_name fj.1), fj.2)) <$> fs) m = put_fields p fs m.
Proof.
  revert m. induction fs as [|[f j] fs IH]; intros m; [done|]. rewrite fmap_cons. cbn [put_members put_fields fst snd].
  rewrite field_of_name. destruct (put_field p f j m); [apply IH|done].
Qed.

Lemma message_fields_ok m fs :
  message_ok m -> message_fields m = Some fs -> Forall (fun fj => scalar_ok fj.2) fs.
Proof.
  intros [Hfmt Hty Hex Hsrc Hdst Hnh Hrec Hfi Hla Hpo Hpr Hco Hwo] E. unfold message_fields in E.
  destruct (match m_ReceivedAt m with Some t => _ | None => _ end) as [jr|] eqn:Er; [|done].
  destruct (j_time (m_FirstSwitched m)) as [jf|] eqn:Ef; [|done].
  destruct (j_time (m_LastSwitched m)) as [jl|] eqn:El; [|done]. injection E as <-.
  assert (scalar_ok jr).
  { clear - Er Hrec. destruct (m_ReceivedAt m); [by eapply j_time_ok|].
    injection Er as <-. apply JNull_ok. }
  assert (scalar_ok (match m_NextHop m with Some a => j_addr a | None => JNull end)).
  { clear - Hnh. destruct (m_NextHop m); [apply j_addr_ok; tauto|apply JNull_ok]. }
  assert (scalar_ok jf) by (exact (j_time_ok _ _ Hfi Ef)).
  assert (scalar_ok jl) by (exact (j_time_ok _ _ Hla El)).
  repeat (apply Forall_cons; split); try apply Forall_nil; cbn [snd]; try done;
    try (by apply j_string_ok); try (apply j_addr_ok; tauto);
    eapply j_uint_ok; intuition eassumption.
Qed.

Lemma put_message_fields p m fs :
  message_ok m -> message_fields m = Some fs -> put_fields p fs zeroMessage = Some m.
Proof.
  intros [Hfmt Hty Hex Hsrc Hdst Hnh Hrec Hfi Hla Hpo Hpr Hco Hwo] E. unfold message_fields in E.
  destruct (match m_ReceivedAt m with Some t => _ | None => _ end) as [jr|] eqn:Er; [|done].
  destruct (j_time (m_FirstSwitched m)) as [jf|] eqn:Ef; [|done].
  destruct (j_time (m_LastSwitched m)) as [jl|] eqn:El; [|done]. injection E as <-.
  assert (Hr : get_ptr (get_time p zeroTime) jr = Some (m_ReceivedAt m)).
  { clear - Er Hrec. destruct (m_ReceivedAt m) as [t|]; [|by injection Er as <-].
    destruct (get_time_j p zeroTime t jr) as [G N]; [done..|]. unfold get_ptr. rewrite G. by destruct jr. }
  assert (Hn : get_ptr (get_addr AddrZero) (match m_NextHop m with Some a => j_addr a | None => JNull end)
    = Some (m_NextHop m)).
  { clear - Hnh. destruct (m_NextHop m) as [a|]; [|done]. unfold get_ptr. cbn [j_addr].
    change (JStr (quote (Addr_MarshalText a))) with (j_addr a). by rewrite get_addr_j by tauto. }
  cbn [put_fields put_field].
  rewrite get_string_j by done. cbn [fmap option_fmap option_map].
  rewrite get_addr_j by tauto. cbn [fmap option_fmap option_map].
  rewrite get_string_j by done. cbn [fmap option_fmap option_map].
  rewrite Hr. cbn [fmap option_fmap option_map].
  rewrite (proj1 (get_time_j p _ _ _ Hfi Ef)). cbn [fmap option_fmap option_map].
  rewrite (proj1 (get_time_j p _ _ _ Hla El)). cbn [fmap option_fmap option_map].
  do 2 (rewrite get_addr_j by tauto; cbn [fmap option_fmap option_map]).
  do 11 (rewrite get_uint_j by tauto; cbn [fmap option_fmap option_map]).
  rewrite Hn. by destruct m.
Qed.

Lemma unmarshal_marshal p m body :
  message_ok m -> marshal m = Some body -> unmarshal p body = Some m.
Proof.
  intros Hm. unfold marshal. destruct (message_fields m) as [fs|] eqn:E; [|done]. intros Eb%(inj Some).
  pose proof (message_fields_ok _ _ Hm E) as Hs. pose proof (put_message_fields p _ _ Hm E) as Hp.
  cbv beta in Eb. subst body. set (kvs := (fun fj : Field * json => (tx (field_name fj.1), fj.2)) <$> fs).
  assert (Hk : Forall member_ok kvs).
  { apply Forall_fmap. eapply Forall_impl; [exact Hs|]. intros [f j] Hj. split; [apply field_raw|done]. }
  assert (Hne : kvs <> []) by (unfold kvs; destruct fs; [unfold message_fields in E; repeat case_match; done|done]).
  destruct kvs as [|kv kvs'] eqn:Ek; [done|]. unfold unmarshal. rewrite parse_print_flat by done.
  rewrite <- Ek. unfold kvs. by rewrite put_members_fields.
Qed.

(** ** Round trip *)

Record encodable (r : FlowRecord) : Prop := {
  en_typed : record_typed r;
  en_type : Forall is_ascii (tx (FlowTypeOf r));
  en_zones : zoneless (ExporterAddr r) /\ zoneless (SrcAddr r) /\ zoneless (DstAddr r) /\ zoneless (NextHop r)
}.

Lemma toMessage_ok r : encodable r -> message_ok (toMessage r).
Proof.
  intros [[] ? (? & ? & ? & ?)].
  constructor; cbn [toMessage m_Format m_FlowType m_ExporterAddr m_SrcAddr m_DstAddr m_NextHop m_ReceivedAt
    m_FirstSwitched m_LastSwitched m_SrcPort m_DstPort m_Protocol m_TCPFlags m_Packets m_Bytes
    m_SamplingRate m_InputIface m_OutputIface m_SrcAS m_DstAS]; unfold UTC; auto with gotime.
  - cbn. repeat constructor.
  - by destruct (IsValid (NextHop r)).
Qed.

Lemma emit_ok_encodable r : emit_ok r -> encodable r.
Proof.
  intros H. pose proof (eo_type r H) as V. pose proof (eo_zones r H) as (? & ? & ? & ?).
  split; [apply H| |tauto]. apply Valid_spec in V as [-> | [-> | ->]]; cbn; repeat constructor.
Qed.

(** Decoding an encoded record is the validation of the record itself. *)
Lemma Decode_Encode p r body rt :
  encodable r -> Encode r = Ok body -> Decode p body rt = fromMessage (toMessage r) rt.
Proof.
  intros Hr. unfold Encode, Decode. destruct (marshal (toMessage r)) as [b|] eqn:E; [|done].
  intros [= <-]. by rewrite (unmarshal_marshal p (toMessage r) b (toMessage_ok r Hr) E).
Qed.

(** What the consumer requires of a record. *)
Definition deliverable (r : FlowRecord) : Prop :=
  IsValid (ExporterAddr r) = true /\ Valid (FlowTypeOf r) = true /\
  IsValid (SrcAddr r) = true /\ IsValid (DstAddr r) = true /\
  IsZero (TruncateMicro (FirstSwitched r)) = false /\ IsZero (TruncateMicro (LastSwitched r)) = false /\
  IsZero (TruncateMicro (ReceivedAt r)) = false.

(** The record as it arrives: microseconds, unmapped addresses, a sampling
    rate of at least one, no exporter id and no dedup key. *)
Definition normalise (r : FlowRecord) : FlowRecord :=
  mkFlowRecord (TruncateMicro (ReceivedAt r)) (Unmap (ExporterAddr r)) 0 (FlowTypeOf r)
    (TruncateMicro (FirstSwitched r)) (TruncateMicro (LastSwitched r))
    (Unmap (SrcAddr r)) (Unmap (DstAddr r)) (SrcPort r) (DstPort r) (Protocol r) (TCPFlags r)
    (Packets r) (Bytes r) (if SamplingRate r =? 0 then 1 else SamplingRate r)
    (InputIface r) (OutputIface r) (SrcAS r) (DstAS r) (Unmap (NextHop r)) None.

Definition year_ok (t : Time) : bool := (0 <=? Year t) && (Year t <=? 9999).

Lemma TruncateMicro_year t : Year (TruncateMicro t) = Year t.
Proof. done. Qed.

Lemma Encode_ok r :
  is_ok (Encode r) = year_ok (ReceivedAt r) && year_ok (FirstSwitched r) && year_ok (LastSwitched r).
Proof.
  unfold Encode, marshal, message_fields, toMessage, j_time, Time_MarshalText, UTC.
  cbn [m_ReceivedAt m_FirstSwitched m_LastSwitched]. rewrite !TruncateMicro_year. fold (year_ok (ReceivedAt r)).
  fold (year_ok (FirstSwitched r)). fold (year_ok (LastSwitched r)).
  by destruct (year_ok (ReceivedAt r)), (year_ok (FirstSwitched r)), (year_ok (LastSwitched r)).
Qed.

Lemma fromMessage_toMessage r rt : deliverable r -> fromMessage (toMessage r) rt = Ok (normalise r).
Proof.
  intros (E1 & E2 & E3 & E4 & E5 & E6 & E7). unfold fromMessage, toMessage, UTC.
  cbn [m_Format m_FlowType m_ExporterAddr m_SrcAddr m_DstAddr m_NextHop m_ReceivedAt m_FirstSwitched
    m_LastSwitched m_SrcPort m_DstPort m_Protocol m_TCPFlags m_Packets m_Bytes m_SamplingRate m_InputIface
    m_OutputIface m_SrcAS m_DstAS].
  rewrite E1, E2, E3, E4, E5, E6, E7. cbn [negb orb]. rewrite !TruncateMicro_idemp.
  unfold normalise. do 2 f_equal. destruct (NextHop r) as [|n|n z]; done.
Qed.

(** A record that is already normal, as every source emits it. *)
Lemma normalise_id r :
  emit_ok r -> Unmap (SrcAddr r) = SrcAddr r -> Unmap (DstAddr r) = DstAddr r -> Unmap (NextHop r) = NextHop r ->
  normalise r = r.
Proof.
  intros [] Es Ed En. unfold normalise. rewrite !TruncateMicro_id, Es, Ed, En, eo_exporter by done.
  rewrite (proj2 (Z.eqb_neq _ 0)) by lia. destruct r; simpl in *; by subst.
Qed.

(** C13. Encode and Decode are inverse up to normalisation. Any record at all is
    encoded exactly when its three instants fall in the years 0 to 9999, and is
    refused with the encoding error otherwise. If its fields are in their types,
    its addresses have no zone and it is deliverable (a flow type of the enum,
    valid exporter, source and destination addresses, none of the three instants
    zero), decoding the message gives it back normalised, with microsecond
    instants, unmapped addresses, a sampling rate of at least one, no exporter id
    and no dedup key, whatever the transport's own timestamp is. *)
Theorem wire_roundtrip p r rt :
  match Encode r with
  | Ok body => year_ok (ReceivedAt r) && year_ok (FirstSwitched r) && year_ok (LastSwitched r) = true /\
               (encodable r -> deliverable r -> Decode p body rt = Ok (normalise r))
  | Err e => e = errEncode /\
             year_ok (ReceivedAt r) && year_ok (FirstSwitched r) && year_ok (LastSwitched r) = false
  end.
Proof.
  pose proof (Encode_ok r) as Hok. destruct (Encode r) as [body|e] eqn:E; simpl in Hok.
  - split; [done|]. intros Hr Hd. rewrite (Decode_Encode p r body rt Hr E). by apply fromMessage_toMessage.
  - split; [|done]. unfold Encode in E. by destruct (marshal _); [|injection E as <-].
Qed.

Definition sample_record : FlowRecord :=
  mkFlowRecord (Unix 1789819200 123456000) (Addr4 3221225985) 0 FlowTypeIPFIX
    (Unix 1789819190 0) (Unix 1789819199 500000000)
    (Addr6 42540766411282592856903984951653826561 "") (Addr4 167772162) 443 51234 6 27
    12 18446744073709551615 1 7 8 64500 64501 AddrZero None.

Lemma sample_record_encodable : encodable sample_record /\ deliverable sample_record.
Proof.
  split; [|by vm_compute].
  split; [split; vm_compute; intuition congruence | repeat constructor | repeat constructor].
Qed.

Lemma wire_roundtrip_witness :
  exists body, Encode sample_record = Ok body /\
  Decode (fun _ => None) body zeroTime = Ok sample_record.
Proof.
  pose proof (wire_roundtrip (fun _ => None) sample_record zeroTime) as H.
  destruct (Encode sample_record) as [body|e] eqn:E; [|vm_compute in E; discriminate E].
  exists body. split; [reflexivity|]. exact (proj2 H (proj1 sample_record_encodable) (proj2 sample_record_encodable)).
Defined.

(** A record the collector emits without a start time is encoded and
    sent, and no consumer accepts it: the decoder of the same package answers
    that the times are required, whatever the transport timestamp is. *)
Theorem missing_start_not_delivered p r body rt :
  encodable r -> IsValid (ExporterAddr r) = true -> Valid (FlowTypeOf r) = true ->
  IsValid (SrcAddr r) = true -> IsValid (DstAddr r) = true ->
  FirstSwitched r = zeroTime -> Encode r = Ok body -> Decode p body rt = Err errTimes.
Proof.
  intros Hr E1 E2 E3 E4 Ef E. rewrite (Decode_Encode p r body rt Hr E). unfold fromMessage, toMessage.
  cbn [m_FlowType m_ExporterAddr m_SrcAddr m_DstAddr m_FirstSwitched]. by rewrite E1, E2, E3, E4, Ef.
Qed.

(** An IPFIX record with addresses only, as the decoder maps it. *)
Definition sample_no_times : FlowRecord :=
  templated_record (templated_base FlowTypeIPFIX (Addr4 1) (Unix 1700000000 0)) (Unix 1700000000 0)
    [mkDataField false sourceIPv4Address (Some [10; 0; 0; 1]);
     mkDataField false destinationIPv4Address (Some [10; 0; 0; 2])].

Lemma missing_start_not_delivered_witness :
  exists body, Encode sample_no_times = Ok body /\
  Decode (fun _ => None) body (Unix 1700000000 0) = Err errTimes.
Proof.
  destruct (Encode sample_no_times) as [body|e] eqn:E; [|vm_compute in E; discriminate E].
  exists body. split; [reflexivity|].
  apply (missing_start_not_delivered (fun _ => None) sample_no_times body (Unix 1700000000 0)); try reflexivity.
  - split; [split; vm_compute; intuition congruence | repeat constructor | repeat constructor].
  - exact E.
Defined.

(** ** Whatever arrives *)

Record message_typed (m : Message) : Prop := {
  mt_addrs : addr_wf (m_ExporterAddr m) /\ addr_wf (m_SrcAddr m) /\ addr_wf (m_DstAddr m);
  mt_nh : match m_NextHop m with Some a => addr_wf a | None => True end;
  mt_times : time_wf (m_FirstSwitched m) /\ time_wf (m_LastSwitched m);
  mt_received : match m_ReceivedAt m with Some t => time_wf t | None => True end;
  mt_ports : is_uint 16 (m_SrcPort m) /\ is_uint 16 (m_DstPort m);
  mt_proto : is_uint 8 (m_Protocol m) /\ is_uint 8 (m_TCPFlags m);
  mt_counts : is_uint 64 (m_Packets m) /\ is_uint 64 (m_Bytes m);
  mt_words : is_uint 32 (m_SamplingRate m) /\ is_uint 32 (m_InputIface m) /\
             is_uint 32 (m_OutputIface m) /\ is_uint 32 (m_SrcAS m) /\ is_uint 32 (m_DstAS m)
}.

Section decode_any.
Context (p : text -> option Time) (Hp : forall s t, p s = Some t -> time_wf t).

Lemma get_addr_wf old j a : addr_wf old -> get_addr old j = Some a -> addr_wf a.
Proof. destruct j; simpl; try done; [by intros ? [= <-]|]. intros _. apply Addr_UnmarshalText_wf. Qed.

Lemma get_time_wf old j t : time_wf old -> get_time p old j = Some t -> time_wf t.
Proof.
  destruct j; simpl; try done; [by intros ? [= <-]|]. intros _. unfold Time_UnmarshalText.
  destruct (parseRFC3339 raw) eqn:E; [|apply Hp]. intros [= <-]. by eapply parseRFC3339_wf.
Qed.

Lemma get_uint_wf w old j n : is_uint w old -> get_uint w old j = Some n -> is_uint w n.
Proof. destruct j; simpl; try done; [by intros ? [= <-]|]. intros _. apply ParseUint_range. Qed.

Lemma get_ptr_inv {A} (get : json -> option A) j v (P : A -> Prop) :
  (forall a, get j = Some a -> P a) -> get_ptr get j = Some v ->
  match v with Some a => P a | None => True end.
Proof.
  intros H. unfold get_ptr. destruct j; simpl; try (by intros [= <-]);
    (destruct (get _) eqn:E; [|done]); intros [= <-]; by apply H.
Qed.

Lemma put_field_typed f j m m' : message_typed m -> put_field p f j m = Some m' -> message_typed m'.
Proof.
  intros [(? & ? & ?) ? (? & ?) ? (? & ?) (? & ?) (? & ?) (? & ? & ? & ? & ?)].
  destruct f; cbn [put_field]; intros E; apply fmap_Some in E as (v & E & ->);
    try (apply get_addr_wf in E; [|done]); try (apply get_time_wf in E; [|done]);
    try (apply get_uint_wf in E; [|done]);
    try (apply (get_ptr_inv _ _ _ time_wf) in E; [|intros a Ha; eapply get_time_wf; [|exact Ha]; done]);
    try (apply (get_ptr_inv _ _ _ addr_wf) in E; [|intros a Ha; eapply get_addr_wf; [|exact Ha]; done]);
    constructor; cbn; tauto.
Qed.

Lemma put_members_typed kvs m m' : message_typed m -> put_members p kvs m = Some m' -> message_typed m'.
Proof.
  revert m. induction kvs as [|[k v] kvs IH]; intros m Hm; cbn [put_members]; [by intros [= <-]|].
  destruct (field_of_key k) as [f|]; [|by apply IH]. destruct (put_field p f v m) as [m1|] eqn:E; [|done].
  apply IH. by eapply put_field_typed.
Qed.

Lemma zeroMessage_typed : message_typed zeroMessage.
Proof. constructor; vm_compute; intuition congruence. Qed.

Lemma unmarshal_typed body m : unmarshal p body = Some m -> message_typed m.
Proof.
  unfold unmarshal. destruct (parse_json body) as [[]|]; try done; [intros [= <-]; apply zeroMessage_typed|].
  apply put_members_typed, zeroMessage_typed.
Qed.
End decode_any.

(** What every decoded record satisfies. *)
Record decoded_ok (r : FlowRecord) : Prop := {
  do_typed : record_typed r;
  do_whole : whole_micro (ReceivedAt r) /\ whole_micro (FirstSwitched r) /\ whole_micro (LastSwitched r);
  do_type : Valid (FlowTypeOf r) = true;
  do_valid : IsValid (ExporterAddr r) = true /\ IsValid (SrcAddr r) = true /\ IsValid (DstAddr r) = true;
  do_unmapped : Unmap (ExporterAddr r) = ExporterAddr r /\ Unmap (SrcAddr r) = SrcAddr r /\
                Unmap (DstAddr r) = DstAddr r /\ Unmap (NextHop r) = NextHop r;
  do_rate : 1 <= SamplingRate r;
  do_plain : ExporterID r = 0
}.

Lemma Decode_decoded_ok p body rt r :
  (forall s t, p s = Some t -> time_wf t) -> time_wf rt ->
  Decode p body rt = Ok r -> decoded_ok r /\ DedupKey r = None.
Proof.
  intros Hp Hrt. unfold Decode. destruct (unmarshal p body) as [m|] eqn:E; [|done].
  apply (unmarshal_typed p Hp) in E as [(? & ? & ?) Hnh (? & ?) Hrec (? & ?) (? & ?) (? & ?) (? & ? & ? & ? & ?)].
  unfold fromMessage. destruct (IsValid (m_ExporterAddr m)) eqn:V1; [|done]. cbn [negb].
  destruct (Valid (m_FlowType m)) eqn:V2; [|done]. cbn [negb].
  destruct (IsValid (m_SrcAddr m)) eqn:V3; [|done]. destruct (IsValid (m_DstAddr m)) eqn:V4; [|done]. cbn [negb orb].
  destruct (_ || _); [done|]. set (rcv := match m_ReceivedAt m with Some t => t | None => rt end).
  assert (time_wf rcv) by (unfold rcv; by destruct (m_ReceivedAt m)).
  destruct (IsZero rcv); [done|].
  set (nh := match m_NextHop m with Some a => _ | None => _ end).
  assert (addr_wf nh /\ Unmap nh = nh) as [? ?].
  { unfold nh. destruct (m_NextHop m) as [a|]; [|done]. destruct (IsValid a); [|done].
    split; [by apply Unmap_wf|apply Unmap_idemp]. }
  intros [= <-]. split; [|done].
  assert (1 <= (if m_SamplingRate m =? 0 then 1 else m_SamplingRate m) < 2 ^ 32)
    by (unfold is_uint in *; destruct (Z.eqb_spec (m_SamplingRate m) 0); lia).
  constructor; [constructor|..]; cbn -[wrap_u Unmap]; unfold UTC; auto using Unmap_wf, TruncateMicro_wf;
    rewrite ?Unmap_valid, ?Unmap_idemp; auto using TruncateMicro_whole; unfold is_uint, is_sint; lia.
Qed.

(** Whatever bytes arrive and whatever time.Parse accepts besides
    RFC 3339, a decoded record has every field in its Go type, instants of
    whole microseconds, a known flow type, valid and unmapped exporter, source
    and destination addresses, a sampling rate of at least one and no dedup
    key. *)
Theorem wire_decode_wellformed p body rt r :
  (forall s t, p s = Some t -> time_wf t) -> time_wf rt ->
  Decode p body rt = Ok r -> decoded_ok r /\ DedupKey r = None.
Proof. apply Decode_decoded_ok. Qed.

Definition sample_body : text :=
  print_json (JObj
    [(tx "Exporter_Addr", JStr (tx "::ffff:192.0.2.1")); (tx "flow_type", JStr (tx "ipfix"));
     (tx "future_field", JNum (tx "-1.5e3")); (tx "first_switched", JStr (tx "2026-09-19T12:00:00+02:00"));
     (tx "last_switched", JStr (tx "2026-09-19T12:00:01Z"));
     (tx "src_addr", JStr (tx "10.0.0.1")); (tx "dst_addr", JStr (tx "2001:db8::1"))]).

Lemma wire_decode_wellformed_witness :
  exists r, Decode (fun _ => None) sample_body (Unix 1789819200 0) = Ok r /\ decoded_ok r.
Proof.
  destruct (Decode (fun _ => None) sample_body (Unix 1789819200 0)) as [r|e] eqn:E;
    [|vm_compute in E; discriminate E].
  exists r. split; [reflexivity|].
  apply (wire_decode_wellformed (fun _ => None) sample_body (Unix 1789819200 0) r); [|vm_compute; intuition congruence|exact E].
  intros s t H. discriminate H.
Defined.
