(* ===== verification/Sha256.v ===== *)
(** * SHA-256 ([crypto/sha256.Sum256]), as the dedup key uses it

    FIPS 180-4 on bytes: padding, message schedule, compression. Words are
    32-bit integers in [Z]. *)

From S2P Require Import Prelude.

Definition rotr (n x : Z) : Z := Z.lor (Z.shiftr x n) (u32 (Z.shiftl x (32 - n))).
Definition add32 (x y : Z) : Z := u32 (x + y).
Definition not32 (x : Z) : Z := Z.lxor x 4294967295.

Definition Ch x y z := Z.lxor (Z.land x y) (Z.land (not32 x) z).
Definition Maj x y z := Z.lxor (Z.lxor (Z.land x y) (Z.land x z)) (Z.land y z).
Definition Sigma0 x := Z.lxor (Z.lxor (rotr 2 x) (rotr 13 x)) (rotr 22 x).
Definition Sigma1 x := Z.lxor (Z.lxor (rotr 6 x) (rotr 11 x)) (rotr 25 x).
Definition sigma0 x := Z.lxor (Z.lxor (rotr 7 x) (rotr 18 x)) (Z.shiftr x 3).
Definition sigma1 x := Z.lxor (Z.lxor (rotr 17 x) (rotr 19 x)) (Z.shiftr x 10).

(** The constants are the first 32 bits of the fractional parts of the cube
    roots of the first 64 primes, and of the square roots of the first eight
    (FIPS 180-4, 4.2.2 and 5.3.3); the published test vectors below fix them. *)
Definition is_prime (n : nat) : bool :=
  forallb (fun d => negb (Nat.eqb (Nat.modulo n d) 0)) (seq 2 (n - 2)).
Definition primes (bound : nat) : list Z := Z.of_nat <$> List.filter is_prime (seq 2 bound).

(** The integer cube root, from bit [k - 1] down. *)
Fixpoint cbrt (k : nat) (r n : Z) : Z :=
  match k with
  | O => r
  | S k' => let r' := r + 2 ^ Z.of_nat k' in cbrt k' (if r' * r' * r' <=? n then r' else r) n
  end.

Definition K256 : list Z := Eval vm_compute in (fun p => u32 (cbrt 36 0 (p * 2 ^ 96))) <$> primes 310.
Definition H256 : list Z := Eval vm_compute in (fun p => u32 (Z.sqrt (p * 2 ^ 64))) <$> primes 18.

(** The schedule, most recent word first: [w_t] from [w_(t-2)], [w_(t-7)],
    [w_(t-15)] and [w_(t-16)]. *)
Fixpoint extend (n : nat) (w : list Z) : list Z :=
  match n with
  | O => w
  | S n' =>
    let x := add32 (add32 (sigma1 (nth 1 w 0)) (nth 6 w 0)) (add32 (sigma0 (nth 14 w 0)) (nth 15 w 0)) in
    extend n' (x :: w)
  end.

Definition schedule (block : list Z) : list Z := rev (extend 48 (rev block)).

Definition round (s : list Z) (kw : Z * Z) : list Z :=
  match s with
  | [a; b; c; d; e; f; g; h] =>
    let t1 := add32 (add32 (add32 h (Sigma1 e)) (add32 (Ch e f g) kw.1)) kw.2 in
    let t2 := add32 (Sigma0 a) (Maj a b c) in
    [add32 t1 t2; a; b; c; add32 d t1; e; f; g]
  | _ => s
  end.

Definition compress (hash block : list Z) : list Z :=
  zip_with add32 hash (foldl round hash (zip K256 (schedule block))).

Fixpoint words_of (l : list byte) : list Z :=
  match l with
  | a :: b :: c :: d :: r => be_val [a; b; c; d] :: words_of r
  | _ => []
  end.

Fixpoint blocks (n : nat) (ws : list Z) : list (list Z) :=
  match n with O => [] | S n' => take 16 ws :: blocks n' (drop 16 ws) end.

Definition pad_message (m : list byte) : list byte :=
  let z := Z.to_nat ((119 - Z.of_nat (length m)) mod 64) in
  m ++ [128] ++ replicate z 0 ++ be_bytes 8 (8 * Z.of_nat (length m)).

Definition Sum256 (m : list byte) : list byte :=
  let p := pad_message m in
  let ws := words_of p in
  concat (be_bytes 4 <$> foldl compress H256 (blocks (Nat.div (length ws) 16) ws)).

(** The published test vectors for one and two blocks. *)
Example Sum256_abc :
  be_val (Sum256 [97; 98; 99]) = 0xba7816bf8f01cfea414140de5dae2223b00361a396177a9cb410ff61f20015ad.
Proof. vm_compute. reflexivity. Qed.

Example Sum256_two_blocks :
  be_val (Sum256 [97;98;99;100;98;99;100;101;99;100;101;102;100;101;102;103;101;102;103;104;102;103;104;105;
    103;104;105;106;104;105;106;107;105;106;107;108;106;107;108;109;107;108;109;110;108;109;110;111;109;110;
    111;112;110;111;112;113])
  = 0x248d6a61d20638b8e5c026930c3e6039a33ce45964ff2167f6ecedd419db06c1.
Proof. vm_compute. reflexivity. Qed.

Lemma length_concat_be4 l : length (concat (be_bytes 4 <$> l)) = (4 * length l)%nat.
Proof. induction l as [|x l IH]; [done|]. cbn [fmap list_fmap concat length]. rewrite length_app, length_be_bytes. simpl in *. lia. Qed.

Lemma length_round s kw : length (round s kw) = length s.
Proof. do 9 (destruct s as [|? s]; [done|]). done. Qed.

Lemma length_foldl_round l s : length (foldl round s l) = length s.
Proof. revert s. induction l as [|x l IH]; intros s; simpl; [done|]. by rewrite IH, length_round. Qed.

Lemma length_Sum256 m : length (Sum256 m) = 32%nat.
Proof.
  unfold Sum256. rewrite length_concat_be4. set (bs := blocks _ _). clearbody bs.
  assert (E : forall h, length h = 8%nat -> length (foldl compress h bs) = 8%nat); [|by rewrite E].
  induction bs as [|b bs IH]; intros h Hh; simpl; [done|]. apply IH.
  unfold compress. rewrite length_zip_with, length_foldl_round. lia.
Qed.

#[global] Arguments Sum256 : simpl never.
