(* ===== verification/KafkaSource.v ===== *)
(** * The Kafka source: [internal/source/kafka/kafka.go]

    [Decode] and [DedupKey] as functions; [StartPull] with its two goroutines
    (the poll loop and the committer) as a step system over the broker and the
    pipeline. The pipeline appears through the contract of [flow.Intake]
    ([pull.go]); the broker as a topic of partitions, each a log with the group's
    committed offset. A client has a position in every partition it is assigned,
    which starts at the committed offset; partitions are assigned and revoked at
    any time, and other members of the group commit at any time. *)

From S2P Require Import Prelude GoTime Netip Flow Text Wire Sha256.

(** ** The dedup key *)

(** The 61 bytes that are hashed. *)
Definition dedupInput (r : FlowRecord) : list byte :=
  As16 (ExporterAddr r)
  ++ be_bytes 8 (u64 (UnixMicro (TruncateMicro (UTC (FirstSwitched r)))))
  ++ As16 (SrcAddr r) ++ As16 (DstAddr r)
  ++ be_bytes 2 (SrcPort r) ++ be_bytes 2 (DstPort r) ++ [Protocol r].

Definition DedupKeyOf (r : FlowRecord) : list byte := take 16 (Sum256 (dedupInput r)).

(** A Kafka record: its value and its timestamp. *)
Record KRecord := mkKRecord { k_Value : text; k_Timestamp : Time }.

(** ** The contract of [flow.Intake]

    Records get consecutive sequence numbers from 1; each is settled once, as
    written or as rejected, in any order. [Written seq] may answer nil when
    every record up to [seq] is written or was reported before, and
    [ErrWriteFailed] when one of them is rejected and unreported, which
    reports all of them, with the later records of their batches: the rejected
    ones up to some [m]. *)
Inductive status := Pending | Done | Failed | Reported.

#[export] Instance status_eq_dec : EqDecision status.
Proof. solve_decision. Defined.

Abbreviation intake := (list (FlowRecord * status)).

Definition settle (i : nat) (ok : bool) (n : intake) : option intake :=
  match n !! i with
  | Some (r, Pending) => Some (<[i := (r, if ok then Done else Failed)]> n)
  | _ => None
  end.

Definition settled_ok (x : FlowRecord * status) : bool :=
  match x.2 with Done | Reported => true | _ => false end.
Definition is_failed (x : FlowRecord * status) : bool :=
  match x.2 with Failed => true | _ => false end.
Definition report (x : FlowRecord * status) : FlowRecord * status :=
  if is_failed x then (x.1, Reported) else x.

Definition written_nil (seq : nat) (n : intake) : bool := forallb settled_ok (take seq n).
Definition written_failed (seq m : nat) (n : intake) : option intake :=
  if existsb is_failed (take seq n) && (seq <=? m)%nat then Some ((report <$> take m n) ++ drop m n) else None.

(** ** The session: [consumeUntilFailure] *)

(** A message of the topic: its partition and offset. *)
Abbreviation message := (nat * nat)%type.

(** [pollAck]: the messages of a poll and the sequence number of the last
    record offered. *)
Record pollAck := mkAck { ack_seq : nat; ack_records : list message }.

Definition ackBacklog : nat := 64.

(** [Connecting]: the session's client is being created. *)
Inductive poll_state :=
| Connecting
| Polling
| Offering (records todo : list message) (last : nat)
| Sending (a : pollAck)
| Stopped.

Inductive committer_state :=
| Idle
| Waiting (a : pollAck)
| Committing (a : pollAck)
| Exited.

Record world := mkWorld {
  w_committed : gmap nat nat;
  w_pos : gmap nat nat;           (* the assigned partitions and the positions in them *)
  w_poll : poll_state;
  w_acks : list pollAck;
  w_committer : committer_state;
  w_failed : bool;
  w_session_done : bool;
  w_ctx_done : bool;
  w_intake : intake;
  w_decode_errors : nat;
  w_rewinds : nat;
  w_returned : bool;
  w_elsewhere : list message      (* history: offsets that other members committed *)
}.

Definition world_eta (w : world) : world :=
  mkWorld (w_committed w) (w_pos w) (w_poll w) (w_acks w) (w_committer w) (w_failed w) (w_session_done w)
    (w_ctx_done w) (w_intake w) (w_decode_errors w) (w_rewinds w) (w_returned w) (w_elsewhere w).

Definition w_set_committed v w : world := ltac:(set_field world_eta w w_committed v).
Definition w_set_pos v w : world := ltac:(set_field world_eta w w_pos v).
Definition w_set_poll v w : world := ltac:(set_field world_eta w w_poll v).
Definition w_set_acks v w : world := ltac:(set_field world_eta w w_acks v).
Definition w_set_committer v w : world := ltac:(set_field world_eta w w_committer v).
Definition w_set_failed v w : world := ltac:(set_field world_eta w w_failed v).
Definition w_set_session_done v w : world := ltac:(set_field world_eta w w_session_done v).
Definition w_set_ctx_done v w : world := ltac:(set_field world_eta w w_ctx_done v).
Definition w_set_intake v w : world := ltac:(set_field world_eta w w_intake v).
Definition w_set_decode_errors v w : world := ltac:(set_field world_eta w w_decode_errors v).
Definition w_set_rewinds v w : world := ltac:(set_field world_eta w w_rewinds v).
Definition w_set_returned v w : world := ltac:(set_field world_eta w w_returned v).
Definition w_set_elsewhere v w : world := ltac:(set_field world_eta w w_elsewhere v).

(** Where a client starts in a partition: the committed offset, or the start
    of the log ([ConsumeResetOffset(NewOffset().AtStart())]). *)
Definition committed_at (w : world) (q : nat) : nat := default 0%nat (w_committed w !! q).

(** [CommitRecords]: per partition, one past the highest offset. *)
Definition highest (ms : list message) : gmap nat nat :=
  foldr (fun m h => <[m.1 := Nat.max (S m.2) (default 0%nat (h !! m.1))]> h) ∅ ms.

(** A session starts by creating a client, which has no partition yet. *)
Definition fresh_session (w : world) : world :=
  w_set_pos ∅ (w_set_poll Connecting (w_set_acks [] (w_set_committer Idle
    (w_set_failed false (w_set_session_done (w_ctx_done w) w))))).

Definition init_world (n : intake) : world :=
  mkWorld ∅ ∅ Connecting [] Idle false false false n 0 0 false [].

Inductive act :=
| ACancel                      (* the caller's context ends *)
| ASettle (i : nat) (ok : bool) (* the pipeline settles a record *)
| AOther (r : FlowRecord)      (* the pipeline takes a record of another source *)
| AConnect | AConnectErr       (* the client is created, or creating it fails *)
| AAssign (q : nat) | ARevoke (q : nat) (* the group rebalances *)
| AMember (q c : nat)          (* another member commits offset c of partition q *)
| AFetch (fs : list (nat * nat)) (* PollFetches returns records: partitions and counts *)
| APollDone                    (* PollFetches returns, the session context is done *)
| AOffer                       (* decode and offer the next record *)
| AOfferErr                    (* Offer returns an error *)
| AEndPoll                     (* all records of the poll are offered *)
| ASendAck                     (* the ack is handed to the committer *)
| ASendDone                    (* the session context ends instead *)
| ATakeAck                     (* the committer receives *)
| AWrittenNil | AWrittenFailed (m : nat)
| AWrittenCtx                  (* the context has ended, or the pipeline has stopped *)
| ACommit (qs : list nat)      (* CommitRecords takes effect on the partitions qs; failures are logged *)
| ACommitterExit               (* the closed channel is drained *)
| AReturn.                     (* the session returns; StartPull loops or returns *)

(** What happens around the source, also after it has returned. *)
Definition environment (a : act) : bool :=
  match a with ACancel | ASettle _ _ | AOther _ | AMember _ _ => true | _ => false end.

(** ** Decoding, polling, and the steps of the system *)

Section source.
Context (timeParse : text -> option Time).

Definition KDecode (body : text) (recordTime : Time) : result WireError FlowRecord :=
  match Decode timeParse body recordTime with
  | Err e => Err e
  | Ok r => Ok (set_DedupKey (Some (DedupKeyOf r)) r)
  end.

(** [Source.decode]: the record, or nothing and one more decode error. *)
Definition kdecode (r : KRecord) : option FlowRecord :=
  match KDecode (k_Value r) (k_Timestamp r) with Ok rec => Some rec | Err _ => None end.

(** ** [Start]: the push-shaped entry

    One poll: every record is marked before it is decoded; [stop] is how many
    sends succeed before the context ends. Returns what was marked, what was
    sent, the decode errors, and whether the loop stops. *)
Fixpoint start_poll (recs : list KRecord) (sends : option nat)
  : list KRecord * list FlowRecord * nat * bool :=
  match recs with
  | [] => ([], [], 0%nat, false)
  | r :: rest =>
    match kdecode r with
    | None =>
      let '(m, s, e, stop) := start_poll rest sends in (r :: m, s, S e, stop)
    | Some rec =>
      match sends with
      | Some O => ([r], [], 0%nat, true)
      | _ =>
        let '(m, s, e, stop) := start_poll rest (Nat.pred <$> sends) in (r :: m, rec :: s, e, stop)
      end
    end
  end.

(** [Start] until its context ends, in a poll or in a send; what it returns as
    marked is what [commitOnShutdown] commits, unless the broker refuses. *)
Fixpoint PushStart (polls : list (list KRecord * option nat)) : list KRecord * list FlowRecord * nat :=
  match polls with
  | [] => ([], [], 0%nat)
  | (recs, sends) :: rest =>
    let '(m, s, e, stop) := start_poll recs sends in
    if (stop : bool) then (m, s, e)
    else let '(m', s', e') := PushStart rest in (m ++ m', s ++ s', (e + e')%nat)
  end.

Context (log : nat -> list KRecord).

(** The records of a fetch, partition by partition, and the new positions. *)
Fixpoint fetch (fs : list (nat * nat)) (pos : gmap nat nat) : option (list message * gmap nat nat) :=
  match fs with
  | [] => Some ([], pos)
  | (q, n) :: rest =>
    c ← pos !! q;
    if (c + n <=? length (log q))%nat then
      '(ms, pos') ← fetch rest (<[q := (c + n)%nat]> pos);
      Some ((pair q <$> seq c n) ++ ms, pos')
    else None
  end.

Definition step (a : act) (w : world) : option world :=
  if w_returned w && negb (environment a) then None
  else
  match a with
  | ACancel => Some (w_set_ctx_done true (w_set_session_done true w))
  | ASettle i ok => (fun n => w_set_intake n w) <$> settle i ok (w_intake w)
  | AOther r => Some (w_set_intake (w_intake w ++ [(r, Pending)]) w)
  | AConnect => match w_poll w with Connecting => Some (w_set_poll Polling w) | _ => None end
  | AConnectErr => match w_poll w with Connecting => Some (w_set_returned true w) | _ => None end
  | AAssign q =>
    match w_poll w, w_pos w !! q with
    | Connecting, _ | _, Some _ => None
    | _, None => Some (w_set_pos (<[q := committed_at w q]> (w_pos w)) w)
    end
  | ARevoke q => Some (w_set_pos (delete q (w_pos w)) w)
  | AMember q c =>
    Some (w_set_committed (<[q := c]> (w_committed w)) (w_set_elsewhere ((q, c) :: w_elsewhere w) w))
  | AFetch fs =>
    match w_poll w with
    | Polling =>
      if w_session_done w then None
      else '(ms, pos) ← fetch fs (w_pos w); Some (w_set_pos pos (w_set_poll (Offering [] ms 0) w))
    | _ => None
    end
  | APollDone =>
    match w_poll w with
    | Polling => if w_session_done w then Some (w_set_poll Stopped w) else None
    | _ => None
    end
  | AOffer =>
    match w_poll w with
    | Offering ms (m :: todo) last =>
      r ← log m.1 !! m.2;
      match kdecode r with
      | None =>
        Some (w_set_decode_errors (S (w_decode_errors w)) (w_set_poll (Offering (ms ++ [m]) todo last) w))
      | Some rec =>
        Some (w_set_intake (w_intake w ++ [(rec, Pending)])
          (w_set_poll (Offering (ms ++ [m]) todo (S (length (w_intake w)))) w))
      end
    | _ => None
    end
  | AOfferErr =>
    (* Offer gives up when its context ends or the pipeline is closing *)
    match w_poll w with
    | Offering ms (m :: todo) last =>
      r ← log m.1 !! m.2;
      match kdecode r with Some _ => Some (w_set_poll Stopped w) | None => None end
    | _ => None
    end
  | AEndPoll =>
    match w_poll w with
    | Offering ms [] last =>
      match ms with
      | [] => Some (w_set_poll Polling w)
      | _ => Some (w_set_poll (Sending (mkAck last ms)) w)
      end
    | _ => None
    end
  | ASendAck =>
    match w_poll w with
    | Sending a =>
      if (length (w_acks w) <? ackBacklog)%nat
      then Some (w_set_acks (w_acks w ++ [a]) (w_set_poll Polling w)) else None
    | _ => None
    end
  | ASendDone =>
    match w_poll w with
    | Sending a => if w_session_done w then Some (w_set_poll Stopped w) else None
    | _ => None
    end
  | ATakeAck =>
    match w_committer w, w_acks w with
    | Idle, a :: rest => Some (w_set_acks rest (w_set_committer (Waiting a) w))
    | _, _ => None
    end
  | AWrittenNil =>
    match w_committer w with
    | Waiting a => if written_nil (ack_seq a) (w_intake w) then Some (w_set_committer (Committing a) w) else None
    | _ => None
    end
  | AWrittenFailed m =>
    match w_committer w with
    | Waiting a =>
      (fun n => w_set_intake n (w_set_failed true (w_set_session_done true (w_set_committer Exited w))))
      <$> written_failed (ack_seq a) m (w_intake w)
    | _ => None
    end
  | AWrittenCtx =>
    match w_committer w with
    | Waiting a => Some (w_set_session_done true (w_set_committer Exited w))
    | _ => None
    end
  | ACommit qs =>
    match w_committer w with
    | Committing a =>
      Some (w_set_committer Idle
        (w_set_committed (filter (fun kv => kv.1 ∈ qs) (highest (ack_records a)) ∪ w_committed w) w))
    | _ => None
    end
  | ACommitterExit =>
    match w_committer w, w_acks w, w_poll w with
    | Idle, [], Stopped => Some (w_set_committer Exited w)
    | _, _, _ => None
    end
  | AReturn =>
    match w_committer w, w_poll w with
    | Exited, Stopped =>
      if w_failed w && negb (w_ctx_done w)
      then Some (fresh_session (w_set_rewinds (S (w_rewinds w)) w))
      else Some (w_set_pos ∅ (w_set_returned true w))
    | _, _ => None
    end
  end.

End source.
