(* ===== verification/KafkaThms.v ===== *)
(** * Properties of the Kafka source *)

From S2P Require Import Prelude GoTime Netip Flow Text Json Wire WireThms Sha256 KafkaSource.

(** ** The natural key *)

Record natural_key := mkKey {
  nk_exporter : Addr; nk_first : Time; nk_src : Addr; nk_dst : Addr;
  nk_sport : Z; nk_dport : Z; nk_proto : Z
}.

(** What the documentation calls the record's natural key: addresses in their
    16-byte form, the start truncated to the microsecond. *)
Definition key_of (r : FlowRecord) : natural_key :=
  mkKey (Unmap (ExporterAddr r)) (TruncateMicro (FirstSwitched r)) (Unmap (SrcAddr r))
    (Unmap (DstAddr r)) (SrcPort r) (DstPort r) (Protocol r).

(** Well-typed records with valid addresses without zones, whose start has a
    microsecond count that fits 64 bits. *)
Definition keyed (r : FlowRecord) : Prop :=
  record_typed r /\ zoneless (ExporterAddr r) /\ zoneless (SrcAddr r) /\ zoneless (DstAddr r) /\
  IsValid (ExporterAddr r) = true /\ IsValid (SrcAddr r) = true /\ IsValid (DstAddr r) = true /\
  unix_micro_range (TruncateMicro (FirstSwitched r)).

Lemma u64_i64_inj x y : is_sint 64 x -> is_sint 64 y -> u64 x = u64 y -> x = y.
Proof.
  unfold is_sint, wrap_u. simpl. intros Hx Hy E.
  assert (Hd : exists k, x - y = k * 2 ^ 64).
  { exists (x / 2 ^ 64 - y / 2 ^ 64). pose proof (Z.div_mod x (2 ^ 64)). pose proof (Z.div_mod y (2 ^ 64)). lia. }
  destruct Hd as [k Hk]. lia.
Qed.

Lemma dedupInput_inj r s :
  keyed r -> keyed s -> dedupInput r = dedupInput s -> key_of r = key_of s.
Proof.
  intros ([] & Ze & Zs & Zd & Ve & Vs & Vd & Rm) ([] & Ze' & Zs' & Zd' & Ve' & Vs' & Vd' & Rm') E.
  unfold dedupInput, UTC in E.
  apply app_inj_len in E as [Eex E]; [|by rewrite !length_As16].
  apply app_inj_len in E as [Efi E]; [|by rewrite !length_be_bytes].
  apply app_inj_len in E as [Esr E]; [|by rewrite !length_As16].
  apply app_inj_len in E as [Eds E]; [|by rewrite !length_As16].
  apply app_inj_len in E as [Esp E]; [|by rewrite !length_be_bytes].
  apply app_inj_len in E as [Edp E]; [|by rewrite !length_be_bytes].
  injection E as Epr. apply As16_inj in Eex; [|done..]. apply As16_inj in Esr; [|done..].
  apply As16_inj in Eds; [|done..]. apply be_bytes_inj in Esp; [|done..]. apply be_bytes_inj in Edp; [|done..].
  apply be_bytes_inj in Efi; [|apply wrap_u_range; lia..].
  apply u64_i64_inj in Efi; [|apply wrap_s_range; lia..].
  apply UnixMicro_inj in Efi; [|by apply TruncateMicro_wf|by apply TruncateMicro_wf
    |apply TruncateMicro_whole|apply TruncateMicro_whole|done..].
  unfold key_of. by rewrite Eex, Efi, Esr, Eds, Esp, Edp, Epr.
Qed.

Lemma As16_Unmap a : addr_wf a -> As16 (Unmap a) = As16 a.
Proof.
  destruct a as [|n|n z]; simpl; [done..|]. intros Hn. destruct (Z.eqb_spec (n / 2 ^ 32) 65535) as [E|]; [|done].
  simpl. f_equal. unfold v4mapped. pose proof (Z.div_mod n (2 ^ 32)). lia.
Qed.

Lemma dedupInput_key r s :
  record_typed r -> record_typed s -> key_of r = key_of s -> dedupInput r = dedupInput s.
Proof.
  intros [] [] E. unfold dedupInput, UTC.
  pose proof (f_equal nk_exporter E) as E1. pose proof (f_equal nk_first E) as E2.
  pose proof (f_equal nk_src E) as E3. pose proof (f_equal nk_dst E) as E4.
  pose proof (f_equal nk_sport E) as E5. pose proof (f_equal nk_dport E) as E6.
  pose proof (f_equal nk_proto E) as E7.
  cbn [key_of nk_exporter nk_first nk_src nk_dst nk_sport nk_dport nk_proto] in *.
  rewrite <- (As16_Unmap (ExporterAddr r)), <- (As16_Unmap (SrcAddr r)), <- (As16_Unmap (DstAddr r)) by done.
  rewrite E1, E2, E3, E4, E5, E6, E7. by rewrite !As16_Unmap.
Qed.

(** C39. The dedup key is the first 16 bytes of the SHA-256 digest of 61 bytes.
    For well-typed records whose exporter, source and destination addresses are
    valid and have no zone and whose start is in the range of a 64-bit
    microsecond count, those 61 bytes determine the natural key and are
    determined by it: two such records have the same hashed bytes exactly when
    exporter, start (to the microsecond), addresses, ports and protocol agree,
    IPv4-mapped addresses counting as IPv4. So records of equal natural keys
    always have the same dedup key, and records of distinct ones share a key
    only when two distinct strings of 61 bytes have SHA-256 digests that agree
    in their first 16 bytes. *)
Theorem dedup_natural_key r s :
  keyed r -> keyed s ->
  (dedupInput r = dedupInput s <-> key_of r = key_of s) /\
  (key_of r = key_of s -> DedupKeyOf r = DedupKeyOf s) /\
  (DedupKeyOf r = DedupKeyOf s -> key_of r = key_of s \/
    dedupInput r <> dedupInput s /\ take 16 (Sum256 (dedupInput r)) = take 16 (Sum256 (dedupInput s))) /\
  length (dedupInput r) = 61%nat /\ length (DedupKeyOf r) = 16%nat.
Proof.
  intros Hr Hs. assert (Hi : key_of r = key_of s -> dedupInput r = dedupInput s)
    by (apply dedupInput_key; [apply Hr|apply Hs]).
  split; [split; [by apply dedupInput_inj|done]|]. split_and!.
  - intros E. unfold DedupKeyOf. by rewrite Hi.
  - intros E. destruct (decide (dedupInput r = dedupInput s)) as [Ed|Ed]; [left; by apply dedupInput_inj|by right].
  - unfold dedupInput. by rewrite !length_app, !length_As16, !length_be_bytes.
  - unfold DedupKeyOf. rewrite length_take, length_Sum256. done.
Qed.

Definition mapped_record : FlowRecord :=
  set_ExporterAddr (Addr6 (v4mapped 3221225985) "")
    (set_FirstSwitched (Unix 1789819190 999) (set_Bytes 1 sample_record)).

Lemma dedup_natural_key_witness :
  keyed sample_record /\ keyed mapped_record /\ DedupKeyOf sample_record = DedupKeyOf mapped_record.
Proof.
  assert (H1 : keyed sample_record).
  { split; [constructor|]; vm_compute; intuition congruence. }
  assert (H2 : keyed mapped_record).
  { split; [constructor|]; vm_compute; intuition congruence. }
  split; [exact H1|]. split; [exact H2|].
  apply (dedup_natural_key sample_record mapped_record H1 H2). reflexivity.
Defined.

(** The condition on zones is needed: [As16] drops the zone, so a record from
    fe80::1%eth0 and the same one from fe80::1 share their key. *)
Example zones_not_hashed :
  let at_zone z := set_ExporterAddr (Addr6 (65152 * 2 ^ 112 + 1) z) sample_record in
  key_of (at_zone "eth0"%string) <> key_of (at_zone ""%string) /\
  DedupKeyOf (at_zone "eth0"%string) = DedupKeyOf (at_zone ""%string).
Proof. split; [intros E; apply (f_equal nk_exporter) in E; by vm_compute in E|by vm_compute]. Qed.

(** ** At-most-once delivery: the push-shaped [Start] *)

(** What a poll marked and sent: all its records when it is not cut short;
    otherwise the last one marked is decodable and was not sent. *)
Definition polled p (recs m : list KRecord) (s : list FlowRecord) (e : nat) (stop : bool) : Prop :=
  exists pre, s = omap (kdecode p) pre /\ (e + length s = length pre)%nat /\
    if stop then exists r rec rest, recs = pre ++ r :: rest /\ m = pre ++ [r] /\ kdecode p r = Some rec
    else pre = recs /\ m = recs.

Lemma polled_cons p r recs m s e s' e' stop :
  polled p recs m s e stop -> s' = omap (kdecode p) [r] ++ s -> (e' + length s' = S (e + length s))%nat ->
  polled p (r :: recs) (r :: m) s' e' stop.
Proof.
  intros (pre & -> & Hl & Hs) Es He. exists (r :: pre). split; [rewrite Es; cbn; by destruct (kdecode p r)|].
  split; [cbn; lia|]. destruct stop; [|by destruct Hs as [-> ->]].
  destruct Hs as (r1 & rec1 & rest & -> & -> & H1). by exists r1, rec1, rest.
Qed.

Lemma start_poll_exact p recs sends m s e stop : start_poll p recs sends = (m, s, e, stop) -> polled p recs m s e stop.
Proof.
  revert sends m s e. induction recs as [|r recs IH]; intros sends m s e; cbn [start_poll].
  { intros [= <- <- <- <-]. by exists []. }
  assert (Hc : forall x m1 s1 e1 s' e', start_poll p recs x = (m1, s1, e1, stop) -> s' = omap (kdecode p) [r] ++ s1 ->
    (e' + length s' = S (e1 + length s1))%nat -> polled p (r :: recs) (r :: m1) s' e' stop)
    by (intros; eapply polled_cons; eauto).
  destruct (kdecode p r) as [rec|] eqn:Ed.
  - destruct sends as [[|n]|]; [intros [= <- <- <- <-]; exists []; split_and!; [done..|by exists r, rec, recs]|..];
      destruct (start_poll p recs _) as [[[m1 s1] e1] stop1] eqn:E; intros [= <- <- <- <-];
      (eapply Hc; [exact E|cbn; by rewrite Ed|cbn; lia]).
  - destruct (start_poll p recs _) as [[[m1 s1] e1] stop1] eqn:E. intros [= <- <- <- <-].
    eapply Hc; [exact E|cbn; by rewrite Ed|cbn; lia].
Qed.

(** [Start] loses at most one record: what it marks for the commit is the
    beginning of what it polled, all of it if no send was cut short, and its
    decodable records are those it sent, in order, and at most one more. *)
Theorem push_loses_at_most_one p polls m s e :
  PushStart p polls = (m, s, e) ->
  (exists rest, concat polls.*1 = m ++ rest) /\
  (m = concat polls.*1 /\ omap (kdecode p) m = s \/ exists rec, omap (kdecode p) m = s ++ [rec]).
Proof.
  revert m s e. induction polls as [|[recs sends] polls IH]; intros m s e; cbn [PushStart].
  { intros [= <- <- <-]. split; [by exists []|by left]. }
  destruct (start_poll p recs sends) as [[[m1 s1] e1] stop] eqn:E. apply start_poll_exact in E as (pre & -> & _ & Hs).
  destruct stop.
  - destruct Hs as (r & rec & rest & -> & -> & Hr). intros [= <- <- <-]. cbn.
    split; [exists (rest ++ concat polls.*1); by rewrite <- !app_assoc|]. right. exists rec. rewrite omap_app. cbn. by rewrite Hr.
  - destruct Hs as [-> ->]. destruct (PushStart p polls) as [[m2 s2] e2]. intros [= <- <- <-].
    destruct (IH _ _ _ eq_refl) as [[rest Hrest] Hm]. cbn. split; [exists rest; by rewrite Hrest, app_assoc|].
    rewrite omap_app. destruct Hm as [[-> ->]|[rec ->]]; [by left|right; exists rec; by rewrite app_assoc].
Qed.

(** ** At-least-once delivery *)

Section session.
Context (p : text -> option Time) (log : nat -> list KRecord).

Definition decodes (m : message) (rec : FlowRecord) : Prop :=
  exists r, log m.1 !! m.2 = Some r /\ kdecode p r = Some rec.

(** Other members of the group have committed past [m]. *)
Definition passed (els : list message) (m : message) : Prop := exists c, (m.1, c) ∈ els /\ (m.2 < c)%nat.

(** [m] is undecodable, written, or someone else's. *)
Definition settled (n : intake) (els : list message) (m : message) : Prop :=
  forall rec, decodes m rec -> (exists i, n !! i = Some (rec, Done)) \/ passed els m.

(** Every message below the frontier [f] is settled. *)
Definition safe (n : intake) (els : list message) (f : nat -> nat) : Prop :=
  forall q off, (off < f q)%nat -> settled n els (q, off).

(** Every decodable message of [ms] was offered with a position in [b, q). *)
Definition offered (n : intake) (b q : nat) (ms : list message) : Prop :=
  (q <= length n)%nat /\
  forall m rec, m ∈ ms -> decodes m rec -> exists i s, (b <= i < q)%nat /\ n !! i = Some (rec, s).

Definition intake_le (n n' : intake) : Prop :=
  (length n <= length n')%nat /\
  forall i r s, n !! i = Some (r, s) -> exists s', n' !! i = Some (r, s') /\ (s = Done -> s' = Done).

Lemma intake_le_refl n : intake_le n n.
Proof. split; [done|]. eauto. Qed.

Lemma settle_le i ok n n' : settle i ok n = Some n' -> intake_le n n'.
Proof.
  unfold settle. destruct (n !! i) as [[r []]|] eqn:E; try done. intros [= <-].
  split; [by rewrite length_insert|]. intros j r' s' Hj. destruct (decide (j = i)) as [->|Hne].
  - rewrite E in Hj. injection Hj as <- <-. exists (if ok then Done else Failed).
    split; [|done]. apply list_lookup_insert_eq. by eapply lookup_lt_Some.
  - exists s'. by rewrite list_lookup_insert_ne.
Qed.

Lemma report_lookup (n : intake) (i : nat) : (report <$> n) !! i = report <$> (n !! i).
Proof. apply list_lookup_fmap. Qed.

Lemma written_failed_le seq q n n' : written_failed seq q n = Some n' -> intake_le n n'.
Proof.
  unfold written_failed. destruct (_ && _); [|done]. intros [= <-].
  split; [rewrite length_app, length_fmap, <- length_app, take_drop; done|]. intros i r s Hi.
  destruct (decide (i < q)%nat).
  - rewrite lookup_app_l by (rewrite length_fmap, length_take; apply lookup_lt_Some in Hi; lia).
    rewrite report_lookup, lookup_take_lt, Hi by done. simpl. unfold report. simpl.
    destruct s; simpl; eexists; done.
  - rewrite lookup_app_r by (rewrite length_fmap, length_take; lia).
    rewrite length_fmap, length_take, lookup_drop. apply lookup_lt_Some in Hi as Hl.
    replace (q + (i - q `min` length n))%nat with i by lia. eauto.
Qed.

Lemma snoc_le (n : intake) x : intake_le n (n ++ [x]).
Proof.
  split; [rewrite length_app; lia|]. intros i r s Hi. exists s. split; [|done].
  rewrite lookup_app_l; [done|by eapply lookup_lt_Some].
Qed.

Lemma settled_le n n' els els' m : intake_le n n' -> els ⊆ els' -> settled n els m -> settled n' els' m.
Proof.
  intros [_ Hle] He Hs rec Hd. destruct (Hs rec Hd) as [[i Hi]|(c & Hc & Hlt)]; [left|right; exists c; auto].
  destruct (Hle _ _ _ Hi) as (s' & Hs' & E). exists i. by rewrite Hs', E.
Qed.

Lemma safe_le n n' els els' f : intake_le n n' -> els ⊆ els' -> safe n els f -> safe n' els' f.
Proof. intros Hn He Hs q off Hlt. eapply settled_le; eauto. Qed.

Lemma offered_le n n' b q ms : intake_le n n' -> offered n b q ms -> offered n' b q ms.
Proof.
  intros [Hl Hle] [Hq Ho]. split; [lia|]. intros m rec Hm Hd.
  destruct (Ho m rec Hm Hd) as (i & s & Hi & Hn). destruct (Hle _ _ _ Hn) as (s' & Hs' & _). eauto.
Qed.

(** *** Frontiers *)

(** Reading [m] moves the frontier of its partition past it. *)
Definition bump (f : nat -> nat) (m : message) (q : nat) : nat :=
  if decide (q = m.1) then Nat.max (f q) (S m.2) else f q.
Definition reach (f : nat -> nat) (ms : list message) : nat -> nat := foldl bump f ms.

(** No message of [ms] is read before those below it in its partition. *)
Fixpoint follows (f : nat -> nat) (ms : list message) : Prop :=
  match ms with
  | [] => True
  | m :: rest => (m.2 <= f m.1)%nat /\ follows (bump f m) rest
  end.

Lemma bump_le f g m : (forall q, (f q <= g q)%nat) -> forall q, (bump f m q <= bump g m q)%nat.
Proof. intros H q. unfold bump. specialize (H q). case_decide; lia. Qed.

Lemma reach_le f g ms : (forall q, (f q <= g q)%nat) -> forall q, (reach f ms q <= reach g ms q)%nat.
Proof. revert f g. induction ms as [|m ms IH]; intros f g H; [done|]. by apply IH, bump_le. Qed.

Lemma reach_ge f ms q : (f q <= reach f ms q)%nat.
Proof.
  revert f. induction ms as [|m ms IH]; intros f; [done|]. change (reach f (m :: ms)) with (reach (bump f m) ms).
  specialize (IH (bump f m)). unfold bump in *. case_decide; lia.
Qed.

Lemma reach_elem f ms m : m ∈ ms -> (S m.2 <= reach f ms m.1)%nat.
Proof.
  revert f. induction ms as [|x ms IH]; intros f Hm; [by apply not_elem_of_nil in Hm|].
  change (reach f (x :: ms)) with (reach (bump f x) ms). apply elem_of_cons in Hm as [->|Hm]; [|by apply IH].
  etrans; [|apply reach_ge]. unfold bump. rewrite decide_True by done. lia.
Qed.

Lemma follows_le f g ms : (forall q, (f q <= g q)%nat) -> follows f ms -> follows g ms.
Proof.
  revert f g. induction ms as [|m ms IH]; intros f g H; [done|]. intros [Hm Hf]. split; [specialize (H m.1); lia|].
  eapply IH; [|exact Hf]. by apply bump_le.
Qed.

Lemma follows_app f l l' : follows f (l ++ l') <-> follows f l /\ follows (reach f l) l'.
Proof.
  revert f. induction l as [|m l IH]; intros f; cbn [app follows]; [by split; [|intros []]|]. rewrite IH.
  change (reach f (m :: l)) with (reach (bump f m) l). tauto.
Qed.

Lemma reach_app f l l' : reach f (l ++ l') = reach (reach f l) l'.
Proof. apply foldl_app. Qed.

(** Reading settled messages in order keeps the frontier safe. *)
Lemma safe_reach n els f ms : safe n els f -> follows f ms -> (forall m, m ∈ ms -> settled n els m) -> safe n els (reach f ms).
Proof.
  revert f. induction ms as [|m ms IH]; intros f Hs Hf Hm; [done|]. destruct Hf as [H1 H2].
  apply (IH (bump f m)); [|done|intros x Hx; apply Hm; by right]. intros q off Hlt. unfold bump in Hlt.
  case_decide as E; [|by apply Hs]. destruct (decide (off < f q)%nat); [by apply Hs|].
  assert ((q, off) = m) as -> by (destruct m; cbn in *; subst; f_equal; lia). apply Hm. by left.
Qed.

Lemma run_follows g q c n : (c <= g q)%nat ->
  follows g (pair q <$> seq c n) /\ (c + n <= reach g (pair q <$> seq c n) q)%nat.
Proof.
  revert g c. induction n as [|n IH]; intros g c Hc; cbn [seq fmap list_fmap follows]; [split; [done|cbn; lia]|].
  assert (Hb : (S c <= bump g (q, c) q)%nat) by (unfold bump; rewrite decide_True by done; cbn; lia).
  destruct (IH (bump g (q, c)) (S c) Hb) as [H1 H2]. split; [by split|].
  change (reach g ((q, c) :: (pair q <$> seq (S c) n))) with (reach (bump g (q, c)) (pair q <$> seq (S c) n)). lia.
Qed.

(** A fetch continues at the positions. *)
Lemma fetch_follows g fs pos ms pos' :
  fetch log fs pos = Some (ms, pos') -> (forall q c, pos !! q = Some c -> (c <= g q)%nat) ->
  follows g ms /\ forall q c, pos' !! q = Some c -> (c <= reach g ms q)%nat.
Proof.
  revert g pos ms. induction fs as [|[q n] fs IH]; intros g pos ms; cbn [fetch]; [by intros [= <- <-]|].
  intros (c & Hc & E)%bind_Some Hp. destruct (_ <=? _)%nat; [|done]. apply bind_Some in E as ([ms1 pos1] & E & [= <- <-]).
  destruct (run_follows g q c n (Hp q c Hc)) as [H1 H2].
  destruct (IH (reach g (pair q <$> seq c n)) _ _ E) as [H3 H4].
  - intros q' c' Hl. destruct (decide (q' = q)) as [->|Hne]; [rewrite lookup_insert_eq in Hl; injection Hl as <-; lia|].
    rewrite lookup_insert_ne in Hl by done. etrans; [by apply Hp|apply reach_ge].
  - rewrite follows_app, reach_app. by split; [split|].
Qed.

Lemma highest_bound f ms q h : (forall m, m ∈ ms -> (S m.2 <= f m.1)%nat) -> highest ms !! q = Some h -> (h <= f q)%nat.
Proof.
  revert h. induction ms as [|m ms IH]; intros h Hm; cbn [highest foldr]; [by rewrite lookup_empty|]. fold (highest ms).
  assert (Hms : forall x, x ∈ ms -> (S x.2 <= f x.1)%nat) by (intros x Hx; apply Hm; by right).
  destruct (decide (q = m.1)) as [->|Hne]; [|rewrite lookup_insert_ne by done; by apply IH].
  rewrite lookup_insert_eq. intros [= <-]. pose proof (Hm m ltac:(by left)).
  destruct (highest ms !! m.1) as [h|] eqn:E; cbn; [specialize (IH h Hms eq_refl); lia|lia].
Qed.

(** *** The session *)

(** Polls that await acknowledgement, oldest first. *)
Definition queued (w : world) : list pollAck :=
  match w_committer w with Waiting a => [a] | _ => [] end ++ w_acks w ++
  match w_poll w with Sending a => [a] | _ => [] end.

(** Messages read and not yet acknowledged, in the order they were read. *)
Definition in_flight (w : world) : list message :=
  concat (ack_records <$> queued w) ++ match w_poll w with Offering ms todo _ => ms ++ todo | _ => [] end.

Definition no_reports (n : intake) (b : nat) : Prop :=
  forall i r s, (b <= i)%nat -> n !! i = Some (r, s) -> s <> Reported.

(** [b] is where the session's records start in the intake, [f] the frontier
    below which everything is settled. *)
Record session_ok (w : world) (b : nat) (f : nat -> nat) : Prop := {
  so_committed : forall q, (committed_at w q <= f q)%nat;
  so_safe : safe (w_intake w) (w_elsewhere w) f;
  so_reports : no_reports (w_intake w) b;
  so_start : (b <= length (w_intake w))%nat;
  so_follows : follows f (in_flight w);
  so_pos : w_poll w <> Stopped -> forall q c, w_pos w !! q = Some c -> (c <= reach f (in_flight w) q)%nat;
  so_queued : Forall (fun a => offered (w_intake w) b (ack_seq a) (ack_records a)) (queued w);
  so_poll : match w_poll w with Offering ms _ last => offered (w_intake w) b last ms | _ => True end;
  so_commit : match w_committer w with Committing a => forall m, m ∈ ack_records a -> (S m.2 <= f m.1)%nat | _ => True end
}.

Record inv (w : world) : Prop := {
  inv_committed : safe (w_intake w) (w_elsewhere w) (committed_at w);
  inv_session : w_committer w <> Exited -> exists b f, session_ok w b f
}.

Lemma settle_no_reports i ok n n' b : settle i ok n = Some n' -> no_reports n b -> no_reports n' b.
Proof.
  unfold settle. destruct (n !! i) as [[r []]|] eqn:E; try done. intros [= <-] Hn j r' s' Hj Hl.
  destruct (decide (j = i)) as [->|Hne].
  - rewrite list_lookup_insert_eq in Hl by (by eapply lookup_lt_Some).
    injection Hl as _ <-. by destruct ok.
  - rewrite list_lookup_insert_ne in Hl by done. by eapply Hn.
Qed.

Lemma snoc_no_reports (n : intake) b rec : no_reports n b -> no_reports (n ++ [(rec, Pending)]) b.
Proof.
  intros Hn i r s Hi Hl. apply lookup_app_Some in Hl as [Hl|[_ Hl]]; [by eapply Hn|].
  apply list_lookup_singleton_Some in Hl as [_ [= _ <-]]. done.
Qed.

(** Written's nil answer settles the whole ack: nothing of this session has
    been reported, so everything at or below its sequence is written. *)
Lemma written_nil_settled n els b a :
  no_reports n b -> offered n b (ack_seq a) (ack_records a) -> written_nil (ack_seq a) n = true ->
  forall m, m ∈ ack_records a -> settled n els m.
Proof.
  intros Hn [_ Ho] Hw m Hm rec Hd. left. destruct (Ho m rec Hm Hd) as (i & s & Hi & Hl). exists i. rewrite Hl. do 2 f_equal.
  unfold written_nil in Hw. rewrite forallb_forall in Hw.
  assert (Hin : settled_ok (rec, s) = true).
  { apply Hw, list_elem_of_In, list_elem_of_lookup. exists i. by rewrite lookup_take_lt by lia. }
  destruct s; try done. by destruct (Hn i rec Reported ltac:(lia) Hl).
Qed.

(** Steps that change the intake only, monotonically. *)
Lemma session_intake w n b f :
  session_ok w b f -> intake_le (w_intake w) n -> no_reports n b -> session_ok (w_set_intake n w) b f.
Proof.
  intros [] Hle Hnr. constructor; try done; cbn.
  - by eapply safe_le.
  - destruct Hle. lia.
  - eapply Forall_impl; [done|]. intros a. by apply offered_le.
  - destruct (w_poll w); try done. by eapply offered_le.
Qed.

Lemma inv_intake w n :
  inv w -> intake_le (w_intake w) n -> (forall b, no_reports (w_intake w) b -> no_reports n b) -> inv (w_set_intake n w).
Proof.
  intros [Hc Hs] Hle Hnr. split; [by eapply safe_le|]. intros Hne. destruct (Hs Hne) as (b & f & Hok). exists b, f.
  apply session_intake; [done..|]. apply Hnr, Hok.
Qed.

(** Steps after which the session ends, or that forget what was in flight. *)
Lemma inv_exited w : inv w -> forall w', w_intake w' = w_intake w -> w_elsewhere w' = w_elsewhere w ->
  w_committed w' = w_committed w -> w_committer w' = Exited -> inv w'.
Proof.
  intros [Hc _] w' E1 E2 E3 E4. split; [unfold committed_at; rewrite E1, E2, E3; exact Hc|by rewrite E4].
Qed.

Lemma inv_stop w : inv w -> inv (w_set_poll Stopped w).
Proof.
  intros [Hc Hs]. split; [done|]. intros Hne. destruct (Hs Hne) as (b & f & [H1 H2 H3 H4 H5 H6 H7 H8 H9]). exists b, f.
  assert (Eq : exists l, queued w = queued (w_set_poll Stopped w) ++ l).
  { unfold queued. cbn. rewrite app_nil_r. exists (match w_poll w with Sending a => [a] | _ => [] end). by rewrite app_assoc. }
  destruct Eq as [l Eq]. constructor; try done; cbn.
  - unfold in_flight in *. rewrite Eq, fmap_app, concat_app, <- app_assoc in H5. apply follows_app in H5 as [H5 _]. cbn.
    by rewrite app_nil_r.
  - rewrite Eq in H7. by apply Forall_app in H7 as [H7 _].
Qed.

(** Steps that reorganise what is in flight. *)
Lemma session_poll w w' b f :
  session_ok w b f -> w_committed w' = w_committed w -> w_intake w' = w_intake w -> w_elsewhere w' = w_elsewhere w ->
  w_pos w' = w_pos w -> w_poll w <> Stopped -> in_flight w' = in_flight w ->
  Forall (fun a => offered (w_intake w) b (ack_seq a) (ack_records a)) (queued w') ->
  match w_poll w' with Offering ms _ last => offered (w_intake w) b last ms | _ => True end ->
  match w_committer w' with Committing a => forall m, m ∈ ack_records a -> (S m.2 <= f m.1)%nat | _ => True end ->
  session_ok w' b f.
Proof.
  intros [] E1 E2 E3 E4 Hp E5 Hq Hpo Hc. constructor; rewrite ?E2, ?E3, ?E4, ?E5; try done.
  - intros q. unfold committed_at. rewrite E1. apply so_committed0.
  - intros _. by apply so_pos0.
Qed.

(** Steps that change the assignment only. *)
Lemma inv_pos w pos :
  inv w ->
  (forall b f, session_ok w b f -> w_poll w <> Stopped ->
     forall q c, pos !! q = Some c -> (c <= reach f (in_flight w) q)%nat) ->
  inv (w_set_pos pos w).
Proof.
  intros [Hc Hs] Hp. split; [done|]. intros Hne. destruct (Hs Hne) as (b & f & Hok). exists b, f.
  pose proof (Hp b f Hok). by destruct Hok; constructor.
Qed.

(** A record is appended and the poll's last sequence number is its own. *)
Lemma offered_snoc n b last ms m rec :
  offered n b last ms -> (b <= length n)%nat -> (forall rec', decodes m rec' -> rec' = rec) ->
  offered (n ++ [(rec, Pending)]) b (S (length n)) (ms ++ [m]).
Proof.
  intros [Hl Ho] Hb Hm. split; [rewrite length_app; cbn; lia|]. intros x rec' Hx Hd.
  apply elem_of_app in Hx as [Hx| ->%list_elem_of_singleton].
  - destruct (Ho x rec' Hx Hd) as (i & s & Hi & Hn). exists i, s. split; [lia|]. rewrite lookup_app_l; [done|lia].
  - rewrite (Hm _ Hd). exists (length n), Pending. split; [lia|]. by rewrite list_lookup_middle.
Qed.

Lemma offered_skip n b last ms m :
  offered n b last ms -> (forall rec, ~ decodes m rec) -> offered n b last (ms ++ [m]).
Proof.
  intros [Hl Ho] Hm. split; [done|]. intros x rec Hx Hd.
  apply elem_of_app in Hx as [Hx| ->%list_elem_of_singleton]; [eauto|by apply Hm in Hd].
Qed.

Lemma in_flight_offer w ms m todo last last' :
  w_poll w = Offering ms (m :: todo) last -> in_flight (w_set_poll (Offering (ms ++ [m]) todo last') w) = in_flight w.
Proof. intros E. unfold in_flight, queued. cbn. by rewrite E, <- !app_assoc. Qed.

Lemma in_flight_send w ms last :
  w_poll w = Offering ms [] last -> in_flight (w_set_poll (Sending (mkAck last ms)) w) = in_flight w.
Proof.
  intros E. unfold in_flight, queued. cbn. rewrite E, !app_nil_r, app_assoc, fmap_app, concat_app. cbn. by rewrite app_nil_r.
Qed.

Lemma inv_member w q c :
  inv w -> inv (w_set_committed (<[q := c]> (w_committed w)) (w_set_elsewhere ((q, c) :: w_elsewhere w) w)).
Proof.
  intros [Hc Hs]. pose proof (intake_le_refl (w_intake w)) as Hle.
  assert (Hels : w_elsewhere w ⊆ (q, c) :: w_elsewhere w) by (intros x Hx; by right).
  assert (Hsafe : forall f, safe (w_intake w) (w_elsewhere w) f ->
    safe (w_intake w) ((q, c) :: w_elsewhere w) (fun q' => if decide (q' = q) then Nat.max (f q) c else f q')).
  { intros f Hf q' off Hlt. case_decide as Eq; [subst q'|by eapply settled_le; [..|apply Hf]].
    destruct (decide (off < f q)%nat); [by eapply settled_le; [..|apply Hf]|].
    intros rec _. right. exists c. split; [by left|cbn in *; lia]. }
  split.
  - intros q' off Hlt. apply (Hsafe _ Hc). revert Hlt. unfold committed_at. cbn. case_decide as Eq; [subst q'|].
    + rewrite lookup_insert_eq. cbn. lia.
    + by rewrite lookup_insert_ne.
  - intros Hne. destruct (Hs Hne) as (b & f & []).
    assert (Hf : forall q', (f q' <= if decide (q' = q) then Nat.max (f q) c else f q')%nat)
      by (intros q'; case_decide; subst; lia).
    exists b, (fun q' => if decide (q' = q) then Nat.max (f q) c else f q'). constructor; try done.
    + intros q'. unfold committed_at. cbn. case_decide as Eq; [subst q'; rewrite lookup_insert_eq; cbn; lia|].
      rewrite lookup_insert_ne by done. apply so_committed0.
    + by apply Hsafe.
    + by eapply follows_le; [|exact so_follows0].
    + intros Hp q' c' Hl. etrans; [by apply so_pos0|]. by apply reach_le.
    + cbn. destruct (w_committer w); try done. intros m Hm. etrans; [by apply so_commit0|apply Hf].
Qed.

Lemma inv_fetch w fs ms pos :
  inv w -> w_poll w = Polling -> fetch log fs (w_pos w) = Some (ms, pos) ->
  inv (w_set_pos pos (w_set_poll (Offering [] ms 0) w)).
Proof.
  intros [Hc Hs] Ep Ef. split; [done|]. intros Hne. destruct (Hs Hne) as (b & f & []). exists b, f.
  assert (Eq : queued (w_set_pos pos (w_set_poll (Offering [] ms 0) w)) = queued w)
    by (unfold queued; cbn; by rewrite Ep).
  assert (Ei : in_flight (w_set_pos pos (w_set_poll (Offering [] ms 0) w)) = in_flight w ++ ms).
  { unfold in_flight. rewrite Eq. cbn. by rewrite Ep, app_nil_r. }
  rewrite Ep in so_pos0. destruct (fetch_follows (reach f (in_flight w)) fs _ _ _ Ef) as [H1 H2]; [by apply so_pos0|].
  constructor; try done; rewrite ?Eq; try done.
  - rewrite Ei. by apply follows_app.
  - intros _. rewrite Ei, reach_app. apply H2.
  - split; [lia|]. intros m rec Hm. by apply not_elem_of_nil in Hm.
Qed.

Lemma inv_written_nil w a :
  inv w -> w_committer w = Waiting a -> written_nil (ack_seq a) (w_intake w) = true ->
  inv (w_set_committer (Committing a) w).
Proof.
  intros [Hc Hs] Ea Hw. split; [done|]. intros _. destruct Hs as (b & f & []); [by rewrite Ea|].
  exists b, (reach f (ack_records a)).
  assert (Eq : queued w = a :: queued (w_set_committer (Committing a) w)) by (unfold queued; by rewrite Ea).
  assert (Ei : in_flight w = ack_records a ++ in_flight (w_set_committer (Committing a) w))
    by (unfold in_flight; rewrite Eq; cbn; by rewrite <- app_assoc).
  rewrite Eq in so_queued0. rewrite Ei in so_follows0, so_pos0. apply follows_app in so_follows0 as [F1 F2].
  inversion so_queued0 as [|? ? Ha Hq]; subst. constructor; try done.
  - intros q. etrans; [by apply so_committed0|apply reach_ge].
  - apply safe_reach; [done..|]. by eapply written_nil_settled.
  - rewrite <- reach_app. exact so_pos0.
  - cbn. intros m. apply reach_elem.
Qed.

Lemma committed_at_commit w h q :
  committed_at (w_set_committer Idle (w_set_committed (h ∪ w_committed w) w)) q = default (committed_at w q) (h !! q).
Proof.
  unfold committed_at. cbn. rewrite lookup_union. destruct (h !! q); [by rewrite union_Some_l|].
  by rewrite (left_id_L None (∪)).
Qed.

Lemma inv_commit w a (qs : list nat) :
  inv w -> w_committer w = Committing a ->
  inv (w_set_committer Idle
    (w_set_committed (filter (fun kv => kv.1 ∈ qs) (highest (ack_records a)) ∪ w_committed w) w)).
Proof.
  intros [Hc Hs] Ea. destruct Hs as (b & f & []); [by rewrite Ea|]. rewrite Ea in so_commit0.
  set (w' := w_set_committer Idle _).
  assert (Hf : forall q, (committed_at w' q <= f q)%nat).
  { intros q. unfold w'. rewrite committed_at_commit.
    destruct (filter (fun kv => kv.1 ∈ qs) (highest (ack_records a)) !! q) as [h|] eqn:Eh; [|apply so_committed0].
    apply map_lookup_filter_Some in Eh as [Eh _]. by eapply highest_bound. }
  assert (Eq : queued w' = queued w) by (unfold queued, w'; cbn; by rewrite Ea).
  assert (Ei : in_flight w' = in_flight w) by (unfold in_flight; by rewrite Eq).
  split; [intros q off Hlt; apply so_safe0; specialize (Hf q); lia|]. intros _. exists b, f.
  by constructor; rewrite ?Eq, ?Ei.
Qed.

Lemma inv_fresh w n : inv w -> inv (fresh_session (w_set_rewinds n w)).
Proof.
  intros [Hc _]. split; [exact Hc|]. intros _. exists (length (w_intake w)), (committed_at w).
  constructor; try done; cbn.
  intros i r s Hi Hl. apply lookup_lt_Some in Hl. lia.
Qed.

Lemma inv_offer w ms m todo last r rec :
  inv w -> w_poll w = Offering ms (m :: todo) last -> log m.1 !! m.2 = Some r -> kdecode p r = Some rec ->
  inv (w_set_intake (w_intake w ++ [(rec, Pending)])
    (w_set_poll (Offering (ms ++ [m]) todo (S (length (w_intake w)))) w)).
Proof.
  intros [Hc Hs] Ep El Ed. split; [by eapply safe_le; [apply snoc_le|..]|]. intros Hne.
  destruct (Hs Hne) as (b & f & Hok). exists b, f.
  assert (Ho : offered (w_intake w) b last ms) by (pose proof (so_poll _ _ _ Hok) as Ho; by rewrite Ep in Ho).
  pose proof (session_intake w _ b f Hok (snoc_le _ (rec, Pending)) (snoc_no_reports _ b rec (so_reports _ _ _ Hok))) as Hok'.
  apply (session_poll _ _ b f Hok'); try done; cbn.
  - by rewrite Ep.
  - by apply (in_flight_offer w ms m todo last 0).
  - pose proof (so_queued _ _ _ Hok') as Hq. unfold queued in *. cbn in *. by rewrite Ep in Hq.
  - eapply offered_snoc; [done|apply Hok|]. intros rec' (r' & El' & Ed'). congruence.
  - apply Hok.
Qed.

Lemma inv_skip w ms m todo last r n :
  inv w -> w_poll w = Offering ms (m :: todo) last -> log m.1 !! m.2 = Some r -> kdecode p r = None ->
  inv (w_set_decode_errors n (w_set_poll (Offering (ms ++ [m]) todo last) w)).
Proof.
  intros [Hc Hs] Ep El Ed. split; [done|]. intros Hne. destruct (Hs Hne) as (b & f & Hok). exists b, f.
  assert (Ho : offered (w_intake w) b last ms) by (pose proof (so_poll _ _ _ Hok) as Ho; by rewrite Ep in Ho).
  apply (session_poll _ _ b f Hok); try done; cbn.
  - by rewrite Ep.
  - by apply (in_flight_offer w ms m todo last 0).
  - pose proof (so_queued _ _ _ Hok) as Hq. unfold queued in *. cbn in *. by rewrite Ep in Hq.
  - apply offered_skip; [done|]. intros rec (r' & El' & Ed'). congruence.
  - apply Hok.
Qed.

Lemma inv_endpoll w ms last :
  inv w -> w_poll w = Offering ms [] last -> inv (w_set_poll (Sending (mkAck last ms)) w).
Proof.
  intros [Hc Hs] Ep. split; [done|]. intros Hne. destruct (Hs Hne) as (b & f & Hok). exists b, f.
  assert (Ho : offered (w_intake w) b last ms) by (pose proof (so_poll _ _ _ Hok) as Ho; by rewrite Ep in Ho).
  apply (session_poll _ _ b f Hok); try done; cbn.
  - by rewrite Ep.
  - by apply in_flight_send.
  - pose proof (so_queued _ _ _ Hok) as Hq. unfold queued in *. cbn in *. rewrite Ep in Hq.
    rewrite !app_assoc in *. apply Forall_app in Hq as [Hq _]. rewrite app_nil_r in Hq || idtac.
    apply Forall_app. split; [done|]. by constructor.
  - apply Hok.
Qed.

Lemma inv_empty_poll w last : inv w -> w_poll w = Offering [] [] last -> inv (w_set_poll Polling w).
Proof.
  intros [Hc Hs] Ep. split; [done|]. intros Hne. destruct (Hs Hne) as (b & f & Hok). exists b, f.
  apply (session_poll _ _ b f Hok); try done; cbn.
  - by rewrite Ep.
  - unfold in_flight, queued. cbn. by rewrite Ep.
  - pose proof (so_queued _ _ _ Hok) as Hq. unfold queued in *. cbn in *. by rewrite Ep in Hq.
  - apply Hok.
Qed.

Lemma inv_connect w : inv w -> w_poll w = Connecting -> inv (w_set_poll Polling w).
Proof.
  intros [Hc Hs] Ep. split; [done|]. intros Hne. destruct (Hs Hne) as (b & f & Hok). exists b, f.
  apply (session_poll _ _ b f Hok); try done; cbn.
  - by rewrite Ep.
  - unfold in_flight, queued. cbn. by rewrite Ep.
  - pose proof (so_queued _ _ _ Hok) as Hq. unfold queued in *. cbn in *. by rewrite Ep in Hq.
  - apply Hok.
Qed.

Lemma queued_send w a : w_poll w = Sending a -> queued (w_set_acks (w_acks w ++ [a]) (w_set_poll Polling w)) = queued w.
Proof. intros Ep. unfold queued. cbn. by rewrite Ep, app_nil_r. Qed.

(** Handing an ack on, from the poll loop to the channel. *)
Lemma inv_send w a : inv w -> w_poll w = Sending a -> inv (w_set_acks (w_acks w ++ [a]) (w_set_poll Polling w)).
Proof.
  intros [Hc Hs] Ep. split; [done|]. intros Hne. destruct (Hs Hne) as (b & f & Hok). exists b, f.
  pose proof (queued_send w a Ep) as Eq.
  apply (session_poll _ _ b f Hok); try done.
  - by rewrite Ep.
  - unfold in_flight. rewrite Eq. cbn. by rewrite Ep.
  - rewrite Eq. apply Hok.
  - apply Hok.
Qed.

(** ... and from the channel to the committer. *)
Lemma inv_take w a rest :
  inv w -> w_committer w = Idle -> w_acks w = a :: rest -> inv (w_set_acks rest (w_set_committer (Waiting a) w)).
Proof.
  intros [Hc Hs] Ec Ea. split; [done|]. intros _. destruct Hs as (b & f & []); [by rewrite Ec|]. exists b, f.
  assert (Eq : queued (w_set_acks rest (w_set_committer (Waiting a) w)) = queued w)
    by (unfold queued; cbn; by rewrite Ec, Ea).
  assert (Ei : in_flight (w_set_acks rest (w_set_committer (Waiting a) w)) = in_flight w)
    by (unfold in_flight; by rewrite Eq).
  by constructor; rewrite ?Eq, ?Ei.
Qed.

Lemma inv_fields w w' :
  inv w -> w_committed w' = w_committed w -> w_pos w' = w_pos w -> w_poll w' = w_poll w -> w_acks w' = w_acks w ->
  w_committer w' = w_committer w -> w_intake w' = w_intake w -> w_elsewhere w' = w_elsewhere w -> inv w'.
Proof.
  intros [Hc Hs] E1 E2 E3 E4 E5 E6 E7.
  assert (Eq : queued w' = queued w) by (unfold queued; by rewrite E3, E4, E5).
  assert (Ei : in_flight w' = in_flight w) by (unfold in_flight; by rewrite Eq, E3).
  split; [unfold committed_at; by rewrite E1, E6, E7|]. rewrite E5. intros Hne.
  destruct (Hs Hne) as (b & f & []). exists b, f.
  by constructor; unfold committed_at in *; rewrite ?E1, ?E2, ?E3, ?E5, ?E6, ?E7, ?Eq, ?Ei.
Qed.

Lemma inv_written_failed w n : inv w -> w_committer w = Exited -> intake_le (w_intake w) n -> inv (w_set_intake n w).
Proof. intros [Hc _] Ee Hle. split; [by eapply safe_le|cbn; by rewrite Ee]. Qed.

Lemma inv_step a w w' : inv w -> step p log a w = Some w' -> inv w'.
Proof.
  intros Hi. unfold step. destruct (_ && _); [done|]. destruct a; intros E.
  - injection E as <-. by apply (inv_fields w).
  - apply fmap_Some in E as (n & En & ->). apply inv_intake; [done|by eapply settle_le|].
    intros b. by eapply settle_no_reports.
  - injection E as <-. apply inv_intake; [done|apply snoc_le|]. intros b. apply snoc_no_reports.
  - destruct (w_poll w) eqn:Ep; try done. injection E as <-. by apply inv_connect.
  - destruct (w_poll w); try done. injection E as <-. by apply (inv_fields w).
  - assert (E' : w_pos w !! q = None /\ w' = w_set_pos (<[q := committed_at w q]> (w_pos w)) w)
      by (destruct (w_poll w), (w_pos w !! q); by simplify_eq).
    destruct E' as [Eq ->]. apply inv_pos; [done|]. intros b f [] Hp q' c Hl.
    destruct (decide (q' = q)) as [->|Hne]; [|rewrite lookup_insert_ne in Hl by done; by apply so_pos0].
    rewrite lookup_insert_eq in Hl. injection Hl as <-. etrans; [apply so_committed0|apply reach_ge].
  - injection E as <-. apply inv_pos; [done|]. intros b f [] Hp q' c Hl.
    apply lookup_delete_Some in Hl as [_ Hl]. by apply so_pos0.
  - injection E as <-. by apply inv_member.
  - destruct (w_poll w) eqn:Ep; try done. destruct (w_session_done w); [done|].
    apply bind_Some in E as ([ms pos] & Ef & [= <-]). by eapply inv_fetch.
  - destruct (w_poll w); try done. destruct (w_session_done w); [|done]. injection E as <-. by apply inv_stop.
  - destruct (w_poll w) as [| |ms [|m todo] last| |] eqn:Ep; try done. apply bind_Some in E as (r & El & E).
    destruct (kdecode p r) as [rec|] eqn:Ed; injection E as <-; [by eapply inv_offer|by eapply inv_skip].
  - destruct (w_poll w) as [| |ms [|m todo] last| |]; try done. apply bind_Some in E as (r & _ & E).
    destruct (kdecode p r); [|done]. injection E as <-. by apply inv_stop.
  - destruct (w_poll w) as [| |[|m ms] [|] last| |] eqn:Ep; try done; injection E as <-; [by eapply inv_empty_poll|].
    by apply inv_endpoll.
  - destruct (w_poll w) eqn:Ep; try done. destruct (_ <? _)%nat; [|done]. injection E as <-. by apply inv_send.
  - destruct (w_poll w); try done. destruct (w_session_done w); [|done]. injection E as <-. by apply inv_stop.
  - destruct (w_committer w) eqn:Ec; try done. destruct (w_acks w) eqn:Ea; [done|]. injection E as <-. by apply inv_take.
  - destruct (w_committer w) eqn:Ec; try done. destruct (written_nil _ _) eqn:Ew; [|done]. injection E as <-.
    by apply inv_written_nil.
  - destruct (w_committer w) eqn:Ec; try done. apply fmap_Some in E as (n & En & ->).
    apply inv_written_failed; [by eapply inv_exited|done|by eapply written_failed_le].
  - destruct (w_committer w); try done. injection E as <-. by eapply inv_exited.
  - destruct (w_committer w) eqn:Ec; try done. injection E as <-. by apply inv_commit.
  - destruct (w_committer w); try done. destruct (w_acks w), (w_poll w); try done. injection E as <-. by eapply inv_exited.
  - destruct (w_committer w) eqn:Ec; try done. destruct (w_poll w) eqn:Ep; try done. destruct (_ && _); injection E as <-; [by apply inv_fresh|].
    by eapply inv_exited.
Qed.

Lemma inv_init n : inv (init_world n).
Proof.
  split; [intros q off Hlt; by apply Nat.nlt_0_r in Hlt|]. intros _.
  exists (length n), (fun _ => 0%nat). constructor; try done; cbn.
  - intros q off Hlt. lia.
  - intros i r s Hi Hl. apply lookup_lt_Some in Hl. lia.
Qed.

Lemma kafka_reachable_inv n w : star (steps_to (step p log)) (init_world n) w -> inv w.
Proof.
  intros H. eapply (star_invariant _ inv); [|apply inv_init|exact H]. intros w1 w2 Hi [a E]. by eapply inv_step.
Qed.

(** *** Order: commits move forward while the assignment stands *)

(** Every message of [ms] is at or above the frontier when it is read. *)
Fixpoint ahead (f : nat -> nat) (ms : list message) : Prop :=
  match ms with
  | [] => True
  | m :: rest => (f m.1 <= m.2)%nat /\ ahead (bump f m) rest
  end.

Lemma ahead_le f g ms : (forall q, (g q <= f q)%nat) -> ahead f ms -> ahead g ms.
Proof.
  revert f g. induction ms as [|m ms IH]; intros f g H; [done|]. intros [Hm Hf]. split; [specialize (H m.1); lia|].
  eapply IH; [|exact Hf]. by apply bump_le.
Qed.

Lemma ahead_app f l l' : ahead f (l ++ l') <-> ahead f l /\ ahead (reach f l) l'.
Proof.
  revert f. induction l as [|m l IH]; intros f; cbn [app ahead]; [by split; [|intros []]|]. rewrite IH.
  change (reach f (m :: l)) with (reach (bump f m) l). tauto.
Qed.

Lemma ahead_highest f ms q h : ahead f ms -> highest ms !! q = Some h -> (f q <= h)%nat.
Proof.
  revert f h. induction ms as [|m ms IH]; intros f h; cbn [ahead highest foldr]; [by rewrite lookup_empty|].
  fold (highest ms). intros [H1 H2]. destruct (decide (q = m.1)) as [->|Hne].
  - rewrite lookup_insert_eq. intros [= <-]. lia.
  - rewrite lookup_insert_ne by done. intros Hh. specialize (IH _ _ H2 Hh). unfold bump in IH.
    by rewrite decide_False in IH.
Qed.

Lemma reach_other f ms q : (forall m, m ∈ ms -> m.1 <> q) -> reach f ms q = f q.
Proof.
  revert f. induction ms as [|m ms IH]; intros f H; [done|]. change (reach f (m :: ms)) with (reach (bump f m) ms).
  rewrite IH by (intros x Hx; apply H; by right). unfold bump. rewrite decide_False; [done|].
  intros ->. by apply (H m); [left|].
Qed.

Lemma run_ahead g q c n : (g q <= c)%nat ->
  ahead g (pair q <$> seq c n) /\ (reach g (pair q <$> seq c n) q <= c + n)%nat.
Proof.
  revert g c. induction n as [|n IH]; intros g c Hc; cbn [seq fmap list_fmap ahead]; [split; [done|cbn; lia]|].
  assert (Hb : (bump g (q, c) q <= S c)%nat) by (unfold bump; rewrite decide_True by done; cbn; lia).
  destruct (IH (bump g (q, c)) (S c) Hb) as [H1 H2]. split; [by split|].
  change (reach g ((q, c) :: (pair q <$> seq (S c) n))) with (reach (bump g (q, c)) (pair q <$> seq (S c) n)). lia.
Qed.

Lemma fetch_ahead g fs pos ms pos' :
  fetch log fs pos = Some (ms, pos') -> (forall q c, pos !! q = Some c -> (g q <= c)%nat) ->
  ahead g ms /\ (forall q c, pos' !! q = Some c -> (reach g ms q <= c)%nat) /\
  (forall m, m ∈ ms -> is_Some (pos' !! m.1)) /\ (forall q, is_Some (pos !! q) -> is_Some (pos' !! q)).
Proof.
  revert g pos ms. induction fs as [|[q n] fs IH]; intros g pos ms; cbn [fetch].
  { intros [= <- <-] Hp. split_and!; try done. intros m Hm. by apply not_elem_of_nil in Hm. }
  intros (c & Hc & E)%bind_Some Hp. destruct (_ <=? _)%nat; [|done]. apply bind_Some in E as ([ms1 pos1] & E & [= <- <-]).
  destruct (run_ahead g q c n (Hp q c Hc)) as [H1 H2].
  destruct (IH (reach g (pair q <$> seq c n)) _ _ E) as (H3 & H4 & H5 & H6).
  - intros q' c' Hl. destruct (decide (q' = q)) as [->|Hne]; [rewrite lookup_insert_eq in Hl; injection Hl as <-; lia|].
    rewrite lookup_insert_ne in Hl by done. rewrite reach_other; [by apply Hp|].
    intros m (o & -> & _)%list_elem_of_fmap. cbn. congruence.
  - assert (Hd : forall q', is_Some (pos !! q') -> is_Some (pos1 !! q'))
      by (intros q' Hq; apply H6, lookup_insert_is_Some'; by right).
    rewrite ahead_app, reach_app. split_and!; try done.
    intros m [(o & -> & _)%list_elem_of_fmap|Hm]%elem_of_app; [by apply Hd; exists c|by apply H5].
Qed.

(** What the committer and the poll loop hold. *)
Definition backlog (w : world) : list message :=
  match w_committer w with Committing a => ack_records a | _ => [] end ++ in_flight w.

Record ordered (w : world) : Prop := {
  or_ahead : ahead (committed_at w) (backlog w);
  or_pos : w_poll w <> Stopped -> forall q c, w_pos w !! q = Some c -> (reach (committed_at w) (backlog w) q <= c)%nat;
  or_assigned : w_poll w <> Stopped -> forall m, m ∈ backlog w -> is_Some (w_pos w !! m.1)
}.

Definition calm (a : act) : bool := match a with ARevoke _ | AMember _ _ => false | _ => true end.
Definition calm_step (a : act) (w : world) : option world := if calm a then step p log a w else None.

(** Steps that let go of the oldest messages, after committing some, or of
    the newest, when the poll loop stops. *)
Lemma ordered_shrink w w' l l' :
  ordered w -> backlog w = l ++ backlog w' ++ l' -> (forall q, (committed_at w' q <= reach (committed_at w) l q)%nat) ->
  (w_poll w' <> Stopped -> w_poll w <> Stopped /\ l' = [] /\ w_pos w' = w_pos w) -> ordered w'.
Proof.
  intros [H1 H2 H3] Eb Hc Hp. rewrite Eb in *. constructor.
  - apply ahead_app in H1 as [_ H1]. apply ahead_app in H1 as [H1 _]. by eapply ahead_le.
  - intros Hs q c Hl. destruct (Hp Hs) as (Hs' & -> & Epos). rewrite Epos in Hl. rewrite app_nil_r, reach_app in H2.
    etrans; [|by apply (H2 Hs' q)]. by apply reach_le.
  - intros Hs m Hm. destruct (Hp Hs) as (Hs' & -> & ->). apply H3; [done|]. rewrite app_nil_r. set_solver.
Qed.

Lemma ordered_same w w' :
  ordered w -> committed_at w' = committed_at w -> w_pos w' = w_pos w -> (w_poll w = Stopped -> w_poll w' = Stopped) ->
  backlog w' = backlog w -> ordered w'.
Proof.
  intros Ho E1 E2 E3 E4. apply (ordered_shrink w w' [] []); [done|by rewrite app_nil_r, E4|by rewrite E1|].
  intros Hs. split_and!; [|done..]. auto.
Qed.

Lemma ordered_stop w : ordered w -> ordered (w_set_poll Stopped w).
Proof.
  intros Ho. set (s := match w_poll w with Sending a => ack_records a | Offering ms todo _ => ms ++ todo | _ => [] end).
  apply (ordered_shrink w _ [] s); [done| |done..]. unfold backlog, in_flight, queued, s. cbn.
  rewrite !fmap_app, !concat_app, !app_nil_r, <- !app_assoc. cbn.
  destruct (w_poll w); cbn; by rewrite ?app_nil_r.
Qed.

Lemma ordered_assign w q : ordered w -> w_pos w !! q = None -> ordered (w_set_pos (<[q := committed_at w q]> (w_pos w)) w).
Proof.
  intros [H1 H2 H3] Eq. constructor; [done|..]; cbn.
  - intros Hs q' c Hl. destruct (decide (q' = q)) as [->|Hne]; [|rewrite lookup_insert_ne in Hl by done; by apply H2].
    rewrite lookup_insert_eq in Hl. injection Hl as <-. rewrite reach_other; [done|]. intros m Hm E.
    destruct (H3 Hs m Hm) as [c Hc]. congruence.
  - intros Hs m Hm. apply lookup_insert_is_Some'. right. by apply H3.
Qed.

Lemma ordered_fetch w fs ms pos :
  ordered w -> w_poll w = Polling -> fetch log fs (w_pos w) = Some (ms, pos) ->
  ordered (w_set_pos pos (w_set_poll (Offering [] ms 0) w)).
Proof.
  intros [H1 H2 H3] Ep Ef. rewrite Ep in *.
  assert (Eb : backlog (w_set_pos pos (w_set_poll (Offering [] ms 0) w)) = backlog w ++ ms).
  { unfold backlog, in_flight, queued. cbn. by rewrite Ep, !app_nil_r, <- app_assoc. }
  destruct (fetch_ahead (reach (committed_at w) (backlog w)) fs _ _ _ Ef) as (F1 & F2 & F3 & F4); [by apply H2|].
  constructor; rewrite Eb.
  - by apply ahead_app.
  - intros _. rewrite reach_app. exact F2.
  - intros _ m [Hm|Hm]%elem_of_app; [by apply F4, H3|by apply F3].
Qed.

Lemma ordered_commit w a (qs : list nat) :
  ordered w -> w_committer w = Committing a ->
  let w' := w_set_committer Idle
    (w_set_committed (filter (fun kv => kv.1 ∈ qs) (highest (ack_records a)) ∪ w_committed w) w) in
  ordered w' /\ forall q, (committed_at w q <= committed_at w' q)%nat.
Proof.
  intros Ho Ea w'. assert (Eb : backlog w = ack_records a ++ backlog w')
    by (unfold backlog, in_flight, queued, w'; cbn; by rewrite Ea).
  assert (Hq : forall q, (committed_at w q <= committed_at w' q <= reach (committed_at w) (ack_records a) q)%nat).
  { intros q. unfold w'. rewrite committed_at_commit.
    destruct (filter (fun kv => kv.1 ∈ qs) (highest (ack_records a)) !! q) as [h|] eqn:Eh; cbn.
    - apply map_lookup_filter_Some in Eh as [Eh _]. split.
      + eapply ahead_highest; [|exact Eh]. destruct Ho as [H1 _ _]. rewrite Eb in H1. by apply ahead_app in H1 as [H1 _].
      + eapply highest_bound; [|exact Eh]. intros m. apply reach_elem.
    - split; [done|apply reach_ge]. }
  split; [|apply Hq]. apply (ordered_shrink w _ (ack_records a) []); [done|by rewrite app_nil_r|apply Hq|done].
Qed.

Lemma ordered_step a w w' : ordered w -> calm a = true -> step p log a w = Some w' ->
  ordered w' /\ forall q, (committed_at w q <= committed_at w' q)%nat.
Proof.
  intros Ho Hc. unfold step. destruct (_ && _); [done|].
  assert (Hk : committed_at w' = committed_at w -> ordered w' ->
    ordered w' /\ forall q, (committed_at w q <= committed_at w' q)%nat) by (intros E ?; by rewrite E).
  destruct a; try done; intros E.
  - injection E as <-. apply Hk; [done|]. by apply (ordered_same w).
  - apply fmap_Some in E as (n & _ & ->). apply Hk; [done|]. by apply (ordered_same w).
  - injection E as <-. apply Hk; [done|]. by apply (ordered_same w).
  - destruct (w_poll w) eqn:Ep; try done. injection E as <-. apply Hk; [done|]. apply (ordered_same w); [done..|by rewrite Ep|].
    unfold backlog, in_flight, queued. cbn. by rewrite Ep.
  - destruct (w_poll w); try done. injection E as <-. apply Hk; [done|]. by apply (ordered_same w).
  - assert (E' : w_pos w !! q = None /\ w' = w_set_pos (<[q := committed_at w q]> (w_pos w)) w)
      by (destruct (w_poll w), (w_pos w !! q); by simplify_eq).
    destruct E' as [Eq ->]. apply Hk; [done|]. by apply ordered_assign.
  - destruct (w_poll w) eqn:Ep; try done. destruct (w_session_done w); [done|].
    apply bind_Some in E as ([ms pos] & Ef & [= <-]). apply Hk; [done|]. by eapply ordered_fetch.
  - destruct (w_poll w); try done. destruct (w_session_done w); [|done]. injection E as <-.
    apply Hk; [done|]. by apply ordered_stop.
  - destruct (w_poll w) as [| |ms [|m todo] last| |] eqn:Ep; try done. apply bind_Some in E as (r & El & E).
    assert (Hb : forall l, backlog (w_set_poll (Offering (ms ++ [m]) todo l) w) = backlog w)
      by (intros l; unfold backlog; by rewrite (in_flight_offer w ms m todo last)).
    destruct (kdecode p r) as [rec|]; injection E as <-; (apply Hk; [done|]);
      (apply (ordered_same w); [done..|by rewrite Ep|]); [apply (Hb 0%nat)|apply (Hb last)].
  - destruct (w_poll w) as [| |ms [|m todo] last| |]; try done. apply bind_Some in E as (r & _ & E).
    destruct (kdecode p r); [|done]. injection E as <-. apply Hk; [done|]. by apply ordered_stop.
  - destruct (w_poll w) as [| |[|m ms] [|] last| |] eqn:Ep; try done; injection E as <-; (apply Hk; [done|]);
      (apply (ordered_same w); [done..|by rewrite Ep|]).
    + unfold backlog, in_flight, queued. cbn. by rewrite Ep.
    + unfold backlog. by rewrite in_flight_send.
  - destruct (w_poll w) eqn:Ep; try done. destruct (_ <? _)%nat; [|done]. injection E as <-. apply Hk; [done|].
    apply (ordered_same w); [done..|by rewrite Ep|]. unfold backlog, in_flight. rewrite queued_send by done. cbn. by rewrite Ep.
  - destruct (w_poll w); try done. destruct (w_session_done w); [|done]. injection E as <-.
    apply Hk; [done|]. by apply ordered_stop.
  - destruct (w_committer w) eqn:Ec; try done. destruct (w_acks w) eqn:Ea; [done|]. injection E as <-. apply Hk; [done|].
    apply (ordered_same w); [done..|]. unfold backlog, in_flight, queued. cbn. by rewrite Ec, Ea.
  - destruct (w_committer w) eqn:Ec; try done. destruct (written_nil _ _); [|done]. injection E as <-. apply Hk; [done|].
    apply (ordered_same w); [done..|]. unfold backlog, in_flight, queued. cbn. rewrite Ec. cbn. by rewrite <- app_assoc.
  - destruct (w_committer w) eqn:Ec; try done. apply fmap_Some in E as (n & En & ->). apply Hk; [done|].
    apply (ordered_shrink w _ (ack_records a) []); [done| |intros q; apply reach_ge|done].
    unfold backlog, in_flight, queued. cbn. rewrite Ec, app_nil_r. cbn. by rewrite <- app_assoc.
  - destruct (w_committer w) eqn:Ec; try done. injection E as <-. apply Hk; [done|].
    apply (ordered_shrink w _ (ack_records a) []); [done| |intros q; apply reach_ge|done].
    unfold backlog, in_flight, queued. cbn. rewrite Ec, app_nil_r. cbn. by rewrite <- app_assoc.
  - destruct (w_committer w) eqn:Ec; try done. injection E as <-. by apply ordered_commit.
  - destruct (w_committer w) eqn:Ec; try done. destruct (w_acks w) eqn:Ea, (w_poll w) eqn:Ep; try done. injection E as <-.
    apply Hk; [done|]. apply (ordered_same w); [done..|]. unfold backlog, in_flight, queued. cbn. by rewrite Ec.
  - destruct (w_committer w) eqn:Ec; try done. destruct (w_poll w) eqn:Ep; try done.
    destruct (_ && _); injection E as <-; (apply Hk; [done|]).
    + constructor; [done|done|]. intros _ m Hm. by apply not_elem_of_nil in Hm.
    + constructor; [apply Ho|..]; cbn; by rewrite Ep.
Qed.

Lemma calm_step_inv a w w' : calm_step a w = Some w' -> calm a = true /\ step p log a w = Some w'.
Proof. unfold calm_step. by destruct (calm a). Qed.

Lemma kafka_calm_ordered n w : star (steps_to calm_step) (init_world n) w -> ordered w.
Proof.
  intros H. eapply (star_invariant _ ordered); [| |exact H].
  - intros w1 w2 Ho (a & [Hc E]%calm_step_inv). by eapply ordered_step.
  - constructor; [done|done|]. intros _ m Hm. by apply not_elem_of_nil in Hm.
Qed.

Lemma calm_steps w w' : star (steps_to calm_step) w w' -> star (steps_to (step p log)) w w'.
Proof.
  induction 1 as [|s t u H IH (a & [_ E]%calm_step_inv)]; [constructor|]. eapply star_snoc; [exact IH|by exists a].
Qed.

(** At most 64 polls wait for acknowledgement. *)
Lemma acks_bounded n w : star (steps_to (step p log)) (init_world n) w -> (length (w_acks w) <= ackBacklog)%nat.
Proof.
  apply (star_invariant _ (fun w => length (w_acks w) <= ackBacklog)%nat); [|simpl; lia].
  clear. intros w1 w2 Hl [a E]. revert E. unfold step. destruct (_ && _); [done|].
  destruct a; repeat case_match; intros E; simplify_option_eq; repeat case_match; simplify_option_eq; simpl in *;
    repeat match goal with
    | H : (_ <? _)%nat = true |- _ => apply Nat.ltb_lt in H
    | H : w_acks _ = _ |- _ => rewrite H in *
    end; rewrite ?length_app; simpl in *; lia.
Qed.
End session.

(** C10. At-least-once: in every reachable state of the source, with any
    assignment of partitions and any rebalance, any interleaving of polling,
    committing, cancellation, commits that fail on some partitions and rewinds,
    any order in which the pipeline settles records and any records of other
    sources among them, every message below a committed offset is undecodable,
    or its record has been written to every sink, or another member of the
    group has committed past it. *)
Theorem kafka_at_least_once p log n w q off rec :
  star (steps_to (step p log)) (init_world n) w ->
  (off < committed_at w q)%nat -> decodes p log (q, off) rec ->
  (exists i, w_intake w !! i = Some (rec, Done)) \/ passed (w_elsewhere w) (q, off).
Proof. intros Hr Ho Hd. exact (inv_committed p log w (kafka_reachable_inv p log n w Hr) q off Ho rec Hd). Qed.

Definition sample_log (q : nat) : list KRecord :=
  match q with
  | 0%nat => [mkKRecord sample_body (Unix 1789819200 0); mkKRecord (tx "not json") (Unix 1789819200 0)]
  | 1%nat => [mkKRecord (tx "not json") (Unix 1789819200 0); mkKRecord sample_body (Unix 1789819200 0)]
  | _ => []
  end.

(** Two partitions; the second one's first message is another member's. A poll
    whose records are rejected, a rewind, a rebalance between two polls, and
    the redelivery. *)
Definition sample_run : list act :=
  [AMember 1 1; AConnect; AAssign 0; AAssign 1; AFetch [(0, 2); (1, 1)]%nat; AOffer; AOffer; AOffer; AEndPoll; ASendAck; ATakeAck;
   ASettle 0 false; ASettle 1 false; AWrittenFailed 2; APollDone; AReturn;
   AConnect; AAssign 0; AFetch [(0, 1)]%nat; AOffer; AEndPoll; ASendAck; AAssign 1; AFetch [(0, 1); (1, 1)]%nat; AOffer; AOffer; AEndPoll;
   ASendAck; ATakeAck; ASettle 2 true; AWrittenNil; ACommit [0%nat]; ATakeAck; ASettle 3 true; AWrittenNil; ARevoke 0;
   ACommit [0%nat; 1%nat]].

Lemma kafka_at_least_once_witness :
  exists w rec, run_script (step (fun _ => None) sample_log) sample_run (init_world []) = Some w /\
  committed_at w 0 = 2%nat /\ committed_at w 1 = 2%nat /\ w_rewinds w = 1%nat /\
  decodes (fun _ => None) sample_log (1, 1)%nat rec /\
  ((exists i, w_intake w !! i = Some (rec, Done)) \/ passed (w_elsewhere w) (1, 1)%nat).
Proof.
  destruct (run_script (step (fun _ => None) sample_log) sample_run (init_world [])) as [w|] eqn:E;
    [|vm_compute in E; discriminate E].
  destruct (kdecode (fun _ => None) (mkKRecord sample_body (Unix 1789819200 0))) as [rec|] eqn:Ed;
    [|vm_compute in Ed; discriminate Ed].
  assert (Ew : committed_at w 0 = 2%nat /\ committed_at w 1 = 2%nat /\ w_rewinds w = 1%nat)
    by (vm_compute in E; injection E as <-; split_and!; reflexivity).
  assert (Hd : decodes (fun _ => None) sample_log (1, 1)%nat rec) by (eexists; split; [reflexivity|exact Ed]).
  exists w, rec. split; [reflexivity|]. destruct Ew as (E1 & E2 & E3). split_and!; [exact E1|exact E2|exact E3|exact Hd|].
  apply (kafka_at_least_once (fun _ => None) sample_log [] w 1 1 rec).
  - exact (run_script_star _ _ _ _ E).
  - rewrite E2. lia.
  - exact Hd.
Defined.

(** Progress is never taken back while no partition is revoked and no other
    member commits, and the backlog is bounded: from any state such a run
    reaches, a step leaves every committed offset where it was or moves it
    forward, and at most 64 polls wait for acknowledgement. *)
Theorem kafka_commit_monotone p log n w a w' q :
  star (steps_to (calm_step p log)) (init_world n) w -> calm_step p log a w = Some w' ->
  (committed_at w q <= committed_at w' q)%nat /\ (length (w_acks w') <= ackBacklog)%nat.
Proof.
  intros Hr Hs. split.
  - destruct (calm_step_inv _ _ _ _ _ Hs) as [Hc E].
    by eapply (ordered_step p log a w w'); [eapply kafka_calm_ordered| |].
  - eapply (acks_bounded p log n), calm_steps. eapply star_snoc; [exact Hr|by exists a].
Qed.

Definition calm_run : list act :=
  [AConnect; AAssign 0; AAssign 1; AFetch [(0, 2); (1, 1)]%nat; AOffer; AOffer; AOffer; AEndPoll; ASendAck; ATakeAck;
   ASettle 0 true; AWrittenNil].

Lemma kafka_commit_monotone_witness :
  exists w w', run_script (calm_step (fun _ => None) sample_log) calm_run (init_world []) = Some w /\
  calm_step (fun _ => None) sample_log (ACommit [0%nat]) w = Some w' /\
  (committed_at w 0 <= committed_at w' 0)%nat /\ (length (w_acks w') <= ackBacklog)%nat.
Proof.
  destruct (run_script (calm_step (fun _ => None) sample_log) calm_run (init_world [])) as [w|] eqn:E;
    [|vm_compute in E; discriminate E].
  destruct (calm_step (fun _ => None) sample_log (ACommit [0%nat]) w) as [w'|] eqn:E';
    [|vm_compute in E; injection E as <-; vm_compute in E'; discriminate E'].
  exists w, w'. split; [reflexivity|]. split; [exact E'|].
  apply (kafka_commit_monotone (fun _ => None) sample_log [] w (ACommit [0%nat]) w' 0).
  - exact (run_script_star _ _ _ _ E).
  - exact E'.
Defined.

(** Without that assumption an offset can go back: messages of a revoked
    partition may still be with the committer when the next owner has
    committed beyond them, and nothing here takes them from it. Redelivery is
    then the next owner's, and no record is lost. *)
Lemma revoked_commit_goes_back :
  exists w w', run_script (step (fun _ => None) sample_log)
      [AConnect; AAssign 0; AFetch [(0, 1)]%nat; AOffer; AEndPoll; ASendAck; ATakeAck; ASettle 0 true; AWrittenNil; ARevoke 0; AMember 0 2]
      (init_world []) = Some w /\
    step (fun _ => None) sample_log (ACommit [0%nat]) w = Some w' /\
    committed_at w 0 = 2%nat /\ committed_at w' 0 = 1%nat.
Proof. eexists _, _. split_and!; vm_compute; reflexivity. Qed.
