(* ===== verification/Cursor.v ===== *)
(** * Page cursors: [encodeCursor] and [decodeCursor] of the three backends

    A cursor is the keyset pair of the last row of a page, as a JSON object in
    unpadded URL-safe base64. PostgreSQL and MariaDB carry a signed sequence,
    ClickHouse an unsigned one; the code is otherwise the same. *)

From S2P Require Import Prelude Text Json.

Open Scope char_scope.
Open Scope Z_scope.

(** ** [base64.RawURLEncoding] *)

Definition b64_char (n : Z) : ascii :=
  if n <? 26 then chr (65 + n)
  else if n <? 52 then chr (71 + n)
  else if n <? 62 then chr (n - 4)
  else if n =? 62 then "-" else "_".

Definition b64_val (c : ascii) : option Z :=
  let n := ord c in
  if (65 <=? n) && (n <=? 90) then Some (n - 65)
  else if (97 <=? n) && (n <=? 122) then Some (n - 71)
  else if (48 <=? n) && (n <=? 57) then Some (n + 4)
  else if n =? 45 then Some 62
  else if n =? 95 then Some 63
  else None.

(** [EncodeToString]: three bytes to four characters, no padding. *)
Fixpoint b64_encode (b : list byte) : text :=
  match b with
  | [] => []
  | [x] => [b64_char (x / 4); b64_char (x mod 4 * 16)]
  | [x; y] => [b64_char (x / 4); b64_char (x mod 4 * 16 + y / 16); b64_char (y mod 16 * 4)]
  | x :: y :: z :: r =>
    b64_char (x / 4) :: b64_char (x mod 4 * 16 + y / 16) :: b64_char (y mod 16 * 4 + z / 64)
    :: b64_char (z mod 64) :: b64_encode r
  end.

(** Full groups of four, then two or three characters or none; trailing bits
    are ignored. *)
Fixpoint b64_groups (vs : list Z) : option (list byte) :=
  match vs with
  | [] => Some []
  | [a] => None
  | [a; b] => Some [a * 4 + b / 16]
  | [a; b; c] => Some [a * 4 + b / 16; b mod 16 * 16 + c / 4]
  | a :: b :: c :: d :: r =>
    match b64_groups r with
    | Some l => Some (a * 4 + b / 16 :: b mod 16 * 16 + c / 4 :: c mod 4 * 64 + d :: l)
    | None => None
    end
  end.

Definition newline (c : ascii) : bool := (ord c =? 10) || (ord c =? 13).

(** [DecodeString]: carriage returns and line feeds are skipped. *)
Definition b64_decode (s : text) : option (list byte) :=
  match mapM b64_val (List.filter (fun c => negb (newline c)) s) with
  | Some vs => b64_groups vs
  | None => None
  end.

(** ** The cursor, its JSON and its token *)

Record cursor := mkCursor { c_T : Z; c_Seq : Z }.

#[global] Instance cursor_eq_dec : EqDecision cursor.
Proof. solve_decision. Defined.

(** The type of [Seq]: [int64] or [uint64]. *)
Inductive seq_kind := SeqInt64 | SeqUint64.

Definition seq_in (k : seq_kind) (n : Z) : Prop :=
  match k with SeqInt64 => is_sint 64 n | SeqUint64 => is_uint 64 n end.
Definition parse_seq (k : seq_kind) (lit : text) : option Z :=
  match k with SeqInt64 => ParseInt 64 lit | SeqUint64 => ParseUint 64 lit end.

Definition cursor_json (c : cursor) : json :=
  JObj [(tx "t", JNum (print_int (c_T c))); (tx "s", JNum (print_int (c_Seq c)))].

Definition encodeCursor (c : cursor) : text := b64_encode (bytes_of (print_json (cursor_json c))).

(** A number into an integer field; [null] leaves it. *)
Definition get_int (parse : text -> option Z) (old : Z) (j : json) : option Z :=
  match j with JNull => Some old | JNum lit => parse lit | _ => None end.

Fixpoint cursor_members (k : seq_kind) (kvs : list (text * json)) (c : cursor) : option cursor :=
  match kvs with
  | [] => Some c
  | (key, v) :: r =>
    if is_field "t" key then
      match get_int (ParseInt 64) (c_T c) v with
      | Some n => cursor_members k r (mkCursor n (c_Seq c))
      | None => None
      end
    else if is_field "s" key then
      match get_int (parse_seq k) (c_Seq c) v with
      | Some n => cursor_members k r (mkCursor (c_T c) n)
      | None => None
      end
    else cursor_members k r c
  end.

Definition unmarshal_cursor (k : seq_kind) (body : text) : option cursor :=
  match parse_json body with
  | Some (JObj kvs) => cursor_members k kvs (mkCursor 0 0)
  | Some JNull => Some (mkCursor 0 0)
  | _ => None
  end.

(** [None] is [ErrBadCursor]. *)
Definition decodeCursor (k : seq_kind) (s : text) : option cursor :=
  match b64_decode s with
  | Some raw => unmarshal_cursor k (chr <$> raw)
  | None => None
  end.

(** ** Round trip *)

Lemma b64_all :
  forallb (fun k => let n := Z.of_nat k in
    bool_decide (b64_val (b64_char n) = Some n) && negb (newline (b64_char n))) (seq 0 64) = true.
Proof. vm_compute. reflexivity. Qed.

Lemma b64_val_char n : 0 <= n < 64 -> b64_val (b64_char n) = Some n /\ newline (b64_char n) = false.
Proof.
  intros H. pose proof b64_all as A. rewrite forallb_forall in A.
  specialize (A (Z.to_nat n)). cbv zeta in A. rewrite Z2Nat.id in A by lia.
  rewrite andb_true_iff, bool_decide_eq_true, negb_true_iff in A. apply A, in_seq. lia.
Qed.

(** The sextets of a byte string. *)
Fixpoint sextets (b : list byte) : list Z :=
  match b with
  | [] => []
  | [x] => [x / 4; x mod 4 * 16]
  | [x; y] => [x / 4; x mod 4 * 16 + y / 16; y mod 16 * 4]
  | x :: y :: z :: r =>
    x / 4 :: x mod 4 * 16 + y / 16 :: y mod 16 * 4 + z / 64 :: z mod 64 :: sextets r
  end.

Lemma three_ind {A} (P : list A -> Prop) :
  P [] -> (forall x, P [x]) -> (forall x y, P [x; y]) -> (forall x y z r, P r -> P (x :: y :: z :: r)) ->
  forall l, P l.
Proof.
  intros H0 H1 H2 H3. fix IH 1. intros [|x [|y [|z r]]]; [done|apply H1|apply H2|apply H3, IH].
Qed.

Lemma b64_encode_sextets b : b64_encode b = b64_char <$> sextets b.
Proof.
  induction b as [| | |x y z r IH] using three_ind; [done..|].
  cbn [b64_encode sextets]. rewrite IH. done.
Qed.

Ltac byte_arith :=
  unfold is_byte in *;
  repeat match goal with
  | x : Z |- context [?x / ?k] =>
    lazymatch goal with H : x = k * (x / k) + x mod k |- _ => fail | _ => idtac end;
    pose proof (Z.div_mod x k ltac:(lia)); pose proof (Z.mod_pos_bound x k ltac:(lia))
  | x : Z |- context [?x mod ?k] =>
    lazymatch goal with H : x = k * (x / k) + x mod k |- _ => fail | _ => idtac end;
    pose proof (Z.div_mod x k ltac:(lia)); pose proof (Z.mod_pos_bound x k ltac:(lia))
  end; try lia.

Lemma sextets_range b : bytes_wf b -> Forall (fun n => 0 <= n < 64) (sextets b).
Proof.
  induction b as [|x|x y|x y z r IH] using three_ind; intros Hb; repeat (apply Forall_cons in Hb as [? Hb]);
    cbn [sextets]; repeat (apply Forall_cons; split); try apply Forall_nil; try (by apply IH); byte_arith.
Qed.

Lemma b64_groups_sextets b : bytes_wf b -> b64_groups (sextets b) = Some b.
Proof.
  assert (G1 : forall x, is_byte x -> x / 4 * 4 + x mod 4 * 16 / 16 = x).
  { intros x Hx. rewrite Z.div_mul by lia. byte_arith. }
  assert (G2 : forall x y, is_byte x -> is_byte y -> x / 4 * 4 + (x mod 4 * 16 + y / 16) / 16 = x).
  { intros x y Hx Hy. rewrite Z.div_add_l by lia. rewrite (Z.div_small (y / 16)); byte_arith. }
  assert (G3 : forall x y, is_byte y -> (x mod 4 * 16 + y / 16) mod 16 = y / 16).
  { intros x y Hy. rewrite Z.add_comm, Z.mod_add by lia. apply Z.mod_small. byte_arith. }
  assert (G4 : forall y z, is_byte y -> is_byte z -> y / 16 * 16 + (y mod 16 * 4 + z / 64) / 4 = y).
  { intros y z Hy Hz. rewrite Z.div_add_l by lia. rewrite (Z.div_small (z / 64)); byte_arith. }
  assert (G5 : forall y z, is_byte z -> (y mod 16 * 4 + z / 64) mod 4 = z / 64).
  { intros y z Hz. rewrite Z.add_comm, Z.mod_add by lia. apply Z.mod_small. byte_arith. }
  induction b as [|x|x y|x y z r IH] using three_ind; intros Hb; repeat (apply Forall_cons in Hb as [? Hb]);
    cbn [sextets b64_groups].
  - done.
  - by rewrite G1.
  - rewrite G2, G3, Z.div_mul by (done || lia). do 2 f_equal. f_equal. byte_arith.
  - rewrite IH, G2, G3, G4, G5 by done. do 3 f_equal. f_equal. byte_arith.
Qed.

Lemma b64_roundtrip b : bytes_wf b -> b64_decode (b64_encode b) = Some b.
Proof.
  intros Hb. pose proof (sextets_range b Hb) as Hs. unfold b64_decode. rewrite b64_encode_sextets.
  assert (E : List.filter (fun c => negb (newline c)) (b64_char <$> sextets b) = b64_char <$> sextets b).
  { clear Hb. induction Hs as [|n l Hn _ IH]; [done|]. rewrite fmap_cons. cbn [List.filter].
    destruct (b64_val_char n Hn) as [_ ->]. simpl negb. cbv iota. by rewrite IH. }
  rewrite E. assert (M : mapM b64_val (b64_char <$> sextets b) = Some (sextets b)).
  { apply mapM_Some, Forall2_fmap_l, Forall_Forall2_diag. eapply Forall_impl; [exact Hs|].
    intros n Hn. by apply b64_val_char. }
  rewrite M. by apply b64_groups_sextets.
Qed.

Lemma bytes_of_wf t : bytes_wf (bytes_of t).
Proof. apply Forall_fmap, Forall_true. apply ord_range. Qed.

Lemma chr_bytes_of t : chr <$> bytes_of t = t.
Proof.
  unfold bytes_of. rewrite <- list_fmap_compose. rewrite <- (list_fmap_id t) at 2.
  apply list_fmap_ext. intros i c _. apply chr_ord.
Qed.

Lemma parse_seq_print k n : seq_in k n -> parse_seq k (print_int n) = Some n.
Proof.
  destruct k; simpl; intros H; [by apply ParseInt_print|]. unfold print_int.
  rewrite (proj2 (Z.ltb_ge n 0)) by (unfold is_uint in H; lia). by apply ParseUint_print.
Qed.

Lemma cursor_roundtrip k c :
  is_sint 64 (c_T c) -> seq_in k (c_Seq c) -> decodeCursor k (encodeCursor c) = Some c.
Proof.
  intros Ht Hs. unfold decodeCursor, encodeCursor. rewrite b64_roundtrip by apply bytes_of_wf.
  rewrite chr_bytes_of. unfold unmarshal_cursor, cursor_json. rewrite parse_print_flat.
  - cbn [cursor_members]. change (is_field "t" (tx "t")) with true. change (is_field "t" (tx "s")) with false.
    change (is_field "s" (tx "s")) with true. cbv iota. cbn [get_int]. rewrite ParseInt_print by (done || lia).
    rewrite parse_seq_print by done. by destruct c.
  - constructor; [|constructor; [|constructor]]; (split; [intros r; reflexivity|apply JNum_int_ok]).
Qed.
