(* ===== verification/Rows.v ===== *)
(** * Rows of the three databases: [internal/sink/*/rows.go]

    Each backend renders a record into the columns of its table and reads a
    row back. PostgreSQL has no unsigned types, so integers pass through the
    signed type of the same or a wider size; MariaDB keeps addresses as 4 or 16
    bytes; ClickHouse keeps every address in 16 bytes and the empty string for
    no dedup key. [RowCodec] is what the store and the queries need of it. *)

From S2P Require Import Prelude GoTime Netip Flow.

Definition micro (t : Time) : Time := TruncateMicro (UTC t).

(** ** The instants a column holds

    Days from January 1 of year 1 to January 1 of year [y], and the documented
    ranges of [timestamptz] (from 4713 BC to 294276), [DATETIME(6)] (from 1000 to
    9999) and [DateTime64(6)] (from 1900 to 2299). Outside them the columns give
    back something else, or nothing. *)
Definition year_day (y : Z) : Z := 365 * (y - 1) + (y - 1) / 4 - (y - 1) / 100 + (y - 1) / 400.
Definition within_years (lo hi : Z) (t : Time) : bool := (86400 * year_day lo <=? sec t) && (sec t <? 86400 * year_day hi).

Definition pg_instant : Time -> bool := within_years (-4712) 294277.
Definition my_instant : Time -> bool := within_years 1000 10000.
Definition ch_instant : Time -> bool := within_years 1900 2300.

(** ** PostgreSQL ([postgres/rows.go]) *)

(** One index of the parallel slices of [columns]. *)
Record PgRow := mkPgRow {
  pg_received_at : Time; pg_exporter_id : Z; pg_flow_type : string;
  pg_first_switched : Time; pg_last_switched : Time;
  pg_src_addr : Addr; pg_dst_addr : Addr;
  pg_src_port : Z; pg_dst_port : Z; pg_protocol : Z; pg_tcp_flags : Z;
  pg_packets : Z; pg_bytes : Z; pg_sampling_rate : Z;
  pg_input_iface : Z; pg_output_iface : Z; pg_src_as : Z; pg_dst_as : Z;
  pg_next_hop : option Addr; pg_dedup_key : option (list byte)
}.

Definition pg_add (r : FlowRecord) (exporterID : Z) : PgRow :=
  mkPgRow (micro (ReceivedAt r)) exporterID (FlowTypeOf r)
    (micro (FirstSwitched r)) (micro (LastSwitched r)) (SrcAddr r) (DstAddr r)
    (i32 (SrcPort r)) (i32 (DstPort r)) (i16 (Protocol r)) (i16 (TCPFlags r))
    (i64 (Packets r)) (i64 (Bytes r)) (i32 (SamplingRate r))
    (i32 (InputIface r)) (i32 (OutputIface r)) (i32 (SrcAS r)) (i32 (DstAS r))
    (if IsValid (NextHop r) then Some (NextHop r) else None) (DedupKey r).

(** [exporter] is the joined [exporters.ip_address]. *)
Definition pg_scan (row : PgRow) (exporter : Addr) : FlowRecord :=
  mkFlowRecord (UTC (pg_received_at row)) exporter (pg_exporter_id row) (pg_flow_type row)
    (UTC (pg_first_switched row)) (UTC (pg_last_switched row)) (pg_src_addr row) (pg_dst_addr row)
    (u16 (pg_src_port row)) (u16 (pg_dst_port row)) (u8 (pg_protocol row)) (u8 (pg_tcp_flags row))
    (u64 (pg_packets row)) (u64 (pg_bytes row)) (u32 (pg_sampling_rate row))
    (u32 (pg_input_iface row)) (u32 (pg_output_iface row)) (u32 (pg_src_as row)) (u32 (pg_dst_as row))
    (match pg_next_hop row with Some a => a | None => AddrZero end) (pg_dedup_key row).

(** ** MariaDB ([mariadb/rows.go]) *)

Record MyRow := mkMyRow {
  my_received_at : Time; my_exporter_id : Z; my_flow_type : string;
  my_first_switched : Time; my_last_switched : Time;
  my_src_addr : list byte; my_dst_addr : list byte;
  my_src_port : Z; my_dst_port : Z; my_protocol : Z; my_tcp_flags : Z;
  my_packets : Z; my_bytes : Z; my_sampling_rate : Z;
  my_input_iface : Z; my_output_iface : Z; my_src_as : Z; my_dst_as : Z;
  my_next_hop : option (list byte); my_dedup_key : option (list byte)
}.

Definition addrBytes (a : Addr) : option (list byte) :=
  if IsValid a then Some (AsSlice a) else None.

(** The 20 arguments [insertStatement] appends for one record. *)
Definition my_args (r : FlowRecord) (exporterID : Z) : MyRow :=
  mkMyRow (micro (ReceivedAt r)) exporterID (FlowTypeOf r)
    (micro (FirstSwitched r)) (micro (LastSwitched r)) (AsSlice (SrcAddr r)) (AsSlice (DstAddr r))
    (SrcPort r) (DstPort r) (Protocol r) (TCPFlags r) (Packets r) (Bytes r) (SamplingRate r)
    (InputIface r) (OutputIface r) (SrcAS r) (DstAS r) (addrBytes (NextHop r)) (DedupKey r).

Definition my_scan (row : MyRow) (exporter : list byte) : FlowRecord :=
  mkFlowRecord (UTC (my_received_at row)) (AddrFromSlice exporter).1 (my_exporter_id row) (my_flow_type row)
    (UTC (my_first_switched row)) (UTC (my_last_switched row))
    (AddrFromSlice (my_src_addr row)).1 (AddrFromSlice (my_dst_addr row)).1
    (my_src_port row) (my_dst_port row) (my_protocol row) (my_tcp_flags row)
    (my_packets row) (my_bytes row) (my_sampling_rate row)
    (my_input_iface row) (my_output_iface row) (my_src_as row) (my_dst_as row)
    (match my_next_hop row with Some b => (AddrFromSlice b).1 | None => AddrZero end)
    (match my_dedup_key row with Some [] => None | k => k end).

(** ** ClickHouse ([clickhouse/rows.go], [clickhouse.go]) *)

(** FNV-1a, 64 bits. *)
Definition fnv1a (b : list byte) : Z :=
  foldl (fun h c => u64 (Z.lxor h c * 1099511628211)) 14695981039346656037 b.

Definition exporterID (a : Addr) : Z :=
  let id := Z.land (fnv1a (As16 a)) (Z.ones 63) in
  if id =? 0 then 1 else id.

(** [DateTime64(6)]: an [int64] of microseconds since 1970. *)
Definition ticks (t : Time) : Z := UnixMicro t.
Definition of_ticks (n : Z) : Time := Unix (n / 1000000) (n mod 1000000 * 1000).

Record ChRow := mkChRow {
  ch_received_at : Z; ch_dedup_key : list byte; ch_exporter_id : Z; ch_exporter_addr : list byte;
  ch_flow_type : string; ch_first_switched : Z; ch_last_switched : Z;
  ch_src_addr : list byte; ch_dst_addr : list byte;
  ch_src_port : Z; ch_dst_port : Z; ch_protocol : Z; ch_tcp_flags : Z;
  ch_packets : Z; ch_bytes : Z; ch_sampling_rate : Z;
  ch_input_iface : Z; ch_output_iface : Z; ch_src_as : Z; ch_dst_as : Z;
  ch_next_hop : option (list byte)
}.

Definition ch_insertRow (r : FlowRecord) : ChRow :=
  mkChRow (ticks (micro (ReceivedAt r))) (default [] (DedupKey r)) (exporterID (ExporterAddr r)) (As16 (ExporterAddr r))
    (FlowTypeOf r) (ticks (micro (FirstSwitched r))) (ticks (micro (LastSwitched r))) (As16 (SrcAddr r)) (As16 (DstAddr r))
    (SrcPort r) (DstPort r) (Protocol r) (TCPFlags r) (Packets r) (Bytes r) (SamplingRate r)
    (InputIface r) (OutputIface r) (SrcAS r) (DstAS r)
    (if IsValid (NextHop r) then Some (As16 (NextHop r)) else None).

(** An IPv6 column comes back as a 16-byte address. *)
Definition AddrFrom16 (b : list byte) : Addr := Addr6 (be_val b) "".

Definition ch_scan (row : ChRow) : FlowRecord :=
  mkFlowRecord (UTC (of_ticks (ch_received_at row))) (Unmap (AddrFrom16 (ch_exporter_addr row))) (i64 (ch_exporter_id row))
    (ch_flow_type row) (UTC (of_ticks (ch_first_switched row))) (UTC (of_ticks (ch_last_switched row)))
    (Unmap (AddrFrom16 (ch_src_addr row))) (Unmap (AddrFrom16 (ch_dst_addr row)))
    (ch_src_port row) (ch_dst_port row) (ch_protocol row) (ch_tcp_flags row)
    (ch_packets row) (ch_bytes row) (ch_sampling_rate row)
    (ch_input_iface row) (ch_output_iface row) (ch_src_as row) (ch_dst_as row)
    (match ch_next_hop row with Some b => Unmap (AddrFrom16 b) | None => AddrZero end)
    (if bool_decide (ch_dedup_key row = []) then None else Some (ch_dedup_key row)).

(** ** The interface *)

(** [row_scan row e] reads a row joined with its exporter's address;
    [row_instant] tells the instants the columns hold. *)
Class RowCodec (Row : Type) := {
  row_insert : FlowRecord -> Z -> Row;
  row_scan : Row -> Addr -> FlowRecord;
  row_received : Row -> Time;
  row_dedup : Row -> option (list byte);
  row_instant : Time -> bool
}.

Definition columns_hold (holds : Time -> bool) (r : FlowRecord) : bool :=
  holds (ReceivedAt r) && holds (FirstSwitched r) && holds (LastSwitched r).

#[export] Instance pg_codec : RowCodec PgRow := {|
  row_insert := pg_add; row_scan := pg_scan; row_received := pg_received_at; row_dedup := pg_dedup_key;
  row_instant := pg_instant |}.
#[export] Instance my_codec : RowCodec MyRow := {|
  row_insert := my_args; row_scan row e := my_scan row (AsSlice e);
  row_received := my_received_at; row_dedup := my_dedup_key; row_instant := my_instant |}.
#[export] Instance ch_codec : RowCodec ChRow := {|
  row_insert r _ := ch_insertRow r; row_scan row _ := ch_scan row; row_received row := of_ticks (ch_received_at row);
  row_dedup row := if bool_decide (ch_dedup_key row = []) then None else Some (ch_dedup_key row);
  row_instant := ch_instant |}.

Lemma columns_received holds r : columns_hold holds r = true -> holds (ReceivedAt r) = true.
Proof. unfold columns_hold. by rewrite !andb_true_iff; intros [[]]. Qed.

(** Records as the sources emit them: typed, valid endpoints, unmapped
    addresses without zones, no empty dedup key. *)
Definition addr_plain (a : Addr) : Prop := addr_wf a /\ zoneless a /\ Unmap a = a.

Record storable (r : FlowRecord) : Prop := {
  so_typed : record_typed r;
  so_exporter : addr_plain (ExporterAddr r) /\ IsValid (ExporterAddr r) = true;
  so_src : addr_plain (SrcAddr r) /\ IsValid (SrcAddr r) = true;
  so_dst : addr_plain (DstAddr r) /\ IsValid (DstAddr r) = true;
  so_nh : addr_plain (NextHop r);
  so_dedup : DedupKey r <> Some []
}.

(** The record at the database's precision, with the id the store gives it. *)
Definition stored (r : FlowRecord) (id : Z) : FlowRecord :=
  set_ExporterID id (set_ReceivedAt (micro (ReceivedAt r))
    (set_FirstSwitched (micro (FirstSwitched r)) (set_LastSwitched (micro (LastSwitched r)) r))).

Class RowLaws (Row : Type) `{RowCodec Row} (id_of : FlowRecord -> Z -> Z) : Prop := {
  row_roundtrip r id : storable r -> columns_hold row_instant r = true -> row_scan (row_insert r id) (ExporterAddr r) = stored r (id_of r id);
  row_received_insert r id : time_wf (ReceivedAt r) -> row_instant (ReceivedAt r) = true -> row_received (row_insert r id) = micro (ReceivedAt r);
  row_received_ids r id id' : row_received (row_insert r id) = row_received (row_insert r id');
  row_dedup_insert r id : DedupKey r <> Some [] -> row_dedup (row_insert r id) = DedupKey r
}.

(** ** The instances *)

Lemma u_of_wider_s w w' z : 0 <= w < w' -> is_uint w z -> wrap_u w (wrap_s w' z) = z.
Proof.
  intros Hw Hz. assert (E : is_sint w' z).
  { unfold is_uint in Hz. unfold is_sint. pose proof (Z.pow_le_mono_r 2 w (w' - 1)).
    assert (0 < 2 ^ (w' - 1)) by (apply Z.pow_pos_nonneg; lia). lia. }
  rewrite wrap_s_small by (done || lia). by apply wrap_u_small.
Qed.

#[export] Instance pg_laws : RowLaws PgRow (fun _ id => id).
Proof.
  split; [|done..]. intros r id [[] _ _ _ _ _] _. cbn [row_scan row_insert pg_codec].
  unfold pg_scan, pg_add, stored, UTC. cbn -[wrap_u wrap_s micro IsValid].
  rewrite !(u_of_wider_s 16 32), !(u_of_wider_s 8 16), !wrap_u_wrap_s by (done || lia).
  assert (E : (match (if IsValid (NextHop r) then Some (NextHop r) else None) with Some a => a | None => AddrZero end)
    = NextHop r) by (by destruct (NextHop r)).
  rewrite E. by destruct r.
Qed.

#[export] Instance my_laws : RowLaws MyRow (fun _ id => id).
Proof.
  split; [|done..]. intros r id [_ [(? & ? & _) Ve] [(? & ? & _) Vs] [(? & ? & _) Vd] (? & ? & _) Hk] _.
  cbn [row_scan row_insert my_codec]. unfold my_scan, my_args, stored, UTC, addrBytes.
  cbn -[micro AsSlice AddrFromSlice IsValid]. rewrite !AddrFromSlice_AsSlice by done. cbn [fst].
  assert (E : (match (if IsValid (NextHop r) then Some (AsSlice (NextHop r)) else None) with
    Some b => (AddrFromSlice b).1 | None => AddrZero end) = NextHop r).
  { destruct (IsValid (NextHop r)) eqn:V; [by rewrite AddrFromSlice_AsSlice|by destruct (NextHop r)]. }
  rewrite E. assert (Ek : (match DedupKey r with Some [] => None | k => k end) = DedupKey r)
    by (by destruct (DedupKey r) as [[|]|]).
  rewrite Ek. by destruct r.
Qed.

Lemma Unmap_From16 a : addr_plain a -> IsValid a = true -> Unmap (AddrFrom16 (As16 a)) = a.
Proof.
  intros (Hw & Hz & Hu) Hv. rewrite <- Hu at 2. apply As16_inj; try done.
  - cbn. pose proof (be_val_range (As16 a) (As16_wf a)) as R. by rewrite length_As16 in R.
  - cbn. pose proof (be_bytes_val (As16 a) (As16_wf a)) as R. by rewrite length_As16 in R.
Qed.

(** ClickHouse ids are positive and fit an [int64]. *)
Lemma exporterID_range a : 1 <= exporterID a < 2 ^ 63.
Proof.
  unfold exporterID. rewrite Z.land_ones by lia.
  pose proof (Z.mod_pos_bound (fnv1a (As16 a)) (2 ^ 63)). destruct (Z.eqb_spec (fnv1a (As16 a) mod 2 ^ 63) 0); lia.
Qed.

(** Microseconds within the range come back. *)
Lemma of_ticks_micro t : time_wf t -> ch_instant t = true -> of_ticks (ticks (micro t)) = micro t.
Proof.
  unfold ch_instant, within_years. rewrite andb_true_iff, Z.leb_le, Z.ltb_lt. intros [_ Hn] Hs.
  assert (E1 : year_day 1900 = 693595) by reflexivity. assert (E2 : year_day 2300 = 839692) by reflexivity. rewrite E1, E2 in Hs.
  unfold ticks, of_ticks, micro, UTC, TruncateMicro, UnixMicro, UnixSec, Unix, unixToInternal, Microsecond, Second in *. cbn [sec nsec].
  pose proof (Z.div_mod (nsec t) 1000 ltac:(lia)). set (d := nsec t / 1000) in *.
  replace (nsec t - nsec t mod 1000) with (d * 1000) by lia. rewrite Z.div_mul by lia.
  assert (Hd : 0 <= d < 1000000) by (unfold d; split; [apply Z.div_pos|apply Z.div_lt_upper_bound]; lia).
  rewrite !(wrap_s_small 64 (sec t - _)) by (lia || (unfold is_sint; lia)). rewrite (wrap_s_small 64 (_ * 1000000 + d)) by (lia || (unfold is_sint; lia)).
  rewrite Z.div_add_l, (Z.div_small d) by lia. rewrite (Z.add_comm (_ * 1000000)), Z.mod_add, (Z.mod_small d) by lia.
  rewrite (Z.div_small (_ * 1000)), (Z.mod_small (_ * 1000)) by lia. rewrite wrap_s_small by (lia || (unfold is_sint; lia)). f_equal. lia.
Qed.

Lemma of_ticks_inj n m : is_sint 64 n -> is_sint 64 m -> of_ticks n = of_ticks m -> n = m.
Proof.
  unfold of_ticks, Unix, Second, unixToInternal, is_sint. intros Hn Hm [= E1 E2].
  pose proof (Z.div_mod n 1000000 ltac:(lia)) as Dn. pose proof (Z.div_mod m 1000000 ltac:(lia)) as Dm.
  pose proof (Z.mod_pos_bound n 1000000 ltac:(lia)). pose proof (Z.mod_pos_bound m 1000000 ltac:(lia)).
  set (a := n / 1000000) in *. set (b := n mod 1000000) in *. set (c := m / 1000000) in *. set (d := m mod 1000000) in *.
  rewrite !(Z.mod_small (_ * 1000)) in E2 by lia. rewrite !(Z.div_small (_ * 1000)) in E1 by lia.
  rewrite !wrap_s_small in E1 by (lia || (unfold is_sint; lia)). lia.
Qed.

#[export] Instance ch_laws : RowLaws ChRow (fun r _ => exporterID (ExporterAddr r)).
Proof.
  split; [|intros r id; apply of_ticks_micro|done|].
  - intros r id [Ht [He Ve] [Hs Vs] [Hd Vd] Hn Hk] Hc. cbn [row_scan row_insert ch_codec].
    unfold columns_hold in Hc. rewrite !andb_true_iff in Hc. destruct Hc as [[Hc1 Hc2] Hc3].
    unfold ch_scan, ch_insertRow, stored, UTC. cbn -[micro As16 AddrFrom16 Unmap exporterID IsValid wrap_s ticks of_ticks].
    rewrite !of_ticks_micro by (done || apply Ht). rewrite !Unmap_From16 by done.
    rewrite wrap_s_small by (lia || (pose proof (exporterID_range (ExporterAddr r)); unfold is_sint; lia)).
    assert (E : (match (if IsValid (NextHop r) then Some (As16 (NextHop r)) else None) with
      Some b => Unmap (AddrFrom16 b) | None => AddrZero end) = NextHop r).
    { destruct (IsValid (NextHop r)) eqn:V; [by rewrite Unmap_From16|by destruct (NextHop r)]. }
    rewrite E. assert (Ek : (if bool_decide (default [] (DedupKey r) = []) then None
      else Some (default [] (DedupKey r))) = DedupKey r) by (by destruct (DedupKey r) as [[|]|]).
    rewrite Ek. by destruct r.
  - intros r id Hk. cbn. by destruct (DedupKey r) as [[|]|].
Qed.

(** A record survives each database unchanged: for a record as the
    sources emit it and instants that the columns hold, what a query reads back from the row written for it is
    the record itself with instants at microsecond precision and the
    exporter id of the store, in PostgreSQL (through its signed columns, at
    the full unsigned range), in MariaDB and in ClickHouse alike. *)
Theorem rows_roundtrip r id :
  storable r ->
  (columns_hold pg_instant r = true -> pg_scan (pg_add r id) (ExporterAddr r) = stored r id) /\
  (columns_hold my_instant r = true -> my_scan (my_args r id) (AsSlice (ExporterAddr r)) = stored r id) /\
  (columns_hold ch_instant r = true -> ch_scan (ch_insertRow r) = stored r (exporterID (ExporterAddr r))).
Proof.
  intros Hr. split; [exact (row_roundtrip (RowLaws := pg_laws) r id Hr)|].
  split; [exact (row_roundtrip (RowLaws := my_laws) r id Hr)|].
  exact (row_roundtrip (RowLaws := ch_laws) r id Hr).
Qed.

Definition wide_record : FlowRecord :=
  mkFlowRecord (Unix 1700000000 1999) (Addr4 3221225985) 0 FlowTypeIPFIX (Unix 1700000000 0) (Unix 1700000000 0)
    (Addr6 1 "") (Addr4 4294967295) 65535 65535 255 255 (2 ^ 64 - 1) (2 ^ 64 - 1) (2 ^ 32 - 1)
    (2 ^ 32 - 1) (2 ^ 32 - 1) (2 ^ 32 - 1) (2 ^ 32 - 1) AddrZero (Some [1; 2; 3]).

Lemma rows_roundtrip_witness :
  storable wide_record /\ pg_bytes (pg_add wide_record 7) = -1 /\
  pg_scan (pg_add wide_record 7) (ExporterAddr wide_record) = stored wide_record 7.
Proof.
  assert (H : storable wide_record).
  { constructor; [constructor|..]; vm_compute; intuition congruence. }
  split; [exact H|]. split; [reflexivity|]. apply (rows_roundtrip wide_record 7 H). reflexivity.
Defined.
