(* ===== verification/Store.v ===== *)
(** * Writing batches: [WriteBatch], [resolveExporters], the exporter cache

    A relational backend keeps the rows of [flow_records] with a generated
    sequence and a unique index on [(received_at, dedup_key)] in which NULL
    keys are distinct. PostgreSQL tries COPY and falls back to
    [INSERT ... ON CONFLICT DO NOTHING]; MariaDB runs [INSERT IGNORE] in chunks
    of 1000 rows. Both are compared with one reference insertion. *)

From S2P Require Import Prelude GoTime Netip Flow Rows.

(** ** The table *)

Section table.
Context {Row : Type} `{RowCodec Row}.

Record table := mkTable { t_rows : list (Z * Row); t_next : Z }.

(** Two rows collide on the unique index. *)
Definition same_key (x y : Row) : bool :=
  bool_decide (row_received x = row_received y) &&
  match row_dedup x, row_dedup y with Some j, Some k => bool_decide (j = k) | _, _ => false end.

Definition values (t : table) : list Row := snd <$> t_rows t.

Definition conflicts (row : Row) (t : table) : bool := existsb (same_key row) (values t).

Definition append (row : Row) (t : table) : table :=
  mkTable (t_rows t ++ [(t_next t, row)]) (t_next t + 1).

(** A row that conflicts is skipped; the generated value is spent anyway. *)
Definition insert_ignore (t : table) (row : Row) : table :=
  if conflicts row t then mkTable (t_rows t) (t_next t + 1) else append row t.

Definition insert_all (rows : list Row) (t : table) : table := foldl insert_ignore t rows.

(** COPY: all rows or none; on a conflict, the sequence values drawn so far
    are lost. *)
Fixpoint copy_from (rows : list Row) (t : table) : result Z table :=
  match rows with
  | [] => Ok t
  | r :: rs => if conflicts r t then Err (t_next t + 1) else copy_from rs (append r t)
  end.

(** PostgreSQL's write of the prepared rows: [other] is an error of the
    connection or the server at either statement, other than 23505. *)
Inductive write_error := CopyError | InsertError | CommitError | ResolveError.

Definition pg_write (rows : list Row) (fail : option write_error) (t : table) : result write_error table :=
  match fail with
  | Some CopyError => Err CopyError
  | _ =>
    match copy_from rows t with
    | Ok t' => Ok t'
    | Err next =>
      match fail with
      | Some InsertError => Err InsertError
      | _ => Ok (insert_all rows (mkTable (t_rows t) next))
      end
    end
  end.

Definition insertRows : nat := 1000.

(** MariaDB's loop over [records[start:end]]: one statement per chunk, all in
    one transaction; every chunk is at least one row, so the number of rows is
    fuel enough. *)
Fixpoint my_chunks (fuel : nat) (rows : list Row) (t : table) : table :=
  match fuel with
  | O => t
  | S f =>
    match rows with
    | [] => t
    | _ => my_chunks f (drop insertRows rows) (insert_all (take insertRows rows) t)
    end
  end.

Definition my_write (rows : list Row) (fail : option write_error) (t : table) : result write_error table :=
  match fail with
  | Some e => Err e
  | None => Ok (my_chunks (length rows) rows t)
  end.

(** ** The reference: rows in order, first of each key wins *)

Fixpoint dedup_rows (present : list Row) (rows : list Row) : list Row :=
  match rows with
  | [] => []
  | r :: rs =>
    if existsb (same_key r) present then dedup_rows present rs
    else r :: dedup_rows (present ++ [r]) rs
  end.

Lemma values_append row t : values (append row t) = values t ++ [row].
Proof. unfold values, append. simpl. by rewrite fmap_app. Qed.

Lemma values_insert_ignore t row :
  values (insert_ignore t row) = if conflicts row t then values t else values t ++ [row].
Proof. unfold insert_ignore. destruct (conflicts row t); [done|apply values_append]. Qed.

Lemma insert_all_values rows t : values (insert_all rows t) = values t ++ dedup_rows (values t) rows.
Proof.
  revert t. induction rows as [|r rs IH]; intros t; simpl; [by rewrite app_nil_r|].
  rewrite IH, values_insert_ignore. fold (conflicts r t). destruct (conflicts r t); [done|].
  by rewrite <- app_assoc.
Qed.

Lemma copy_from_values rows t t' :
  copy_from rows t = Ok t' -> values t' = values t ++ dedup_rows (values t) rows /\
  dedup_rows (values t) rows = rows.
Proof.
  revert t. induction rows as [|r rs IH]; intros t; simpl.
  - intros [= <-]. by rewrite app_nil_r.
  - fold (conflicts r t). destruct (conflicts r t); [done|]. intros E. destruct (IH _ E) as [-> Hd].
    rewrite values_append in *. rewrite Hd. by rewrite <- app_assoc.
Qed.

Lemma my_chunks_values fuel rows t :
  (length rows <= fuel)%nat -> values (my_chunks fuel rows t) = values (insert_all rows t).
Proof.
  revert rows t. induction fuel as [|f IH]; intros rows t Hf.
  - destruct rows; [done|simpl in Hf; lia].
  - cbn [my_chunks]. destruct rows as [|r rs]; [done|]. rewrite IH.
    + rewrite <- (take_drop insertRows (r :: rs)) at 3. unfold insert_all. by rewrite foldl_app.
    + rewrite length_drop. unfold insertRows. simpl in Hf |- *. lia.
Qed.

Lemma pg_write_values rows t t' :
  pg_write rows None t = Ok t' -> values t' = values t ++ dedup_rows (values t) rows.
Proof.
  unfold pg_write. destruct (copy_from rows t) as [u|next] eqn:E; intros [= <-].
  - by apply copy_from_values in E as [-> _].
  - apply (insert_all_values rows (mkTable (t_rows t) next)).
Qed.

(** ** Dedup facts *)

Lemma same_key_sym x y : same_key x y = same_key y x.
Proof.
  unfold same_key. f_equal; [apply bool_decide_ext; naive_solver|].
  destruct (row_dedup x), (row_dedup y); try done. apply bool_decide_ext; naive_solver.
Qed.

Lemma same_key_trans x y z : same_key x y = true -> same_key y z = true -> same_key x z = true.
Proof.
  unfold same_key. rewrite !andb_true_iff, !bool_decide_eq_true. intros [E1 K1] [E2 K2].
  split; [congruence|]. destruct (row_dedup x), (row_dedup y), (row_dedup z); try done.
  rewrite bool_decide_eq_true in *. congruence.
Qed.

Lemma same_key_refl x : row_dedup x <> None -> same_key x x = true.
Proof. intros Hk. unfold same_key. rewrite bool_decide_eq_true_2 by done. destruct (row_dedup x); [|done]. by rewrite bool_decide_eq_true_2. Qed.

Lemma same_key_none x y : row_dedup x = None -> same_key x y = false.
Proof. intros E. unfold same_key. rewrite E. apply andb_false_r. Qed.

(** The unique index, as an invariant of the table. *)
Definition index_ok (l : list Row) : Prop :=
  forall i j x y, (i < j)%nat -> l !! i = Some x -> l !! j = Some y -> same_key x y = false.

Lemma existsb_false_elem {A} (f : A -> bool) l : existsb f l = false <-> forall x, x ∈ l -> f x = false.
Proof.
  rewrite <- not_true_iff_false, existsb_exists. split.
  - intros Hn x Hx. apply not_true_iff_false. intros E. apply Hn. exists x. by rewrite <- list_elem_of_In.
  - intros Hf (x & Hx & E). rewrite <- list_elem_of_In in Hx. by rewrite Hf in E.
Qed.

Lemma index_ok_snoc l r : index_ok l -> existsb (same_key r) l = false -> index_ok (l ++ [r]).
Proof.
  intros Hi Hr i j x y Hij Hx Hy. rewrite existsb_false_elem in Hr.
  apply lookup_app_Some in Hy as [Hy|[Hl Hy]].
  - apply lookup_lt_Some in Hy as Hlt. rewrite lookup_app_l in Hx by lia. by eapply (Hi i j).
  - apply list_lookup_singleton_Some in Hy as [? <-]. rewrite lookup_app_l in Hx by lia.
    rewrite same_key_sym. apply Hr. by eapply list_elem_of_lookup_2.
Qed.

Lemma dedup_rows_index present rows : index_ok present -> index_ok (present ++ dedup_rows present rows).
Proof.
  revert present. induction rows as [|r rs IH]; intros present Hp; simpl; [by rewrite app_nil_r|].
  destruct (existsb (same_key r) present) eqn:E; [by apply IH|].
  replace (present ++ r :: dedup_rows (present ++ [r]) rs)
    with ((present ++ [r]) ++ dedup_rows (present ++ [r]) rs) by (by rewrite <- app_assoc).
  by apply IH, index_ok_snoc.
Qed.

(** Every row of the batch is in the table: itself, or one with its key. *)
Definition represented (r : Row) (l : list Row) : Prop := r ∈ l \/ existsb (same_key r) l = true.

Lemma existsb_app_l {A} (f : A -> bool) l l' : existsb f l = true -> existsb f (l ++ l') = true.
Proof. rewrite existsb_app. by intros ->. Qed.

Lemma dedup_rows_represented present rows r :
  r ∈ rows -> represented r (present ++ dedup_rows present rows).
Proof.
  revert present. induction rows as [|x rs IH]; intros present Hr; [by apply not_elem_of_nil in Hr|].
  simpl. destruct (existsb (same_key x) present) eqn:E; apply elem_of_cons in Hr as [->|Hr].
  - right. by apply existsb_app_l.
  - by apply IH.
  - left. apply elem_of_app. right. by left.
  - replace (present ++ x :: dedup_rows (present ++ [x]) rs)
      with ((present ++ [x]) ++ dedup_rows (present ++ [x]) rs) by (by rewrite <- app_assoc). by apply IH.
Qed.

(** Only rows of the batch are added, and a row without a key always is. *)
Lemma dedup_rows_sublist present rows : sublist (dedup_rows present rows) rows.
Proof.
  revert present. induction rows as [|x rs IH]; intros present; simpl; [done|].
  destruct (existsb _ _); [by apply sublist_cons|by apply sublist_skip].
Qed.

Lemma dedup_rows_unkeyed present rows :
  filter (fun r => row_dedup r = None) (dedup_rows present rows) = filter (fun r => row_dedup r = None) rows.
Proof.
  revert present. induction rows as [|x rs IH]; intros present; simpl; [done|].
  rewrite (filter_cons _ x rs). case_decide as Hk.
  - assert (E : existsb (same_key x) present = false)
      by (apply existsb_false_elem; intros y _; by apply same_key_none).
    rewrite E, filter_cons_True by done. by rewrite IH.
  - destruct (existsb _ _); [apply IH|]. rewrite filter_cons_False by done. apply IH.
Qed.

(** Delivering keyed rows again adds nothing. *)
Lemma dedup_rows_again present rows :
  Forall (fun r => row_dedup r <> None) rows -> (forall r, r ∈ rows -> represented r present) ->
  dedup_rows present rows = [].
Proof.
  intros Hk Hr. revert Hr. induction Hk as [|x rs Hx Hrs IH]; intros Hr; simpl; [done|].
  assert (E : existsb (same_key x) present = true).
  { destruct (Hr x ltac:(by left)) as [Hin|E]; [|done]. apply existsb_exists. exists x.
    split; [by apply list_elem_of_In|by apply same_key_refl]. }
  rewrite E. apply IH. intros r Hin. apply Hr. by right.
Qed.

End table.
Arguments table : clear implicits.
