(* ===== verification/Exporters.v ===== *)
(** * Exporters: [resolveExporters], [cached], [remember] of PostgreSQL and MariaDB

    The [exporters] table maps an address to its generated id and the first
    and last time it was seen; each backend caches ids by address. *)

From S2P Require Import Prelude GoTime Netip Flow Rows.

Record exp_row := mkExp { x_id : Z; x_first : Time; x_last : Time }.
Record exp_table := mkExpTable { x_rows : gmap Addr exp_row; x_next : Z }.

Definition cacheCap : nat := 4096.

(** The first loop: the latest reception time of each exporter in the batch. *)
Definition note_seen (m : gmap Addr Time) (r : FlowRecord) : gmap Addr Time :=
  match m !! ExporterAddr r with
  | Some t => if After (ReceivedAt r) t then <[ExporterAddr r := micro (ReceivedAt r)]> m else m
  | None => <[ExporterAddr r := micro (ReceivedAt r)]> m
  end.

Definition seen_of (records : list FlowRecord) : gmap Addr Time := foldl note_seen ∅ records.

Definition remember (addr : Addr) (id : Z) (cache : gmap Addr Z) : gmap Addr Z :=
  <[addr := id]> (if (cacheCap <=? size cache)%nat then ∅ else cache).

(** [UPDATE exporters SET last_seen_at = last WHERE id = id AND last_seen_at < last]. *)
Definition touch (id : Z) (last : Time) (t : exp_table) : exp_table :=
  mkExpTable ((fun r => if (x_id r =? id) && Before (x_last r) last then mkExp (x_id r) (x_first r) last else r)
    <$> x_rows t) (x_next t).

Definition greatest (a b : Time) : Time := if Before a b then b else a.

(** Insert, or advance [last_seen_at] of the row that is there; returns the id. *)
Definition upsert (addr : Addr) (last : Time) (t : exp_table) : Z * exp_table :=
  match x_rows t !! addr with
  | Some r => (x_id r, mkExpTable (<[addr := mkExp (x_id r) (x_first r) (greatest (x_last r) last)]> (x_rows t)) (x_next t + 1))
  | None => (x_next t, mkExpTable (<[addr := mkExp (x_next t) last last]> (x_rows t)) (x_next t + 1))
  end.

Record resolver := mkResolver {
  v_table : exp_table;
  v_cache : gmap Addr Z;
  v_ids : gmap Addr Z
}.

(** One iteration of the second loop. *)
Definition resolve_one (s : resolver) (x : Addr * Time) : resolver :=
  let '(addr, last) := x in
  match v_cache s !! addr with
  | Some id => mkResolver (touch id last (v_table s)) (v_cache s) (<[addr := id]> (v_ids s))
  | None =>
    let '(id, t') := upsert addr last (v_table s) in
    mkResolver t' (remember addr id (v_cache s)) (<[addr := id]> (v_ids s))
  end.

(** The second loop ranges over a Go map, so [order] is any enumeration of it;
    [fails] marks the exporters whose statement returns an error, which ends
    the call with what the statements before it did. *)
Fixpoint resolve_loop (fails : Addr -> bool) (order : list (Addr * Time)) (s : resolver)
  : resolver * option Addr :=
  match order with
  | [] => (s, None)
  | x :: rest => if fails x.1 then (s, Some x.1) else resolve_loop fails rest (resolve_one s x)
  end.

Definition resolveExporters (fails : Addr -> bool) (order : list (Addr * Time)) (t : exp_table)
  (cache : gmap Addr Z) : resolver * option Addr :=
  resolve_loop fails order (mkResolver t cache ∅).

(** ** Invariants *)

Record exp_ok (t : exp_table) : Prop := {
  xo_inj : forall a b r s, x_rows t !! a = Some r -> x_rows t !! b = Some s -> x_id r = x_id s -> a = b;
  xo_next : forall a r, x_rows t !! a = Some r -> x_id r < x_next t
}.

Definition cache_ok (cache : gmap Addr Z) (t : exp_table) : Prop :=
  forall a id, cache !! a = Some id -> exists r, x_rows t !! a = Some r /\ x_id r = id.

(** Rows are never dropped, and keep their id and first sight; the last sight
    only advances. *)
Definition time_le (a b : Time) : Prop := After a b = false.
Definition exp_le (t t' : exp_table) : Prop :=
  forall a r, x_rows t !! a = Some r ->
  exists r', x_rows t' !! a = Some r' /\ x_id r' = x_id r /\ x_first r' = x_first r /\ time_le (x_last r) (x_last r').

Lemma time_le_refl a : time_le a a.
Proof. unfold time_le, After. rewrite !Z.ltb_irrefl. by rewrite andb_false_r. Qed.

Lemma time_le_trans a b c : time_le a b -> time_le b c -> time_le a c.
Proof.
  unfold time_le, After. rewrite !orb_false_iff, !andb_false_iff, !Z.ltb_ge, !Z.eqb_neq. lia.
Qed.

Lemma Before_le a b : Before a b = true -> time_le a b.
Proof.
  unfold Before, time_le, After. rewrite !orb_true_iff, !orb_false_iff, !andb_true_iff, !andb_false_iff,
    !Z.ltb_ge, !Z.ltb_lt, !Z.eqb_eq, !Z.eqb_neq. lia.
Qed.

Lemma greatest_le_l a b : time_le a (greatest a b).
Proof. unfold greatest. destruct (Before a b) eqn:E; [by apply Before_le|apply time_le_refl]. Qed.

Lemma greatest_le_r a b : time_le b (greatest a b).
Proof. unfold greatest. destruct (Before a b) eqn:E; [apply time_le_refl|exact E]. Qed.

Lemma touch_lookup id last t a :
  x_rows (touch id last t) !! a =
  (fun r => if (x_id r =? id) && Before (x_last r) last then mkExp (x_id r) (x_first r) last else r)
  <$> x_rows t !! a.
Proof. apply lookup_fmap. Qed.

Lemma touch_le id last t : exp_le t (touch id last t).
Proof.
  intros a r Hr. rewrite touch_lookup, Hr. simpl. eexists. split; [done|].
  destruct (_ && _) eqn:E; simpl; [|by split_and!; try apply time_le_refl].
  split_and!; try done. apply andb_true_iff in E as [_ E]. by apply Before_le.
Qed.

Lemma touch_ok id last t : exp_ok t -> exp_ok (touch id last t).
Proof.
  intros [Hi Hn]. assert (Hid : forall a r, x_rows (touch id last t) !! a = Some r ->
    exists r0, x_rows t !! a = Some r0 /\ x_id r0 = x_id r).
  { intros a r. rewrite touch_lookup. intros (r0 & Hr0 & ->)%fmap_Some. exists r0. split; [done|].
    by destruct (_ && _). }
  split.
  - intros a b r s (r0 & ? & E1)%Hid (s0 & ? & E2)%Hid E. eapply Hi; [done..|congruence].
  - intros a r (r0 & ? & E)%Hid. simpl. rewrite <- E. by eapply Hn.
Qed.

Lemma upsert_le addr last t : exp_le t (upsert addr last t).2.
Proof.
  intros a r Hr. unfold upsert. destruct (x_rows t !! addr) as [r0|] eqn:E; simpl;
    (destruct (decide (a = addr)) as [->|Hne]; [|rewrite lookup_insert_ne by done]).
  - rewrite lookup_insert_eq. rewrite E in Hr. injection Hr as <-. eexists. split; [done|]. simpl.
    split_and!; try done. apply greatest_le_l.
  - exists r. split_and!; try done. apply time_le_refl.
  - by rewrite E in Hr.
  - exists r. split_and!; try done. apply time_le_refl.
Qed.

Lemma upsert_ok addr last t : exp_ok t -> exp_ok (upsert addr last t).2.
Proof.
  intros [Hi Hn]. unfold upsert. destruct (x_rows t !! addr) as [r0|] eqn:E; simpl; split; simpl.
  - intros a b r s Ha Hb Eid. rewrite lookup_insert_Some in Ha, Hb.
    destruct Ha as [[<- <-]|[? Ha]], Hb as [[<- <-]|[? Hb]]; simpl in Eid; try done;
      eapply Hi; eauto.
  - intros a r [[<- <-]|[? Ha]]%lookup_insert_Some; simpl; [specialize (Hn _ _ E)|specialize (Hn _ _ Ha)]; lia.
  - intros a b r s Ha Hb Eid. rewrite lookup_insert_Some in Ha, Hb.
    destruct Ha as [[<- <-]|[? Ha]], Hb as [[<- <-]|[? Hb]]; simpl in Eid; try done; [| |by eapply Hi].
    + specialize (Hn _ _ Hb). lia.
    + specialize (Hn _ _ Ha). lia.
  - intros a r [[<- <-]|[? Ha]]%lookup_insert_Some; simpl; [lia|specialize (Hn _ _ Ha); lia].
Qed.

Lemma cache_ok_le cache t t' : exp_le t t' -> cache_ok cache t -> cache_ok cache t'.
Proof.
  intros Hle Hc a id Ha. destruct (Hc a id Ha) as (r & Hr & <-). destruct (Hle a r Hr) as (r' & ? & ? & _). eauto.
Qed.

Lemma exp_le_refl t : exp_le t t.
Proof. intros a r Hr. exists r. split_and!; try done. apply time_le_refl. Qed.

Lemma exp_le_trans t u v : exp_le t u -> exp_le u v -> exp_le t v.
Proof.
  intros H1 H2 a r Hr. destruct (H1 a r Hr) as (r1 & Hr1 & E1 & F1 & L1).
  destruct (H2 a r1 Hr1) as (r2 & Hr2 & E2 & F2 & L2). exists r2. split_and!; try congruence.
  by eapply time_le_trans.
Qed.

Record resolver_ok (s : resolver) : Prop := {
  ro_table : exp_ok (v_table s);
  ro_cache : cache_ok (v_cache s) (v_table s);
  ro_size : (size (v_cache s) <= cacheCap)%nat;
  ro_ids : cache_ok (v_ids s) (v_table s)
}.

Lemma size_remember addr id cache :
  (size cache <= cacheCap)%nat -> (size (remember addr id cache) <= cacheCap)%nat.
Proof.
  intros Hs. unfold remember. destruct (Nat.leb_spec cacheCap (size cache)).
  - rewrite map_size_insert_None by apply lookup_empty. rewrite map_size_empty. unfold cacheCap. lia.
  - destruct (cache !! addr) eqn:E.
    + rewrite map_size_insert_Some by (rewrite E; eauto). lia.
    + rewrite map_size_insert_None by done. lia.
Qed.

Lemma remember_lookup addr id cache a x :
  remember addr id cache !! a = Some x -> (a = addr /\ x = id) \/ cache !! a = Some x.
Proof.
  unfold remember. rewrite lookup_insert_Some. intros [[-> ->]|[_ H]]; [by left|]. right.
  destruct (_ <=? _)%nat; [by rewrite lookup_empty in H|done].
Qed.

(** The id an iteration yields, and that its row's last sight covers [last]. *)
Lemma resolve_one_spec s addr last :
  resolver_ok s ->
  let s' := resolve_one s (addr, last) in
  resolver_ok s' /\ exp_le (v_table s) (v_table s') /\
  exists id r, v_ids s' = <[addr := id]> (v_ids s) /\
    x_rows (v_table s') !! addr = Some r /\ x_id r = id /\ time_le last (x_last r).
Proof.
  intros [Ht Hc Hs Hi]. unfold resolve_one. destruct (v_cache s !! addr) as [id|] eqn:Ec; simpl.
  - pose proof (touch_le id last (v_table s)) as Hle. destruct (Hc _ _ Ec) as (r & Hr & Eid).
    assert (Hr' : exists r', x_rows (touch id last (v_table s)) !! addr = Some r' /\ x_id r' = id /\ time_le last (x_last r')).
    { rewrite touch_lookup, Hr. simpl. eexists. split; [done|]. rewrite Eid, Z.eqb_refl. simpl.
      destruct (Before (x_last r) last) eqn:E; simpl; split; try done. apply time_le_refl. }
    destruct Hr' as (r' & Hr' & Eid' & Hl). split; [|split; [done|by exists id, r']].
    split; simpl; [by apply touch_ok|by eapply cache_ok_le|done|].
    intros a x [[<- <-]|[_ Ha]]%lookup_insert_Some; [eauto|]. exact (cache_ok_le _ _ _ Hle Hi a x Ha).
  - destruct (upsert addr last (v_table s)) as [id t'] eqn:Eu.
    pose proof (upsert_le addr last (v_table s)) as Hle. pose proof (upsert_ok addr last (v_table s) Ht) as Hok.
    rewrite Eu in Hle, Hok. simpl in Hle, Hok.
    assert (Hr' : exists r', x_rows t' !! addr = Some r' /\ x_id r' = id /\ time_le last (x_last r')).
    { unfold upsert in Eu. destruct (x_rows (v_table s) !! addr) as [r|]; injection Eu as <- <-; simpl;
        rewrite lookup_insert_eq; eexists; (split; [done|]); simpl; split; try done;
        [apply greatest_le_r|apply time_le_refl]. }
    destruct Hr' as (r' & Hr' & Eid' & Hl). split; [|split; [done|by exists id, r']].
    split; simpl; [done| |by apply size_remember|].
    + intros a x [[-> ->]|Ha]%remember_lookup; [eauto|]. exact (cache_ok_le _ _ _ Hle Hc a x Ha).
    + intros a x [[<- <-]|[_ Ha]]%lookup_insert_Some; [eauto|]. exact (cache_ok_le _ _ _ Hle Hi a x Ha).
Qed.

Lemma resolve_loop_spec fails order s s' e :
  resolver_ok s -> resolve_loop fails order s = (s', e) ->
  resolver_ok s' /\ exp_le (v_table s) (v_table s') /\
  (forall a, is_Some (v_ids s !! a) -> is_Some (v_ids s' !! a)) /\
  (e = None -> forall a last, (a, last) ∈ order -> is_Some (v_ids s' !! a) /\
     exists r, x_rows (v_table s') !! a = Some r /\ time_le last (x_last r)).
Proof.
  revert s. induction order as [|[addr last] order IH]; intros s Hs; simpl.
  - intros [= <- <-]. split_and!; try done; [apply exp_le_refl|].
    intros _ a l Hl. by apply not_elem_of_nil in Hl.
  - destruct (fails addr); [intros [= <- <-]; split_and!; try done; apply exp_le_refl|].
    destruct (resolve_one_spec s addr last Hs) as (Hs1 & Hle1 & id & r & Eids & Hr & Eid & Hlast). intros E.
    destruct (IH _ Hs1 E) as (Hs2 & Hle2 & Hids & Hall). split_and!; try done.
    + by eapply exp_le_trans.
    + intros a Ha. apply Hids. rewrite Eids. destruct (decide (a = addr)) as [->|];
        [rewrite lookup_insert_eq; eauto|by rewrite lookup_insert_ne].
    + intros He a l [[= -> ->]|Hin]%elem_of_cons; [|by apply Hall].
      split; [apply Hids; rewrite Eids, lookup_insert_eq; eauto|].
      destruct (Hle2 _ _ Hr) as (r2 & Hr2 & _ & _ & Hl2). exists r2. split; [done|]. by eapply time_le_trans.
Qed.

(** ** The first loop computes the latest reception time *)

Lemma micro_mono a b : time_wf a -> time_wf b -> After a b = false -> time_le (micro a) (micro b).
Proof.
  intros [_ Ha] [_ Hb]. unfold time_le, After, micro, UTC, TruncateMicro, Microsecond. simpl.
  rewrite !orb_false_iff, !andb_false_iff, !Z.ltb_ge, !Z.eqb_neq. unfold Second in *.
  intros [H1 H2]. split; [done|]. destruct H2 as [H2|H2]; [by left|]. right.
  pose proof (Z.div_mod (nsec a) 1000). pose proof (Z.div_mod (nsec b) 1000).
  pose proof (Z.div_le_mono (nsec a) (nsec b) 1000). lia.
Qed.

Lemma micro_le a : time_wf a -> time_le (micro a) a.
Proof.
  intros [_ Ha]. unfold time_le, After, micro, UTC, TruncateMicro, Microsecond. simpl.
  rewrite orb_false_iff, andb_false_iff, !Z.ltb_ge, Z.eqb_neq.
  pose proof (Z.mod_pos_bound (nsec a) 1000). lia.
Qed.

Lemma note_seen_spec m r recs :
  time_wf (ReceivedAt r) -> Forall (fun r => time_wf (ReceivedAt r)) recs ->
  (forall x, x ∈ recs -> exists t, m !! ExporterAddr x = Some t /\ time_le (micro (ReceivedAt x)) t) ->
  (forall a t, m !! a = Some t -> exists x, x ∈ recs /\ ExporterAddr x = a /\ t = micro (ReceivedAt x)) ->
  (forall x, x ∈ recs ++ [r] -> exists t, note_seen m r !! ExporterAddr x = Some t /\ time_le (micro (ReceivedAt x)) t) /\
  (forall a t, note_seen m r !! a = Some t -> exists x, x ∈ recs ++ [r] /\ ExporterAddr x = a /\ t = micro (ReceivedAt x)).
Proof.
  intros Hr Hrecs H1 H2.
  assert (Hold : forall a t, m !! a = Some t -> exists x, x ∈ recs ++ [r] /\ ExporterAddr x = a /\ t = micro (ReceivedAt x)).
  { intros a t Ha. destruct (H2 a t Ha) as (x & ? & ? & ?). exists x. split; [by apply elem_of_app; left|done]. }
  assert (Hin : r ∈ recs ++ [r]) by (apply elem_of_app; right; by left).
  assert (Hnew : forall a t, <[ExporterAddr r := micro (ReceivedAt r)]> m !! a = Some t ->
    exists x, x ∈ recs ++ [r] /\ ExporterAddr x = a /\ t = micro (ReceivedAt x)).
  { intros a t [[<- <-]|[_ Ha]]%lookup_insert_Some; [by exists r|by apply Hold]. }
  unfold note_seen. destruct (m !! ExporterAddr r) as [t0|] eqn:E; [destruct (After (ReceivedAt r) t0) eqn:Ea|].
  - split; [|done]. intros x [Hx|Hx]%elem_of_app; [|apply list_elem_of_singleton in Hx as ->;
      rewrite lookup_insert_eq; eauto using time_le_refl].
    destruct (H1 x Hx) as (t & Ht & Hle). destruct (decide (ExporterAddr x = ExporterAddr r)) as [Ex|];
      [|rewrite lookup_insert_ne by done; eauto].
    rewrite Ex, lookup_insert_eq. eexists. split; [done|]. rewrite Ex, E in Ht. injection Ht as ->.
    destruct (H2 _ _ E) as (y & Hy & _ & ->). eapply time_le_trans; [exact Hle|].
    rewrite Forall_forall in Hrecs. specialize (Hrecs y Hy).
    replace (micro (ReceivedAt y)) with (micro (micro (ReceivedAt y))) by apply TruncateMicro_idemp.
    apply (micro_mono (micro (ReceivedAt y))); [by apply TruncateMicro_wf|done|].
    apply (Before_le (micro (ReceivedAt y)) (ReceivedAt r)). exact Ea.
  - split; [|done]. intros x [Hx|Hx]%elem_of_app; [by apply H1|]. apply list_elem_of_singleton in Hx as ->.
    exists t0. split; [done|]. eapply time_le_trans; [by apply micro_le|exact Ea].
  - split; [|done]. intros x [Hx|Hx]%elem_of_app; [|apply list_elem_of_singleton in Hx as ->;
      rewrite lookup_insert_eq; eauto using time_le_refl].
    destruct (H1 x Hx) as (t & Ht & Hle). destruct (decide (ExporterAddr x = ExporterAddr r)) as [Ex|];
      [rewrite Ex, E in Ht; done|rewrite lookup_insert_ne by done; eauto].
Qed.

Lemma seen_of_spec recs :
  Forall (fun r => time_wf (ReceivedAt r)) recs ->
  (forall x, x ∈ recs -> exists t, seen_of recs !! ExporterAddr x = Some t /\ time_le (micro (ReceivedAt x)) t) /\
  (forall a t, seen_of recs !! a = Some t -> exists x, x ∈ recs /\ ExporterAddr x = a /\ t = micro (ReceivedAt x)).
Proof.
  induction recs as [|r recs IH] using rev_ind; intros Hw.
  - split; [intros x Hx; by apply not_elem_of_nil in Hx|]. intros a t. unfold seen_of. simpl. by rewrite lookup_empty.
  - apply Forall_app in Hw as [Hw Hr]. apply Forall_cons in Hr as [Hr _]. destruct (IH Hw) as [H1 H2].
    unfold seen_of. rewrite foldl_app. simpl. by apply note_seen_spec.
Qed.
