(* ===== verification/MyExporters.v ===== *)
(** * Exporters of the MariaDB backend ([internal/sink/mariadb/mariadb.go])

    [resolveExporters] over a table whose key is the address's bytes, with the
    [LAST_INSERT_ID] register that carries the id back; and a simulation of the
    PostgreSQL model ([Exporters]), so that what is proved there holds here. *)

From S2P Require Import Prelude GoTime Netip Flow Rows Exporters.

Record my_exp_table := mkMyExp { mx_rows : gmap (list byte) exp_row; mx_auto : Z }.

(** [UPDATE exporters SET last_seen_at = ? WHERE id = ? AND last_seen_at < ?] *)
Definition my_touch (id : Z) (last : Time) (t : my_exp_table) : my_exp_table :=
  mkMyExp ((fun r => if (x_id r =? id) && Before (x_last r) last then mkExp (x_id r) (x_first r) last else r)
    <$> mx_rows t) (mx_auto t).

(** [INSERT ... ON DUPLICATE KEY UPDATE ..., id = LAST_INSERT_ID(id)]: the table
    and the connection's last insert id. The statement takes an AUTO_INCREMENT
    value on both paths. *)
Definition my_upsert (key : list byte) (last : Time) (t : my_exp_table) : my_exp_table * Z :=
  match mx_rows t !! key with
  | None => (mkMyExp (<[key := mkExp (mx_auto t) last last]> (mx_rows t)) (mx_auto t + 1), mx_auto t)
  | Some r =>
    let last_insert_id := x_id r in
    (mkMyExp (<[key := mkExp last_insert_id (x_first r) (greatest (x_last r) last)]> (mx_rows t)) (mx_auto t + 1),
     last_insert_id)
  end.

Record my_resolver := mkMyResolver { my_table : my_exp_table; my_cache : gmap Addr Z; my_ids : gmap Addr Z }.

(** [remember] *)
Definition my_remember (addr : Addr) (id : Z) (cache : gmap Addr Z) : gmap Addr Z :=
  let cache := if (cacheCap <=? size cache)%nat then ∅ else cache in
  <[addr := id]> cache.

(** The body of the second loop. *)
Definition my_resolve_one (s : my_resolver) (x : Addr * Time) : my_resolver :=
  let '(addr, last) := x in
  match my_cache s !! addr with
  | Some id => mkMyResolver (my_touch id last (my_table s)) (my_cache s) (<[addr := id]> (my_ids s))
  | None =>
    let '(t, id) := my_upsert (AsSlice addr) last (my_table s) in
    mkMyResolver t (my_remember addr id (my_cache s)) (<[addr := id]> (my_ids s))
  end.

Fixpoint my_resolve_loop (fails : Addr -> bool) (order : list (Addr * Time)) (s : my_resolver)
  : my_resolver * option Addr :=
  match order with
  | [] => (s, None)
  | x :: rest => if fails x.1 then (s, Some x.1) else my_resolve_loop fails rest (my_resolve_one s x)
  end.

Definition my_resolveExporters (fails : Addr -> bool) (order : list (Addr * Time)) (t : my_exp_table)
  (cache : gmap Addr Z) : my_resolver * option Addr :=
  my_resolve_loop fails order (mkMyResolver t cache ∅).

(** ** Simulation *)

(** Addresses that their bytes determine: those a socket reports. *)
Definition keyable (a : Addr) : Prop := addr_wf a /\ zoneless a /\ IsValid a = true.

Lemma AsSlice_inj a b : keyable a -> keyable b -> AsSlice a = AsSlice b -> a = b.
Proof.
  intros (Wa & Za & Va) (Wb & Zb & Vb) E. pose proof (AddrFromSlice_AsSlice a Wa Za Va) as H.
  rewrite E, (AddrFromSlice_AsSlice b Wb Zb Vb) in H. congruence.
Qed.

Record same_exporters (t : exp_table) (m : my_exp_table) : Prop := {
  se_rows : forall a, keyable a -> mx_rows m !! AsSlice a = x_rows t !! a;
  se_next : mx_auto m = x_next t
}.

Record same_resolver (s : resolver) (m : my_resolver) : Prop := {
  sr_table : same_exporters (v_table s) (my_table m);
  sr_cache : my_cache m = v_cache s;
  sr_ids : my_ids m = v_ids s
}.

Lemma same_touch id last t m : same_exporters t m -> same_exporters (touch id last t) (my_touch id last m).
Proof.
  intros [Hr Hn]. split; [|done]. intros a Ha. rewrite touch_lookup. cbn [my_touch mx_rows].
  by rewrite lookup_fmap, Hr.
Qed.

Lemma same_insert t m a r n :
  keyable a -> same_exporters t m ->
  same_exporters (mkExpTable (<[a := r]> (x_rows t)) n) (mkMyExp (<[AsSlice a := r]> (mx_rows m)) n).
Proof.
  intros Ha [Hr _]. split; [|done]. intros b Hb. cbn [mx_rows x_rows].
  destruct (decide (a = b)) as [->|Hne]; [by rewrite !lookup_insert_eq|].
  rewrite !lookup_insert_ne; [by apply Hr|done|]. intros E. by apply Hne, AsSlice_inj.
Qed.

Lemma same_upsert addr last t m :
  keyable addr -> same_exporters t m ->
  let '(id, t') := upsert addr last t in
  let '(m', id') := my_upsert (AsSlice addr) last m in id' = id /\ same_exporters t' m'.
Proof.
  intros Ha Hs. pose proof Hs as [Hr Hn]. unfold upsert, my_upsert. rewrite Hr, Hn by done.
  destruct (x_rows t !! addr); (split; [done|]); by apply same_insert.
Qed.

Lemma same_resolve_one s m x :
  keyable x.1 -> same_resolver s m -> same_resolver (resolve_one s x) (my_resolve_one m x).
Proof.
  destruct x as [addr last]. intros Ha [Ht Hc Hi]. unfold resolve_one, my_resolve_one. rewrite Hc, Hi.
  destruct (v_cache s !! addr); [by split; [apply same_touch|..]|].
  pose proof (same_upsert addr last _ _ Ha Ht) as Hu.
  destruct (upsert addr last (v_table s)) as [id t'], (my_upsert (AsSlice addr) last (my_table m)) as [m' id'].
  destruct Hu as [-> Hu]. by split.
Qed.

(** MariaDB's resolution simulates PostgreSQL's: for exporters whose addresses
    carry no zone, the same ids are handed out, the same statement fails, the
    caches agree and the tables hold the same rows. *)
Theorem my_exporters_refine fails order t cache m :
  Forall (fun x => keyable x.1) order -> same_exporters t m ->
  let '(s, e) := resolveExporters fails order t cache in
  let '(s', e') := my_resolveExporters fails order m cache in
  e' = e /\ same_resolver s s'.
Proof.
  intros Ho Ht. unfold resolveExporters, my_resolveExporters.
  assert (Hs : same_resolver (mkResolver t cache ∅) (mkMyResolver m cache ∅)) by done.
  revert Hs. generalize (mkResolver t cache ∅) (mkMyResolver m cache ∅).
  induction Ho as [|x order Hx _ IH]; intros s s' Hs; simpl; [done|].
  destruct (fails x.1); [done|]. by apply IH, same_resolve_one.
Qed.
