(* ===== verification/StoreThms.v ===== *)
(** * [WriteBatch] of the relational backends, and its properties *)

From S2P Require Import Prelude GoTime Netip Flow Rows Store Exporters.

Record backend (Row : Type) := mkBackend {
  b_exporters : exp_table;
  b_cache : gmap Addr Z;
  b_flows : table Row
}.
Arguments mkBackend {Row}.
Arguments b_exporters {Row}.
Arguments b_cache {Row}.
Arguments b_flows {Row}.

(** What can go wrong in one call: the exporters whose statement fails, and an
    error of the insert. *)
Record faults := mkFaults { f_exporter : Addr -> bool; f_write : option write_error }.
Definition no_faults : faults := mkFaults (fun _ => false) None.

Section write_batch.
Context {Row : Type} `{RowCodec Row}.

(** The rows a batch becomes; a missing id is Go's zero value. *)
Definition batch_rows (ids : gmap Addr Z) (records : list FlowRecord) : list Row :=
  (fun r => row_insert r (default 0 (ids !! ExporterAddr r))) <$> records.

Definition WriteBatch (write : list Row -> option write_error -> table Row -> result write_error (table Row))
  (f : faults) (order : list (Addr * Time)) (records : list FlowRecord) (b : backend Row)
  : backend Row * option write_error :=
  match records with
  | [] => (b, None)
  | _ =>
    let '(v, failed) := resolveExporters (f_exporter f) order (b_exporters b) (b_cache b) in
    match failed with
    | Some _ => (mkBackend (v_table v) (v_cache v) (b_flows b), Some ResolveError)
    | None =>
      match write (batch_rows (v_ids v) records) (f_write f) (b_flows b) with
      | Ok t => (mkBackend (v_table v) (v_cache v) t, None)
      | Err e => (mkBackend (v_table v) (v_cache v) (b_flows b), Some e)
      end
    end
  end.

(** A write that, when nothing fails, does what the reference does. *)
Definition refines_reference (write : list Row -> option write_error -> table Row -> result write_error (table Row)) : Prop :=
  forall rows t, exists t', write rows None t = Ok t' /\ values t' = values t ++ dedup_rows (values t) rows.

Lemma pg_refines : refines_reference pg_write.
Proof.
  intros rows t. destruct (pg_write rows None t) as [t'|e] eqn:E; [exists t'; split; [done|by apply pg_write_values]|].
  unfold pg_write in E. by destruct (copy_from rows t).
Qed.

Lemma my_refines : refines_reference my_write.
Proof.
  intros rows t. eexists. split; [reflexivity|]. rewrite my_chunks_values by done. apply insert_all_values.
Qed.

Record backend_ok (b : backend Row) : Prop := {
  bo_exporters : exp_ok (b_exporters b);
  bo_cache : cache_ok (b_cache b) (b_exporters b);
  bo_size : (size (b_cache b) <= cacheCap)%nat;
  bo_index : index_ok (values (b_flows b))
}.

Definition enumerates (order : list (Addr * Time)) (records : list FlowRecord) : Prop :=
  Permutation order (map_to_list (seen_of records)).

Lemma resolver_init_ok b : backend_ok b -> resolver_ok (mkResolver (b_exporters b) (b_cache b) ∅).
Proof. by intros [? ? ? ?]. Qed.

Lemma resolve_no_faults order s : (resolve_loop (fun _ => false) order s).2 = None.
Proof. revert s. induction order as [|x order IH]; intros s; simpl; [done|apply IH]. Qed.

(** The call without faults, taken apart. *)
Lemma WriteBatch_ok write order records b :
  refines_reference write -> records <> [] ->
  exists v t, resolveExporters (fun _ => false) order (b_exporters b) (b_cache b) = (v, None) /\
    WriteBatch write no_faults order records b = (mkBackend (v_table v) (v_cache v) t, None) /\
    values t = values (b_flows b) ++ dedup_rows (values (b_flows b)) (batch_rows (v_ids v) records).
Proof.
  intros Hw Hne. destruct records as [|r rs]; [done|]. set (records := r :: rs).
  destruct (resolveExporters (fun _ => false) order (b_exporters b) (b_cache b)) as [v e] eqn:E.
  assert (He : e = None).
  { pose proof (resolve_no_faults order (mkResolver (b_exporters b) (b_cache b) ∅)) as N.
    unfold resolveExporters in E. by rewrite E in N. }
  subst e. destruct (Hw (batch_rows (v_ids v) records) (b_flows b)) as (t & Et & Ht).
  exists v, t. split; [done|]. split; [|done]. unfold WriteBatch, records. cbn [no_faults f_exporter f_write].
  rewrite E. fold records. by rewrite Et.
Qed.

Lemma WriteBatch_write write order records b v t :
  records <> [] -> resolveExporters (fun _ => false) order (b_exporters b) (b_cache b) = (v, None) ->
  WriteBatch write no_faults order records b = (mkBackend (v_table v) (v_cache v) t, None) ->
  write (batch_rows (v_ids v) records) None (b_flows b) = Ok t.
Proof.
  intros Hne E. destruct records as [|r rs]; [done|]. unfold WriteBatch. cbn [no_faults f_exporter f_write].
  rewrite E. destruct (write _ None (b_flows b)); intros [= ->]; done.
Qed.

Lemma resolve_spec order b v e :
  backend_ok b -> resolveExporters (fun _ => false) order (b_exporters b) (b_cache b) = (v, e) ->
  resolver_ok v /\ exp_le (b_exporters b) (v_table v).
Proof.
  intros Hb E. destruct (resolve_loop_spec _ _ _ _ _ (resolver_init_ok b Hb) E) as (? & ? & _). done.
Qed.

Lemma WriteBatch_backend_ok write order records b :
  refines_reference write -> backend_ok b -> backend_ok (WriteBatch write no_faults order records b).1.
Proof.
  intros Hw Hb. destruct (decide (records = [])) as [->|Hne]; [done|].
  destruct (WriteBatch_ok write order records b Hw Hne) as (v & t & Er & -> & Ht). simpl.
  destruct (resolve_spec order b v None Hb Er) as [[? ? ? ?] _]. split; simpl; try done.
  rewrite Ht. apply dedup_rows_index, Hb.
Qed.
End write_batch.

(** ** Claims *)

Section claims.
Context {Row : Type} `{RL : RowLaws Row}.
Context (write : list Row -> option write_error -> table Row -> result write_error (table Row)).
Context (Hwrite : refines_reference write).

Lemma batch_rows_dedup ids records :
  Forall (fun r => DedupKey r <> Some []) records ->
  row_dedup <$> batch_rows ids records = DedupKey <$> records.
Proof.
  intros Hk. unfold batch_rows. rewrite <- list_fmap_compose.
  induction Hk as [|r rs Hr _ IH]; [done|]. rewrite !fmap_cons. f_equal; [|done]. by apply row_dedup_insert.
Qed.

(** Rows of the same records under different ids collide on the index. *)
Lemma represented_ids ids ids' records l :
  Forall (fun r => DedupKey r <> Some []) records -> Forall (fun r => DedupKey r <> None) records ->
  (forall x, x ∈ batch_rows ids records -> represented x l) ->
  (forall x, x ∈ batch_rows ids' records -> represented x l).
Proof.
  intros Hk Hk' Hall x Hx. unfold batch_rows in *.
  apply list_elem_of_fmap in Hx as (r & -> & Hr). rewrite Forall_forall in Hk, Hk'.
  set (y := row_insert r (default 0 (ids !! ExporterAddr r))). set (z := row_insert r _).
  assert (Eyz : same_key z y = true).
  { unfold same_key, y, z. rewrite !row_dedup_insert by auto.
    rewrite bool_decide_eq_true_2 by apply row_received_ids. specialize (Hk' r Hr). destruct (DedupKey r); [|done].
    by rewrite bool_decide_eq_true_2. }
  assert (Hy : represented y l) by (apply Hall, list_elem_of_fmap; by exists r).
  right. destruct Hy as [Hin|E]; apply existsb_exists.
  - exists y. split; [by apply list_elem_of_In|done].
  - apply existsb_exists in E as (w & Hw & Ew). exists w. split; [done|]. by eapply same_key_trans.
Qed.

Lemma redelivery records order order' b :
  Forall (fun r => DedupKey r <> Some []) records -> Forall (fun r => DedupKey r <> None) records ->
  let b1 := (WriteBatch write no_faults order records b).1 in
  values (b_flows (WriteBatch write no_faults order' records b1).1) = values (b_flows b1).
Proof.
  intros Hk Hk'. destruct (decide (records = [])) as [->|Hne]; [done|]. cbv zeta.
  destruct (WriteBatch_ok write order records b Hwrite Hne) as (v & t & Er & E1 & Ht).
  set (b1 := (WriteBatch write no_faults order records b).1).
  destruct (WriteBatch_ok write order' records b1 Hwrite Hne) as (v' & t' & Er' & E2 & Ht').
  rewrite E2. simpl. rewrite Ht'. rewrite dedup_rows_again; [apply app_nil_r| |].
  - apply Forall_forall. intros x Hx. apply list_elem_of_fmap in Hx as (r & -> & Hr).
    rewrite Forall_forall in Hk, Hk'. rewrite row_dedup_insert by auto. auto.
  - apply (represented_ids (v_ids v)); [done..|]. unfold b1. rewrite E1. simpl. rewrite Ht.
    intros x Hx. by apply dedup_rows_represented.
Qed.
End claims.

(** C16. PostgreSQL's COPY with its fallback and MariaDB's chunked INSERT
    IGNORE are the same function of the table and the batch, though one tries
    all rows at once and the other a thousand at a time: when no statement
    fails, both add, in batch order, the rows whose (received_at, dedup_key)
    is not yet present, the first of equal keys winning; the unique index
    holds afterwards and every row without a key is stored. *)
Theorem write_refines_reference {Row} `{RowCodec Row} rows (t : table Row) :
  index_ok (values t) ->
  exists tp tm, pg_write rows None t = Ok tp /\ my_write rows None t = Ok tm /\
    values tp = values tm /\ values tp = values t ++ dedup_rows (values t) rows /\ index_ok (values tp) /\
    filter (fun r => row_dedup r = None) (values tp)
    = filter (fun r => row_dedup r = None) (values t) ++ filter (fun r => row_dedup r = None) rows.
Proof.
  intros Hi. destruct (pg_refines rows t) as (tp & Ep & Hp). destruct (my_refines rows t) as (tm & Em & Hm).
  exists tp, tm. split; [done|]. split; [done|]. split; [by rewrite Hp, Hm|]. split; [done|]. rewrite Hp. split.
  - by apply dedup_rows_index.
  - by rewrite filter_app, dedup_rows_unkeyed.
Qed.

Definition keyed_row (n : Z) (k : option (list byte)) : PgRow :=
  pg_add (set_Bytes n (set_DedupKey k wide_record)) 1.

Definition sample_table : table PgRow := mkTable [(1, keyed_row 10 (Some [7]))] 2.
Definition sample_rows : list PgRow :=
  [keyed_row 20 None; keyed_row 21 (Some [7]); keyed_row 22 (Some [8]); keyed_row 23 None; keyed_row 24 (Some [8])].

Lemma write_refines_reference_witness :
  exists tp, pg_write sample_rows None sample_table = Ok tp /\ index_ok (values tp) /\
  (pg_bytes <$> values tp) = [10; 20; 22; 23].
Proof.
  assert (Hi : index_ok (values sample_table)).
  { intros i j x y Hij Hx Hy. apply lookup_lt_Some in Hy. simpl in Hy. lia. }
  destruct (write_refines_reference sample_rows sample_table Hi) as (tp & tm & Ep & _ & _ & _ & Hix & _).
  exists tp. split; [exact Ep|]. split; [exact Hix|].
  vm_compute in Ep. injection Ep as <-. vm_compute. reflexivity.
Defined.

(** C18. Redelivery is idempotent: for records that carry a dedup key, writing
    the batch a second time, with whatever exporter ids and map order, leaves
    the rows of PostgreSQL and of MariaDB exactly as they were. *)
Theorem redelivery_idempotent records order order' (bp : backend PgRow) (bm : backend MyRow) :
  Forall (fun r => DedupKey r <> None /\ DedupKey r <> Some []) records ->
  let bp1 := (WriteBatch pg_write no_faults order records bp).1 in
  let bm1 := (WriteBatch my_write no_faults order records bm).1 in
  values (b_flows (WriteBatch pg_write no_faults order' records bp1).1) = values (b_flows bp1) /\
  values (b_flows (WriteBatch my_write no_faults order' records bm1).1) = values (b_flows bm1).
Proof.
  intros Hk. assert (Hk1 : Forall (fun r => DedupKey r <> Some []) records)
    by (eapply Forall_impl; [exact Hk|]; by intros r []).
  assert (Hk2 : Forall (fun r => DedupKey r <> None) records)
    by (eapply Forall_impl; [exact Hk|]; by intros r []).
  split; [apply (redelivery pg_write pg_refines); done|apply (redelivery my_write my_refines); done].
Qed.

Definition empty_backend Row : backend Row := mkBackend (mkExpTable ∅ 1) ∅ (mkTable [] 1).

Definition sample_records : list FlowRecord :=
  [set_DedupKey (Some [1]) wide_record; set_DedupKey (Some [2]) wide_record; set_DedupKey (Some [1]) wide_record].

Definition sample_order : list (Addr * Time) := map_to_list (seen_of sample_records).

Lemma redelivery_idempotent_witness :
  let b1 := (WriteBatch pg_write no_faults sample_order sample_records (empty_backend PgRow)).1 in
  length (values (b_flows b1)) = 2%nat /\
  values (b_flows (WriteBatch pg_write no_faults sample_order sample_records b1).1) = values (b_flows b1).
Proof.
  split; [vm_compute; reflexivity|].
  apply (redelivery_idempotent sample_records sample_order sample_order (empty_backend PgRow) (empty_backend MyRow)).
  repeat constructor; discriminate.
Defined.

(** Ids of a batch, as the table gives them. *)
Lemma resolve_batch {Row} `{RowCodec Row} order records (b : backend Row) v e :
  backend_ok b -> enumerates order records -> Forall (fun r => time_wf (ReceivedAt r)) records ->
  resolveExporters (fun _ => false) order (b_exporters b) (b_cache b) = (v, e) ->
  e = None /\ resolver_ok v /\ exp_le (b_exporters b) (v_table v) /\
  forall r, r ∈ records -> exists x, v_ids v !! ExporterAddr r = Some (x_id x) /\
    x_rows (v_table v) !! ExporterAddr r = Some x /\ time_le (micro (ReceivedAt r)) (x_last x).
Proof.
  intros Hb Hen Hw E.
  assert (He : e = None).
  { pose proof (resolve_no_faults order (mkResolver (b_exporters b) (b_cache b) ∅)) as N.
    unfold resolveExporters in E. by rewrite E in N. }
  destruct (resolve_loop_spec _ _ _ _ _ (resolver_init_ok b Hb) E) as (Hv & Hle & _ & Hall).
  split_and!; try done. intros r Hr. destruct (seen_of_spec records Hw) as [Hseen _].
  destruct (Hseen r Hr) as (t & Hlk & Hlt).
  assert (Hin : (ExporterAddr r, t) ∈ order) by (rewrite Hen; by apply elem_of_map_to_list).
  destruct (Hall He _ _ Hin) as ([id Hid] & x & Hx & Hxl). exists x.
  destruct (ro_ids _ Hv _ _ Hid) as (x' & Hx' & Eid). rewrite Hx in Hx'. injection Hx' as <-.
  split; [by rewrite Hid, Eid|]. split; [done|]. by eapply time_le_trans.
Qed.

(** Exporters: in whatever order the map is ranged over, every record's
    row is written with the id of its own exporter, distinct exporters have
    distinct ids, an exporter's last sight is at least the reception time of
    each of its records in the batch, no exporter's id or first sight ever
    changes, and the cache stays consistent with the table and within 4096
    entries. *)
Theorem exporters_resolved {Row} `{RowCodec Row} order records (b : backend Row) v e :
  backend_ok b -> enumerates order records -> Forall (fun r => time_wf (ReceivedAt r)) records ->
  resolveExporters (fun _ => false) order (b_exporters b) (b_cache b) = (v, e) ->
  e = None /\ exp_ok (v_table v) /\ cache_ok (v_cache v) (v_table v) /\ (size (v_cache v) <= cacheCap)%nat /\
  exp_le (b_exporters b) (v_table v) /\
  forall r, r ∈ records -> exists x, v_ids v !! ExporterAddr r = Some (x_id x) /\
    x_rows (v_table v) !! ExporterAddr r = Some x /\ time_le (micro (ReceivedAt r)) (x_last x).
Proof.
  intros Hb Hen Hw E. destruct (resolve_batch order records b v e Hb Hen Hw E) as (He & [Ht Hc Hs _] & Hle & Hall).
  by split_and!.
Qed.

Lemma exporters_resolved_witness :
  exists v, resolveExporters (fun _ => false) sample_order (mkExpTable ∅ 1) ∅ = (v, None) /\
  v_ids v !! ExporterAddr wide_record = Some 1 /\ exp_ok (v_table v).
Proof.
  destruct (resolveExporters (fun _ => false) sample_order (mkExpTable ∅ 1) ∅) as [v e] eqn:E.
  assert (Hb : backend_ok (empty_backend PgRow)).
  { split; simpl; [split; simpl|intros a id Ha; by rewrite lookup_empty in Ha|vm_compute; lia|].
    - intros a b r s Ha. by rewrite lookup_empty in Ha.
    - intros a r Ha. by rewrite lookup_empty in Ha.
    - intros i j x y Hij Hx. apply lookup_lt_Some in Hx. simpl in Hx. lia. }
  destruct (exporters_resolved sample_order sample_records (empty_backend PgRow) v e Hb) as (-> & Ht & _).
  - unfold enumerates, sample_order. reflexivity.
  - repeat constructor; vm_compute; congruence.
  - exact E.
  - exists v. split; [reflexivity|]. split; [|exact Ht]. vm_compute in E. injection E as <-. vm_compute. reflexivity.
Defined.
