(* ===== verification/Query.v ===== *)
(** * Queries: [Query] of the three backends

    One page in the order [(received_at DESC, seq DESC)], with a keyset cursor
    over the same pair. The database is the list of its live rows, each with
    its sequence, already read back as a record (for ClickHouse, the rows that
    [FINAL] keeps). The backends differ in how an address filter compares, in
    the type of the sequence and in the unit of the cursor's time. *)

From S2P Require Import Prelude GoTime Netip Flow Text Json Cursor Rows.

Definition defaultLimit : Z := 100.
Definition maxLimit : Z := 1000.

Definition clampLimit (n : Z) : Z :=
  let limit := if n <=? 0 then defaultLimit else n in
  if maxLimit <? limit then maxLimit else limit.

Inductive backend_kind := Postgres | MariaDB | ClickHouse.

Definition seq_kind_of (k : backend_kind) : seq_kind :=
  match k with ClickHouse => SeqUint64 | _ => SeqInt64 end.

(** [inet] equality, byte equality, equality of the 16-byte forms. *)
Definition addr_eq (k : backend_kind) (a b : Addr) : bool :=
  match k with
  | Postgres => bool_decide (a = b)
  | MariaDB => bool_decide (AsSlice a = AsSlice b)
  | ClickHouse => bool_decide (As16 a = As16 b)
  end.

Definition cursor_T (k : backend_kind) (t : Time) : Z :=
  match k with ClickHouse => UnixMicro t | _ => UnixNano t end.

(** [cursor.at], and ClickHouse's [fromUnixTimestamp64Micro]. *)
Definition cursor_at (k : backend_kind) (n : Z) : Time :=
  match k with
  | ClickHouse => Unix (n / 1000000) (n mod 1000000 * 1000)
  | _ => Unix 0 n
  end.

Record row := mkRow { r_seq : Z; r_rec : FlowRecord }.
Definition r_time (x : row) : Time := ReceivedAt (r_rec x).

(** The row comparison [(received_at, seq) < (t, s)]. *)
Definition before (t : Time) (s : Z) (x : row) : bool :=
  Before (r_time x) t || (bool_decide (r_time x = t) && (r_seq x <? s)).

(** A bound of the time range as the server compares it. PostgreSQL and MariaDB
    are sent the time, and a time parameter has microseconds there; ClickHouse is
    sent integer microseconds. *)
Definition bound (k : backend_kind) (t : Time) : Time :=
  match k with ClickHouse => cursor_at ClickHouse (UnixMicro t) | _ => TruncateMicro (UTC t) end.

(** The cursor's time as the server compares it. *)
Definition cursor_bound (k : backend_kind) (n : Z) : Time :=
  match k with ClickHouse => cursor_at ClickHouse n | _ => TruncateMicro (cursor_at k n) end.

(** The WHERE clause without the cursor; a zero or invalid field is no filter. *)
Definition matches (k : backend_kind) (q : FlowQuery) (x : row) : bool :=
  let r := r_rec x in
  negb (Before (ReceivedAt r) (bound k (q_Start q))) && Before (ReceivedAt r) (bound k (q_End q))
  && ((q_ExporterID q =? 0) || (ExporterID r =? q_ExporterID q))
  && (negb (IsValid (q_SrcAddr q)) || addr_eq k (SrcAddr r) (q_SrcAddr q))
  && (negb (IsValid (q_DstAddr q)) || addr_eq k (DstAddr r) (q_DstAddr q))
  && match q_Protocol q with None => true | Some p => Protocol r =? p end.

(** ORDER BY received_at DESC, seq DESC. *)
Definition row_ge (x y : row) : Prop := before (r_time y) (r_seq y) x = false.

#[global] Instance row_ge_dec x y : Decision (row_ge x y).
Proof. unfold row_ge. apply _. Defined.

Definition ordered (rows : list row) : list row := merge_sort row_ge rows.

(** The loop over the result set, which has at most [limit + 1] rows. *)
Fixpoint read_page (limit : nat) (rows : list row) (acc : list row) : list row * bool :=
  match rows with
  | [] => (acc, false)
  | x :: rest =>
    if (length acc =? limit)%nat then (acc, true) else read_page limit rest (acc ++ [x])
  end.

Inductive query_error := ErrBadCursor.

Definition Query (k : backend_kind) (q : FlowQuery) (rows : list row) : result query_error FlowResultPage :=
  let limit := clampLimit (q_Limit q) in
  let where_ := List.filter (matches k q) rows in
  let page (sel : list row) :=
    let '(recs, more) := read_page (Z.to_nat limit) (take (Z.to_nat (limit + 1)) (ordered sel)) [] in
    let next := match last recs with
                | Some x => if more then st (encodeCursor (mkCursor (cursor_T k (r_time x)) (r_seq x))) else ""%string
                | None => ""%string
                end in
    Ok (mkFlowResultPage (r_rec <$> recs) next more) in
  if bool_decide (q_Cursor q = ""%string) then page where_
  else
    match decodeCursor (seq_kind_of k) (tx (q_Cursor q)) with
    | None => Err ErrBadCursor
    | Some c => page (List.filter (before (cursor_bound k (c_T c)) (c_Seq c)) where_)
    end.

Definition pg_Query : FlowQuery -> list row -> result query_error FlowResultPage := Query Postgres.
Definition my_Query : FlowQuery -> list row -> result query_error FlowResultPage := Query MariaDB.
Definition ch_Query : FlowQuery -> list row -> result query_error FlowResultPage := Query ClickHouse.

Definition with_cursor (q : FlowQuery) (c : string) : FlowQuery :=
  mkFlowQuery (q_Start q) (q_End q) (q_ExporterID q) (q_SrcAddr q) (q_DstAddr q) (q_Protocol q) (q_Limit q) c.

(** A client that follows the cursors to the end. *)
Fixpoint crawl (fuel : nat) (k : backend_kind) (q : FlowQuery) (rows : list row) : option (list FlowRecord) :=
  match fuel with
  | O => None
  | S f =>
    match Query k q rows with
    | Err _ => None
    | Ok page =>
      if HasMore page then (app (Records page)) <$> crawl f k (with_cursor q (NextCursor page)) rows
      else Some (Records page)
    end
  end.

(** ** The order *)

(** Rows as the databases hold them: reception times of whole microseconds
    that the cursor's unit can express, sequences in their type, and the
    primary key [(received_at, seq)]. *)
Definition row_ok (k : backend_kind) (x : row) : Prop :=
  time_wf (r_time x) /\ whole_micro (r_time x) /\ seq_in (seq_kind_of k) (r_seq x) /\
  match k with ClickHouse => unix_micro_range (r_time x) | _ => unix_nano_range (r_time x) end.

Definition keys_unique (rows : list row) : Prop := NoDup ((fun x => (sec (r_time x), nsec (r_time x), r_seq x)) <$> rows).

Definition gt_key (x y : row) : Prop := before (r_time x) (r_seq x) y = true.

Lemma Time_ext t u : sec t = sec u -> nsec t = nsec u -> t = u.
Proof. destruct t, u; simpl; congruence. Qed.

Lemma before_spec t s x :
  before t s x = true <->
  sec (r_time x) < sec t \/ sec (r_time x) = sec t /\
  (nsec (r_time x) < nsec t \/ nsec (r_time x) = nsec t /\ r_seq x < s).
Proof.
  unfold before, Before, After. rewrite !orb_true_iff, !andb_true_iff, !Z.ltb_lt, !Z.eqb_eq, bool_decide_eq_true.
  split.
  - intros [[H|[H1 H2]]|[H1 H2]]; [by left|right; split; [lia|by left]|subst t; lia].
  - intros [H|[H1 [H2|[H2 H3]]]]; [by left; left|left; right; lia|].
    right. split; [by apply Time_ext|done].
Qed.

#[global] Instance row_ge_total : Total row_ge.
Proof.
  intros x y. unfold row_ge.
  destruct (before (r_time y) (r_seq y) x) eqn:E1; [|by left]. right. apply not_true_iff_false. intros E2.
  apply before_spec in E1, E2. lia.
Qed.

#[global] Instance row_ge_trans : Transitive row_ge.
Proof.
  unfold row_ge. intros x y z Hxy Hyz. rewrite <- not_true_iff_false, before_spec in *. lia.
Qed.

Lemma ordered_perm rows : ordered rows ≡ₚ rows.
Proof. apply merge_sort_Permutation. Qed.

Lemma ordered_sorted rows : keys_unique rows -> StronglySorted gt_key (ordered rows).
Proof.
  intros Hu. pose proof (StronglySorted_merge_sort row_ge rows) as Hs.
  assert (Hn : keys_unique (ordered rows)) by (unfold keys_unique in *; by rewrite ordered_perm).
  unfold ordered in *. induction Hs as [|x l _ IH Hx]; [constructor|].
  unfold keys_unique in Hn. rewrite fmap_cons in Hn. apply NoDup_cons in Hn as [Hni Hn]. constructor; [by apply IH|].
  rewrite Forall_forall in *. intros y Hy. specialize (Hx y Hy). unfold row_ge in Hx. unfold gt_key.
  rewrite <- not_true_iff_false, before_spec in Hx. apply before_spec.
  assert (Hne : (sec (r_time x), nsec (r_time x), r_seq x) <> (sec (r_time y), nsec (r_time y), r_seq y)).
  { intros E. apply Hni, list_elem_of_fmap. by exists y. }
  destruct (decide (sec (r_time x) = sec (r_time y))), (decide (nsec (r_time x) = nsec (r_time y))),
    (decide (r_seq x = r_seq y)); try lia. congruence.
Qed.

Lemma gt_key_irrefl x : ~ gt_key x x.
Proof. unfold gt_key. rewrite before_spec. lia. Qed.

#[global] Instance gt_key_trans : Transitive gt_key.
Proof. unfold gt_key. intros x y z. rewrite !before_spec. lia. Qed.

#[global] Instance row_eq_dec : EqDecision row.
Proof. solve_decision. Defined.

(** A strictly sorted list is determined by its elements. *)
Lemma sorted_unique l l' : StronglySorted gt_key l -> StronglySorted gt_key l' -> l ≡ₚ l' -> l = l'.
Proof.
  intros Hl. revert l'. induction Hl as [|x l Hl IH Hx]; intros l' Hl' Hp.
  - by apply Permutation_nil_l in Hp.
  - destruct Hl' as [|y l' Hl' Hy]; [by apply Permutation_nil_r in Hp|].
    assert (x = y) as <-.
    { rewrite Forall_forall in Hx, Hy.
      assert (Hxin : x ∈ y :: l') by (rewrite <- Hp; by left). assert (Hyin : y ∈ x :: l) by (rewrite Hp; by left).
      apply elem_of_cons in Hxin as [|Hxin]; [done|]. apply elem_of_cons in Hyin as [|Hyin]; [done|].
      destruct (gt_key_irrefl x). etrans; [by apply Hx|by apply Hy]. }
    f_equal. apply IH; [done|]. by eapply Permutation_cons_inv.
Qed.

Lemma filter_list_perm (f : row -> bool) l l' : l ≡ₚ l' -> List.filter f l ≡ₚ List.filter f l'.
Proof.
  induction 1; simpl; [done| | |by etrans].
  - destruct (f x); [by apply Permutation_skip|done].
  - destruct (f x), (f y); try done. apply Permutation_swap.
Qed.

Lemma StronglySorted_listfilter (f : row -> bool) l :
  StronglySorted gt_key l -> StronglySorted gt_key (List.filter f l).
Proof.
  induction 1 as [|x l _ IH Hx]; simpl; [constructor|]. destruct (f x); [|done]. constructor; [done|].
  rewrite Forall_forall in *. intros y Hy. apply Hx. rewrite list_elem_of_In in *. by apply filter_In in Hy as [? _].
Qed.

Lemma keys_unique_filter f rows : keys_unique rows -> keys_unique (List.filter f rows).
Proof.
  unfold keys_unique. induction rows as [|x rows IH]; simpl; [done|].
  intros [Hn Hu]%NoDup_cons. destruct (f x); [|by apply IH]. rewrite fmap_cons. apply NoDup_cons. split; [|by apply IH].
  intros (y & E & Hy)%list_elem_of_fmap. apply Hn, list_elem_of_fmap. exists y. split; [done|].
  rewrite list_elem_of_In in *. by apply filter_In in Hy as [? _].
Qed.

(** Selecting before a key and ordering commute. *)
Lemma ordered_filter f rows :
  keys_unique rows -> ordered (List.filter f rows) = List.filter f (ordered rows).
Proof.
  intros Hu. apply sorted_unique.
  - by apply ordered_sorted, keys_unique_filter.
  - by apply StronglySorted_listfilter, ordered_sorted.
  - rewrite ordered_perm. apply filter_list_perm. symmetry. apply ordered_perm.
Qed.

(** In descending order, what comes before a row's key is what follows it. *)
Lemma filter_after l x l' :
  StronglySorted gt_key (l ++ x :: l') -> List.filter (before (r_time x) (r_seq x)) (l ++ x :: l') = l'.
Proof.
  intros Hs. rewrite List.filter_app. apply StronglySorted_app in Hs as (Hlx & _ & Hs).
  assert (El : List.filter (before (r_time x) (r_seq x)) l = []).
  { assert (Hl : forall y, y ∈ l -> gt_key y x) by (intros y Hy; apply Hlx; [done|by left]).
    clear -Hl. induction l as [|y l IH]; simpl; [done|].
    destruct (before (r_time x) (r_seq x) y) eqn:E; [|apply IH; intros; apply Hl; by right].
    destruct (gt_key_irrefl x). etrans; [exact E|apply Hl; by left]. }
  rewrite El. cbn [List.filter app]. destruct (before (r_time x) (r_seq x) x) eqn:E; [by apply gt_key_irrefl in E|].
  inversion Hs as [|x0 l0 _ Hx E1]. subst x0 l0. clear -Hx. rewrite Forall_forall in Hx.
  induction l' as [|y l' IH]; simpl; [done|]. assert (Ey : before (r_time x) (r_seq x) y = true) by (apply Hx; by left).
  rewrite Ey. f_equal. apply IH. intros z Hz. apply Hx. by right.
Qed.

(** ** Pages *)

Lemma read_page_spec limit rows acc :
  (length acc <= limit)%nat ->
  read_page limit rows acc = (acc ++ take (limit - length acc) rows, bool_decide (limit - length acc < length rows)%nat).
Proof.
  revert acc. induction rows as [|x rows IH]; intros acc Ha; cbn [read_page length].
  - rewrite take_nil, app_nil_r. by rewrite bool_decide_eq_false_2 by lia.
  - destruct (Nat.eqb_spec (length acc) limit) as [E|E].
    + rewrite E, Nat.sub_diag, bool_decide_eq_true_2 by lia. by rewrite take_0, app_nil_r.
    + rewrite IH by (rewrite length_app; simpl; lia). rewrite length_app. simpl length.
      replace (limit - length acc)%nat with (S (limit - (length acc + 1))) by lia. f_equal.
      * cbn [take]. by rewrite <- app_assoc.
      * apply bool_decide_ext. lia.
Qed.

Lemma clampLimit_range n : 1 <= clampLimit n <= 1000.
Proof. unfold clampLimit, maxLimit, defaultLimit. repeat case_match; lia. Qed.

Lemma cursor_T_sint k t : is_sint 64 (cursor_T k t).
Proof. destruct k; apply wrap_s_range; lia. Qed.

Lemma cursor_at_T k x : row_ok k x -> cursor_at k (cursor_T k (r_time x)) = r_time x.
Proof.
  intros (Hw & Hm & _ & Hr). destruct k; simpl in *; [by apply Unix_UnixNano..|].
  destruct (r_time x) as [s n]. unfold unix_micro_range, UnixMicro, UnixSec, whole_micro, time_wf, Microsecond, Second in *.
  cbn [sec nsec] in *. destruct Hw as [Hs Hn], Hr as [Hr1 Hr2].
  rewrite (wrap_s_small 64 (s - unixToInternal)) in * by (done || lia).
  rewrite wrap_s_small by (done || lia). pose proof (Z.div_mod n 1000).
  assert (Hq : 0 <= n / 1000 < 1000000) by (split; [apply Z.div_pos; lia|apply Z.div_lt_upper_bound; lia]).
  rewrite Z.div_add_l, (Z.div_small (n / 1000)) by lia.
  rewrite (Z.add_comm ((s - unixToInternal) * 1000000)), Z.mod_add, (Z.mod_small (n / 1000)) by lia.
  unfold Unix, Second.
  rewrite (Z.div_small (_ * 1000)), (Z.mod_small (_ * 1000)) by lia.
  rewrite wrap_s_small; [|lia|]; [f_equal; lia|]. unfold is_sint in *. lia.
Qed.

Lemma cursor_bound_T k x : row_ok k x -> cursor_bound k (cursor_T k (r_time x)) = r_time x.
Proof.
  intros H. pose proof (cursor_at_T k x H) as E. destruct H as (_ & Hm & _). unfold cursor_bound.
  destruct k; rewrite E; [by apply TruncateMicro_id..|done].
Qed.
