(* ===== verification/QueryThms.v ===== *)
(** * Properties of queries and cursors *)

From S2P Require Import Prelude GoTime Netip Flow Text Json Cursor Rows Query.

Lemma encodeCursor_nonempty c : st (encodeCursor c) <> ""%string.
Proof.
  intros E. apply (f_equal tx) in E. rewrite tx_st in E. unfold encodeCursor, cursor_json, bytes_of in E.
  assert (H : exists x y z r, print_json (JObj [(tx "t", JNum (print_int (c_T c))); (tx "s", JNum (print_int (c_Seq c)))]) = x :: y :: z :: r)
    by (do 4 eexists; reflexivity).
  destruct H as (x & y & z & r & H). rewrite H in E. done.
Qed.

Section pages.
Context (k : backend_kind) (rows : list row) (q : FlowQuery).
Context (Hu : keys_unique rows) (Hok : Forall (row_ok k) rows).

(** The whole answer, in order. *)
Definition answer : list row := ordered (List.filter (matches k q) rows).

Lemma answer_sorted : StronglySorted gt_key answer.
Proof. by apply ordered_sorted, keys_unique_filter. Qed.

Lemma answer_ok x : x ∈ answer -> row_ok k x.
Proof.
  unfold answer. rewrite ordered_perm. intros Hx. rewrite list_elem_of_In in Hx. apply filter_In in Hx as [Hx _].
  rewrite Forall_forall in Hok. by apply Hok, list_elem_of_In.
Qed.

(** A cursor that selects the rest [suf] of the answer. *)
Definition selects (c : string) (suf : list row) : Prop :=
  (c = ""%string /\ suf = answer) \/
  (c <> ""%string /\ exists t s, decodeCursor (seq_kind_of k) (tx c) = Some (mkCursor t s) /\
     ordered (List.filter (before (cursor_bound k t) s) (List.filter (matches k q) rows)) = suf).

Definition page_of (suf : list row) : FlowResultPage :=
  let limit := Z.to_nat (clampLimit (q_Limit q)) in
  let recs := take limit suf in
  let more := bool_decide (limit < length suf)%nat in
  mkFlowResultPage (r_rec <$> recs)
    (match last recs with
     | Some x => if more then st (encodeCursor (mkCursor (cursor_T k (r_time x)) (r_seq x))) else ""%string
     | None => ""%string
     end) more.

Lemma read_page_take limit (s : list row) :
  read_page limit (take (limit + 1) s) [] = (take limit s, bool_decide (limit < length s)%nat).
Proof.
  rewrite read_page_spec by (simpl; lia). simpl. rewrite Nat.sub_0_r, take_take, Nat.min_l by lia. f_equal.
  apply bool_decide_ext. rewrite length_take. lia.
Qed.

Lemma Query_selects c suf : selects c suf -> Query k (with_cursor q c) rows = Ok (page_of suf).
Proof.
  pose proof (clampLimit_range (q_Limit q)) as Hl. intros Hc. unfold Query. cbn [with_cursor q_Cursor q_Limit].
  replace (Z.to_nat (clampLimit (q_Limit q) + 1)) with (Z.to_nat (clampLimit (q_Limit q)) + 1)%nat by lia.
  change (matches k (with_cursor q c)) with (matches k q).
  destruct Hc as [[-> ->]|(Hne & t & s & Hd & Hs)].
  - rewrite bool_decide_eq_true_2 by done. fold answer. rewrite read_page_take. done.
  - rewrite bool_decide_eq_false_2 by done. rewrite Hd. cbn [c_T c_Seq]. rewrite Hs, read_page_take. done.
Qed.

(** The cursor of a full page selects what follows the page. *)
Lemma next_selects pre suf :
  answer = pre ++ suf -> HasMore (page_of suf) = true ->
  selects (NextCursor (page_of suf)) (drop (Z.to_nat (clampLimit (q_Limit q))) suf).
Proof.
  pose proof (clampLimit_range (q_Limit q)) as Hl. intros Ea. unfold page_of. cbn [HasMore NextCursor].
  set (n := Z.to_nat (clampLimit (q_Limit q))) in *. intros Hm. rewrite Hm. apply bool_decide_eq_true in Hm.
  assert (Hn : (0 < n)%nat) by lia.
  assert (Hne : take n suf <> []).
  { intros Et. apply (f_equal length) in Et. rewrite length_take in Et. simpl in Et. lia. }
  destruct (exists_last Hne) as (l & x & Et). rewrite Et, last_snoc.
  assert (Esuf : suf = l ++ x :: drop n suf).
  { rewrite <- (take_drop n suf) at 1. rewrite Et, <- app_assoc. done. }
  assert (Hx : x ∈ answer) by (rewrite Ea, Esuf; apply elem_of_app; right; apply elem_of_app; right; by left).
  pose proof (answer_ok x Hx) as Hrow. assert (Hrow' := Hrow). destruct Hrow' as (_ & _ & Hseq & _).
  set (c := mkCursor (cursor_T k (r_time x)) (r_seq x)).
  assert (Hd : decodeCursor (seq_kind_of k) (encodeCursor c) = Some c)
    by (apply cursor_roundtrip; [apply cursor_T_sint|done]).
  right. split.
  - intros E. apply (f_equal tx) in E. rewrite tx_st in E. by rewrite E in Hd.
  - exists (cursor_T k (r_time x)), (r_seq x). rewrite tx_st. split; [done|].
    rewrite cursor_bound_T by done. rewrite ordered_filter by (by apply keys_unique_filter). fold answer.
    assert (Eall : answer = (pre ++ l) ++ x :: drop n suf) by (by rewrite Ea, Esuf at 1; rewrite app_assoc).
    pose proof answer_sorted as Hs. rewrite Eall in Hs |- *. by apply filter_after.
Qed.

(** A cursor is given exactly when more rows follow. *)
Lemma NextCursor_iff suf : NextCursor (page_of suf) <> ""%string <-> HasMore (page_of suf) = true.
Proof.
  pose proof (clampLimit_range (q_Limit q)) as Hl. unfold page_of. cbn [HasMore NextCursor].
  destruct (bool_decide _) eqn:Hm; [|by destruct (last _)]. split; [done|intros _].
  apply bool_decide_eq_true in Hm.
  destruct (last (take _ suf)) eqn:E; [apply encodeCursor_nonempty|].
  apply last_None, (f_equal length) in E. rewrite length_take in E. simpl in E. lia.
Qed.

Lemma crawl_suffix fuel c pre suf :
  selects c suf -> answer = pre ++ suf -> (length suf < fuel)%nat ->
  crawl fuel k (with_cursor q c) rows = Some (r_rec <$> suf).
Proof.
  pose proof (clampLimit_range (q_Limit q)) as Hl. revert c pre suf.
  induction fuel as [|f IH]; intros c pre suf Hc Ea Hf; [lia|].
  cbn [crawl]. rewrite (Query_selects c suf Hc). set (n := Z.to_nat (clampLimit (q_Limit q))).
  destruct (HasMore (page_of suf)) eqn:Hm.
  - change (with_cursor (with_cursor q c) (NextCursor (page_of suf))) with (with_cursor q (NextCursor (page_of suf))).
    rewrite (IH _ (pre ++ take n suf) (drop n suf)).
    + simpl. rewrite <- fmap_app. fold n. by rewrite take_drop.
    + by apply (next_selects pre).
    + by rewrite <- app_assoc, take_drop.
    + rewrite length_drop. unfold page_of in Hm. cbn [HasMore] in Hm. apply bool_decide_eq_true in Hm. fold n in Hm. lia.
  - unfold page_of in *. cbn [HasMore Records] in *. apply bool_decide_eq_false in Hm. fold n in Hm |- *.
    by rewrite take_ge by lia.
Qed.

Lemma crawl_answer fuel :
  q_Cursor q = ""%string -> (length rows < fuel)%nat -> crawl fuel k q rows = Some (r_rec <$> answer).
Proof.
  intros Hq Hf. assert (E : with_cursor q "" = q) by (destruct q; simpl in *; by subst).
  rewrite <- E. apply (crawl_suffix fuel "" [] answer); [by left|done|].
  unfold answer. rewrite ordered_perm. pose proof (filter_length_le (matches k q) rows). lia.
Qed.
End pages.

(** C22. Pagination is exact on every backend: a client that starts without
    a cursor and follows NextCursor while HasMore gets, page by page, exactly
    the rows the filters select, newest first, each row once and none left
    out, provided (received_at, seq) is a key and reception times fit the
    cursor's unit; a page never exceeds the clamped limit, which is between 1
    and 1000. *)
Theorem pagination_exact k rows q fuel :
  keys_unique rows -> Forall (row_ok k) rows -> q_Cursor q = ""%string -> (length rows < fuel)%nat ->
  crawl fuel k q rows = Some (r_rec <$> ordered (List.filter (matches k q) rows)) /\
  1 <= clampLimit (q_Limit q) <= 1000 /\
  exists page, Query k q rows = Ok page /\ Z.of_nat (length (Records page)) <= clampLimit (q_Limit q).
Proof.
  intros Hu Hok Hq Hf. split; [by apply crawl_answer|]. split; [apply clampLimit_range|].
  assert (E : with_cursor q "" = q) by (destruct q; simpl in *; by subst).
  exists (page_of k q (answer k rows q)). split.
  - rewrite <- E at 1. apply Query_selects. by left.
  - unfold page_of. cbn [Records]. rewrite length_fmap, length_take.
    pose proof (clampLimit_range (q_Limit q)). lia.
Qed.

Definition sample_row (i : Z) : row :=
  mkRow i (set_ReceivedAt (Unix (1700000000 + i / 3) 0) wide_record).
Definition sample_db : list row := sample_row <$> [3; 1; 4; 0; 5; 9; 2; 6; 8; 7].
Definition sample_query : FlowQuery :=
  mkFlowQuery (Unix 1700000000 0) (Unix 1700000003 0) 0 AddrZero AddrZero (Some 255) 4 "".

Lemma pagination_exact_witness :
  crawl 11 ClickHouse sample_query sample_db
  = Some (r_rec <$> ordered (List.filter (matches ClickHouse sample_query) sample_db)) /\
  (r_seq <$> ordered (List.filter (matches ClickHouse sample_query) sample_db)) = [8; 7; 6; 5; 4; 3; 2; 1; 0].
Proof.
  split; [|vm_compute; reflexivity].
  apply (pagination_exact ClickHouse sample_db sample_query 11).
  - apply (bool_decide_unpack _). vm_compute. exact I.
  - repeat constructor; vm_compute; congruence.
  - reflexivity.
  - vm_compute. lia.
Defined.

(** A cursor token decodes to the cursor it was made from, for every
    64-bit time and every sequence of the backend's type, through JSON and
    unpadded URL-safe base64. *)
Theorem cursor_token_roundtrip k c :
  is_sint 64 (c_T c) -> seq_in k (c_Seq c) -> decodeCursor k (encodeCursor c) = Some c.
Proof. apply cursor_roundtrip. Qed.

Lemma cursor_token_roundtrip_witness :
  decodeCursor SeqUint64 (encodeCursor (mkCursor (- 2 ^ 63) (2 ^ 64 - 1))) = Some (mkCursor (- 2 ^ 63) (2 ^ 64 - 1)).
Proof. apply (cursor_token_roundtrip SeqUint64 (mkCursor (- 2 ^ 63) (2 ^ 64 - 1))); vm_compute; intuition congruence. Defined.
