(* ===== verification/Sql.v ===== *)
(** * The SQL that the backends send ([Query] and the inserts)

    [Query] models what a query answers; here the statement text is built as
    the code builds it, clause by clause with its argument list, and read by
    a small reader of the fragment of SQL the texts are written in:
    placeholders are resolved by number ([$n]) or by position ([?]), columns
    by name. [SqlThms] shows that the two agree. *)

From S2P Require Import Prelude GoTime Netip Flow Text Strings NetipText Json Cursor Rows Query.

(** ** Values, tokens, statements *)

Inductive sql_value :=
| VNull
| VTime (t : Time)
| VInt (n : Z)
| VText (s : text)
| VBytes (b : list byte)
| VInet (a : Addr).

#[global] Instance sql_value_eq_dec : EqDecision sql_value.
Proof. solve_decision. Defined.

Inductive token :=
| TWord (w : text)
| TPunct (c : ascii)
| TParam (n : nat).       (* numbered from 1; 0 is a question mark *)

#[global] Instance token_eq_dec : EqDecision token.
Proof. solve_decision. Defined.

Definition is_punct (c : ascii) : bool := bool_decide (c ∈ tx "(),").
Definition is_blank (c : ascii) : bool := (ord c =? 32) || (ord c =? 10).

Definition word_token (w : text) : token :=
  match w with
  | "$"%char :: ds => (* a cast may follow the number *)
    match dec_digits (match Cut ":" ds with Some (d, _) => d | None => ds end) with Some l => TParam (Z.to_nat (digits_val 10 l)) | None => TWord w end
  | _ => if bool_decide (w = tx "?") then TParam 0 else TWord w
  end.

Definition flush_word (acc : text) (ts : list token) : list token :=
  match acc with [] => ts | _ => word_token (rev acc) :: ts end.

Fixpoint lex (acc : text) (s : text) : list token :=
  match s with
  | [] => flush_word acc []
  | c :: rest =>
    if is_blank c then flush_word acc (lex [] rest)
    else if is_punct c then flush_word acc (TPunct c :: lex [] rest)
    else lex (c :: acc) rest
  end.

(** Question marks take their numbers from their positions. *)
Fixpoint number_params (next : nat) (ts : list token) : list token :=
  match ts with
  | [] => []
  | TParam 0 :: rest => TParam next :: number_params (S next) rest
  | t :: rest => t :: number_params next rest
  end.

Definition tokens (s : text) : list token := number_params 1 (lex [] s).

Inductive operand :=
| OCol (c : text)
| OArg (n : nat)
| OCall (f : text) (n : nat)
| OPair (a b : operand).

Record cond := mkCond { c_lhs : operand; c_op : text; c_rhs : operand }.

(** [column DESC], a bound on the number of rows. *)
Record select := mkSelect {
  s_columns : list text;
  s_from : list token;
  s_where : list cond;
  s_order : list token;
  s_limit : operand
}.

(** ** The reader *)

Definition parse_simple (ts : list token) : option (operand * list token) :=
  match ts with
  | TParam n :: r => Some (OArg n, r)
  | TWord f :: TPunct "("%char :: TParam n :: TPunct ")"%char :: r => Some (OCall f n, r)
  | TWord c :: r => Some (OCol c, r)
  | _ => None
  end.

Definition parse_operand (ts : list token) : option (operand * list token) :=
  match ts with
  | TPunct "("%char :: r =>
    match parse_simple r with
    | Some (a, TPunct ","%char :: r') =>
      match parse_simple r' with
      | Some (b, TPunct ")"%char :: r'') => Some (OPair a b, r'')
      | _ => None
      end
    | _ => None
    end
  | _ => parse_simple ts
  end.

Definition parse_cond (ts : list token) : option cond :=
  match parse_operand ts with
  | Some (l, TWord op :: r) =>
    match parse_operand r with
    | Some (x, []) => Some (mkCond l op x)
    | _ => None
    end
  | _ => None
  end.

(** Splits at every occurrence of a token. *)
Fixpoint split_at (sep : token) (acc : list token) (ts : list token) : list (list token) :=
  match ts with
  | [] => [rev acc]
  | t :: r => if bool_decide (t = sep) then rev acc :: split_at sep [] r else split_at sep (t :: acc) r
  end.

Definition word (s : string) : token := TWord (tx s).

Definition column_list (ts : list token) : option (list text) :=
  mapM (fun g => match g with [TWord c] => Some c | _ => None end) (split_at (TPunct ",") [] ts).

Definition parse_select (s : text) : option select :=
  match split_at (word "WHERE") [] (tokens s) with
  | [head; tail] =>
    match split_at (word "FROM") [] head, split_at (word "ORDER") [] tail with
    | [sel :: cols; from], [conds; by_ :: order] =>
      match split_at (word "LIMIT") [] order with
      | [keys; lim] =>
        if negb (bool_decide (sel = word "SELECT") && bool_decide (by_ = word "BY")) then None else
        match column_list cols, mapM parse_cond (split_at (word "AND") [] conds), parse_simple lim with
        | Some cs, Some ws, Some (l, []) => Some (mkSelect cs from ws keys l)
        | _, _, _ => None
        end
      | _ => None
      end
    | _, _ => None
    end
  | _ => None
  end.

(** ** What a statement selects *)

(** [fromUnixTimestamp64Micro], [toIPv6]. *)
Definition call (f : text) (v : sql_value) : option sql_value :=
  if bool_decide (f = tx "fromUnixTimestamp64Micro") then
    match v with VInt n => Some (VTime (cursor_at ClickHouse n)) | _ => None end
  else if bool_decide (f = tx "toIPv6") then
    match v with VText s => (fun a => VBytes (As16 a)) <$> ParseAddr s | _ => None end
  else None.

(** The columns of a row of [flow_records] as each database types them. *)
Definition address_value (k : backend_kind) (a : Addr) : sql_value :=
  match k with Postgres => VInet a | MariaDB => VBytes (AsSlice a) | ClickHouse => VBytes (As16 a) end.

Definition column (k : backend_kind) (x : row) (c : text) : option sql_value :=
  let c := TrimPrefix c (tx "f.") in
  if bool_decide (c = tx "received_at") then Some (VTime (r_time x))
  else if bool_decide (c = tx "seq") then Some (VInt (r_seq x))
  else if bool_decide (c = tx "exporter_id") then
    Some (VInt (match k with ClickHouse => u64 (ExporterID (r_rec x)) | _ => ExporterID (r_rec x) end))
  else if bool_decide (c = tx "src_addr") then Some (address_value k (SrcAddr (r_rec x)))
  else if bool_decide (c = tx "dst_addr") then Some (address_value k (DstAddr (r_rec x)))
  else if bool_decide (c = tx "protocol") then Some (VInt (Protocol (r_rec x)))
  else None.

(** A time parameter reaches PostgreSQL and MariaDB in microseconds. *)
Definition parameter (v : sql_value) : sql_value := match v with VTime t => VTime (TruncateMicro t) | _ => v end.

Fixpoint eval_operand (k : backend_kind) (args : list sql_value) (x : row) (o : operand) : option (list sql_value) :=
  match o with
  | OCol c => (fun v => [v]) <$> column k x c
  | OArg n => (fun v => [parameter v]) <$> (args !! pred n)
  | OCall f n => (fun v => [v]) <$> (args !! pred n ≫= call f)
  | OPair a b => l ← eval_operand k args x a; r ← eval_operand k args x b; Some (l ++ r)
  end.

(** Comparison of values of one type; rows compare lexicographically. *)
Definition value_lt (v w : sql_value) : option bool :=
  match v, w with
  | VTime t, VTime u => Some (Before t u)
  | VInt n, VInt m => Some (n <? m)
  | _, _ => None
  end.

Definition value_eq (v w : sql_value) : option bool :=
  match v, w with
  | VTime _, VTime _ | VInt _, VInt _ | VBytes _, VBytes _ | VInet _, VInet _ => Some (bool_decide (v = w))
  | _, _ => None
  end.

Fixpoint row_lt (l r : list sql_value) : option bool :=
  match l, r with
  | [v], [w] => value_lt v w
  | v :: l, w :: r =>
    lt ← value_lt v w; eq ← value_eq v w; rest ← row_lt l r; Some (lt || (eq && rest))
  | _, _ => None
  end.

Definition compare (op : text) (l r : list sql_value) : option bool :=
  if bool_decide (op = tx "<") then row_lt l r
  else if bool_decide (op = tx ">=") then negb <$> row_lt l r
  else if bool_decide (op = tx "=") then
    match l, r with [v], [w] => value_eq v w | _, _ => None end
  else None.

Definition eval_cond (k : backend_kind) (args : list sql_value) (x : row) (c : cond) : option bool :=
  l ← eval_operand k args x (c_lhs c); r ← eval_operand k args x (c_rhs c); compare (c_op c) l r.

(** A conjunction; an error in any condition is an error of the statement. *)
Definition eval_where (k : backend_kind) (args : list sql_value) (cs : list cond) (x : row) : option bool :=
  forallb id <$> mapM (eval_cond k args x) cs.

Fixpoint filter_rows (f : row -> option bool) (rows : list row) : option (list row) :=
  match rows with
  | [] => Some []
  | x :: rest => keep ← f x; l ← filter_rows f rest; Some (if keep : bool then x :: l else l)
  end.

(** The order every statement asks for. *)
Definition newest_first_keys (ks : list token) : bool :=
  bool_decide (ks = [word "f.received_at"; word "DESC"; TPunct ","; word "f.seq"; word "DESC"])
  || bool_decide (ks = [word "received_at"; word "DESC"; TPunct ","; word "seq"; word "DESC"]).

(** The tables a statement must read for [rows] to be what it ranges over:
    the join, and ClickHouse's collapsed view. *)
Definition from_clause (k : backend_kind) : list token :=
  match k with
  | ClickHouse => [word "flow_records"; word "FINAL"]
  | _ => [word "flow_records"; word "f"; word "JOIN"; word "exporters"; word "e"; word "ON";
          word "e.id"; word "="; word "f.exporter_id"]
  end.

(** The columns in the order of the destinations of [scanRecord]. *)
Definition scan_columns (k : backend_kind) : list text :=
  match k with
  | ClickHouse =>
    tx <$> ["received_at"; "seq"; "exporter_id"; "exporter_addr"; "flow_type"; "first_switched"; "last_switched";
            "src_addr"; "dst_addr"; "src_port"; "dst_port"; "protocol"; "tcp_flags"; "packets"; "bytes"; "sampling_rate";
            "input_iface"; "output_iface"; "src_as"; "dst_as"; "next_hop"; "dedup_key"]%string
  | _ =>
    tx <$> ["f.received_at"; "f.seq"; "f.exporter_id"; "e.ip_address"; "f.flow_type"; "f.first_switched"; "f.last_switched";
            "f.src_addr"; "f.dst_addr"; "f.src_port"; "f.dst_port"; "f.protocol"; "f.tcp_flags"; "f.packets"; "f.bytes";
            "f.sampling_rate"; "f.input_iface"; "f.output_iface"; "f.src_as"; "f.dst_as"; "f.next_hop"; "f.dedup_key"]%string
  end.

Definition run_select (k : backend_kind) (s : text) (args : list sql_value) (rows : list row) : option (list row) :=
  match parse_select s with
  | Some sel =>
    if newest_first_keys (s_order sel) && bool_decide (s_from sel = from_clause k)
       && bool_decide (s_columns sel = scan_columns k) then
      l ← filter_rows (eval_where k args (s_where sel)) rows;
      match s_limit sel with
      | OArg n => match args !! pred n with Some (VInt m) => Some (take (Z.to_nat m) (ordered l)) | _ => None end
      | _ => None
      end
    else None
  | None => None
  end.

(** ** The statements the backends build *)

(** [selectSQL] of PostgreSQL and MariaDB. *)
Definition selectSQL : text := tx "
SELECT f.received_at, f.seq, f.exporter_id, e.ip_address, f.flow_type,
       f.first_switched, f.last_switched, f.src_addr, f.dst_addr,
       f.src_port, f.dst_port, f.protocol, f.tcp_flags,
       f.packets, f.bytes, f.sampling_rate, f.input_iface, f.output_iface,
       f.src_as, f.dst_as, f.next_hop, f.dedup_key
  FROM flow_records f
  JOIN exporters e ON e.id = f.exporter_id".

Definition ch_selectSQL : text := tx "
SELECT received_at, seq, exporter_id, exporter_addr, flow_type,
       first_switched, last_switched, src_addr, dst_addr,
       src_port, dst_port, protocol, tcp_flags,
       packets, bytes, sampling_rate, input_iface, output_iface, src_as, dst_as,
       next_hop, dedup_key
  FROM flow_records FINAL".

(** [strings.Join]. *)
Fixpoint Join (sep : text) (l : list text) : text :=
  match l with
  | [] => []
  | [s] => s
  | s :: rest => s ++ sep ++ Join sep rest
  end.

(** The conditions and the arguments, in step. *)
Definition clauses : Type := list text * list sql_value.

Definition clause (b : bool) (c : text) (v : sql_value) (w : clauses) : clauses :=
  if b then (w.1 ++ [c], w.2 ++ [v]) else w.

(** PostgreSQL's [add]: the placeholder's number is the argument's position. *)
Definition pg_clause (b : bool) (c : text) (v : sql_value) (w : clauses) : clauses :=
  if b then
    let args := w.2 ++ [v] in (w.1 ++ [c ++ tx "$" ++ print_dec (Z.of_nat (length args))], args)
  else w.

Definition with_cursor_clause (q : FlowQuery) (sk : seq_kind) (f : cursor -> clauses -> clauses) (w : clauses)
  : result query_error clauses :=
  if bool_decide (q_Cursor q = ""%string) then Ok w
  else match decodeCursor sk (tx (q_Cursor q)) with
       | None => Err ErrBadCursor
       | Some c => Ok (f c w)
       end.

Definition pg_statement (q : FlowQuery) : result query_error (text * list sql_value) :=
  let limit := clampLimit (q_Limit q) in
  let w := ([tx "f.received_at >= $1"; tx "f.received_at < $2"], [VTime (UTC (q_Start q)); VTime (UTC (q_End q))]) in
  let w := pg_clause (negb (q_ExporterID q =? 0)) (tx "f.exporter_id = ") (VInt (q_ExporterID q)) w in
  let w := pg_clause (IsValid (q_SrcAddr q)) (tx "f.src_addr = ") (VInet (q_SrcAddr q)) w in
  let w := pg_clause (IsValid (q_DstAddr q)) (tx "f.dst_addr = ") (VInet (q_DstAddr q)) w in
  let w := match q_Protocol q with Some p => pg_clause true (tx "f.protocol = ") (VInt (i16 p)) w | None => w end in
  let! w := with_cursor_clause q SeqInt64 (fun c w =>
    let args := w.2 ++ [VTime (cursor_at Postgres (c_T c)); VInt (c_Seq c)] in
    let n := Z.of_nat (length args) in
    (w.1 ++ [tx "(f.received_at, f.seq) < ($" ++ print_dec (n - 1) ++ tx ", $" ++ print_dec n ++ tx ")"], args)) w in
  let args := w.2 ++ [VInt (limit + 1)] in
  Ok (selectSQL ++ tx " WHERE " ++ Join (tx " AND ") w.1 ++
      tx " ORDER BY f.received_at DESC, f.seq DESC LIMIT $" ++ print_dec (Z.of_nat (length args)), args).

Definition my_statement (q : FlowQuery) : result query_error (text * list sql_value) :=
  let limit := clampLimit (q_Limit q) in
  let w := ([tx "f.received_at >= ?"; tx "f.received_at < ?"], [VTime (UTC (q_Start q)); VTime (UTC (q_End q))]) in
  let w := clause (negb (q_ExporterID q =? 0)) (tx "f.exporter_id = ?") (VInt (q_ExporterID q)) w in
  let w := clause (IsValid (q_SrcAddr q)) (tx "f.src_addr = ?") (VBytes (AsSlice (q_SrcAddr q))) w in
  let w := clause (IsValid (q_DstAddr q)) (tx "f.dst_addr = ?") (VBytes (AsSlice (q_DstAddr q))) w in
  let w := match q_Protocol q with Some p => clause true (tx "f.protocol = ?") (VInt p) w | None => w end in
  let! w := with_cursor_clause q SeqInt64 (fun c w =>
    (w.1 ++ [tx "(f.received_at, f.seq) < (?, ?)"], w.2 ++ [VTime (cursor_at MariaDB (c_T c)); VInt (c_Seq c)])) w in
  Ok (selectSQL ++ tx " WHERE " ++ Join (tx " AND ") w.1 ++ tx " ORDER BY f.received_at DESC, f.seq DESC LIMIT ?",
      w.2 ++ [VInt (limit + 1)]).

Definition ch_statement (q : FlowQuery) : result query_error (text * list sql_value) :=
  let limit := clampLimit (q_Limit q) in
  let w := ([tx "received_at >= fromUnixTimestamp64Micro(?)"; tx "received_at < fromUnixTimestamp64Micro(?)"],
            [VInt (UnixMicro (q_Start q)); VInt (UnixMicro (q_End q))]) in
  let w := clause (negb (q_ExporterID q =? 0)) (tx "exporter_id = ?") (VInt (u64 (q_ExporterID q))) w in
  let w := clause (IsValid (q_SrcAddr q)) (tx "src_addr = toIPv6(?)") (VText (Addr_String (q_SrcAddr q))) w in
  let w := clause (IsValid (q_DstAddr q)) (tx "dst_addr = toIPv6(?)") (VText (Addr_String (q_DstAddr q))) w in
  let w := match q_Protocol q with Some p => clause true (tx "protocol = ?") (VInt p) w | None => w end in
  let! w := with_cursor_clause q SeqUint64 (fun c w =>
    (w.1 ++ [tx "(received_at, seq) < (fromUnixTimestamp64Micro(?), ?)"], w.2 ++ [VInt (c_T c); VInt (c_Seq c)])) w in
  Ok (ch_selectSQL ++ tx " WHERE " ++ Join (tx " AND ") w.1 ++ tx " ORDER BY received_at DESC, seq DESC LIMIT ?",
      w.2 ++ [VInt (limit + 1)]).

Definition statement (k : backend_kind) : FlowQuery -> result query_error (text * list sql_value) :=
  match k with Postgres => pg_statement | MariaDB => my_statement | ClickHouse => ch_statement end.

(** What the databases answer to it. *)
Definition answered (k : backend_kind) (q : FlowQuery) (rows : list row) : result query_error (option (list row)) :=
  let! (s, args) := statement k q in Ok (run_select k s args rows).

(** The loop over the result set and the page's cursor. *)
Definition page_from (k : backend_kind) (q : FlowQuery) (result_set : list row) : FlowResultPage :=
  let '(recs, more) := read_page (Z.to_nat (clampLimit (q_Limit q))) result_set [] in
  mkFlowResultPage (r_rec <$> recs)
    (match last recs with
     | Some x => if more then st (encodeCursor (mkCursor (cursor_T k (r_time x)) (r_seq x))) else ""%string
     | None => ""%string
     end) more.
