(* ===== verification/SqlThms.v ===== *)
(** * The statements mean what [Query] says

    For every combination of filters and on each backend, the text that the
    code builds reads back, with its arguments in place, as exactly the
    selection that [Query] makes. *)

From S2P Require Import Prelude GoTime Netip Flow Text Strings NetipText NetipTextFacts Json Cursor Rows Query QueryThms Sql.

(** ** Conditions and arguments in step *)

Definition sem : Type := list cond * list sql_value.

(** A condition on the next argument. *)
Definition add_cond (b : bool) (mk : nat -> cond) (v : sql_value) (w : sem) : sem :=
  if b then (w.1 ++ [mk (S (length w.2))], w.2 ++ [v]) else w.

Section means.
Context (k : backend_kind) (rows : list row).

(** The conditions select by [P], whatever arguments follow. *)
Definition means (w : sem) (P : row -> bool) : Prop :=
  forall more x, x ∈ rows -> eval_where k (w.2 ++ more) w.1 x = Some (P x).

Lemma eval_where_snoc args cs c x p b :
  eval_where k args cs x = Some p -> eval_cond k args x c = Some b -> eval_where k args (cs ++ [c]) x = Some (p && b).
Proof.
  unfold eval_where. intros Hp Hb. apply fmap_Some in Hp as (l & El & ->).
  assert (E : mapM (eval_cond k args x) (cs ++ [c]) = Some (l ++ [b])).
  { apply mapM_Some. apply mapM_Some in El. apply Forall2_app; [done|by repeat constructor]. }
  rewrite E. cbn. rewrite forallb_app. cbn. by rewrite andb_true_r.
Qed.

Lemma means_add b mk v w P Q :
  means w P ->
  (forall args x, x ∈ rows -> args !! length w.2 = Some v -> eval_cond k args x (mk (S (length w.2))) = Some (Q x)) ->
  means (add_cond b mk v w) (fun x => P x && (negb b || Q x)).
Proof.
  intros Hw Hc more x Hx. unfold add_cond. destruct b; cbn [negb orb fst snd]; [|by rewrite andb_true_r, Hw].
  apply eval_where_snoc; [rewrite <- app_assoc; by apply Hw|]. apply Hc; [done|].
  rewrite <- app_assoc. by rewrite lookup_app_r, Nat.sub_diag.
Qed.

Lemma means_ext w P P' : (forall x, x ∈ rows -> P x = P' x) -> means w P -> means w P'.
Proof. intros E Hw more x Hx. rewrite <- E by done. by apply Hw. Qed.

(** A condition on the two next arguments. *)
Lemma means_keyset mk v v' w P Q :
  means w P ->
  (forall args x, x ∈ rows -> args !! length w.2 = Some v -> args !! S (length w.2) = Some v' ->
     eval_cond k args x (mk (S (length w.2))) = Some (Q x)) ->
  means (w.1 ++ [mk (S (length w.2))], w.2 ++ [v; v']) (fun x => P x && Q x).
Proof.
  intros Hw Hc more x Hx. cbn [fst snd]. rewrite <- app_assoc. apply eval_where_snoc; [by apply Hw|]. apply Hc; [done|..].
  - by rewrite lookup_app_r, Nat.sub_diag by lia.
  - rewrite lookup_app_r by lia. by replace (S (length w.2) - length w.2)%nat with 1%nat by lia.
Qed.

Lemma filter_rows_means w P more l :
  means w P -> (forall x, x ∈ l -> x ∈ rows) -> filter_rows (eval_where k (w.2 ++ more) w.1) l = Some (List.filter P l).
Proof.
  intros Hw. induction l as [|x l IH]; intros Hl; [done|]. cbn [filter_rows List.filter].
  rewrite Hw by (apply Hl; by left). cbn [mbind option_bind]. rewrite IH by (intros; apply Hl; by right). by destruct (P x).
Qed.
End means.

(** ** One condition at a time *)

Definition on (c op : string) (n : nat) : cond := mkCond (OCol (tx c)) (tx op) (OArg n).
Definition on_call (c op f : string) (n : nat) : cond := mkCond (OCol (tx c)) (tx op) (OCall (tx f) n).

Lemma eval_on k args x c n v w :
  column k x (tx c) = Some v -> args !! n = Some w -> parameter w = w ->
  eval_cond k args x (on c "=" (S n)) = value_eq v w.
Proof. intros Ec Ea Ew. unfold eval_cond. cbn [on c_lhs c_op c_rhs eval_operand pred]. rewrite Ec, Ea. cbn. by rewrite Ew. Qed.

Lemma eval_on_call k args x c f n v w w' :
  column k x (tx c) = Some v -> args !! n = Some w -> call (tx f) w = Some w' ->
  eval_cond k args x (on_call c "=" f (S n)) = value_eq v w'.
Proof.
  intros Ec Ea Ef. unfold eval_cond. cbn [on_call c_lhs c_op c_rhs eval_operand pred]. rewrite Ec, Ea.
  cbn [mbind option_bind]. by rewrite Ef.
Qed.

Lemma value_eq_int n m : value_eq (VInt n) (VInt m) = Some (n =? m).
Proof. unfold value_eq. f_equal. destruct (Z.eqb_spec n m); [rewrite bool_decide_eq_true_2|rewrite bool_decide_eq_false_2]; congruence. Qed.

(** The keyset comparison, on times and sequences. *)
Lemma keyset_lt t s x :
  row_lt [VTime (r_time x); VInt (r_seq x)] [VTime t; VInt s] = Some (before t s x).
Proof.
  cbn [row_lt value_lt value_eq mbind option_bind]. unfold before.
  by rewrite (bool_decide_ext (VTime (r_time x) = VTime t) (r_time x = t)) by (split; congruence).
Qed.

(** Addresses as each database compares them. *)
Lemma address_eq k a b :
  k <> ClickHouse -> value_eq (address_value k a) (address_value k b) = Some (addr_eq k a b).
Proof. intros Hk. destruct k; [| |done]; cbn; f_equal; apply bool_decide_ext; split; congruence. Qed.

(** ** What the built conditions mean *)

(** A query as the API makes it: fields within their Go types, no zones. *)
Record query_typed (q : FlowQuery) : Prop := {
  qt_exporter : is_sint 64 (q_ExporterID q);
  qt_src : addr_wf (q_SrcAddr q) /\ zoneless (q_SrcAddr q);
  qt_dst : addr_wf (q_DstAddr q) /\ zoneless (q_DstAddr q);
  qt_proto : match q_Protocol q with Some p => is_uint 8 p | None => True end
}.

Definition proto_cond (c : string) (conv : Z -> Z) (o : option Z) (w : sem) : sem :=
  match o with Some p => add_cond true (on c "=") (VInt (conv p)) w | None => w end.

(** The conditions of PostgreSQL and MariaDB, which differ in the arguments. *)
Definition rel_sem (k : backend_kind) (conv : Z -> Z) (q : FlowQuery) : sem :=
  proto_cond "f.protocol" conv (q_Protocol q)
    (add_cond (IsValid (q_DstAddr q)) (on "f.dst_addr" "=") (address_value k (q_DstAddr q))
      (add_cond (IsValid (q_SrcAddr q)) (on "f.src_addr" "=") (address_value k (q_SrcAddr q))
        (add_cond (negb (q_ExporterID q =? 0)) (on "f.exporter_id" "=") (VInt (q_ExporterID q))
          ([on "f.received_at" ">=" 1; on "f.received_at" "<" 2], [VTime (UTC (q_Start q)); VTime (UTC (q_End q))])))).

Definition ch_sem (q : FlowQuery) : sem :=
  proto_cond "protocol" id (q_Protocol q)
    (add_cond (IsValid (q_DstAddr q)) (on_call "dst_addr" "=" "toIPv6") (VText (Addr_String (q_DstAddr q)))
      (add_cond (IsValid (q_SrcAddr q)) (on_call "src_addr" "=" "toIPv6") (VText (Addr_String (q_SrcAddr q)))
        (add_cond (negb (q_ExporterID q =? 0)) (on "exporter_id" "=") (VInt (u64 (q_ExporterID q)))
          ([on_call "received_at" ">=" "fromUnixTimestamp64Micro" 1; on_call "received_at" "<" "fromUnixTimestamp64Micro" 2],
           [VInt (UnixMicro (q_Start q)); VInt (UnixMicro (q_End q))])))).

Lemma means_proto k rows c conv o w P :
  means k rows w P -> (forall p, o = Some p -> conv p = p) -> (forall x, column k x (tx c) = Some (VInt (Protocol (r_rec x)))) ->
  means k rows (proto_cond c conv o w) (fun x => P x && match o with None => true | Some p => Protocol (r_rec x) =? p end).
Proof.
  intros Hw Hconv Hc. destruct o as [p|]; [|eapply means_ext; [|exact Hw]; intros; by rewrite andb_true_r].
  eapply means_ext; [|apply (means_add _ _ true _ _ _ _ (fun x => Protocol (r_rec x) =? p) Hw)]; [done|].
  intros args x Hx E. by rewrite (eval_on _ _ _ _ _ _ _ (Hc x) E eq_refl), value_eq_int, Hconv.
Qed.

Lemma rel_sem_means k conv rows q :
  k <> ClickHouse -> (forall p, q_Protocol q = Some p -> conv p = p) -> means k rows (rel_sem k conv q) (matches k q).
Proof.
  intros Hk Hconv. unfold rel_sem. eapply means_ext; [|eapply means_proto; [|exact Hconv|by intros x; destruct k]].
  2:{ eapply (means_add _ _ _ _ _ _ _ (fun x => addr_eq k (DstAddr (r_rec x)) (q_DstAddr q))).
      2:{ intros args x _ E. erewrite eval_on; [by apply address_eq|by destruct k|done|by destruct k]. }
      eapply (means_add _ _ _ _ _ _ _ (fun x => addr_eq k (SrcAddr (r_rec x)) (q_SrcAddr q))).
      2:{ intros args x _ E. erewrite eval_on; [by apply address_eq|by destruct k|done|by destruct k]. }
      eapply (means_add _ _ _ _ _ _ _ (fun x => ExporterID (r_rec x) =? q_ExporterID q)).
      2:{ intros args x _ E. erewrite eval_on; [apply value_eq_int|by destruct k|done|done]. }
      instantiate (1 := fun x => negb (Before (ReceivedAt (r_rec x)) (bound k (q_Start q))) && Before (ReceivedAt (r_rec x)) (bound k (q_End q))).
      intros more x _. rewrite <- (andb_true_r (Before _ (bound k (q_End q)))). destruct k; [reflexivity..|done]. }
  intros x _. unfold matches. by rewrite !negb_involutive.
Qed.

(** ClickHouse's [toIPv6] of a printed address. *)
Lemma toIPv6_String a :
  addr_wf a -> zoneless a -> IsValid a = true -> call (tx "toIPv6") (VText (Addr_String a)) = Some (VBytes (As16 a)).
Proof. intros Hw Hz Hv. cbn [call]. unfold call. cbn. by rewrite ParseAddr_String. Qed.

Lemma value_eq_bytes a b : value_eq (VBytes (As16 a)) (VBytes (As16 b)) = Some (addr_eq ClickHouse a b).
Proof. cbn. f_equal. apply bool_decide_ext. split; congruence. Qed.

Lemma u64_eq a b : is_sint 64 a -> is_sint 64 b -> (u64 a =? u64 b) = (a =? b).
Proof.
  unfold wrap_u, is_sint. intros Ha Hb. destruct (Z.eqb_spec a b) as [->|Hne]; [by rewrite Z.eqb_refl|].
  apply Z.eqb_neq. intros E. apply Hne.
  pose proof (Z.div_mod a (2 ^ 64)). pose proof (Z.div_mod b (2 ^ 64)).
  assert (-1 <= a / 2 ^ 64 <= 0) by (split; [apply Z.div_le_lower_bound; lia|apply Z.lt_succ_r, Z.div_lt_upper_bound; lia]).
  assert (-1 <= b / 2 ^ 64 <= 0) by (split; [apply Z.div_le_lower_bound; lia|apply Z.lt_succ_r, Z.div_lt_upper_bound; lia]).
  lia.
Qed.

Lemma ch_address_means rows b c a w P (field : FlowRecord -> Addr) :
  b = IsValid a -> addr_wf a /\ zoneless a -> (forall x, column ClickHouse x (tx c) = Some (VBytes (As16 (field (r_rec x))))) ->
  means ClickHouse rows w P ->
  means ClickHouse rows (add_cond b (on_call c "=" "toIPv6") (VText (Addr_String a)) w)
    (fun x => P x && (negb b || addr_eq ClickHouse (field (r_rec x)) a)).
Proof.
  intros -> [Hw Hz] Hc Hm. destruct (IsValid a) eqn:Hv; [|eapply means_ext; [|exact Hm]; intros; by rewrite andb_true_r].
  apply (means_add _ _ true _ _ _ _ (fun x => addr_eq ClickHouse (field (r_rec x)) a)); [done|]. intros args x _ E.
  by rewrite (eval_on_call _ _ _ _ _ _ _ _ _ (Hc x) E (toIPv6_String a Hw Hz Hv)), value_eq_bytes.
Qed.

Lemma ch_sem_means rows q :
  query_typed q -> Forall (fun x => is_sint 64 (ExporterID (r_rec x))) rows -> means ClickHouse rows (ch_sem q) (matches ClickHouse q).
Proof.
  intros [He Hs Hd Hp] Hids. unfold ch_sem. eapply means_ext; [|eapply means_proto; [|done|done]].
  2:{ eapply (ch_address_means rows _ _ _ _ _ DstAddr); [done|done|done|].
      eapply (ch_address_means rows _ _ _ _ _ SrcAddr); [done|done|done|].
      apply (means_add _ _ _ _ _ _ (fun x => negb (Before (ReceivedAt (r_rec x)) (bound ClickHouse (q_Start q)))
               && Before (ReceivedAt (r_rec x)) (bound ClickHouse (q_End q))) (fun x => ExporterID (r_rec x) =? q_ExporterID q)).
      - intros more x _. by rewrite <- (andb_true_r (Before _ (bound ClickHouse (q_End q)))).
      - intros args x Hx E. rewrite (eval_on ClickHouse args x "exporter_id" _ (VInt (u64 (ExporterID (r_rec x)))) _ eq_refl E eq_refl), value_eq_int.
        rewrite Forall_forall in Hids. by rewrite u64_eq by auto. }
  intros x _. unfold matches. by rewrite !negb_involutive.
Qed.

(** ** What the text reads back as *)

Definition sem_of (k : backend_kind) (q : FlowQuery) : sem :=
  match k with Postgres => rel_sem Postgres i16 q | MariaDB => rel_sem MariaDB id q | ClickHouse => ch_sem q end.

Definition keyset (k : backend_kind) (n : nat) : cond :=
  match k with
  | ClickHouse => mkCond (OPair (OCol (tx "received_at")) (OCol (tx "seq"))) (tx "<")
                    (OPair (OCall (tx "fromUnixTimestamp64Micro") n) (OArg (S n)))
  | _ => mkCond (OPair (OCol (tx "f.received_at")) (OCol (tx "f.seq"))) (tx "<") (OPair (OArg n) (OArg (S n)))
  end.

Definition cursor_value (k : backend_kind) (t : Z) : sql_value :=
  match k with ClickHouse => VInt t | _ => VTime (cursor_at k t) end.

Definition with_keyset (k : backend_kind) (o : option cursor) (w : sem) : sem :=
  match o with
  | Some c => (w.1 ++ [keyset k (S (length w.2))], w.2 ++ [cursor_value k (c_T c); VInt (c_Seq c)])
  | None => w
  end.

Definition order_keys (k : backend_kind) : list token :=
  match k with
  | ClickHouse => [word "received_at"; word "DESC"; TPunct ","; word "seq"; word "DESC"]
  | _ => [word "f.received_at"; word "DESC"; TPunct ","; word "f.seq"; word "DESC"]
  end.

(** The cursor of a query: none, one, or an error. *)
Definition cursor_of (k : backend_kind) (q : FlowQuery) : result query_error (option cursor) :=
  if bool_decide (q_Cursor q = ""%string) then Ok None
  else match decodeCursor (seq_kind_of k) (tx (q_Cursor q)) with None => Err ErrBadCursor | Some c => Ok (Some c) end.

Lemma statement_reads k q :
  match cursor_of k q with
  | Err e => statement k q = Err e
  | Ok o => exists s, statement k q = Ok (s, (with_keyset k o (sem_of k q)).2 ++ [VInt (clampLimit (q_Limit q) + 1)]) /\
      parse_select s = Some (mkSelect (scan_columns k) (from_clause k) (with_keyset k o (sem_of k q)).1 (order_keys k)
        (OArg (S (length (with_keyset k o (sem_of k q)).2))))
  end.
Proof.
  unfold cursor_of. destruct q as [qs qe qx qsrc qdst qp ql qc]. cbn [q_Cursor].
  destruct k; cbn [seq_kind_of statement sem_of];
    unfold pg_statement, my_statement, ch_statement, with_cursor_clause, rel_sem, ch_sem, proto_cond;
    cbn [q_Start q_End q_ExporterID q_SrcAddr q_DstAddr q_Protocol q_Limit q_Cursor];
    (destruct (bool_decide (qc = ""%string)); [|destruct (decodeCursor _ (tx qc)) as [c|]; [|done]]);
    destruct (negb (qx =? 0)), (IsValid qsrc), (IsValid qdst), qp as [p|];
    eexists; (split; [reflexivity|vm_compute; reflexivity]).
Qed.

(** ** The theorem *)

Lemma keyset_means k rows o w P :
  means k rows w P ->
  means k rows (with_keyset k o w)
    (fun x => P x && match o with Some c => before (cursor_bound k (c_T c)) (c_Seq c) x | None => true end).
Proof.
  intros Hw. destruct o as [c|]; [|eapply means_ext; [|exact Hw]; intros; by rewrite andb_true_r].
  apply (means_keyset k rows (keyset k) _ _ w P (before (cursor_bound k (c_T c)) (c_Seq c))); [done|]. intros args x _ E1 E2.
  unfold eval_cond. destruct k; cbn [keyset c_lhs c_op c_rhs eval_operand pred]; rewrite E1, E2; apply keyset_lt.
Qed.

Lemma filter_and {X} (p p' : X -> bool) l : List.filter (fun x => p x && p' x) l = List.filter p' (List.filter p l).
Proof.
  induction l as [|x l IH]; [done|]. cbn [List.filter]. destruct (p x); cbn [andb]; [|done].
  cbn [List.filter]. by rewrite IH.
Qed.

Lemma sem_means k rows q :
  query_typed q -> Forall (fun x => is_sint 64 (ExporterID (r_rec x))) rows -> means k rows (sem_of k q) (matches k q).
Proof.
  intros Hq Hids. destruct k; cbn [sem_of]; [apply rel_sem_means; [done|]..|by apply ch_sem_means]; intros p Hp; [|done].
  destruct Hq as [_ _ _ Hproto]. rewrite Hp in Hproto. apply wrap_s_small; [lia|]. unfold is_uint, is_sint in *. lia.
Qed.

Lemma filter_true {X} (l : list X) : List.filter (fun _ => true) l = l.
Proof. induction l as [|x l IH]; [done|]. cbn. by rewrite IH. Qed.

(** C23. The SQL says what the model of Query says. For every backend and every
    typed query, the statement the code puts together, read as SQL text with its
    numbered or positional placeholders and run over the rows, parses, never
    fails on a type or a missing argument, and its result set read by the page
    loop is the page of [Query]; an undecodable cursor fails before any statement
    is made. *)
Theorem sql_means_query k q rows :
  query_typed q -> Forall (fun x => is_sint 64 (ExporterID (r_rec x))) rows ->
  match answered k q rows with
  | Err e => Query k q rows = Err e
  | Ok None => False
  | Ok (Some l) => Query k q rows = Ok (page_from k q l)
  end.
Proof.
  intros Hq Hids. pose proof (statement_reads k q) as Hs. unfold answered, Query. unfold cursor_of in Hs.
  set (o := if bool_decide (q_Cursor q = ""%string) then _ else _) in Hs.
  assert (Hmain : forall c s, statement k q = Ok (s, (with_keyset k c (sem_of k q)).2 ++ [VInt (clampLimit (q_Limit q) + 1)]) ->
    parse_select s = Some (mkSelect (scan_columns k) (from_clause k) (with_keyset k c (sem_of k q)).1 (order_keys k)
        (OArg (S (length (with_keyset k c (sem_of k q)).2)))) ->
    run_select k s ((with_keyset k c (sem_of k q)).2 ++ [VInt (clampLimit (q_Limit q) + 1)]) rows =
    Some (take (Z.to_nat (clampLimit (q_Limit q) + 1)) (ordered (List.filter
      (fun x => match c with Some c => before (cursor_bound k (c_T c)) (c_Seq c) x | None => true end) (List.filter (matches k q) rows))))).
  { intros c s _ Hp. unfold run_select. rewrite Hp. cbn [s_order s_from s_columns s_where s_limit].
    rewrite !bool_decide_eq_true_2 by done. replace (newest_first_keys (order_keys k)) with true by (by destruct k).
    cbn [andb]. rewrite (filter_rows_means _ _ _ _ _ _ (keyset_means k rows c _ _ (sem_means k rows q Hq Hids))) by done.
    cbn [mbind option_bind pred]. rewrite lookup_app_r, Nat.sub_diag by done. cbn. by rewrite filter_and. }
  subst o. destruct (bool_decide (q_Cursor q = ""%string)).
  - destruct Hs as (s & Es & Ep). rewrite Es. cbn [rbind]. rewrite (Hmain None s Es Ep). unfold page_from.
    rewrite filter_true. by destruct (read_page _ _ _).
  - destruct (decodeCursor _ _) as [c|]; [|by rewrite Hs]. destruct Hs as (s & Es & Ep). rewrite Es. cbn [rbind].
    rewrite (Hmain (Some c) s Es Ep). unfold page_from. by destruct (read_page _ _ _).
Qed.

(** Every filter at once, with a cursor. *)
Definition full_query : FlowQuery :=
  mkFlowQuery (Unix 1700000000 0) (Unix 1700000003 0) 7 (Addr6 1 "") (Addr4 4294967295) (Some 255) 4
    (st (encodeCursor (mkCursor 1700000002000000 8))).
Definition full_db : list row := (fun x => mkRow (r_seq x) (set_ExporterID 7 (r_rec x))) <$> sample_db.

Lemma sql_means_query_witness :
  exists l, answered ClickHouse full_query full_db = Ok (Some l) /\
    Query ClickHouse full_query full_db = Ok (page_from ClickHouse full_query l) /\ r_seq <$> l = [7; 6; 5; 4; 3].
Proof.
  assert (Es : (if answered ClickHouse full_query full_db is Ok (Some l) then r_seq <$> l else []) = [7; 6; 5; 4; 3])
    by (vm_compute; reflexivity).
  assert (Hq : query_typed full_query) by (constructor; vm_compute; intuition congruence).
  assert (Hids : Forall (fun x => is_sint 64 (ExporterID (r_rec x))) full_db) by (repeat constructor; vm_compute; congruence).
  pose proof (sql_means_query ClickHouse full_query full_db Hq Hids) as Hm. revert Es Hm.
  generalize (Query ClickHouse full_query full_db) as page. generalize (answered ClickHouse full_query full_db) as a.
  intros [[l|]|e] page Es Hm; [|done..]. exists l. done.
Defined.
