(* ===== verification/Inserts.v ===== *)
(** * The rows that the inserts send ([rows.go] of the SQL backends)

    [Rows] gives the row of a record; here the code's own encodings are
    modelled: PostgreSQL's parallel arrays, sent as a COPY or unnested by one
    INSERT, and MariaDB's multi-row text with its flat argument list. Both are
    read by column name, with the reader of [Sql], and are the same rows. *)

From S2P Require Import Prelude GoTime Netip Flow Text Strings NetipText Json Cursor Rows Store Query Sql.

(** ** PostgreSQL: [columns] *)

Record columns := mkColumns {
  receivedAt : list Time; firstSwitched : list Time; lastSwitched : list Time;
  exporterIDs : list Z;
  flowType : list string;
  srcAddr : list Addr; dstAddr : list Addr;
  srcPort : list Z; dstPort : list Z;
  protocol : list Z; tcpFlags : list Z;
  packets : list Z; bytes : list Z;
  samplingRate : list Z; inIface : list Z; outIface : list Z;
  srcAS : list Z; dstAS : list Z;
  nextHop : list (option Addr);
  dedupKey : list (option (list byte))
}.

(** The capacity hint has no effect on the contents. *)
Definition newColumns (n : nat) : columns :=
  mkColumns [] [] [] [] [] [] [] [] [] [] [] [] [] [] [] [] [] [] [] [].

Definition add (c : columns) (r : FlowRecord) (exporterID : Z) : columns :=
  mkColumns
    (receivedAt c ++ [micro (ReceivedAt r)]) (firstSwitched c ++ [micro (FirstSwitched r)])
    (lastSwitched c ++ [micro (LastSwitched r)]) (exporterIDs c ++ [exporterID]) (flowType c ++ [FlowTypeOf r])
    (srcAddr c ++ [SrcAddr r]) (dstAddr c ++ [DstAddr r]) (srcPort c ++ [i32 (SrcPort r)]) (dstPort c ++ [i32 (DstPort r)])
    (protocol c ++ [i16 (Protocol r)]) (tcpFlags c ++ [i16 (TCPFlags r)])
    (packets c ++ [i64 (Packets r)]) (bytes c ++ [i64 (Bytes r)])
    (samplingRate c ++ [i32 (SamplingRate r)]) (inIface c ++ [i32 (InputIface r)]) (outIface c ++ [i32 (OutputIface r)])
    (srcAS c ++ [i32 (SrcAS r)]) (dstAS c ++ [i32 (DstAS r)])
    (nextHop c ++ [if IsValid (NextHop r) then Some (NextHop r) else None]) (dedupKey c ++ [DedupKey r]).

Definition inet_value (o : option Addr) : sql_value := match o with Some a => VInet a | None => VNull end.
Definition bytea_value (o : option (list byte)) : sql_value := match o with Some k => VBytes k | None => VNull end.
Definition text_value (s : string) : sql_value := VText (tx s).

(** [args]: one array per placeholder. *)
Definition args (c : columns) : list (list sql_value) :=
  [VTime <$> receivedAt c; VInt <$> exporterIDs c; text_value <$> flowType c; VTime <$> firstSwitched c; VTime <$> lastSwitched c;
   VInet <$> srcAddr c; VInet <$> dstAddr c; VInt <$> srcPort c; VInt <$> dstPort c; VInt <$> protocol c; VInt <$> tcpFlags c;
   VInt <$> packets c; VInt <$> bytes c; VInt <$> samplingRate c; VInt <$> inIface c; VInt <$> outIface c;
   VInt <$> srcAS c; VInt <$> dstAS c; inet_value <$> nextHop c; bytea_value <$> dedupKey c].

Definition copyColumns : list text := tx <$>
  ["received_at"; "exporter_id"; "flow_type"; "first_switched"; "last_switched";
   "src_addr"; "dst_addr"; "src_port"; "dst_port"; "protocol"; "tcp_flags";
   "packets"; "bytes"; "sampling_rate"; "input_iface"; "output_iface"; "src_as"; "dst_as";
   "next_hop"; "dedup_key"]%string.

(** [copySource]: row [i]; an index out of range would panic. *)
Definition copySource (c : columns) (i : nat) : option (list sql_value) :=
  a0 ← receivedAt c !! i; a1 ← exporterIDs c !! i; a2 ← flowType c !! i; a3 ← firstSwitched c !! i; a4 ← lastSwitched c !! i;
  a5 ← srcAddr c !! i; a6 ← dstAddr c !! i; a7 ← srcPort c !! i; a8 ← dstPort c !! i; a9 ← protocol c !! i; a10 ← tcpFlags c !! i;
  a11 ← packets c !! i; a12 ← bytes c !! i; a13 ← samplingRate c !! i; a14 ← inIface c !! i; a15 ← outIface c !! i;
  a16 ← srcAS c !! i; a17 ← dstAS c !! i; a18 ← nextHop c !! i; a19 ← dedupKey c !! i;
  Some [VTime a0; VInt a1; text_value a2; VTime a3; VTime a4; VInet a5; VInet a6; VInt a7; VInt a8; VInt a9; VInt a10;
        VInt a11; VInt a12; VInt a13; VInt a14; VInt a15; VInt a16; VInt a17; inet_value a18; bytea_value a19].

Definition insertSQL : text := tx "
INSERT INTO flow_records (
    received_at, exporter_id, flow_type, first_switched, last_switched,
    src_addr, dst_addr, src_port, dst_port, protocol, tcp_flags,
    packets, bytes, sampling_rate, input_iface, output_iface, src_as, dst_as,
    next_hop, dedup_key)
SELECT * FROM unnest(
    $1::timestamptz[], $2::bigint[], $3::text[], $4::timestamptz[], $5::timestamptz[],
    $6::inet[], $7::inet[], $8::integer[], $9::integer[], $10::smallint[], $11::smallint[],
    $12::bigint[], $13::bigint[], $14::integer[], $15::integer[], $16::integer[], $17::integer[], $18::integer[],
    $19::inet[], $20::bytea[])
ON CONFLICT DO NOTHING".

(** ** Reading an INSERT *)

(** Up to the next closing parenthesis. *)
Fixpoint until_close (ts : list token) : option (list token * list token) :=
  match ts with
  | [] => None
  | TPunct ")"%char :: r => Some ([], r)
  | t :: r => '(l, r') ← until_close r; Some (t :: l, r')
  end.

Definition param_list (ts : list token) : option (list nat) :=
  mapM (fun g => match g with [TParam n] => Some n | _ => None end) (split_at (TPunct ",") [] ts).

(** What follows the first occurrence of a token. *)
Fixpoint skip_to (w : token) (ts : list token) : option (list token) :=
  match ts with
  | [] => None
  | t :: r => if bool_decide (t = w) then Some r else skip_to w r
  end.

(** The column names of [INSERT .. INTO flow_records (..)] and the rest. *)
Definition parse_insert (ts : list token) : option (list text * list token) :=
  match skip_to (word "flow_records") ts with
  | Some (TPunct "("%char :: r) => '(cols, rest) ← until_close r; cs ← column_list cols; Some (cs, rest)
  | _ => None
  end.

(** A row by name. *)
Definition named : Type := list (text * sql_value).

(** [unnest] of equally long arrays, one row per index. *)
Definition unnest_row (arrays : list (list sql_value)) (cols : list text) (ps : list nat) (i : nat) : option named :=
  zip cols <$> mapM (fun n => arrays !! pred n ≫= (.!! i)) ps.

Definition run_unnest (s : text) (arrays : list (list sql_value)) : option (list named) :=
  '(cols, rest) ← parse_insert (tokens s);
  match rest with
  | TWord _ :: TWord _ :: TWord _ :: TWord u :: TPunct "("%char :: r =>
    if bool_decide (u = tx "unnest") then
      '(ps, tail) ← until_close r;
      ns ← param_list ps;
      if bool_decide (tail = [word "ON"; word "CONFLICT"; word "DO"; word "NOTHING"]) && (length ns =? length cols)%nat
      then mapM (unnest_row arrays cols ns) (seq 0 (length (default [] (head arrays)))) else None
    else None
  | _ => None
  end.

(** The rows of the COPY. *)
Definition run_copy (c : columns) : option (list named) :=
  mapM (fun i => zip copyColumns <$> copySource c i) (seq 0 (length (receivedAt c))).

(** A row of [flow_records] with the name of each column. *)
Definition pg_named (row : PgRow) : named :=
  [(tx "received_at", VTime (pg_received_at row)); (tx "exporter_id", VInt (pg_exporter_id row));
   (tx "flow_type", text_value (pg_flow_type row)); (tx "first_switched", VTime (pg_first_switched row));
   (tx "last_switched", VTime (pg_last_switched row)); (tx "src_addr", VInet (pg_src_addr row));
   (tx "dst_addr", VInet (pg_dst_addr row)); (tx "src_port", VInt (pg_src_port row)); (tx "dst_port", VInt (pg_dst_port row));
   (tx "protocol", VInt (pg_protocol row)); (tx "tcp_flags", VInt (pg_tcp_flags row)); (tx "packets", VInt (pg_packets row));
   (tx "bytes", VInt (pg_bytes row)); (tx "sampling_rate", VInt (pg_sampling_rate row));
   (tx "input_iface", VInt (pg_input_iface row)); (tx "output_iface", VInt (pg_output_iface row));
   (tx "src_as", VInt (pg_src_as row)); (tx "dst_as", VInt (pg_dst_as row));
   (tx "next_hop", inet_value (pg_next_hop row)); (tx "dedup_key", bytea_value (pg_dedup_key row))].

(** ** MariaDB: [insertStatement] *)

Definition insertPrefix : text := tx "INSERT IGNORE INTO flow_records (
    received_at, exporter_id, flow_type, first_switched, last_switched,
    src_addr, dst_addr, src_port, dst_port, protocol, tcp_flags,
    packets, bytes, sampling_rate, input_iface, output_iface, src_as, dst_as,
    next_hop, dedup_key) VALUES ".

Definition insertRow : text := tx "(?,?,?,?,?,?,?,?,?,?,?,?,?,?,?,?,?,?,?,?)".

(** [AsSlice] of the zero address is nil, which the driver sends as NULL. *)
Definition slice_value (b : list byte) : sql_value := match b with [] => VNull | _ => VBytes b end.

(** The arguments of one record, in the order of the [append]. *)
Definition row_args (x : FlowRecord * Z) : list sql_value :=
  let r := x.1 in
  [VTime (micro (ReceivedAt r)); VInt x.2; text_value (FlowTypeOf r); VTime (micro (FirstSwitched r)); VTime (micro (LastSwitched r));
   slice_value (AsSlice (SrcAddr r)); slice_value (AsSlice (DstAddr r)); VInt (SrcPort r); VInt (DstPort r); VInt (Protocol r);
   VInt (TCPFlags r); VInt (Packets r); VInt (Bytes r); VInt (SamplingRate r); VInt (InputIface r); VInt (OutputIface r);
   VInt (SrcAS r); VInt (DstAS r); bytea_value (addrBytes (NextHop r)); bytea_value (DedupKey r)].

(** The loop over the records: a comma before every row but the first. *)
Fixpoint statement_loop (first : bool) (batch : list (FlowRecord * Z)) (sb : text) (acc : list sql_value)
  : text * list sql_value :=
  match batch with
  | [] => (sb, acc)
  | x :: rest =>
    statement_loop false rest (sb ++ (if first then [] else tx ",") ++ insertRow) (acc ++ row_args x)
  end.

Definition insertStatement (batch : list (FlowRecord * Z)) : text * list sql_value :=
  statement_loop true batch insertPrefix [].

(** The tuples of VALUES, separated by commas. *)
Fixpoint value_tuples (fuel : nat) (ts : list token) : option (list (list nat)) :=
  match fuel with
  | O => None
  | S f =>
    match ts with
    | TPunct "("%char :: r =>
      '(l, rest) ← until_close r; ns ← param_list l;
      match rest with
      | [] => Some [ns]
      | TPunct ","%char :: r' => cons ns <$> value_tuples f r'
      | _ => None
      end
    | _ => None
    end
  end.

Definition run_values (s : text) (vs : list sql_value) : option (list named) :=
  '(cols, rest) ← parse_insert (tokens s);
  match rest with
  | v :: r =>
    if bool_decide (v = word "VALUES") then
      tuples ← value_tuples (length r) r;
      mapM (fun ns => if (length ns =? length cols)%nat then zip cols <$> mapM (fun n => vs !! pred n) ns else None) tuples
    else None
  | [] => None
  end.

(** A row of MariaDB's [flow_records] with the name of each column. *)
Definition my_named (row : MyRow) : named :=
  [(tx "received_at", VTime (my_received_at row)); (tx "exporter_id", VInt (my_exporter_id row));
   (tx "flow_type", text_value (my_flow_type row)); (tx "first_switched", VTime (my_first_switched row));
   (tx "last_switched", VTime (my_last_switched row)); (tx "src_addr", slice_value (my_src_addr row));
   (tx "dst_addr", slice_value (my_dst_addr row)); (tx "src_port", VInt (my_src_port row)); (tx "dst_port", VInt (my_dst_port row));
   (tx "protocol", VInt (my_protocol row)); (tx "tcp_flags", VInt (my_tcp_flags row)); (tx "packets", VInt (my_packets row));
   (tx "bytes", VInt (my_bytes row)); (tx "sampling_rate", VInt (my_sampling_rate row));
   (tx "input_iface", VInt (my_input_iface row)); (tx "output_iface", VInt (my_output_iface row));
   (tx "src_as", VInt (my_src_as row)); (tx "dst_as", VInt (my_dst_as row));
   (tx "next_hop", bytea_value (my_next_hop row)); (tx "dedup_key", bytea_value (my_dedup_key row))].

(** ** ClickHouse: the column list and [insertRow] *)

Definition ch_insertSQL : text := tx "INSERT INTO flow_records (
    received_at, dedup_key, exporter_id, exporter_addr, flow_type,
    first_switched, last_switched, src_addr, dst_addr,
    src_port, dst_port, protocol, tcp_flags,
    packets, bytes, sampling_rate, input_iface, output_iface, src_as, dst_as,
    next_hop)".

(** The values in the order of [insertRow]; an address goes into an IPv6 column. *)
Definition ch_row_values (r : FlowRecord) : list sql_value :=
  let ip a := VBytes (As16 a) in
  [VTime (micro (ReceivedAt r)); VBytes (default [] (DedupKey r)); VInt (exporterID (ExporterAddr r)); ip (ExporterAddr r);
   text_value (FlowTypeOf r); VTime (micro (FirstSwitched r)); VTime (micro (LastSwitched r)); ip (SrcAddr r); ip (DstAddr r);
   VInt (SrcPort r); VInt (DstPort r); VInt (Protocol r); VInt (TCPFlags r); VInt (Packets r); VInt (Bytes r);
   VInt (SamplingRate r); VInt (InputIface r); VInt (OutputIface r); VInt (SrcAS r); VInt (DstAS r);
   if IsValid (NextHop r) then ip (NextHop r) else VNull].

(** The driver renders an instant for a [DateTime64(6)] column. *)
Definition ch_render (v : sql_value) : sql_value := match v with VTime t => VInt (ticks t) | _ => v end.

Definition run_block (s : text) (records : list FlowRecord) : option (list named) :=
  '(cols, rest) ← parse_insert (tokens s);
  if bool_decide (rest = []) then
    mapM (fun r => if (length (ch_row_values r) =? length cols)%nat then Some (zip cols (ch_render <$> ch_row_values r)) else None) records
  else None.

(** A row of ClickHouse's [flow_records], by name. *)
Definition ch_named (row : ChRow) : named :=
  [(tx "received_at", VInt (ch_received_at row)); (tx "dedup_key", VBytes (ch_dedup_key row));
   (tx "exporter_id", VInt (ch_exporter_id row)); (tx "exporter_addr", VBytes (ch_exporter_addr row));
   (tx "flow_type", text_value (ch_flow_type row)); (tx "first_switched", VInt (ch_first_switched row));
   (tx "last_switched", VInt (ch_last_switched row)); (tx "src_addr", VBytes (ch_src_addr row));
   (tx "dst_addr", VBytes (ch_dst_addr row)); (tx "src_port", VInt (ch_src_port row)); (tx "dst_port", VInt (ch_dst_port row));
   (tx "protocol", VInt (ch_protocol row)); (tx "tcp_flags", VInt (ch_tcp_flags row)); (tx "packets", VInt (ch_packets row));
   (tx "bytes", VInt (ch_bytes row)); (tx "sampling_rate", VInt (ch_sampling_rate row));
   (tx "input_iface", VInt (ch_input_iface row)); (tx "output_iface", VInt (ch_output_iface row));
   (tx "src_as", VInt (ch_src_as row)); (tx "dst_as", VInt (ch_dst_as row)); (tx "next_hop", bytea_value (ch_next_hop row))].

(** The number of placeholders in a text, which MySQL's protocol limits. *)
Definition is_param (t : token) : bool := match t with TParam _ => true | _ => false end.
Definition placeholders (s : text) : Z := Z.of_nat (length (List.filter is_param (tokens s))).
Definition maxPlaceholders : Z := 65535.

(** ** PostgreSQL: both ways send the same rows *)

Definition columns_of (batch : list (FlowRecord * Z)) : columns :=
  foldl (fun c x => add c x.1 x.2) (newColumns (length batch)) batch.

Definition pg_row (x : FlowRecord * Z) : PgRow := pg_add x.1 x.2.

Lemma columns_of_rows batch :
  columns_of batch =
  let rows := pg_row <$> batch in
  mkColumns (pg_received_at <$> rows) (pg_first_switched <$> rows) (pg_last_switched <$> rows) (pg_exporter_id <$> rows)
    (pg_flow_type <$> rows) (pg_src_addr <$> rows) (pg_dst_addr <$> rows) (pg_src_port <$> rows) (pg_dst_port <$> rows)
    (pg_protocol <$> rows) (pg_tcp_flags <$> rows) (pg_packets <$> rows) (pg_bytes <$> rows) (pg_sampling_rate <$> rows)
    (pg_input_iface <$> rows) (pg_output_iface <$> rows) (pg_src_as <$> rows) (pg_dst_as <$> rows)
    (pg_next_hop <$> rows) (pg_dedup_key <$> rows).
Proof.
  unfold columns_of. generalize (length batch) as n. intros n. induction batch as [|x batch IH] using rev_ind; [done|].
  rewrite foldl_app. cbn [foldl]. rewrite IH. cbv zeta. rewrite !fmap_app. done.
Qed.

Lemma mapM_seq {X Y} (f : nat -> option Y) (g : X -> Y) (l : list X) :
  (forall i x, l !! i = Some x -> f i = Some (g x)) -> mapM f (seq 0 (length l)) = Some (g <$> l).
Proof.
  intros Hf. apply mapM_Some, Forall2_fmap_r, Forall2_same_length_lookup_2; [by rewrite length_seq|].
  intros i j x Hi Hx. apply lookup_seq in Hi as [-> _]. by apply Hf.
Qed.

Lemma run_copy_rows batch : run_copy (columns_of batch) = Some (pg_named <$> (pg_row <$> batch)).
Proof.
  unfold run_copy. rewrite columns_of_rows. cbv zeta. generalize (pg_row <$> batch) as rows. intros rows.
  cbn [receivedAt]. rewrite length_fmap. apply (mapM_seq _ pg_named rows). intros i x Hx. unfold copySource.
  cbn [receivedAt firstSwitched lastSwitched exporterIDs flowType srcAddr dstAddr srcPort dstPort protocol tcpFlags packets bytes
    samplingRate inIface outIface srcAS dstAS nextHop dedupKey]. rewrite !list_lookup_fmap, Hx. done.
Qed.

Lemma insertSQL_parses :
  exists rest, parse_insert (tokens insertSQL) = Some (copyColumns, rest) /\
    rest = [word "SELECT"; word "*"; word "FROM"; word "unnest"; TPunct "("] ++
      tl (concat ((fun n => [TPunct ","; TParam n]) <$> seq 1 20)) ++
      [TPunct ")"; word "ON"; word "CONFLICT"; word "DO"; word "NOTHING"].
Proof. eexists. split; vm_compute; reflexivity. Qed.

Lemma run_unnest_arrays arrays :
  run_unnest insertSQL arrays = mapM (unnest_row arrays copyColumns (seq 1 20)) (seq 0 (length (default [] (head arrays)))).
Proof. unfold run_unnest. destruct insertSQL_parses as (rest & -> & ->). reflexivity. Qed.

Lemma run_unnest_rows batch : run_unnest insertSQL (args (columns_of batch)) = Some (pg_named <$> (pg_row <$> batch)).
Proof.
  rewrite run_unnest_arrays, columns_of_rows. cbv zeta. generalize (pg_row <$> batch) as rows. intros rows.
  cbn [args head default receivedAt]. cbn. rewrite !length_fmap. apply (mapM_seq _ pg_named rows). intros i x Hx. unfold unnest_row.
  cbn [seq mapM args lookup list_lookup pred mbind option_bind receivedAt firstSwitched lastSwitched exporterIDs flowType srcAddr dstAddr
    srcPort dstPort protocol tcpFlags packets bytes samplingRate inIface outIface srcAS dstAS nextHop dedupKey].
  rewrite !list_lookup_fmap, Hx. done.
Qed.

(** ** MariaDB: the tuples and the arguments line up *)

Definition my_row (x : FlowRecord * Z) : MyRow := my_args x.1 x.2.

(** The rows of the text, each after the first with its comma. *)
Fixpoint more_rows (n : nat) : text := match n with O => [] | S m => tx "," ++ insertRow ++ more_rows m end.

Definition prefix_tokens : list token := Eval vm_compute in lex [] insertPrefix.
Definition row_tokens : list token := Eval vm_compute in lex [] insertRow.

(** One tuple whose first placeholder has the number [n]. *)
Definition tuple_tokens (n : nat) : list token :=
  TPunct "(" :: tl (concat ((fun i => [TPunct ","; TParam i]) <$> seq n 20)) ++ [TPunct ")"].

Fixpoint more_tuples (m n : nat) : list token :=
  match m with O => [] | S m' => TPunct "," :: tuple_tokens n ++ more_tuples m' (20 + n) end.

Lemma statement_loop_rest batch sb acc :
  statement_loop false batch sb acc = (sb ++ more_rows (length batch), acc ++ concat (row_args <$> batch)).
Proof.
  revert sb acc. induction batch as [|x batch IH]; intros sb acc; [by rewrite !app_nil_r|].
  cbn [statement_loop length more_rows fmap list_fmap concat]. rewrite IH, <- !app_assoc. done.
Qed.

Lemma insertStatement_rows x batch :
  insertStatement (x :: batch) =
  (insertPrefix ++ insertRow ++ more_rows (length batch), concat (row_args <$> x :: batch)).
Proof. unfold insertStatement. cbn [statement_loop]. rewrite statement_loop_rest, <- app_assoc. done. Qed.

Lemma lex_prefix s : lex [] (insertPrefix ++ s) = prefix_tokens ++ lex [] s.
Proof. reflexivity. Qed.

Lemma lex_comma s : lex [] (tx "," ++ s) = TPunct "," :: lex [] s.
Proof. reflexivity. Qed.

Lemma lex_row s : lex [] (insertRow ++ s) = row_tokens ++ lex [] s.
Proof. reflexivity. Qed.

Lemma number_row n ts : number_params n (row_tokens ++ ts) = tuple_tokens n ++ number_params (20 + n) ts.
Proof. reflexivity. Qed.

Lemma number_more m n : number_params n (lex [] (more_rows m)) = more_tuples m n.
Proof.
  revert n. induction m as [|m IH]; intros n; [done|]. cbn [more_rows more_tuples].
  rewrite lex_comma, lex_row. cbn [number_params]. by rewrite number_row, IH.
Qed.

Lemma number_prefix ts : number_params 1 (prefix_tokens ++ ts) = prefix_tokens ++ number_params 1 ts.
Proof. reflexivity. Qed.

Lemma statement_tokens m :
  tokens (insertPrefix ++ insertRow ++ more_rows m) = prefix_tokens ++ tuple_tokens 1 ++ more_tuples m 21.
Proof.
  unfold tokens. by rewrite lex_prefix, lex_row, number_prefix, number_row, number_more.
Qed.

Lemma parse_prefix ts : parse_insert (prefix_tokens ++ ts) = Some (copyColumns, word "VALUES" :: ts).
Proof. reflexivity. Qed.

Lemma value_tuple fuel n ts :
  value_tuples (S fuel) (tuple_tokens n ++ TPunct "," :: ts) = cons (seq n 20) <$> value_tuples fuel ts.
Proof. reflexivity. Qed.

Lemma parse_tuples m n fuel :
  (m < fuel)%nat ->
  value_tuples fuel (tuple_tokens n ++ more_tuples m (20 + n)) = Some ((fun j => seq (20 * j + n) 20) <$> seq 0 (S m)).
Proof.
  revert n fuel. induction m as [|m IH]; intros n [|fuel] Hf; [lia|done|lia|].
  cbn [more_tuples]. rewrite value_tuple, IH by lia. change (seq 0 (S (S m))) with (0%nat :: seq 1 (S m)). rewrite fmap_cons, <- (fmap_S_seq 0 (S m)).
  cbn [fmap option_fmap option_map]. rewrite <- list_fmap_compose. do 2 f_equal. apply list_fmap_ext. intros i j _.
  cbn [compose]. f_equal. lia.
Qed.

(** The arguments of the [j]-th row are the [j]-th twenty. *)
Lemma concat_lookup (rows : list (FlowRecord * Z)) j row i v :
  rows !! j = Some row -> row_args row !! i = Some v -> concat (row_args <$> rows) !! (20 * j + i)%nat = Some v.
Proof.
  revert rows. induction j as [|j IH]; intros [|r rows] Hj Hv; try done; rewrite fmap_cons; cbn [concat].
  - injection Hj as ->. by apply lookup_app_l_Some.
  - rewrite lookup_app_r by (cbn [row_args length]; lia). cbn [lookup list_lookup] in Hj. cbn [row_args length].
    replace (20 * S j + i - 20)%nat with (20 * j + i)%nat by lia. by apply IH.
Qed.

Lemma args_slice (rows : list (FlowRecord * Z)) j row :
  rows !! j = Some row -> mapM (fun n => concat (row_args <$> rows) !! pred n) (seq (20 * j + 1) 20) = Some (row_args row).
Proof.
  intros Hj. apply mapM_Some, Forall2_same_length_lookup_2; [by rewrite length_seq|]. intros i n v Hn Hv.
  apply lookup_seq in Hn as [-> _]. replace (pred (20 * j + 1 + i)) with (20 * j + i)%nat by lia. by eapply concat_lookup.
Qed.

Lemma more_tuples_length m n : (m <= length (more_tuples m n))%nat.
Proof.
  revert n. induction m as [|m IH]; intros n; [simpl; lia|]. cbn [more_tuples length]. rewrite length_app.
  specialize (IH (20 + n)%nat). lia.
Qed.

Lemma run_values_rows batch :
  batch <> [] ->
  (fun '(s, vs) => run_values s vs) (insertStatement batch) = Some (my_named <$> (my_row <$> batch)).
Proof.
  destruct batch as [|x batch]; [done|]. intros _. rewrite insertStatement_rows. set (rows := x :: batch).
  unfold run_values. rewrite statement_tokens, parse_prefix. cbn [mbind option_bind]. rewrite bool_decide_eq_true_2 by done.
  rewrite (parse_tuples (length batch) 1); [|].
  2:{ rewrite length_app. pose proof (more_tuples_length (length batch) 21). change (length (tuple_tokens 1)) with 41%nat. lia. }
  cbn [mbind option_bind]. change (S (length batch)) with (length rows).
  rewrite <- list_fmap_compose. apply mapM_Some. apply Forall2_fmap, Forall2_same_length_lookup_2; [by rewrite length_seq|]. intros j i row Hi Hrow.
  apply lookup_seq in Hi as [-> _]. cbv beta. rewrite length_seq, Nat.add_0_l. change (20 =? length copyColumns)%nat with true.
  cbv iota. by rewrite (args_slice rows j row Hrow).
Qed.

Lemma prefix_params : length (List.filter is_param prefix_tokens) = 0%nat.
Proof. vm_compute. reflexivity. Qed.

Lemma tuple_params n : length (List.filter is_param (tuple_tokens n)) = 20%nat.
Proof. reflexivity. Qed.

Lemma more_tuples_S m n : more_tuples (S m) n = TPunct "," :: tuple_tokens n ++ more_tuples m (20 + n).
Proof. reflexivity. Qed.

Lemma filter_comma ts : List.filter is_param (TPunct "," :: ts) = List.filter is_param ts.
Proof. reflexivity. Qed.

Lemma more_params m n : length (List.filter is_param (more_tuples m n)) = (20 * m)%nat.
Proof.
  revert n. induction m as [|m IH]; intros n; [done|].
  rewrite more_tuples_S, filter_comma, List.filter_app, length_app, IH, tuple_params. lia.
Qed.

Lemma row_args_length rows : length (concat (row_args <$> rows)) = (20 * length rows)%nat.
Proof.
  induction rows as [|r rows IH]; [done|]. rewrite fmap_cons. cbn [concat]. rewrite length_app, IH.
  change (length (row_args r)) with 20%nat. cbn [length]. lia.
Qed.

Lemma placeholders_rows batch :
  placeholders (insertStatement batch).1 = 20 * Z.of_nat (length batch) /\
  Z.of_nat (length (insertStatement batch).2) = 20 * Z.of_nat (length batch).
Proof.
  destruct batch as [|x batch]; [split; vm_compute; reflexivity|]. rewrite insertStatement_rows. cbn [fst snd]. unfold placeholders.
  rewrite statement_tokens, row_args_length, !List.filter_app, !length_app, prefix_params, tuple_params, more_params.
  cbn [length]. lia.
Qed.

Lemma run_block_rows records : run_block ch_insertSQL records = Some (ch_named <$> (ch_insertRow <$> records)).
Proof.
  unfold run_block. assert (E : parse_insert (tokens ch_insertSQL) = Some ((ch_named (ch_insertRow zeroRecord)).*1, []))
    by (vm_compute; reflexivity).
  rewrite E. cbn [mbind option_bind]. rewrite bool_decide_eq_true_2 by done. clear E.
  apply mapM_Some, Forall2_fmap_r, Forall2_fmap_r, Forall_Forall2_diag, Forall_true. intros r.
  unfold compose, ch_row_values, ch_insertRow. cbv beta zeta. destruct (IsValid (NextHop r)); reflexivity.
Qed.

(** C24. The insert statements send every value to its column. For every batch,
    PostgreSQL's COPY and the unnest of its fallback, MariaDB's multi-row INSERT
    and ClickHouse's native block, read as SQL text with their arguments, insert
    the rows that the row codec keeps and reads back, every column of them under
    its own name; MariaDB's statement has
    as many placeholders as arguments, and a chunk of insertRows records stays
    below the server's limit of 65535. *)
Theorem inserts_send_rows (batch : list (FlowRecord * Z)) :
  let pg_rows := (fun x => pg_add x.1 x.2) <$> batch in
  let my_rows := (fun x => my_args x.1 x.2) <$> batch in
  let '(s, vs) := insertStatement batch in
  run_copy (columns_of batch) = Some (pg_named <$> pg_rows) /\
  run_unnest insertSQL (args (columns_of batch)) = Some (pg_named <$> pg_rows) /\
  (batch <> [] -> run_values s vs = Some (my_named <$> my_rows)) /\
  run_block ch_insertSQL batch.*1 = Some (ch_named <$> (ch_insertRow <$> batch.*1)) /\
  placeholders s = Z.of_nat (length vs) /\
  ((length batch <= insertRows)%nat -> placeholders s <= maxPlaceholders).
Proof.
  pose proof (placeholders_rows batch) as [E1 E2]. pose proof (run_values_rows batch) as Hv.
  destruct (insertStatement batch) as [s vs]. cbn [fst snd] in *.
  split_and!; [apply run_copy_rows|apply run_unnest_rows|exact Hv|apply run_block_rows|lia|].
  intros Hn. unfold insertRows, maxPlaceholders in *. lia.
Qed.
