(* ===== verification/Api.v ===== *)
(** * The query API: [internal/api]

    Requests are taken at the level the handlers see them: a method, a path,
    the parsed query parameters and the Authorization header. A response is a
    status with its envelope; the request id and the log lines are left out. The
    paths are those the mux hands to a handler: its own redirects (an unclean
    path, [/v1] to [/v1/]) come before. [time.Parse]'s leniency beyond RFC 3339 is a
    parameter, as in [TimeText]; the validator's rules are those of the struct
    tags. *)

From S2P Require Import Prelude GoTime Netip Flow Text Strings NetipText TimeText Json Cursor Rows Query.

Open Scope char_scope.
Open Scope Z_scope.

(** ** Authentication ([auth.go]) *)

Record auth_config := mkAuthConfig { HTTPAddr : string; APIKeys : list text }.

(** The loop over the keys, from index [i]; the error names key [i+1]. *)
Fixpoint check_keys (i : nat) (ks : list text) : option nat :=
  match ks with
  | [] => None
  | k :: r => if bool_decide (TrimSpace k = []) then Some (S i) else check_keys (S i) r
  end.

(** [None] is no error; [Some i] names key [i] (0: no key at all). *)
Definition CheckConfig (cfg : auth_config) : option nat :=
  if bool_decide (HTTPAddr cfg = ""%string) then None
  else if bool_decide (APIKeys cfg = []) then Some 0%nat
  else check_keys 0 (APIKeys cfg).

Definition scheme : text := tx "Bearer ".

(** [None] is [("", false)]; otherwise the trimmed, non-empty token. *)
Definition bearerToken (header : text) : option text :=
  if (length header <=? length scheme)%nat
     || negb (bool_decide (lower <$> take (length scheme) header = lower <$> scheme)) then None
  else
    let token := TrimSpace (drop (length scheme) header) in
    if bool_decide (token = []) then None else Some token.

(** [subtle.ConstantTimeCompare]. *)
Definition ConstantTimeCompare (x y : text) : Z := if bool_decide (x = y) then 1 else 0.

Definition keyMatches (keys : list text) (token : text) : bool :=
  foldl (fun matched k => Z.lor matched (ConstantTimeCompare k token)) 0 keys =? 1.

Definition prefix (token : text) : text := if (6 <? length token)%nat then take 6 token else token.

(** ** Responses ([server.go]) *)

Inductive code :=
| CodeValidation | CodeBadRequest | CodeUnauthorized | CodeNotFound | CodeMethodNotAllowed
| CodeBackendUnavailable | CodeInternal.

Record Detail := mkDetail { d_Field : string; d_Message : string }.

(** One record and one exporter as the API renders them ([flows.go]). *)
Record FlowJSON := mkFlowJSON {
  j_ReceivedAt : text; j_ExporterID : Z; j_ExporterAddr : Addr; j_FlowType : string;
  j_FirstSwitched : text; j_LastSwitched : text; j_SrcAddr : Addr; j_DstAddr : Addr;
  j_SrcPort : Z; j_DstPort : Z; j_Protocol : Z; j_TCPFlags : Z; j_Packets : Z; j_Bytes : Z;
  j_SamplingRate : Z; j_InputIface : Z; j_OutputIface : Z; j_SrcAS : Z; j_DstAS : Z;
  j_NextHop : option text
}.

Definition toJSON (r : FlowRecord) : FlowJSON :=
  mkFlowJSON (FormatMicro (UTC (ReceivedAt r))) (ExporterID r) (ExporterAddr r) (FlowTypeOf r)
    (FormatMicro (UTC (FirstSwitched r))) (FormatMicro (UTC (LastSwitched r))) (SrcAddr r) (DstAddr r)
    (SrcPort r) (DstPort r) (Protocol r) (TCPFlags r) (Packets r) (Bytes r)
    (SamplingRate r) (InputIface r) (OutputIface r) (SrcAS r) (DstAS r)
    (if IsValid (NextHop r) then Some (Addr_String (NextHop r)) else None).

Record ExporterJSON := mkExporterJSON {
  x_ID : Z; x_IPAddress : Addr; x_Label : option string; x_FirstSeenAt : text; x_LastSeenAt : text
}.

Definition toExporterJSON (e : Exporter) : ExporterJSON :=
  mkExporterJSON (e_ID e) (e_IPAddress e) (e_Label e)
    (FormatMicro (UTC (e_FirstSeenAt e))) (FormatMicro (UTC (e_LastSeenAt e))).

Inductive body :=
| FlowsData (data : list FlowJSON) (next_cursor : string) (has_more : bool)
| ExportersData (data : list ExporterJSON)
| StatusData (status : string) (backends : list (string * string))
| Metrics
| ErrorBody (c : code) (message : string) (details : list Detail).

Record response := mkResponse { status : Z; resp : body }.

Definition ok_data (b : body) : response := mkResponse 200 b.
Definition error_response (st : Z) (c : code) (msg : string) (ds : list Detail) : response :=
  mkResponse st (ErrorBody c msg ds).

Record request := mkRequest {
  Method : string;
  Path : text;
  QueryParams : list (string * string);
  Authorization : text
}.

(** ** Binding and validation ([flows.go]) *)

Record FlowsRequest := mkFlowsRequest {
  rq_Start : Time;
  rq_End : Time;
  rq_ExporterID : option Z;
  rq_SrcAddr : Addr;
  rq_DstAddr : Addr;
  rq_Protocol : option Z;
  rq_Limit : Z;
  rq_Cursor : string
}.

Definition zeroRequest : FlowsRequest := mkFlowsRequest zeroTime zeroTime None AddrZero AddrZero None 0 "".

Definition flows_params : list string :=
  ["start"; "end"; "exporter_id"; "src_addr"; "dst_addr"; "protocol"; "limit"; "cursor"]%string.

(** [Values.Get]: the first value, or the empty string. *)
Definition Get (name : string) (ps : list (string * string)) : string :=
  match List.find (fun kv => bool_decide (kv.1 = name)) ps with Some kv => kv.2 | None => ""%string end.

(** [sort.Strings] on the distinct unknown keys. *)
Definition unknown_params (known : list string) (ps : list (string * string)) : list string :=
  merge_sort String.le (remove_dups (List.filter (fun k => negb (bool_decide (k ∈ known))) (fst <$> ps))).

Definition field_detail {A} (name : string) (msg : string) (x : option A) : list Detail :=
  match x with Some _ => [] | None => [mkDetail name msg] end.

Section binding.
Context (timeParse : text -> option Time).

(** The value of one parameter: [Some d] unchanged when absent, [None] on an error. *)
Definition bind_value {A} (parse : text -> option A) (d : A) (raw : string) : option A :=
  if bool_decide (raw = ""%string) then Some d else parse (tx raw).

Definition parse_time_param (t : text) : option Time := UTC <$> Time_UnmarshalText timeParse t.

(** The first pass of [bind]: one detail per field that does not parse. *)
Definition bind_fields (ps : list (string * string)) : option FlowsRequest * list Detail :=
  let start := bind_value parse_time_param zeroTime (Get "start" ps) in
  let end_ := bind_value parse_time_param zeroTime (Get "end" ps) in
  let exporter := bind_value (fun t => Some <$> ParseInt 64 t) None (Get "exporter_id" ps) in
  let src := bind_value ParseAddr AddrZero (Get "src_addr" ps) in
  let dst := bind_value ParseAddr AddrZero (Get "dst_addr" ps) in
  let proto := bind_value (fun t => Some <$> ParseInt 64 t) None (Get "protocol" ps) in
  let limit := bind_value (ParseInt 64) 0 (Get "limit" ps) in
  let rfc := "must be an RFC 3339 timestamp"%string in
  let ip := "must be an IPv4 or IPv6 address"%string in
  let int := "must be an integer"%string in
  (match start, end_, exporter, src, dst, proto, limit with
   | Some s, Some e, Some x, Some a, Some b, Some p, Some l =>
     Some (mkFlowsRequest s e x a b p l (Get "cursor" ps))
   | _, _, _, _, _, _, _ => None
   end,
   field_detail "start" rfc start ++ field_detail "end" rfc end_ ++ field_detail "exporter_id" int exporter
   ++ field_detail "src_addr" ip src ++ field_detail "dst_addr" ip dst ++ field_detail "protocol" int proto
   ++ field_detail "limit" int limit).

(** The struct tags: [required], [required,gtfield=Start], [min=1],
    [min=0,max=255]; the first failing rule of a field is reported. *)
Definition validate (q : FlowsRequest) : list Detail :=
  (if IsZero (rq_Start q) then [mkDetail "start" "is required"] else [])
  ++ (if IsZero (rq_End q) then [mkDetail "end" "is required"]
      else if negb (After (rq_End q) (rq_Start q)) then [mkDetail "end" "must be after start"] else [])
  ++ match rq_ExporterID q with
     | Some n => if n <? 1 then [mkDetail "exporter_id" "must be at least 1"] else []
     | None => []
     end
  ++ match rq_Protocol q with
     | Some n => if n <? 0 then [mkDetail "protocol" "must be at least 0"]
                 else if 255 <? n then [mkDetail "protocol" "must be at most 255"] else []
     | None => []
     end.

Definition bind (ps : list (string * string)) : result (list Detail) FlowsRequest :=
  let '(req, errs) := bind_fields ps in
  let details := errs ++ ((fun k => mkDetail k "unknown parameter") <$> unknown_params flows_params ps) in
  if negb (bool_decide (details = [])) then Err details
  else
    match req with
    | None => Err details
    | Some q => let vs := validate q in if bool_decide (vs = []) then Ok q else Err vs
    end.

(** [checkCursor]: the token must decode with a signed sequence. *)
Definition checkCursor (s : string) : bool :=
  match decodeCursor SeqInt64 (tx s) with Some _ => true | None => false end.

Definition apiLimit (n : Z) : Z :=
  let limit := if n <? 1 then defaultLimit else n in
  if maxLimit <? limit then maxLimit else limit.

Definition to_query (req : FlowsRequest) : FlowQuery :=
  mkFlowQuery (rq_Start req) (rq_End req) (default 0 (rq_ExporterID req)) (rq_SrcAddr req) (rq_DstAddr req)
    (u8 <$> rq_Protocol req) (apiLimit (rq_Limit req)) (rq_Cursor req).

(** ** The handlers *)

(** A sink as a type assertion sees it, with what its optional methods answer:
    [Ping], the readiness [Query], and [ListExporters] ([None] on an error). *)
Record SinkCap := mkSinkCap {
  sc_ping : option bool;
  sc_query : option bool;
  sc_list : option (option (list Exporter))
}.

Record Server := mkServer {
  querier : option (FlowQuery -> result query_error FlowResultPage);
  sinks : list (string * SinkCap)
}.

Definition flows (s : Server) (r : request) : response :=
  match bind (QueryParams r) with
  | Err details => error_response 422 CodeValidation "invalid parameters" details
  | Ok req =>
    if negb (bool_decide (rq_Cursor req = ""%string)) && negb (checkCursor (rq_Cursor req))
    then error_response 400 CodeBadRequest "undecodable cursor" []
    else
      match querier s with
      | None =>
        error_response 503 CodeBackendUnavailable
          "no queryable storage backend is configured on this instance" []
      | Some query =>
        match query (to_query req) with
        | Err _ => error_response 503 CodeBackendUnavailable "the storage backend did not answer" []
        | Ok page => ok_data (FlowsData (toJSON <$> Records page) (NextCursor page) (HasMore page))
        end
      end
  end.

(** Sinks in name order; the first that can list and does not fail answers. *)
Fixpoint first_lister (names : list string) (s : list (string * SinkCap)) : option (list Exporter) :=
  match names with
  | [] => None
  | n :: rest =>
    match List.find (fun x => bool_decide (x.1 = n)) s with
    | Some (_, c) => match sc_list c with Some (Some l) => Some l | _ => first_lister rest s end
    | None => first_lister rest s
    end
  end.

Definition exporters (s : Server) (r : request) : response :=
  match unknown_params [] (QueryParams r) with
  | (_ :: _) as ks => error_response 422 CodeValidation "invalid parameters" ((fun k => mkDetail k "unknown parameter") <$> ks)
  | [] =>
    match first_lister (merge_sort String.le (fst <$> sinks s)) (sinks s) with
    | Some l => ok_data (ExportersData (toExporterJSON <$> l))
    | None => error_response 503 CodeBackendUnavailable "no configured backend can list exporters" []
    end
  end.

Definition healthz : response := ok_data (StatusData "ok" []).

(** [ping]: a [Pinger] answers itself, a [Querier] with a query, others cannot. *)
Definition ping (c : SinkCap) : bool :=
  match sc_ping c with
  | Some ok => ok
  | None => match sc_query c with Some ok => ok | None => false end
  end.

Fixpoint joinNames (names : list string) : string :=
  match names with
  | [] => ""
  | [n] => n
  | n :: r => n +:+ ", " +:+ joinNames r
  end.

Definition readyz (s : Server) : response :=
  let bad := List.filter (fun x => negb (ping x.2)) (sinks s) in
  if bool_decide (bad = [])
  then ok_data (StatusData "ready" ((fun x : string * SinkCap => (x.1, "ok"%string)) <$> sinks s))
  else error_response 503 CodeBackendUnavailable
         ("backend not ready: " +:+ joinNames (merge_sort String.le (fst <$> bad))) [].

(** ** Routing ([New]) and the middleware of the /v1 subtree *)

Definition v1_prefix : text := tx "/v1/".
Definition is_get (m : string) : bool := bool_decide (m = "GET"%string) || bool_decide (m = "HEAD"%string).

Definition v1 (s : Server) (r : request) : response :=
  if bool_decide (Path r = tx "/v1/flows") then
    if is_get (Method r) then flows s r else error_response 405 CodeMethodNotAllowed (Method r +:+ " is not allowed on " +:+ st (Path r)) []
  else if bool_decide (Path r = tx "/v1/exporters") then
    if is_get (Method r) then exporters s r else error_response 405 CodeMethodNotAllowed (Method r +:+ " is not allowed on " +:+ st (Path r)) []
  else error_response 404 CodeNotFound ("no route matches " +:+ st (Path r)) [].

Definition requireAPIKey (keys : list text) (next : request -> response) (r : request) : response :=
  match bearerToken (Authorization r) with
  | Some token => if keyMatches keys token then next r else error_response 401 CodeUnauthorized "a valid API key is required" []
  | None => error_response 401 CodeUnauthorized "a valid API key is required" []
  end.

Definition serve (cfg : auth_config) (s : Server) (r : request) : response :=
  if bool_decide (take (length v1_prefix) (Path r) = v1_prefix) then requireAPIKey (APIKeys cfg) (v1 s) r
  else if is_get (Method r) && bool_decide (Path r = tx "/metrics") then ok_data Metrics
  else if is_get (Method r) && bool_decide (Path r = tx "/healthz") then healthz
  else if is_get (Method r) && bool_decide (Path r = tx "/readyz") then readyz s
  else error_response 404 CodeNotFound ("no route matches " +:+ st (Path r)) [].

End binding.
