(* ===== verification/ApiThms.v ===== *)
(** * Theorems about the query API

    Authentication of the /v1 subtree, the hand-over of a validated request to
    the storage backend, page cursors at the boundary, and the rendering of
    records. *)

From S2P Require Import Prelude GoTime Netip Flow Text Strings NetipText NetipTextFacts TimeText Json Cursor Rows Query QueryThms Api.

Open Scope char_scope.
Open Scope Z_scope.

(** ** The bearer token and the keys *)

(** What the middleware accepts: the scheme in any case, then, after trimming,
    one of the configured keys. *)
Definition presents (header key : text) : Prop :=
  exists sch rest, header = sch ++ rest /\ lower <$> sch = lower <$> scheme /\ TrimSpace rest = key /\ key <> [].
Definition authorized (keys : list text) (header : text) : Prop :=
  exists key, key ∈ keys /\ presents header key.

Definition unauthorized : response := error_response 401 CodeUnauthorized "a valid API key is required" [].
Definition under_v1 (r : request) : Prop := take (length v1_prefix) (Path r) = v1_prefix.

Lemma bearerToken_spec header key : bearerToken header = Some key <-> presents header key.
Proof.
  unfold bearerToken, presents. split.
  - destruct (_ || _) eqn:E; [done|]. apply orb_false_iff in E as [_ E%negb_false_iff].
    apply bool_decide_eq_true in E. cbv zeta. case_bool_decide as Ht; [done|]. intros [= <-].
    exists (take (length scheme) header), (drop (length scheme) header). by rewrite take_drop.
  - intros (sch & rest & -> & Hs & <- & Ht).
    assert (Hl : length sch = length scheme) by (by rewrite <- (length_fmap lower sch), Hs, length_fmap).
    assert (Hr : rest <> []) by (by intros ->).
    rewrite (proj2 (Nat.leb_gt _ _)).
    2: { rewrite length_app, Hl. destruct rest; [done|]. simpl. lia. }
    rewrite <- Hl, take_app_length, drop_app_length, bool_decide_eq_true_2 by done.
    simpl. by rewrite bool_decide_eq_false_2.
Qed.

Lemma keyMatches_spec keys token : keyMatches keys token = bool_decide (token ∈ keys).
Proof.
  unfold keyMatches.
  assert (H : forall m, (m = 0 \/ m = 1) ->
    foldl (fun a k => Z.lor a (ConstantTimeCompare k token)) m keys = if bool_decide (token ∈ keys) then 1 else m).
  { induction keys as [|k keys IH]; intros m Hm; simpl foldl; [done|].
    unfold ConstantTimeCompare at 2. destruct (decide (k = token)) as [->|Hk].
    - rewrite bool_decide_eq_true_2, (bool_decide_eq_true_2 (token ∈ token :: keys)) by (done || by left).
      assert (E : Z.lor m 1 = 1) by (destruct Hm as [-> | ->]; done). rewrite E, IH by (by right). by case_bool_decide.
    - rewrite bool_decide_eq_false_2, Z.lor_0_r, IH by done.
      rewrite (bool_decide_ext (token ∈ keys) (token ∈ k :: keys)); [done|].
      rewrite elem_of_cons. naive_solver. }
  rewrite H by (by left). by case_bool_decide.
Qed.

Lemma serve_v1 tp cfg s r : under_v1 r -> serve tp cfg s r = requireAPIKey (APIKeys cfg) (v1 tp s) r.
Proof. intros H. unfold serve. by rewrite bool_decide_eq_true_2. Qed.

(** The middleware is the specification. *)
Lemma requireAPIKey_spec keys next r :
  (authorized keys (Authorization r) -> requireAPIKey keys next r = next r) /\
  (~ authorized keys (Authorization r) -> requireAPIKey keys next r = unauthorized).
Proof.
  unfold requireAPIKey, authorized. split.
  - intros (key & Hk & Hp). apply bearerToken_spec in Hp as ->. by rewrite keyMatches_spec, bool_decide_eq_true_2.
  - intros Hn. destruct (bearerToken _) as [token|] eqn:E; [|done].
    rewrite keyMatches_spec, bool_decide_eq_false_2; [done|]. intros Hin.
    apply Hn. exists token. by rewrite <- bearerToken_spec.
Qed.

Lemma v1_not_401 tp s r : status (v1 tp s r) <> 401.
Proof.
  unfold v1, flows, exporters. repeat case_match; simpl; lia.
Qed.

(** C33. A request under /v1/ reaches a handler exactly when its Authorization
    header carries the Bearer scheme (in any case) and, trimmed, one of the
    configured keys; every other request gets the same 401, so the response
    says neither what was wrong nor which keys exist. *)
Theorem auth_exact tp cfg s r :
  under_v1 r ->
  (authorized (APIKeys cfg) (Authorization r) -> serve tp cfg s r = v1 tp s r) /\
  (~ authorized (APIKeys cfg) (Authorization r) -> serve tp cfg s r = unauthorized) /\
  (status (serve tp cfg s r) = 401 <-> ~ authorized (APIKeys cfg) (Authorization r)).
Proof.
  intros H. rewrite serve_v1 by done. destruct (requireAPIKey_spec (APIKeys cfg) (v1 tp s) r) as [H1 H2].
  split_and!; [done..|]. split; [|by intros ->%H2]. intros Hs Ha. rewrite H1 in Hs by done.
  by apply v1_not_401 in Hs.
Qed.

Definition no_sinks : Server := mkServer None [].
Definition one_key : auth_config := mkAuthConfig ":8080" [tx "s3cret"].

Lemma auth_exact_witness :
  let r := mkRequest "GET" (tx "/v1/flows") [] (tx "bearer s3cret ") in
  status (serve (fun _ => None) one_key no_sinks r) <> 401.
Proof.
  intros r. rewrite (proj2 (proj2 (auth_exact (fun _ => None) one_key no_sinks r eq_refl))).
  intros H. apply H. exists (tx "s3cret"). split; [by left|].
  exists (tx "bearer "), (tx "s3cret "). by vm_compute.
Defined.

(** [CheckConfig] passes exactly without an API or with keys none of which is blank. *)
Lemma CheckConfig_spec cfg :
  CheckConfig cfg = None <->
  HTTPAddr cfg = ""%string \/ APIKeys cfg <> [] /\ Forall (fun k => TrimSpace k <> []) (APIKeys cfg).
Proof.
  unfold CheckConfig. case_bool_decide as Ha; [by split; [left|]|].
  case_bool_decide as Hk; [split; [done|naive_solver]|].
  assert (H : forall ks i, check_keys i ks = None <-> Forall (fun k => TrimSpace k <> []) ks).
  { induction ks as [|k ks IH]; intros i; simpl; [split; [constructor|done]|].
    rewrite Forall_cons, <- (IH (S i)). case_bool_decide; naive_solver. }
  rewrite H. naive_solver.
Qed.

(** A key with surrounding white space passes [CheckConfig], yet no
    request can present it: tokens are trimmed before they are compared. When
    all keys are such, /v1/ answers 401 to every request. *)
Theorem padded_key_locks_out tp cfg s r :
  APIKeys cfg <> [] -> Forall (fun k => TrimSpace k <> [] /\ TrimSpace k <> k) (APIKeys cfg) -> under_v1 r ->
  CheckConfig cfg = None /\ serve tp cfg s r = unauthorized.
Proof.
  intros Hne Hk H. split.
  - apply CheckConfig_spec. right. split; [done|]. eapply Forall_impl; [exact Hk|]. by intros k [? _].
  - rewrite serve_v1 by done. apply requireAPIKey_spec. intros (key & Hin & sch & rest & _ & _ & E & _).
    rewrite Forall_forall in Hk. apply (Hk key Hin). by rewrite <- E, TrimSpace_idem.
Qed.

Lemma padded_key_locks_out_witness :
  let cfg := mkAuthConfig ":8080" [tx " s3cret"] in
  CheckConfig cfg = None /\
  serve (fun _ => None) cfg no_sinks (mkRequest "GET" (tx "/v1/flows") [] (tx "Bearer  s3cret")) = unauthorized.
Proof. apply padded_key_locks_out; [done|by repeat constructor|done]. Defined.

(** ** Cursors at the boundary *)

Lemma ParseInt_print_big n : 2 ^ 63 <= n -> ParseInt 64 (print_int n) = None.
Proof.
  intros Hn. unfold print_int, ParseInt. rewrite (proj2 (Z.ltb_ge n 0)) by lia.
  destruct (print_dec n) as [|c r] eqn:E; [by apply print_base_nonempty in E|].
  destruct (print_dec_not_sign _ _ _ E) as [? ?]; [lia|].
  rewrite !bool_decide_eq_false_2 by done. rewrite <- E.
  destruct (dec_digits_print n) as (ds & -> & ->); [lia|].
  by rewrite (proj2 (Z.ltb_ge _ _)) by (simpl; lia).
Qed.

Lemma checkCursor_big c : is_sint 64 (c_T c) -> 2 ^ 63 <= c_Seq c -> checkCursor (st (encodeCursor c)) = false.
Proof.
  intros Ht Hs. unfold checkCursor. rewrite tx_st. unfold decodeCursor, encodeCursor.
  rewrite b64_roundtrip by apply bytes_of_wf. rewrite chr_bytes_of. unfold unmarshal_cursor, cursor_json.
  rewrite parse_print_flat.
  - cbn [cursor_members]. change (is_field "t" (tx "t")) with true. change (is_field "t" (tx "s")) with false.
    change (is_field "s" (tx "s")) with true. cbv iota. cbn [get_int]. rewrite ParseInt_print by (done || lia).
    unfold parse_seq. by rewrite ParseInt_print_big.
  - constructor; [|constructor; [|constructor]]; (split; [intros r; reflexivity|apply JNum_int_ok]).
Qed.

(** The API rejects cursors its own backend issued: a ClickHouse cursor
    whose unsigned sequence is 2^63 or more (random, or the first bytes of a
    hash) decodes in the backend, but [checkCursor] reads the sequence as a
    signed integer and the client's next page is a 400. *)
Theorem clickhouse_cursor_rejected tp s r req c :
  is_sint 64 (c_T c) -> 2 ^ 63 <= c_Seq c < 2 ^ 64 ->
  bind tp (QueryParams r) = Ok req -> rq_Cursor req = st (encodeCursor c) ->
  decodeCursor SeqUint64 (tx (rq_Cursor req)) = Some c /\
  flows tp s r = error_response 400 CodeBadRequest "undecodable cursor" [].
Proof.
  intros Ht Hs Hb Hc. rewrite Hc. split.
  - rewrite tx_st. apply cursor_roundtrip; [done|]. simpl. unfold is_uint. lia.
  - unfold flows. rewrite Hb, Hc, checkCursor_big by (done || lia).
    rewrite bool_decide_eq_false_2 by apply encodeCursor_nonempty. done.
Qed.

Lemma clickhouse_cursor_rejected_witness :
  let c := mkCursor 1700000000000000 (2 ^ 63) in
  let r := mkRequest "GET" (tx "/v1/flows")
             [("start", "2023-11-14T00:00:00Z"); ("end", "2023-11-15T00:00:00Z"); ("cursor", st (encodeCursor c))]%string
             [] in
  status (flows (fun _ => None) no_sinks r) = 400.
Proof.
  intros c r. destruct (bind (fun _ => None) (QueryParams r)) as [req|] eqn:E; [|vm_compute in E; discriminate].
  destruct (clickhouse_cursor_rejected (fun _ => None) no_sinks r req c) as [_ ->]; [done|done|exact E| |done].
  vm_compute in E. injection E as <-. by vm_compute.
Defined.

(** ** The request a backend sees *)

(** The parameters, each read as its type; [None] of the result is a value that
    does not parse. *)
Definition param {A} (ps : list (string * string)) (name : string) (parse : text -> option A) (v : A) : Prop :=
  Get name ps <> ""%string /\ parse (tx (Get name ps)) = Some v.
Definition opt_param {A} ps name (parse : text -> option A) (absent v : A) : Prop :=
  Get name ps = ""%string /\ v = absent \/ param ps name parse v.

(** The query that a set of parameters asks for. *)
Record asks tp (ps : list (string * string)) (q : FlowQuery) : Prop := {
  asks_start : param ps "start" (parse_time_param tp) (q_Start q) /\ q_Start q <> zeroTime;
  asks_end : param ps "end" (parse_time_param tp) (q_End q) /\ q_End q <> zeroTime /\
             After (q_End q) (q_Start q) = true;
  asks_exporter : Get "exporter_id" ps = ""%string /\ q_ExporterID q = 0
                  \/ param ps "exporter_id" (ParseInt 64) (q_ExporterID q) /\ 1 <= q_ExporterID q;
  asks_src : opt_param ps "src_addr" ParseAddr AddrZero (q_SrcAddr q);
  asks_dst : opt_param ps "dst_addr" ParseAddr AddrZero (q_DstAddr q);
  asks_protocol : Get "protocol" ps = ""%string /\ q_Protocol q = None
                  \/ exists p, q_Protocol q = Some p /\ param ps "protocol" (ParseInt 64) p /\ is_uint 8 p;
  asks_limit : 1 <= q_Limit q <= 1000 /\
    exists n, opt_param ps "limit" (ParseInt 64) 0 n /\ q_Limit q = (if n <? 1 then 100 else n `min` 1000);
  asks_cursor : q_Cursor q = Get "cursor" ps /\ (q_Cursor q = ""%string \/ checkCursor (q_Cursor q) = true);
  asks_known : forall k v, (k, v) ∈ ps -> k ∈ flows_params
}.

Lemma unknown_params_nil known ps :
  unknown_params known ps = [] <-> forall k v, (k, v) ∈ ps -> k ∈ known.
Proof.
  assert (H : forall k, k ∈ unknown_params known ps <-> (k ∉ known) /\ exists v, (k, v) ∈ ps).
  { intros k. unfold unknown_params. rewrite merge_sort_Permutation, elem_of_remove_dups.
    rewrite list_elem_of_In, filter_In, negb_true_iff, bool_decide_eq_false, <- list_elem_of_In, list_elem_of_fmap.
    split; [intros [([k' v] & -> & ?) ?]|intros [? [v ?]]]; [naive_solver|split; [by exists (k, v)|done]]. }
  split.
  - intros E k v Hin. destruct (decide (k ∈ known)) as [|Hn]; [done|exfalso].
    assert (Hk : k ∈ unknown_params known ps) by (apply H; naive_solver). rewrite E in Hk. by apply elem_of_nil in Hk.
  - intros Hall. destruct (unknown_params known ps) as [|k l] eqn:E; [done|exfalso].
    assert (Hk : k ∈ k :: l) by (by left). apply H in Hk as [Hn [v Hv]]. by apply Hn, (Hall k v).
Qed.

Lemma bind_value_ok {A} (parse : text -> option A) ps name d v :
  bind_value parse d (Get name ps) = Some v <-> opt_param ps name parse d v.
Proof. unfold bind_value, opt_param, param. case_bool_decide; naive_solver. Qed.

Lemma validate_ok q :
  validate q = [] <->
  rq_Start q <> zeroTime /\ rq_End q <> zeroTime /\ After (rq_End q) (rq_Start q) = true /\
  match rq_ExporterID q with Some n => 1 <= n | None => True end /\
  match rq_Protocol q with Some n => 0 <= n <= 255 | None => True end.
Proof.
  unfold validate. rewrite !app_nil. rewrite <- !IsZero_false.
  destruct (IsZero (rq_Start q)), (IsZero (rq_End q)), (After (rq_End q) (rq_Start q)); simpl; try naive_solver;
  destruct (rq_ExporterID q) as [n|], (rq_Protocol q) as [p|]; repeat case_match; naive_solver lia.
Qed.

(** [bind] accepts exactly the parameters that parse, are known and validate. *)
Lemma bind_ok tp ps req :
  bind tp ps = Ok req <->
  opt_param ps "start" (parse_time_param tp) zeroTime (rq_Start req) /\
  opt_param ps "end" (parse_time_param tp) zeroTime (rq_End req) /\
  opt_param ps "exporter_id" (fun t => Some <$> ParseInt 64 t) None (rq_ExporterID req) /\
  opt_param ps "src_addr" ParseAddr AddrZero (rq_SrcAddr req) /\
  opt_param ps "dst_addr" ParseAddr AddrZero (rq_DstAddr req) /\
  opt_param ps "protocol" (fun t => Some <$> ParseInt 64 t) None (rq_Protocol req) /\
  opt_param ps "limit" (ParseInt 64) 0 (rq_Limit req) /\ rq_Cursor req = Get "cursor" ps /\
  (forall k v, (k, v) ∈ ps -> k ∈ flows_params) /\ validate req = [].
Proof.
  rewrite <- !bind_value_ok, <- unknown_params_nil. unfold bind, bind_fields.
  repeat match goal with |- context [bind_value ?f ?d ?r] =>
    destruct (bind_value f d r); cbn [field_detail app];
    [|rewrite bool_decide_eq_false_2 by done; split; [done|intros; by destruct_and?]]
  end.
  split.
  - destruct (unknown_params _ _) eqn:E; [|done]. cbn. case_bool_decide as Hv; [|done]. intros [= <-].
    cbn. split_and!; done.
  - intros (H1 & H2 & H3 & H4 & H5 & H6 & H7 & H8 & H9 & H10). rewrite H9. cbn.
    destruct req; cbn in *; simplify_eq. by rewrite H10.
Qed.

(** What a request asks for is what [bind] and [to_query] hand over. *)
Lemma asks_iff tp ps q :
  asks tp ps q <->
  exists req, bind tp ps = Ok req /\ to_query req = q /\
    (rq_Cursor req = ""%string \/ checkCursor (rq_Cursor req) = true).
Proof.
  split.
  - intros [[Hs Hs0] [He [He0 Hse]] Hx Ha Hb Hp [Hl1 (n & Hn & Hl)] [Hc Hcc] Hk].
    assert (X : exists x, opt_param ps "exporter_id" (fun t => Some <$> ParseInt 64 t) None x /\
      default 0 x = q_ExporterID q /\ match x with Some n => 1 <= n | None => True end).
    { destruct Hx as [[H1 H2]|[[H1 H2] H3]]; [exists None|exists (Some (q_ExporterID q))]; [by split; [left|]|].
      split_and!; [right|done..]. split; [done|]. by rewrite H2. }
    assert (P : exists p, opt_param ps "protocol" (fun t => Some <$> ParseInt 64 t) None p /\
      u8 <$> p = q_Protocol q /\ match p with Some n => 0 <= n <= 255 | None => True end).
    { destruct Hp as [[H1 H2]|(p & -> & [H1 H2] & H3)]; [exists None|exists (Some p)]; [by split; [left|]|].
      unfold is_uint in H3. split_and!; [right; split; [done|by rewrite H2]| |lia..].
      simpl. f_equal. apply Z.mod_small. lia. }
    destruct X as (x & Hx1 & Hx2 & Hx3), P as (p & Hp1 & Hp2 & Hp3).
    exists (mkFlowsRequest (q_Start q) (q_End q) x (q_SrcAddr q) (q_DstAddr q) p n (q_Cursor q)).
    split_and!.
    + apply bind_ok. cbn. split_and!; try done; [by right..|]. by apply validate_ok.
    + unfold to_query, apiLimit, defaultLimit, maxLimit. destruct q. cbn in *. f_equal; try done.
      rewrite Hl. destruct (Z.ltb_spec n 1); [done|]. destruct (Z.ltb_spec 1000 n); lia.
    + done.
  - intros (req & Hb & <- & Hc).
    apply bind_ok in Hb as (Hs & He & Hx & Ha & Hb & Hp & Hl & Hcur & Hk & (V1 & V2 & V3 & V4 & V5)%validate_ok).
    unfold to_query. constructor; cbn; try done.
    + split; [|done]. by destruct Hs as [[_ ?]|?].
    + split; [|done]. by destruct He as [[_ ?]|?].
    + destruct Hx as [[? ->]|[Hx1 Hx2]]; [by left|right]. unfold param.
      destruct (ParseInt 64 _) as [n|]; [|done]. cbn in Hx2. simplify_eq. rewrite <- Hx2 in *. done.
    + destruct Hp as [[? ->]|[Hp1 Hp2]]; [by left|right]. unfold param.
      destruct (ParseInt 64 _) as [n|]; [|done]. cbn in Hp2. apply (inj Some) in Hp2. rewrite <- Hp2 in *. cbn.
      exists n. split; [f_equal; apply Z.mod_small; lia|]. split; [done|unfold is_uint; lia].
    + unfold apiLimit, defaultLimit, maxLimit. split.
      * repeat case_match; lia.
      * exists (rq_Limit req). split; [done|]. destruct (Z.ltb_spec (rq_Limit req) 1); [done|].
        destruct (Z.ltb_spec 1000 (rq_Limit req)); lia.
Qed.

Lemma flows_asked tp s r q query :
  asks tp (QueryParams r) q -> querier s = Some query ->
  flows tp s r = match query q with
                 | Ok page => ok_data (FlowsData (toJSON <$> Records page) (NextCursor page) (HasMore page))
                 | Err _ => error_response 503 CodeBackendUnavailable "the storage backend did not answer" []
                 end.
Proof.
  intros Hq Hs. apply asks_iff in Hq as (req & Hb & <- & Hc). unfold flows. rewrite Hb, Hs.
  assert (E : negb (bool_decide (rq_Cursor req = ""%string)) && negb (checkCursor (rq_Cursor req)) = false).
  { apply andb_false_iff. rewrite !negb_false_iff, bool_decide_eq_true. done. }
  rewrite E. by destruct (query (to_query req)).
Qed.

(** The same parameters without a cursor. *)
Definition drop_cursor (ps : list (string * string)) : list (string * string) :=
  List.filter (fun kv => negb (bool_decide (kv.1 = "cursor"%string))) ps.

Lemma find_drop name ps : name <> "cursor"%string ->
  List.find (fun kv : string * string => bool_decide (kv.1 = name)) (drop_cursor ps)
  = List.find (fun kv => bool_decide (kv.1 = name)) ps.
Proof.
  intros Hn. unfold drop_cursor. induction ps as [|kv ps IH]; [done|]. cbn [List.filter List.find].
  destruct (decide (kv.1 = "cursor"%string)) as [E|E].
  - rewrite (bool_decide_eq_true_2 _ E). cbn [negb]. rewrite IH, (bool_decide_eq_false_2 (kv.1 = name)); [done|congruence].
  - rewrite (bool_decide_eq_false_2 _ E). cbn [negb List.find]. by rewrite IH.
Qed.

Lemma Get_drop name ps : name <> "cursor"%string -> Get name (drop_cursor ps) = Get name ps.
Proof. intros Hn. unfold Get. by rewrite find_drop. Qed.

Lemma Get_drop_cursor ps : Get "cursor" (drop_cursor ps) = ""%string.
Proof.
  unfold Get, drop_cursor. induction ps as [|kv ps IH]; [done|]. cbn [List.filter].
  case_bool_decide as E; cbn [negb]; [done|]. cbn [List.find]. by rewrite bool_decide_eq_false_2.
Qed.

Lemma known_drop ps :
  (forall k v, (k, v) ∈ drop_cursor ps -> k ∈ flows_params) <-> (forall k v, (k, v) ∈ ps -> k ∈ flows_params).
Proof.
  unfold drop_cursor. setoid_rewrite list_elem_of_In. setoid_rewrite filter_In. split; [|naive_solver].
  intros H k v Hin. destruct (decide (k = "cursor"%string)) as [->|Hk].
  - rewrite <- list_elem_of_In. apply (bool_decide_unpack _). by vm_compute.
  - apply (H k v). split; [done|]. by rewrite bool_decide_eq_false_2.
Qed.

(** [bind] does not look at the cursor. *)
Lemma bind_drop tp ps : is_ok (bind tp (drop_cursor ps)) = is_ok (bind tp ps).
Proof.
  assert (H : forall req, bind tp (drop_cursor ps) = Ok req -> exists req', bind tp ps = Ok req').
  { intros req. rewrite bind_ok. unfold opt_param, param. rewrite !Get_drop, known_drop by done. intros H.
    exists (mkFlowsRequest (rq_Start req) (rq_End req) (rq_ExporterID req) (rq_SrcAddr req) (rq_DstAddr req)
      (rq_Protocol req) (rq_Limit req) (Get "cursor" ps)).
    rewrite bind_ok. unfold opt_param, param. cbn. destruct_and! H. split_and!; done. }
  assert (H' : forall req, bind tp ps = Ok req -> exists req', bind tp (drop_cursor ps) = Ok req').
  { intros req. rewrite bind_ok. unfold opt_param, param. intros Hb.
    exists (mkFlowsRequest (rq_Start req) (rq_End req) (rq_ExporterID req) (rq_SrcAddr req) (rq_DstAddr req)
      (rq_Protocol req) (rq_Limit req) ""%string).
    rewrite bind_ok. unfold opt_param, param. rewrite !Get_drop, known_drop, Get_drop_cursor by done. cbn.
    destruct_and! Hb. split_and!; done. }
  destruct (bind tp (drop_cursor ps)) as [a|], (bind tp ps) as [b|]; try done;
    [destruct (H a eq_refl) as [? [=]]|destruct (H' b eq_refl) as [? [=]]].
Qed.

Lemma asks_drop tp ps : (exists q, asks tp (drop_cursor ps) q) <-> is_ok (bind tp ps) = true.
Proof.
  rewrite <- bind_drop. split.
  - intros [q (req & -> & _)%asks_iff]. done.
  - destruct (bind tp (drop_cursor ps)) as [req|] eqn:E; [|done]. intros _. exists (to_query req). apply asks_iff.
    exists req. split_and!; [done..|]. left. apply bind_ok in E. destruct_and! E.
    match goal with H : rq_Cursor req = _ |- _ => rewrite H end. apply Get_drop_cursor.
Qed.

Lemma bind_err_details tp ps ds : bind tp ps = Err ds -> ds <> [].
Proof.
  unfold bind. destruct (bind_fields tp ps) as [req errs] eqn:E. case_bool_decide as Hd; cbn [negb].
  - destruct req as [q|]; [case_bool_decide as Hv; [done|]; by intros [= <-]|].
    apply app_eq_nil in Hd as [-> _]. unfold bind_fields in E. repeat case_match; simplify_eq/=.
  - by intros [= <-].
Qed.

(** C34. /v1/flows answers from the backend exactly the query its parameters
    ask for: required and ordered times, a positive exporter id, a protocol
    that fits a byte, a page size between 1 and 1000, a decodable cursor and no
    unknown parameter; when the backend fails, or there is none, it is a 503
    with code backend_unavailable. A request that asks for no such query never
    reaches the backend: when its parameters other than the cursor ask for
    none, it is a 422 with code validation_error and a non-empty list of details;
    when they do ask for one and only the cursor is undecodable, it is a 400
    with code bad_request. *)
Theorem flows_answers_what_is_asked tp s r :
  (forall q, asks tp (QueryParams r) q ->
    match querier s with
    | Some query =>
      match query q with
      | Ok page => flows tp s r = ok_data (FlowsData (toJSON <$> Records page) (NextCursor page) (HasMore page))
      | Err _ => exists msg, flows tp s r = error_response 503 CodeBackendUnavailable msg []
      end
    | None => exists msg, flows tp s r = error_response 503 CodeBackendUnavailable msg []
    end) /\
  ((forall q, ~ asks tp (QueryParams r) q) ->
    ((forall q, ~ asks tp (drop_cursor (QueryParams r)) q) ->
      exists msg ds, flows tp s r = error_response 422 CodeValidation msg ds /\ ds <> []) /\
    (forall q, asks tp (drop_cursor (QueryParams r)) q ->
      exists msg, flows tp s r = error_response 400 CodeBadRequest msg [])).
Proof.
  split.
  - intros q Hq. destruct (querier s) as [query|] eqn:Es; [rewrite (flows_asked tp s r q query Hq Es); destruct (query q); eauto|].
    apply asks_iff in Hq as (req & Hb & _ & Hc). unfold flows. rewrite Hb, Es. destruct (_ && _) eqn:E; [|eauto].
    apply andb_true_iff in E as [E1 E2]. rewrite negb_true_iff, bool_decide_eq_false in E1.
    destruct Hc as [Hc|Hc]; [done|]. by rewrite Hc in E2.
  - intros Hn. split.
    + intros Hd. unfold flows. destruct (bind tp (QueryParams r)) as [req|ds] eqn:Hb.
      * destruct (proj2 (asks_drop tp (QueryParams r))) as [q Hq]; [by rewrite Hb|]. by destruct (Hd q).
      * do 2 eexists. split; [done|]. by eapply bind_err_details.
    + intros q Hq. assert (Hok : is_ok (bind tp (QueryParams r)) = true) by (apply asks_drop; eauto).
      unfold flows. destruct (bind tp (QueryParams r)) as [req|ds] eqn:Hb; [|done].
      destruct (_ && _) eqn:E; [eauto|]. destruct (Hn (to_query req)). apply asks_iff. exists req.
      split_and!; [done..|]. apply andb_false_iff in E. by rewrite !negb_false_iff, bool_decide_eq_true in E.
Qed.

Definition flows_get (extra : list (string * string)) : request :=
  mkRequest "GET" (tx "/v1/flows")
    ([("start", "2023-11-14T00:00:00Z"); ("end", "2023-11-15T00:00:00Z"); ("protocol", "6")]%string ++ extra) [].

(** A request that asks for a query, one with a bad cursor, one with a bad
    exporter id. *)
Lemma flows_answers_what_is_asked_witness :
  let s := mkServer (Some (fun q => Query Postgres q [])) [] in
  let tp := fun _ => None in
  flows tp s (flows_get []) = ok_data (FlowsData [] "" false) /\
  (exists msg, flows tp s (flows_get [("cursor", "x")]%string) = error_response 400 CodeBadRequest msg []) /\
  (exists msg ds, flows tp s (flows_get [("exporter_id", "0")]%string) = error_response 422 CodeValidation msg ds /\ ds <> []).
Proof.
  intros s tp.
  assert (H0 : asks tp (QueryParams (flows_get []))
    (mkFlowQuery (Date 2023 11 14 0 0 0 0) (Date 2023 11 15 0 0 0 0) 0 AddrZero AddrZero (Some 6) 100 "")).
  { apply asks_iff. exists (mkFlowsRequest (Date 2023 11 14 0 0 0 0) (Date 2023 11 15 0 0 0 0) None AddrZero AddrZero (Some 6) 0 "").
    split; [by vm_compute|]. split; [by vm_compute|by left]. }
  assert (N : forall extra q, asks tp (QueryParams (flows_get extra)) q ->
    match bind tp (QueryParams (flows_get extra)) with
    | Ok req => bool_decide (rq_Cursor req = ""%string) || checkCursor (rq_Cursor req)
    | Err _ => false
    end = true).
  { intros extra q (req & -> & _ & Hc)%asks_iff. rewrite orb_true_iff, bool_decide_eq_true. done. }
  split_and!.
  - exact (proj1 (flows_answers_what_is_asked tp s (flows_get [])) _ H0).
  - refine (proj2 (proj2 (flows_answers_what_is_asked tp s (flows_get [("cursor", "x")]%string)) _) _ H0).
    intros q Hq. specialize (N _ q Hq). vm_compute in N. discriminate N.
  - apply (proj2 (flows_answers_what_is_asked tp s (flows_get [("exporter_id", "0")]%string)));
      intros q Hq; specialize (N _ q Hq); vm_compute in N; discriminate N.
Defined.

(** ** What a client reads back *)

(** The rendered timestamps are the record's instants cut to whole
    microseconds (exactly the stored ones, which are whole), and the rendered
    next hop parses to the record's. *)
Theorem flow_json_readback r :
  time_wf (ReceivedAt r) -> time_wf (FirstSwitched r) -> time_wf (LastSwitched r) ->
  0 <= Year (ReceivedAt r) <= 9999 -> 0 <= Year (FirstSwitched r) <= 9999 -> 0 <= Year (LastSwitched r) <= 9999 ->
  addr_wf (NextHop r) -> zoneless (NextHop r) ->
  parseRFC3339 (j_ReceivedAt (toJSON r)) = Some (TruncateMicro (ReceivedAt r)) /\
  parseRFC3339 (j_FirstSwitched (toJSON r)) = Some (TruncateMicro (FirstSwitched r)) /\
  parseRFC3339 (j_LastSwitched (toJSON r)) = Some (TruncateMicro (LastSwitched r)) /\
  (whole_micro (ReceivedAt r) -> parseRFC3339 (j_ReceivedAt (toJSON r)) = Some (ReceivedAt r)) /\
  match j_NextHop (toJSON r) with
  | Some t => ParseAddr t = Some (NextHop r)
  | None => NextHop r = AddrZero
  end.
Proof.
  intros W1 W2 W3 Y1 Y2 Y3 Ha Hz. cbn. unfold UTC. rewrite !FormatMicro_parses by done. split_and!; try done.
  - intros Hm. by rewrite TruncateMicro_id.
  - destruct (IsValid (NextHop r)) eqn:E; [by apply ParseAddr_String|]. by destruct (NextHop r).
Qed.

Lemma flow_json_readback_witness :
  let r := set_ReceivedAt (Unix 1700000000 123456789) zeroRecord in
  parseRFC3339 (j_ReceivedAt (toJSON r)) = Some (Unix 1700000000 123456000).
Proof.
  intros r. destruct (flow_json_readback r) as [-> _]; by vm_compute.
Defined.
