(* ===== verification/ApiClient.v ===== *)
(** * A client of the API

    The whole way of a query: authenticated requests to /v1/flows, each with
    the [next_cursor] of the answer before it, through routing, binding,
    validation, the backend's pagination and the rendering of records. *)

From S2P Require Import Prelude GoTime Netip Flow Text Strings NetipText NetipTextFacts TimeText Json Cursor Rows Query QueryThms Api ApiThms.

Open Scope char_scope.
Open Scope Z_scope.

(** ** The client *)

(** The same request for the page after cursor [c]. *)
Definition next_page (r : request) (c : string) : request :=
  mkRequest (Method r) (Path r)
    (("cursor"%string, c) :: List.filter (fun kv => negb (bool_decide (kv.1 = "cursor"%string))) (QueryParams r))
    (Authorization r).

(** Follows the cursors while [has_more]; anything but a 200 ends it. *)
Fixpoint follow (tp : text -> option Time) (fuel : nat) (cfg : auth_config) (s : Server) (r : request) : option (list FlowJSON) :=
  match fuel with
  | O => None
  | S f =>
    let a := serve tp cfg s r in
    if status a =? 200 then
      match resp a with
      | FlowsData data next more =>
        if more then (app data) <$> follow tp f cfg s (next_page r next) else Some data
      | _ => None
      end
    else None
  end.

(** ** Cursors the API gives out are cursors it takes *)

Lemma read_page_elem limit rows acc x : x ∈ (read_page limit rows acc).1 -> x ∈ acc \/ x ∈ rows.
Proof.
  revert acc. induction rows as [|y rows IH]; intros acc; cbn [read_page]; [by left|].
  destruct (_ =? _)%nat; [by left|]. intros [[H|H]%elem_of_app|H]%IH; [by left| |by right; right].
  right. apply list_elem_of_singleton in H as ->. by left.
Qed.

Lemma read_page_full limit rows acc recs : read_page limit rows acc = (recs, true) -> length recs = limit.
Proof.
  revert acc. induction rows as [|y rows IH]; intros acc; cbn [read_page]; [done|].
  destruct (Nat.eqb_spec (length acc) limit); [by intros [= <-]|apply IH].
Qed.

Lemma filter_elem {A} (f : A -> bool) (l : list A) x : x ∈ List.filter f l -> x ∈ l.
Proof. rewrite !list_elem_of_In, filter_In. by intros []. Qed.

Lemma next_cursor_checks k q rows page :
  Forall (fun x => is_sint 64 (r_seq x)) rows -> Query k q rows = Ok page -> HasMore page = true ->
  checkCursor (NextCursor page) = true.
Proof.
  intros Hs Hq Hm. rewrite Forall_forall in Hs.
  assert (Hp : forall sel limit, (0 < limit)%nat -> (forall x, x ∈ sel -> x ∈ rows) ->
    let '(recs, more) := read_page limit (take (S limit) (ordered sel)) [] in
    page = mkFlowResultPage (r_rec <$> recs) (match last recs with
      | Some x => if more then st (encodeCursor (mkCursor (cursor_T k (r_time x)) (r_seq x))) else ""%string
      | None => ""%string end) more -> checkCursor (NextCursor page) = true).
  { intros sel limit Hlim Hsel. destruct (read_page _ _ _) as [recs more] eqn:Er. intros ->. cbn [NextCursor HasMore] in *. subst more.
    destruct (last recs) as [x|] eqn:El; [|apply last_None in El as ->; apply read_page_full in Er; cbn in Er; lia]. unfold checkCursor. rewrite tx_st, cursor_roundtrip; [done|apply cursor_T_sint|].
    apply Hs, Hsel. apply last_Some_elem_of in El.
    assert (Hx : x ∈ (read_page limit (take (S limit) (ordered sel)) []).1) by (by rewrite Er).
    apply read_page_elem in Hx as [Hx%elem_of_nil|Hx]; [done|].
    eapply elem_of_sublist in Hx; [|apply sublist_take]. unfold ordered in Hx. by rewrite merge_sort_Permutation in Hx. }
  unfold Query in Hq. pose proof (clampLimit_range (q_Limit q)) as Hl.
  replace (Z.to_nat (clampLimit (q_Limit q) + 1)) with (S (Z.to_nat (clampLimit (q_Limit q)))) in Hq by lia.
  case_bool_decide.
  - specialize (Hp (List.filter (matches k q) rows) (Z.to_nat (clampLimit (q_Limit q))) ltac:(lia) (filter_elem _ _)).
    destruct (read_page _ _ _). apply Hp. by injection Hq.
  - destruct (decodeCursor _ _) as [c|]; [|done].
    specialize (Hp (List.filter (before (cursor_bound k (c_T c)) (c_Seq c)) (List.filter (matches k q) rows))
      (Z.to_nat (clampLimit (q_Limit q))) ltac:(lia) (fun x Hx => filter_elem _ _ x (filter_elem _ _ x Hx))).
    destruct (read_page _ _ _). apply Hp. by injection Hq.
Qed.

(** The request for the next page asks for the same query at the cursor. *)
Lemma Get_next r c name : name <> "cursor"%string -> Get name (QueryParams (next_page r c)) = Get name (QueryParams r).
Proof.
  intros Hn. unfold Get. cbn [next_page QueryParams List.find]. rewrite bool_decide_eq_false_2 by (intros E; by apply Hn).
  change (List.filter _ (QueryParams r)) with (drop_cursor (QueryParams r)). by rewrite find_drop.
Qed.

Lemma asks_next tp r q c :
  asks tp (QueryParams r) q -> checkCursor c = true -> asks tp (QueryParams (next_page r c)) (with_cursor q c).
Proof.
  intros [] Hc. constructor; unfold opt_param, param in *; rewrite ?Get_next by done; try done.
  - split; [done|by right].
  - intros k v [[= -> ->]|Hin]%elem_of_cons; [apply (bool_decide_unpack _); vm_compute; exact I|].
    by apply filter_elem, asks_known in Hin.
Qed.

(** ** Every page, through every layer *)

Definition flows_request (cfg : auth_config) (r : request) : Prop :=
  Path r = tx "/v1/flows" /\ is_get (Method r) = true /\ authorized (APIKeys cfg) (Authorization r).

Lemma serve_flows tp cfg s r : flows_request cfg r -> serve tp cfg s r = flows tp s r.
Proof.
  intros (Hp & Hm & Ha). rewrite serve_v1 by (unfold under_v1; by rewrite Hp).
  rewrite (proj1 (requireAPIKey_spec _ _ _) Ha). unfold v1. by rewrite Hp, Hm.
Qed.

Lemma follow_crawl tp cfg k rows s r q fuel :
  Forall (fun x => is_sint 64 (r_seq x)) rows -> querier s = Some (fun q => Query k q rows) ->
  flows_request cfg r -> asks tp (QueryParams r) q ->
  follow tp fuel cfg s r = (fun l : list FlowRecord => toJSON <$> l) <$> crawl fuel k q rows.
Proof.
  intros Hs Hq. revert r q. induction fuel as [|f IH]; intros r q Hr Ha; [done|]. cbn [follow crawl].
  rewrite serve_flows, (flows_asked tp s r q _ Ha Hq) by done.
  destruct (Query k q rows) as [page|e] eqn:E; [|done]. cbn [ok_data status resp]. rewrite Z.eqb_refl.
  destruct (HasMore page) eqn:Hm; [|done].
  rewrite (IH (next_page r (NextCursor page)) (with_cursor q (NextCursor page))); [|exact Hr|].
  - destruct (crawl f k _ rows); [|done]. cbn. by rewrite fmap_app.
  - apply asks_next; [done|]. by eapply next_cursor_checks.
Qed.

(** C15. The API, from the first request to the last page. A client with a
    configured key asks /v1/flows for a query and repeats the request with the
    [next_cursor] it was given while [has_more]: no request is refused, and the
    answers are, page by page, exactly the rendered rows that the filters
    select, newest first, each once and none left out. Asked of the rows: that
    [(received_at, seq)] is a key, that cursors can express reception times,
    and that sequences fit the signed 64 bits the API checks a cursor against,
    as they always do on PostgreSQL and MariaDB. *)
Theorem api_pages_exact tp cfg k rows s r q fuel :
  keys_unique rows -> Forall (row_ok k) rows -> Forall (fun x => is_sint 64 (r_seq x)) rows ->
  querier s = Some (fun q => Query k q rows) -> flows_request cfg r ->
  asks tp (QueryParams r) q -> q_Cursor q = ""%string -> (length rows < fuel)%nat ->
  follow tp fuel cfg s r = Some (toJSON ∘ r_rec <$> ordered (List.filter (matches k q) rows)).
Proof.
  intros Hu Hok Hs Hq Hr Ha Hc Hf. rewrite (follow_crawl tp cfg k rows s r q) by done.
  rewrite (crawl_answer k rows q Hu Hok fuel Hc Hf). unfold answer. cbn. by rewrite <- list_fmap_compose.
Qed.

Definition client_server : Server := mkServer (Some (fun q => Query Postgres q sample_db)) [].
Definition client_request : request :=
  mkRequest "GET" (tx "/v1/flows")
    [("start", "2023-11-14T00:00:00Z"); ("end", "2023-11-15T00:00:00Z"); ("limit", "4")]%string (tx "Bearer s3cret").

Lemma api_pages_exact_witness :
  exists q, asks (fun _ => None) (QueryParams client_request) q /\
  follow (fun _ => None) 11 one_key client_server client_request
  = Some (toJSON ∘ r_rec <$> ordered (List.filter (matches Postgres q) sample_db)) /\
  length (List.filter (matches Postgres q) sample_db) = 10%nat.
Proof.
  set (q := mkFlowQuery (Date 2023 11 14 0 0 0 0) (Date 2023 11 15 0 0 0 0) 0 AddrZero AddrZero None 4 "").
  assert (Ha : asks (fun _ => None) (QueryParams client_request) q).
  { apply asks_iff. exists (mkFlowsRequest (q_Start q) (q_End q) None AddrZero AddrZero None 4 "").
    split; [by vm_compute|]. split; [by vm_compute|by left]. }
  exists q. split; [exact Ha|]. split; [|vm_compute; reflexivity].
  apply (api_pages_exact (fun _ => None) one_key Postgres sample_db client_server client_request q 11).
  - apply (bool_decide_unpack _). vm_compute. exact I.
  - repeat constructor; vm_compute; congruence.
  - repeat constructor; vm_compute; congruence.
  - reflexivity.
  - split; [reflexivity|]. split; [reflexivity|]. exists (tx "s3cret"). split; [by left|].
    exists (tx "Bearer "), (tx "s3cret"). by vm_compute.
  - exact Ha.
  - reflexivity.
  - vm_compute. lia.
Defined.
