(* ===== verification/App.v ===== *)
(** * The wiring layer: [internal/app/run.go] and [cmd/collector/main.go]

    Construction ([New]) is a function of the outcomes of the constructors it
    calls. [Run] is a state machine: the main goroutine between its blocking
    points, beside the goroutines it starts (the sources, the pipeline, the
    HTTP server) and the signal that cancels its context. An event is one step
    of one of them; a run of the program is a sequence of events. *)

From S2P Require Import Prelude GoTime Flow Text Api Pipeline.

(** ** Errors and exit codes ([main.go]) *)

Inductive sentinel := ErrConfig | ErrMigration.

#[global] Instance sentinel_eq_dec : EqDecision sentinel.
Proof. solve_decision. Defined.

(** An error is the sentinels it wraps. *)
Definition error := list sentinel.

Definition exitOK : Z := 0.
Definition exitError : Z := 1.
Definition exitConfig : Z := 2.
Definition exitMigration : Z := 3.

Definition exit_code (err : option error) : Z :=
  match err with
  | None => exitOK
  | Some e =>
    if bool_decide (ErrConfig ∈ e) then exitConfig
    else if bool_decide (ErrMigration ∈ e) then exitMigration
    else exitError
  end.

(** The command line, as [flag] parsed it. *)
Inductive args :=
| ArgsHelp
| ArgsInvalid
| Args (showVersion validateConfig dumpOpenAPI healthcheck : bool).

(** [run]: [check] is the error of [-validate-config], [dumped] whether the
    document could be written, [probe] the result of the health check, and
    [app] what [app.Run] returns. *)
Definition main_run (a : args) (check : option error) (dumped : bool) (probe : Z) (app : option error) : Z :=
  match a with
  | ArgsHelp => exitOK
  | ArgsInvalid => exitConfig
  | Args version validate dump health =>
    if version then exitOK
    else if dump then if dumped then exitOK else exitError
    else if health then probe
    else if validate then match check with Some _ => exitConfig | None => exitOK end
    else exit_code app
  end.

(** [runHealthcheck]: the status of the probe, [None] when there was no answer. *)
Definition runHealthcheck (status : option Z) : Z :=
  match status with Some st => if st =? 200 then exitOK else exitError | None => exitError end.

(** ** Configuration checks and construction *)

Record app_config := mkAppConfig {
  cfg_auth : auth_config;
  cfg_Sinks : list string;
  cfg_Sources : list string;
  cfg_TemplateTopic : string;
  cfg_Options : Options
}.

Definition known_sinks : list string := ["postgres"; "mariadb"; "clickhouse"; "kafka"]%string.
Definition known_sources : list string := ["netflow"; "kafka"]%string.
Definition NetFlowEnabled (cfg : app_config) : bool := bool_decide ("netflow"%string ∈ cfg_Sources cfg).

Definition CheckNames (cfg : app_config) : option error :=
  if negb (bool_decide (CheckConfig (cfg_auth cfg) = None)) then Some [ErrConfig]
  else if negb (forallb (fun s => bool_decide (s ∈ known_sinks)) (cfg_Sinks cfg)) then Some [ErrConfig]
  else if negb (forallb (fun s => bool_decide (s ∈ known_sources)) (cfg_Sources cfg)) then Some [ErrConfig]
  else None.

(** A sink that is also storage: the type assertion to [flow.Backend]. *)
Definition is_backend (name : string) : bool := negb (bool_decide (name = "kafka"%string)).

(** A constructed sink is its position in NFC_SINKS. *)
Record App := mkApp {
  a_sinks : gmap string nat;
  a_backends : gmap string nat;
  a_sources : list string;
  a_templates : bool;
  a_closed : list nat
}.

Definition app0 : App := mkApp ∅ ∅ [] false [].

(** [closeSinks]: every sink of the map, all of which are closers; the store of
    the templates; then empty maps. *)
Definition closeSinks (a : App) : App :=
  mkApp ∅ ∅ (a_sources a) false (a_closed a ++ (map_to_list (a_sinks a)).*2).

Definition add_sink (name : string) (i : nat) (a : App) : App :=
  mkApp (<[name := i]> (a_sinks a))
        (if is_backend name then <[name := i]> (a_backends a) else a_backends a)
        (a_sources a) (a_templates a) (a_closed a).

Definition add_source (name : string) (a : App) : App :=
  mkApp (a_sinks a) (a_backends a) (if bool_decide (name ∈ a_sources a) then a_sources a else a_sources a ++ [name])
        (a_templates a) (a_closed a).

(** What the constructors of the other packages answer: [None] is success. *)
Record outcomes := mkOutcomes {
  newSink : nat -> option error;
  newStore : bool;
  newSource : string -> bool
}.

Fixpoint build_sinks (o : outcomes) (i : nat) (names : list string) (a : App) : App * option error :=
  match names with
  | [] => (a, None)
  | n :: rest =>
    match newSink o i with
    | Some e => (closeSinks a, Some (ErrMigration :: e))
    | None => build_sinks o (S i) rest (add_sink n i a)
    end
  end.

Fixpoint build_sources (o : outcomes) (names : list string) (a : App) : App * option error :=
  match names with
  | [] => (a, None)
  | n :: rest =>
    if newSource o n then build_sources o rest (add_source n a)
    else (closeSinks a, Some [ErrConfig])
  end.

Definition set_templates (a : App) : App := mkApp (a_sinks a) (a_backends a) (a_sources a) true (a_closed a).

(** [New], with the state the error paths leave behind. *)
Definition NewApp (o : outcomes) (cfg : app_config) : App * option error :=
  match CheckNames cfg with
  | Some e => (app0, Some e)
  | None =>
    match build_sinks o 0 (cfg_Sinks cfg) app0 with
    | (a, Some e) => (a, Some e)
    | (a, None) =>
      let share := negb (bool_decide (cfg_TemplateTopic cfg = ""%string)) && NetFlowEnabled cfg in
      if share && negb (newStore o) then (closeSinks a, Some [ErrMigration])
      else
        match build_sources o (cfg_Sources cfg) (if share then set_templates a else a) with
        | (a, Some e) => (a, Some e)
        | (a, None) =>
          match New (cfg_Options cfg) (map_to_list (a_sinks a)).*1 with
          | Err _ => (closeSinks a, Some [ErrConfig])
          | Ok _ => (a, None)
          end
        end
    end
  end.

(** [serveHTTP]'s choice: the first configured sink that is storage. *)
Definition choose_querier (cfg : app_config) (a : App) : option string :=
  List.find (fun n => bool_decide (is_Some (a_backends a !! n))) (cfg_Sinks cfg).

(** ** [Run] *)

(** Where the main goroutine is: before the next [Migrate]; before
    [serveHTTP]; waiting for the pipeline after a failed listen; at the head of
    the loop over the sources; in [awaitBound]; in the select; in [wg.Wait];
    shutting the HTTP server down; waiting for its goroutine; waiting for the
    pipeline; returned. *)
Inductive main_pc :=
| MMigrate (todo : list string)
| MListen
| MListenFailed
| MSources (todo : list string)
| MAwaitBound (name : string) (todo : list string)
| MSelect
| MWaitSources (err : option error)
| MShutdownHTTP (err : option error)
| MAwaitHTTP (err : option error)
| MAwaitPipe (err : option error)
| MReturned (err : option error).

(** A source that has exited keeps its [Ready] channel closed if it was bound. *)
Inductive src_state := SIdle | SStarting | SBound | SExited (was_bound : bool).
Inductive pipe_state := PIdle | PRunning | PStopping | PDone.
Inductive http_state := HOff | HServing | HClosing | HDone.

#[global] Instance main_pc_eq_dec : EqDecision main_pc.
Proof. solve_decision. Defined.
#[global] Instance src_state_eq_dec : EqDecision src_state.
Proof. solve_decision. Defined.
#[global] Instance pipe_state_eq_dec : EqDecision pipe_state.
Proof. solve_decision. Defined.
#[global] Instance http_state_eq_dec : EqDecision http_state.
Proof. solve_decision. Defined.

Record world := mkWorld {
  w_app : App;
  w_http_on : bool;               (* NFC_HTTP_ADDR is set *)
  w_pc : main_pc;
  w_ctx : bool;                   (* ctx is done *)
  w_srcCtx : bool;                (* stopSources was called *)
  w_pipe : pipe_state;
  w_http : http_state;
  w_src : gmap string src_state;
  w_srcErr : list error;          (* the buffered channel *)
  w_ready : bool;
  w_migrated : list string        (* history *)
}.

(** The source tells when it is bound: it has [Ready] and [LocalAddr]. *)
Definition reports (name : string) : bool := bool_decide (name = "netflow"%string).

(** [srcCtx] is derived from [ctx]. *)
Definition src_cancelled (w : world) : bool := w_ctx w || w_srcCtx w.
Definition src_at (w : world) (n : string) : src_state := default SIdle (w_src w !! n).
(** Its goroutine runs. *)
Definition running (s : src_state) : bool := match s with SStarting | SBound => true | _ => false end.
Definition ready_closed (s : src_state) : bool := match s with SBound => true | SExited b => b | _ => false end.
Definition sources_done (w : world) : bool := forallb (fun n => negb (running (src_at w n))) (a_sources (w_app w)).

Definition at_pc (w : world) (pc : main_pc) : world :=
  mkWorld (w_app w) (w_http_on w) pc (w_ctx w) (w_srcCtx w) (w_pipe w) (w_http w) (w_src w) (w_srcErr w) (w_ready w) (w_migrated w).
Definition set_pipe (p : pipe_state) (w : world) : world :=
  mkWorld (w_app w) (w_http_on w) (w_pc w) (w_ctx w) (w_srcCtx w) p (w_http w) (w_src w) (w_srcErr w) (w_ready w) (w_migrated w).
Definition set_http (h : http_state) (w : world) : world :=
  mkWorld (w_app w) (w_http_on w) (w_pc w) (w_ctx w) (w_srcCtx w) (w_pipe w) h (w_src w) (w_srcErr w) (w_ready w) (w_migrated w).
Definition set_src (n : string) (s : src_state) (w : world) : world :=
  mkWorld (w_app w) (w_http_on w) (w_pc w) (w_ctx w) (w_srcCtx w) (w_pipe w) (w_http w) (<[n := s]> (w_src w)) (w_srcErr w) (w_ready w) (w_migrated w).
Definition set_srcErr (es : list error) (w : world) : world :=
  mkWorld (w_app w) (w_http_on w) (w_pc w) (w_ctx w) (w_srcCtx w) (w_pipe w) (w_http w) (w_src w) es (w_ready w) (w_migrated w).
Definition cancel (w : world) : world :=
  mkWorld (w_app w) (w_http_on w) (w_pc w) true (w_srcCtx w) (w_pipe w) (w_http w) (w_src w) (w_srcErr w) (w_ready w) (w_migrated w).
Definition stopSources (w : world) : world :=
  mkWorld (w_app w) (w_http_on w) (w_pc w) (w_ctx w) true (w_pipe w) (w_http w) (w_src w) (w_srcErr w) (w_ready w) (w_migrated w).
Definition set_ready (w : world) : world :=
  mkWorld (w_app w) (w_http_on w) (w_pc w) (w_ctx w) (w_srcCtx w) (w_pipe w) (w_http w) (w_src w) (w_srcErr w) true (w_migrated w).
Definition set_migrated (n : string) (w : world) : world :=
  mkWorld (w_app w) (w_http_on w) (w_pc w) (w_ctx w) (w_srcCtx w) (w_pipe w) (w_http w) (w_src w) (w_srcErr w) (w_ready w) (w_migrated w ++ [n]).
Definition close_all (w : world) : world :=
  mkWorld (closeSinks (w_app w)) (w_http_on w) (w_pc w) (w_ctx w) (w_srcCtx w) (w_pipe w) (w_http w) (w_src w) (w_srcErr w) (w_ready w) (w_migrated w).

Definition stop_pipe (w : world) : world := if bool_decide (w_pipe w = PDone) then w else set_pipe PStopping w.

(** The call of [httpSrv.Shutdown]: from here on [Serve] returns. *)
Definition shutdown_http (w : world) : world := if bool_decide (w_http w = HServing) then set_http HClosing w else w.

(** The end of [Run]: sinks close, the error is returned. *)
Definition finish (err : option error) (w : world) : world := at_pc (close_all w) (MReturned err).

Inductive event :=
| Signal                        (* ctx is cancelled *)
| MigrateNext (ok : bool)
| Listen (ok : bool)
| StartNext                     (* the head of the loop over the sources *)
| BoundSeen                     (* awaitBound: Ready *)
| BoundCancelled                (* awaitBound: ctx.Done *)
| SelectDone                    (* the select: ctx.Done *)
| SelectErr                     (* the select: a source's error *)
| SourcesStopped                (* wg.Wait returns; Shutdown, if there is a server, or stopPipe is called *)
| HTTPShutdown                  (* Shutdown returns, at the latest on its timeout *)
| HTTPDone                      (* <-httpDone *)
| PipeDrained                   (* <-pipeDone *)
| PipeTimeout                   (* time.After *)
| SourceBinds (n : string)
| SourceFails (n : string)
| SourceStops (n : string)
| ServeReturns                  (* srv.Serve returns in its goroutine, Shutdown having been called *)
| ServeFails                    (* srv.Serve returns on its own: the listener failed *)
| PipeReturns.                  (* pipe.Run returns *)

(** [None]: the event cannot happen in this state. *)
Definition step (ev : event) (w : world) : option world :=
  match ev, w_pc w with
  | Signal, _ => if w_ctx w then None else Some (cancel w)
  | MigrateNext ok, MMigrate (n :: todo) =>
    if ok then
      let w := set_migrated n w in
      Some (match todo with
            | [] => at_pc (set_pipe PRunning w) MListen
            | _ => at_pc w (MMigrate todo)
            end)
    else Some (finish (Some [ErrMigration]) w)
  | MigrateNext ok, MMigrate [] => if ok then Some (at_pc (set_pipe PRunning w) MListen) else None
  | Listen ok, MListen =>
    if w_http_on w then
      if ok then Some (at_pc (set_http HServing w) (MSources (a_sources (w_app w))))
      else Some (at_pc (stop_pipe w) MListenFailed)
    else if ok then Some (at_pc w (MSources (a_sources (w_app w)))) else None
  | StartNext, MSources [] => Some (at_pc (set_ready w) MSelect)
  | StartNext, MSources (n :: todo) =>
    let w := set_src n SStarting w in
    Some (at_pc w (if reports n then MAwaitBound n todo else MSources todo))
  | BoundSeen, MAwaitBound n todo =>
    if ready_closed (src_at w n) then Some (at_pc w (MSources todo)) else None
  | BoundCancelled, MAwaitBound n todo => if src_cancelled w then Some (at_pc w (MSources todo)) else None
  | SelectDone, MSelect => if w_ctx w then Some (at_pc (stopSources w) (MWaitSources None)) else None
  | SelectErr, MSelect =>
    match w_srcErr w with
    | e :: es => Some (at_pc (stopSources (set_srcErr es w)) (MWaitSources (Some e)))
    | [] => None
    end
  | SourcesStopped, MWaitSources err =>
    if sources_done w then
      Some (if bool_decide (w_http w = HOff) then at_pc (stop_pipe w) (MAwaitPipe err)
            else at_pc (shutdown_http w) (MShutdownHTTP err))
    else None
  | HTTPShutdown, MShutdownHTTP err => Some (at_pc w (MAwaitHTTP err))
  | HTTPDone, MAwaitHTTP err =>
    if bool_decide (w_http w = HDone) then Some (at_pc (stop_pipe w) (MAwaitPipe err)) else None
  | PipeDrained, MAwaitPipe err => if bool_decide (w_pipe w = PDone) then Some (finish err w) else None
  | PipeTimeout, MAwaitPipe err => Some (finish err w)
  | PipeDrained, MListenFailed =>
    if bool_decide (w_pipe w = PDone) then Some (finish (Some [ErrConfig]) w) else None
  | SourceBinds n, _ => if bool_decide (src_at w n = SStarting) then Some (set_src n SBound w) else None
  | SourceFails n, _ =>
    if running (src_at w n)
    then Some (set_srcErr (w_srcErr w ++ [[]]) (set_src n (SExited (ready_closed (src_at w n))) w)) else None
  | SourceStops n, _ =>
    if running (src_at w n) && src_cancelled w
    then Some (set_src n (SExited (ready_closed (src_at w n))) w) else None
  | ServeReturns, _ => if bool_decide (w_http w = HClosing) then Some (set_http HDone w) else None
  | ServeFails, _ => if bool_decide (w_http w = HServing) then Some (set_http HDone w) else None
  | PipeReturns, _ => if bool_decide (w_pipe w = PStopping) then Some (set_pipe PDone w) else None
  | _, _ => None
  end.

(** The steps the program or its libraries promise to take once they can: those
    of the main goroutine (a call that returns, a select with a ready case) and
    those with which a goroutine answers what it was told: a source its
    cancelled context, [Serve] the call of [Shutdown], the pipeline its
    cancelled context. A signal, a socket that binds, a source or a server that
    fails by itself may happen or not. *)
Definition obliged (ev : event) : bool :=
  match ev with Signal | SourceBinds _ | SourceFails _ | ServeFails => false | _ => true end.

(** [Run] has been told to stop: the context is done, the listen failed, or the
    select is left. *)
Definition stopping (w : world) : bool :=
  w_ctx w ||
  match w_pc w with
  | MListenFailed | MWaitSources _ | MShutdownHTTP _ | MAwaitHTTP _ | MAwaitPipe _ => true
  | _ => false
  end.

(** A schedule: a sequence of events. *)
Abbreviation run := (run_script step).

(** A built collector, with the orders in which Go visits its maps. *)
Definition start (a : App) (http : bool) (order : list string) (sources : list string) : world :=
  mkWorld (mkApp (a_sinks a) (a_backends a) sources (a_templates a) (a_closed a)) http (MMigrate order)
    false false PIdle HOff ∅ [] false [].
