(* ===== verification/AppThms.v ===== *)
(** * Theorems about the wiring layer: boot order, shutdown order, termination *)

From S2P Require Import Prelude GoTime Flow Text Api Pipeline App.

(** ** The invariant of [Run] *)

Section invariant.
Context (a : App) (http : bool) (order srcs : list string).

Definition w0 : world := start a http order srcs.

(** What is true of the pipeline, the HTTP server and the sources at each
    point of the main goroutine. *)
Definition at_inv (w : world) : Prop :=
  match w_pc w with
  | MMigrate todo => w_migrated w ++ todo = order /\ w_pipe w = PIdle /\ w_http w = HOff /\ w_src w = ∅
                     /\ w_srcCtx w = false /\ w_ready w = false /\ w_srcErr w = []
  | MListen => w_migrated w = order /\ w_pipe w = PRunning /\ w_http w = HOff /\ w_src w = ∅
               /\ w_srcCtx w = false /\ w_ready w = false
  | MListenFailed => w_migrated w = order /\ (w_pipe w = PStopping \/ w_pipe w = PDone) /\ w_http w = HOff
                     /\ w_src w = ∅
  | MSources todo =>
    w_migrated w = order /\ w_pipe w = PRunning /\ w_srcCtx w = false /\ w_ready w = false
    /\ (exists pre, srcs = pre ++ todo) /\ w_http w <> HClosing
  | MAwaitBound n todo =>
    w_migrated w = order /\ w_pipe w = PRunning /\ w_srcCtx w = false /\ w_ready w = false
    /\ (exists pre, srcs = pre ++ n :: todo) /\ src_at w n <> SIdle /\ w_http w <> HClosing
  | MSelect => w_migrated w = order /\ w_pipe w = PRunning /\ w_ready w = true /\ w_http w <> HClosing
  | MWaitSources _ => w_migrated w = order /\ w_pipe w = PRunning /\ w_srcCtx w = true /\ w_http w <> HClosing
  | MShutdownHTTP _
  | MAwaitHTTP _ =>
    w_migrated w = order /\ w_pipe w = PRunning /\ sources_done w = true /\ (w_http w = HClosing \/ w_http w = HDone)
  | MAwaitPipe _ =>
    w_migrated w = order /\ (w_pipe w = PStopping \/ w_pipe w = PDone) /\ sources_done w = true
    /\ (w_http w = HOff \/ w_http w = HDone)
  | MReturned err =>
    (w_pipe w = PIdle /\ w_http w = HOff /\ w_src w = ∅ /\ err = Some [ErrMigration]
     \/ w_migrated w = order /\ (w_pipe w = PStopping \/ w_pipe w = PDone))
    /\ sources_done w = true /\ (w_http w = HOff \/ w_http w = HDone)
  end.

Definition returned (pc : main_pc) : bool := match pc with MReturned _ => true | _ => false end.

Record inv (w : world) : Prop := {
  inv_at : at_inv w;
  inv_app : w_app w = if returned (w_pc w) then closeSinks (w_app w0) else w_app w0;
  inv_src : forall n, src_at w n <> SIdle -> n ∈ srcs
}.

Lemma inv_start : inv w0.
Proof. split; [|done|]; [by cbn|]. intros n. unfold src_at. cbn. by rewrite lookup_empty. Qed.

Lemma src_at_set n s w m : src_at (set_src n s w) m = if decide (n = m) then s else src_at w m.
Proof. unfold src_at, set_src. cbn. rewrite lookup_insert. by case_decide. Qed.

Lemma app_sources w : inv w -> a_sources (w_app w) = srcs.
Proof. intros H. rewrite (inv_app w H). by destruct (returned _). Qed.

Lemma sources_done_spec w : inv w -> sources_done w = true <-> forall n, running (src_at w n) = false.
Proof.
  intros H. unfold sources_done. rewrite app_sources, forallb_forall by done. split.
  - intros Hd n. destruct (running (src_at w n)) eqn:E; [|done].
    specialize (Hd n). rewrite E in Hd. discriminate Hd. apply list_elem_of_In, (inv_src w H). by destruct (src_at w n).
  - intros Hd n _. by rewrite Hd.
Qed.

(** Sources run only between the start of the loop and [wg.Wait]. *)
Lemma running_pc w n :
  inv w -> running (src_at w n) = true ->
  match w_pc w with MSources _ | MAwaitBound _ _ | MSelect | MWaitSources _ => True | _ => False end.
Proof.
  intros H Hr. pose proof (inv_at w H) as Hat. unfold at_inv in Hat.
  assert (He : w_src w = ∅ -> False) by (intros E; unfold src_at in Hr; by rewrite E, lookup_empty in Hr).
  assert (Hd : sources_done w = true -> False) by (rewrite sources_done_spec by done; intros E; by rewrite E in Hr).
  destruct (w_pc w); naive_solver.
Qed.

(** A source's own step. *)
Lemma inv_set_src w n s es :
  inv w -> running (src_at w n) = true -> s <> SIdle -> inv (set_srcErr es (set_src n s w)).
Proof.
  intros H Hr Hs. pose proof (running_pc w n H Hr) as Hpc. destruct H as [Hat Happ Hsrc]. split; [|done|].
  - unfold at_inv in *. cbn [w_pc set_srcErr set_src]. destruct (w_pc w); try done.
    destruct Hat as (?&?&?&?&?&?&?). split_and!; try done. cbn.
    unfold src_at in *. cbn. rewrite lookup_insert. by case_decide.
  - intros m. unfold src_at. cbn. rewrite lookup_insert. case_decide as E; [|apply Hsrc].
    intros _. subst m. apply Hsrc. by destruct (src_at w n).
Qed.

Lemma set_srcErr_id w : set_srcErr (w_srcErr w) w = w.
Proof. by destruct w. Qed.

Lemma at_inv_frame w w' :
  w_pc w' = w_pc w -> w_migrated w' = w_migrated w -> w_pipe w' = w_pipe w -> w_http w' = w_http w ->
  w_src w' = w_src w -> w_srcCtx w' = w_srcCtx w -> w_ready w' = w_ready w -> w_srcErr w' = w_srcErr w ->
  w_app w' = w_app w -> inv w -> inv w'.
Proof.
  destruct w, w'. cbn. intros. subst. destruct H8 as [Hat Happ Hsrc]. by split.
Qed.

(** The goroutine of the HTTP server ends. *)
Lemma inv_serve_ends w : inv w -> w_http w = HServing \/ w_http w = HClosing -> inv (set_http HDone w).
Proof.
  intros [Hat Happ Hsrc] E. split; [|done|done].
  unfold at_inv, sources_done, src_at in *. cbn. destruct (w_pc w); destruct E as [E|E]; rewrite E in *; naive_solver.
Qed.

(** The steps of the goroutines beside the main one. *)
Lemma inv_env ev w w' :
  inv w ->
  match ev with Signal | SourceBinds _ | SourceFails _ | SourceStops _ | ServeReturns | ServeFails
  | PipeReturns => True | _ => False end ->
  step ev w = Some w' -> inv w'.
Proof.
  intros H Hev Hs. destruct ev; try done; unfold step in Hs.
  - destruct (w_ctx w); [done|]. apply (inj Some) in Hs as <-. by eapply at_inv_frame; [..|exact H].
  - case_bool_decide as E; [|done]. apply (inj Some) in Hs as <-.
    rewrite <- (set_srcErr_id (set_src n SBound w)). apply inv_set_src; [done|by rewrite E|done].
  - destruct (running _) eqn:E; [|done]. apply (inj Some) in Hs as <-. by apply inv_set_src.
  - destruct (running _) eqn:E; [|done]. destruct (src_cancelled w); [|done]. apply (inj Some) in Hs as <-.
    rewrite <- (set_srcErr_id (set_src n _ w)). by apply inv_set_src.
  - case_bool_decide as E; [|done]. apply (inj Some) in Hs as <-. by apply inv_serve_ends; [|right].
  - case_bool_decide as E; [|done]. apply (inj Some) in Hs as <-. by apply inv_serve_ends; [|left].
  - case_bool_decide as E; [|done]. apply (inj Some) in Hs as <-. destruct H as [Hat Happ Hsrc]. split; [|done|done].
    unfold at_inv, sources_done, src_at in *. cbn. rewrite E in *. destruct (w_pc w); naive_solver.
Qed.

(** A change of the main goroutine's point, nothing else of the application. *)
Lemma inv_main w w' :
  inv w -> w_app w' = w_app w -> returned (w_pc w') = returned (w_pc w) ->
  (forall n, src_at w' n <> SIdle -> src_at w n <> SIdle \/ n ∈ srcs) -> at_inv w' -> inv w'.
Proof.
  intros H Ha Hr Hs Hat. split; [done| |].
  - rewrite Ha, Hr. apply H.
  - intros n Hn. destruct (Hs n Hn) as [|]; [by apply (inv_src w H)|done].
Qed.

Lemma inv_finish w err :
  inv w -> returned (w_pc w) = false -> sources_done w = true -> (w_http w = HOff \/ w_http w = HDone) ->
  (w_pipe w = PIdle /\ w_http w = HOff /\ w_src w = ∅ /\ err = Some [ErrMigration]
   \/ w_migrated w = order /\ (w_pipe w = PStopping \/ w_pipe w = PDone)) ->
  inv (finish err w).
Proof.
  intros H Hr Hd Hh Hp. split.
  - by unfold at_inv.
  - cbn. pose proof (inv_app w H) as E. rewrite Hr in E. by rewrite E.
  - apply (inv_src w H).
Qed.

Lemma no_src_done w : inv w -> w_src w = ∅ -> sources_done w = true.
Proof.
  intros H E. apply sources_done_spec; [done|]. intros n. unfold src_at. by rewrite E, lookup_empty.
Qed.

Lemma inv_boot ev w w' :
  inv w -> match w_pc w with MMigrate _ | MListen | MListenFailed => True | _ => False end ->
  match ev with MigrateNext _ | Listen _ | PipeDrained => True | _ => False end ->
  step ev w = Some w' -> inv w'.
Proof.
  intros H Hpc Hev Hs. pose proof (inv_at w H) as Hat. unfold at_inv in Hat.
  destruct ev; try done; unfold step in Hs; destruct (w_pc w) as [todo| | | | | | | | | |] eqn:Epc; try done.
  - destruct Hat as (Hm & Hp & Hh & He & Hc & Hr & Hq). destruct todo as [|n todo].
    + destruct ok; [|done]. apply (inj Some) in Hs as <-. rewrite app_nil_r in Hm.
      eapply inv_main; [exact H|done|by rewrite Epc|by left|]. by cbn.
    + destruct ok; apply (inj Some) in Hs as <-.
      * destruct todo as [|m todo]; (eapply inv_main; [exact H|done|by rewrite Epc|by left|]); cbn; [done|].
        by rewrite <- Hm, <- app_assoc.
      * apply inv_finish; [done|by rewrite Epc|by apply no_src_done|by left|by left].
  - destruct Hat as (Hm & Hp & Hh & He & Hc & Hr). pose proof (app_sources w H) as Es.
    destruct (w_http_on w); destruct ok; try done; apply (inj Some) in Hs as <-.
    + eapply inv_main; [exact H|done|by rewrite Epc|by left|]. cbn. split_and!; try done. exists []. by rewrite Es.
    + unfold stop_pipe. rewrite Hp. rewrite bool_decide_eq_false_2 by done.
      eapply inv_main; [exact H|done|by rewrite Epc|by left|]. cbn. split_and!; try done. by left.
    + eapply inv_main; [exact H|done|by rewrite Epc|by left|]. cbn. split_and!; try done; [|by rewrite Hh].
      exists []. by rewrite Es.
  - destruct Hat as (Hm & Hp & Hh & He). case_bool_decide as E; [|done]. apply (inj Some) in Hs as <-.
    apply inv_finish; [done|by rewrite Epc|by apply no_src_done|by left|by right].
Qed.

Lemma inv_loop ev w w' :
  inv w -> match ev with StartNext | BoundSeen | BoundCancelled | SelectDone | SelectErr => True | _ => False end ->
  step ev w = Some w' -> inv w'.
Proof.
  intros H Hev Hs. pose proof (inv_at w H) as Hat. unfold at_inv in Hat.
  destruct ev; try done; unfold step in Hs; destruct (w_pc w) as [| | |todo|n todo| | | | | |] eqn:Epc; try done.
  - destruct Hat as (Hm & Hp & Hc & Hr & [pre Hpre] & Hh). destruct todo as [|n todo].
    + apply (inj Some) in Hs as <-. eapply inv_main; [exact H|done|by rewrite Epc|by left|]. by cbn.
    + assert (Hin : n ∈ srcs) by (rewrite Hpre, elem_of_app, elem_of_cons; naive_solver).
      apply (inj Some) in Hs as <-. eapply inv_main; [exact H|done|by rewrite Epc; destruct (reports n)|..].
      * intros m. unfold src_at. cbn. rewrite lookup_insert. case_decide as E; [subst m; by right|by left].
      * destruct (reports n); unfold at_inv; cbn; split_and!; try done; [by exists pre| |].
        -- unfold src_at. cbn. by rewrite lookup_insert_eq.
        -- exists (pre ++ [n]). by rewrite <- app_assoc.
  - destruct Hat as (Hm & Hp & Hc & Hr & [pre Hpre] & Hi & Hh). destruct (ready_closed _); [|done].
    apply (inj Some) in Hs as <-. eapply inv_main; [exact H|done|by rewrite Epc|by left|].
    cbn. split_and!; try done. exists (pre ++ [n]). by rewrite <- app_assoc.
  - destruct Hat as (Hm & Hp & Hc & Hr & [pre Hpre] & Hi & Hh). destruct (src_cancelled _); [|done].
    apply (inj Some) in Hs as <-. eapply inv_main; [exact H|done|by rewrite Epc|by left|].
    cbn. split_and!; try done. exists (pre ++ [n]). by rewrite <- app_assoc.
  - destruct (w_ctx w); [|done]. apply (inj Some) in Hs as <-.
    eapply inv_main; [exact H|done|by rewrite Epc|by left|]. cbn. naive_solver.
  - destruct (w_srcErr w); [done|]. apply (inj Some) in Hs as <-.
    eapply inv_main; [exact H|done|by rewrite Epc|by left|]. cbn. naive_solver.
Qed.

Lemma inv_shutdown ev w w' :
  inv w ->
  match w_pc w with MWaitSources _ | MShutdownHTTP _ | MAwaitHTTP _ | MAwaitPipe _ => True | _ => False end ->
  match ev with SourcesStopped | HTTPShutdown | HTTPDone | PipeDrained | PipeTimeout => True | _ => False end ->
  step ev w = Some w' -> inv w'.
Proof.
  intros H Hpc Hev Hs. pose proof (inv_at w H) as Hat. unfold at_inv in Hat.
  destruct ev; try done; unfold step in Hs; destruct (w_pc w) eqn:Epc; try done.
  - destruct (sources_done w) eqn:Ed; [|done]. apply (inj Some) in Hs as <-. destruct Hat as (Hm & Hp & Hc & Hh).
    unfold stop_pipe. rewrite Hp. rewrite (bool_decide_eq_false_2 (PRunning = PDone)) by done.
    unfold shutdown_http. destruct (w_http w) eqn:Eh; try done; cbn;
      (eapply inv_main; [exact H|done|by rewrite Epc|by left|]); unfold at_inv; cbn; rewrite ?Eh; naive_solver.
  - apply (inj Some) in Hs as <-. destruct Hat as (Hm & Hp & Hd & Hh).
    (eapply inv_main; [exact H|done|by rewrite Epc|by left|]); by unfold at_inv.
  - case_bool_decide as Eh; [|done]. apply (inj Some) in Hs as <-. destruct Hat as (Hm & Hp & Hd & Hh).
    unfold stop_pipe. rewrite Hp. rewrite (bool_decide_eq_false_2 (PRunning = PDone)) by done.
    eapply inv_main; [exact H|done|by rewrite Epc|by left|]. unfold at_inv; cbn. split_and!; try done; [by left|by right].
  - case_bool_decide as Ep; [|done]. apply (inj Some) in Hs as <-. destruct Hat as (Hm & Hp & Hd & Hh).
    apply inv_finish; [done|by rewrite Epc|done..|by right].
  - apply (inj Some) in Hs as <-. destruct Hat as (Hm & Hp & Hd & Hh).
    apply inv_finish; [done|by rewrite Epc|done..|by right].
Qed.

Lemma app_inv_step ev w w' : inv w -> step ev w = Some w' -> inv w'.
Proof.
  intros H Hs. pose proof Hs as Hs'. destruct ev;
    try (eapply inv_env; [exact H| |exact Hs]; done); try (eapply inv_loop; [exact H| |exact Hs]; done);
    unfold step in Hs'; destruct (w_pc w) eqn:E; try done;
    try (eapply inv_boot; [exact H|by rewrite E| |exact Hs]; done);
    (eapply inv_shutdown; [exact H|by rewrite E| |exact Hs]; done).
Qed.

End invariant.

(** ** Errors that reach the exit code *)

Definition err_inv (w : world) : Prop :=
  Forall (fun e => e = []) (w_srcErr w) /\
  match w_pc w with
  | MWaitSources e | MShutdownHTTP e | MAwaitHTTP e | MAwaitPipe e => e = None \/ e = Some []
  | MReturned e => e = None \/ e = Some [] \/ e = Some [ErrConfig] \/ e = Some [ErrMigration] /\ w_pipe w = PIdle
  | _ => True
  end.

Lemma err_inv_step a http order srcs ev w w' :
  inv a http order srcs w -> err_inv w -> step ev w = Some w' -> err_inv w'.
Proof.
  intros Hi [Hf He] Hs. pose proof (inv_at _ _ _ _ w Hi) as Hat. unfold at_inv in Hat. unfold err_inv.
  destruct ev; unfold step in Hs; destruct (w_pc w) as [[|? todo]| | |[|? ?]| | | | | | |] eqn:E; try done;
    repeat match type of Hs with
    | (if ?b then _ else _) = _ => destruct b eqn:?
    | match w_srcErr w with _ => _ end = _ => destruct (w_srcErr w) eqn:?
    end; try done; apply (inj Some) in Hs as <-; unfold stop_pipe, shutdown_http, finish;
    repeat match goal with |- context [if bool_decide ?P then _ else _] => destruct (bool_decide_reflect P) end;
    try (destruct todo); cbn; rewrite ?E; try (destruct (reports _)); cbn; split; try done;
    try (by apply Forall_app; split; [|by constructor]); try naive_solver;
    try (by inversion Hf; subst; (right; done) || done).
  apply bool_decide_eq_true in Heqb. rewrite Heqb in He. naive_solver.
Qed.

Lemma reach_inv a http order srcs evs w :
  run evs (start a http order srcs) = Some w -> inv a http order srcs w /\ err_inv w.
Proof.
  assert (H : forall evs w w', inv a http order srcs w -> err_inv w -> run evs w = Some w' ->
    inv a http order srcs w' /\ err_inv w').
  { clear evs w. induction evs as [|ev evs IH]; intros w w' Hi He Hr; simpl in Hr; [by simplify_eq|].
    destruct (step ev w) as [w1|] eqn:E; [|done].
    apply (IH w1 w'); [by eapply app_inv_step|by eapply err_inv_step|done]. }
  apply H; [apply inv_start|]. split; [constructor|done].
Qed.

(** ** Boot and shutdown order *)

(** C28. In every schedule of [Run]: the pipeline, the HTTP server and the
    sources start only after every backend is migrated; while a source runs the
    pipeline runs and no sink is closed; the pipeline is told to stop only when
    the sources and the HTTP server have ended; and when [Run] returns, every
    sink is closed exactly once and the exit code is 3 exactly when a migration
    failed, in which case nothing was ever started. *)
Theorem run_order a http order srcs evs w :
  run evs (start a http order srcs) = Some w ->
  (w_pipe w <> PIdle \/ w_http w <> HOff \/ (exists n, src_at w n <> SIdle) -> w_migrated w = order) /\
  (forall n, running (src_at w n) = true -> w_pipe w = PRunning /\ a_closed (w_app w) = a_closed a) /\
  (w_pipe w = PStopping \/ w_pipe w = PDone ->
    (forall n, running (src_at w n) = false) /\ (w_http w = HOff \/ w_http w = HDone)) /\
  (forall err, w_pc w = MReturned err ->
    a_closed (w_app w) = a_closed a ++ (map_to_list (a_sinks a)).*2 /\
    (exit_code err = exitMigration <-> w_pipe w = PIdle)).
Proof.
  intros [Hi [_ He]]%reach_inv. pose proof (inv_at _ _ _ _ w Hi) as Hat. unfold at_inv in Hat. split_and!.
  - assert (N : w_src w = ∅ -> forall n, src_at w n = SIdle) by (intros E n; unfold src_at; by rewrite E, lookup_empty).
    destruct (w_pc w); naive_solver.
  - intros n Hn. pose proof (running_pc _ _ _ _ w n Hi Hn) as Hpc. rewrite (inv_app _ _ _ _ w Hi).
    destruct (w_pc w); naive_solver.
  - intros Hp. rewrite <- (sources_done_spec a http order srcs w Hi).
    pose proof (no_src_done a http order srcs w Hi) as Hn.
    destruct (w_pc w); destruct_and?; destruct_or?; first [congruence|auto].
  - intros err E. rewrite (inv_app _ _ _ _ w Hi), E in *. split; [done|].
    split.
    + by destruct He as [-> | [-> | [-> | [-> Hp]]]].
    + intros Hp. destruct Hat as [[(_ & _ & _ & ->)|[_ [Hp'|Hp']]] _]; [done|congruence..].
Qed.

Definition two_sinks : App := mkApp {["postgres"%string := 0%nat; "kafka"%string := 1%nat]} {["postgres"%string := 0%nat]}
  ["netflow"%string] false [].

(** A whole life: boot, serve, a signal, shutdown. *)
Definition life : list event :=
  [MigrateNext true; Listen true; StartNext; SourceBinds "netflow"; BoundSeen; StartNext; Signal; SelectDone;
   SourceStops "netflow"; SourcesStopped; HTTPShutdown; ServeReturns; HTTPDone; PipeReturns; PipeDrained].

Lemma run_order_witness :
  exists w, run life (start two_sinks true ["postgres"%string] ["netflow"%string]) = Some w /\
            w_pc w = MReturned None /\ length (a_closed (w_app w)) = 2%nat /\ w_pipe w = PDone.
Proof.
  destruct (run life (start two_sinks true ["postgres"%string] ["netflow"%string])) as [w|] eqn:E.
  - exists w. destruct (run_order _ _ _ _ _ w E) as (_ & _ & _ & H).
    assert (Ep : w_pc w = MReturned None /\ w_pipe w = PDone).
    { vm_compute in E. injection E as <-. done. }
    destruct (H None (proj1 Ep)) as [-> _]. split_and!; [done|apply Ep|by vm_compute|apply Ep].
  - vm_compute in E. discriminate E.
Defined.

(** ** A source that cannot bind *)

(** The state in which [awaitBound] waits for a source that is gone. *)
Definition stuck (n : string) (todo : list string) (w : world) : Prop :=
  w_pc w = MAwaitBound n todo /\ src_at w n = SExited false /\ src_cancelled w = false /\ w_ready w = false.

Lemma stuck_step n todo ev w w' : stuck n todo w -> ev <> Signal -> step ev w = Some w' -> stuck n todo w'.
Proof.
  intros (Hpc & Hs & Hc & Hr) Hev Hst. unfold stuck.
  destruct ev; unfold step in Hst; try rewrite Hpc in Hst; try done.
  - by rewrite Hs in Hst.
  - by rewrite Hc in Hst.
  - case_bool_decide as E; [|done]. apply (inj Some) in Hst as <-. rewrite src_at_set. cbn.
    case_decide; [subst; congruence|done].
  - destruct (running _) eqn:E; [|done]. apply (inj Some) in Hst as <-. split_and!; try done.
    change (src_at (set_srcErr ?es ?x) n) with (src_at x n). rewrite src_at_set.
    case_decide; [subst; by rewrite Hs in E|done].
  - rewrite Hc, andb_false_r in Hst. done.
  - case_bool_decide; [|done]. by apply (inj Some) in Hst as <-.
  - case_bool_decide; [|done]. by apply (inj Some) in Hst as <-.
  - case_bool_decide; [|done]. by apply (inj Some) in Hst as <-.
Qed.

(** When the listener cannot be established, [Run] does not return: the
    source's error sits in [srcErr], but the main goroutine waits in
    [awaitBound], which only a bound socket or a cancelled context ends. Until
    a signal arrives it stays there, never ready, whatever else happens. *)
Theorem bind_failure_hangs a http order srcs boot w n todo evs w' :
  run boot (start a http order srcs) = Some w ->
  w_pc w = MAwaitBound n todo -> src_at w n = SExited false -> w_ctx w = false ->
  Signal ∉ evs -> run evs w = Some w' ->
  w_pc w' = MAwaitBound n todo /\ w_ready w' = false.
Proof.
  intros Hb Hpc Hs Hc Hn Hr. apply reach_inv in Hb as [Hi _].
  assert (Hst : stuck n todo w).
  { pose proof (inv_at _ _ _ _ w Hi) as Hat. unfold at_inv in Hat. rewrite Hpc in Hat.
    destruct Hat as (_ & _ & H1 & H2 & _). unfold stuck, src_cancelled. by rewrite Hc, H1. }
  clear Hi Hpc Hs Hc. revert w Hst Hr. induction evs as [|ev evs IH]; intros w Hst Hr; simpl in Hr.
  - simplify_eq. by destruct Hst as (? & _ & _ & ?).
  - rewrite not_elem_of_cons in Hn. destruct (step ev w) as [w1|] eqn:E; [|done].
    apply (IH ltac:(naive_solver) w1); [|done]. eapply stuck_step; [done| |done]. naive_solver.
Qed.

Definition fails_to_bind : list event := [MigrateNext true; Listen true; StartNext; SourceFails "netflow"].

Lemma bind_failure_hangs_witness :
  exists w w', run fails_to_bind (start two_sinks false ["postgres"%string] ["netflow"%string]) = Some w /\
    w_srcErr w = [[]] /\ run [] w = Some w' /\ w_pc w' = MAwaitBound "netflow" [].
Proof.
  destruct (run fails_to_bind (start two_sinks false ["postgres"%string] ["netflow"%string])) as [w|] eqn:E.
  - exists w, w. split; [done|].
    assert (H : w_pc w = MAwaitBound "netflow" [] /\ src_at w "netflow" = SExited false /\ w_ctx w = false /\ w_srcErr w = [[]])
      by (vm_compute in E; injection E as <-; done).
    destruct H as (H1 & H2 & H3 & H4). split; [done|]. split; [done|].
    apply (bind_failure_hangs _ _ _ _ _ _ _ _ [] w E H1 H2 H3); [apply not_elem_of_nil|done].
  - vm_compute in E. discriminate E.
Defined.

(** ** Every schedule ends *)

Definition src_weight (s : src_state) : nat := match s with SStarting => 2 | SBound => 1 | _ => 0 end.
Definition src_total (l : list string) (w : world) : nat := sum_list_with (fun n => src_weight (src_at w n)) l.

Definition pc_weight (l : list string) (pc : main_pc) : nat :=
  match pc with
  | MMigrate todo => 5 * length l + 14 + length todo
  | MListen => 5 * length l + 12
  | MListenFailed => 3
  | MSources todo => 5 * length todo + 10
  | MAwaitBound _ todo => 5 * length todo + 11
  | MSelect => 8
  | MWaitSources _ => 7
  | MShutdownHTTP _ => 6
  | MAwaitHTTP _ => 5
  | MAwaitPipe _ => 4
  | MReturned _ => 0
  end%nat.

Definition pipe_weight (p : pipe_state) : nat := match p with PIdle => 3 | PRunning => 2 | PStopping => 1 | PDone => 0 end.
Definition http_weight (h : http_state) : nat := match h with HOff => 3 | HServing => 2 | HClosing => 1 | HDone => 0 end.

(** Bounds the number of steps still possible. *)
Definition remaining (w : world) : nat :=
  let l := a_sources (w_app w) in
  pc_weight l (w_pc w) + pipe_weight (w_pipe w) + http_weight (w_http w) + (if w_ctx w then 0 else 1) + src_total l w.

Lemma src_total_other l n s w : n ∉ l -> src_total l (set_src n s w) = src_total l w.
Proof.
  unfold src_total. induction l as [|m l IH]; [done|]. rewrite not_elem_of_cons. intros [Hm Hl]. simpl.
  rewrite IH, src_at_set by done. by rewrite decide_False.
Qed.

Lemma src_total_set l n s w :
  NoDup l -> n ∈ l ->
  (src_total l (set_src n s w) + src_weight (src_at w n) = src_total l w + src_weight s)%nat.
Proof.
  induction 1 as [|m l Hm Hl IH]; [by intros ?%elem_of_nil|]. intros [->|Hn]%elem_of_cons.
  - pose proof (src_total_other l m s w Hm) as E. unfold src_total in *. simpl. rewrite src_at_set, decide_True by done. lia.
  - specialize (IH Hn). unfold src_total in *. simpl. rewrite src_at_set, decide_False by (by intros ->). lia.
Qed.

Lemma src_total_frame l w w' : w_src w' = w_src w -> src_total l w' = src_total l w.
Proof. intros E. unfold src_total, src_at. by rewrite E. Qed.

(** Reduces the projections of an updated world, the sources included. *)
Ltac rewrite_frame w srcs Ha :=
  cbn [w_app w_pc w_pipe w_http w_ctx at_pc set_pipe set_http set_src set_srcErr cancel stopSources set_ready
       set_migrated close_all closeSinks a_sources];
  rewrite ?Ha;
  repeat match goal with |- context [src_total srcs ?x] =>
    lazymatch x with w => fail | _ => rewrite (src_total_frame srcs w x) by done end
  end.

Lemma remaining_step a http order srcs ev w w' :
  NoDup srcs -> inv a http order srcs w -> step ev w = Some w' -> (remaining w' < remaining w)%nat.
Proof.
  intros Hnd Hi Hs. pose proof (inv_at _ _ _ _ w Hi) as Hat. unfold at_inv in Hat.
  pose proof (app_sources _ _ _ _ w Hi) as Ha. unfold remaining.
  assert (Hset : forall n s, running (src_at w n) = true ->
    (src_total srcs (set_src n s w) + src_weight (src_at w n) = src_total srcs w + src_weight s)%nat).
  { intros n s Hr. apply src_total_set; [done|]. apply (inv_src _ _ _ _ w Hi). by destruct (src_at w n). }
  assert (Hstart : forall n l, w_pc w = MSources (n :: l) ->
    (src_total srcs (set_src n SStarting w) <= src_total srcs w + 2)%nat).
  { intros n l E. rewrite E in Hat. destruct Hat as (_ & _ & _ & _ & [pre ->] & _).
    pose proof (src_total_set (pre ++ n :: l) n SStarting w Hnd) as T. rewrite elem_of_app, elem_of_cons in T.
    specialize (T ltac:(naive_solver)). change (src_weight SStarting) with 2%nat in T. lia. }
  destruct ev; unfold step in Hs;
    try match type of Hs with context [w_pc w] => destruct (w_pc w) as [[|? todo]| | |[|? ?]| | | | | | |] eqn:E; try done end;
    repeat match type of Hs with
    | (if ?b then _ else _) = _ => destruct b eqn:?
    | match w_srcErr w with _ => _ end = _ => destruct (w_srcErr w) eqn:?
    end; try done; apply (inj Some) in Hs as <-; unfold stop_pipe, shutdown_http, finish;
    repeat match goal with |- context [if bool_decide ?P then _ else _] => destruct (bool_decide_reflect P) end;
    try (destruct todo); rewrite_frame w srcs Ha; rewrite ?E;
    try (destruct_and?; destruct_or?;
         repeat match goal with H : w_pipe w = _ |- _ => rewrite H end;
         repeat match goal with H : w_http w = _ |- _ => rewrite H end; cbn; lia).
  - specialize (Hstart _ _ eq_refl). rewrite (src_total_frame srcs (set_src s SStarting w)) by done.
    destruct (reports s); cbn; lia.
  - case_match; cbn; lia.
  - apply bool_decide_eq_true in Heqb. specialize (Hset n SBound). rewrite Heqb in Hset. specialize (Hset eq_refl).
    cbn in Hset. lia.
  - specialize (Hset n (SExited (ready_closed (src_at w n))) Heqb).
    rewrite (src_total_frame srcs (set_src n (SExited (ready_closed (src_at w n))) w)) by done.
    destruct (src_at w n); cbn in *; try done; lia.
  - apply andb_true_iff in Heqb as [Hr _]. specialize (Hset n (SExited (ready_closed (src_at w n))) Hr).
    destruct (src_at w n); cbn in *; try done; lia.
  - apply bool_decide_eq_true in Heqb as ->. cbn. lia.
  - apply bool_decide_eq_true in Heqb as ->. cbn. lia.
  - apply bool_decide_eq_true in Heqb as ->. cbn. lia.
Qed.

Lemma forallb_false {A} (f : A -> bool) l : forallb f l = false -> exists x, x ∈ l /\ f x = false.
Proof.
  induction l as [|x l IH]; [done|]. simpl. intros [E|E]%andb_false_iff; [exists x; split; [by left|done]|].
  destruct (IH E) as (y & Hy & Hf). exists y. split; [by right|done].
Qed.

(** Once told to stop, an obliged step is possible until [Run] has returned. *)
Lemma no_deadlock a http order srcs w :
  inv a http order srcs w -> stopping w = true -> returned (w_pc w) = false ->
  exists ev w', obliged ev = true /\ step ev w = Some w'.
Proof.
  intros Hi Hc Hr. pose proof (inv_at _ _ _ _ w Hi) as Hat. unfold at_inv in Hat. unfold stopping in Hc.
  destruct (w_pc w) as [[|n todo]| | |[|n todo]|n todo| |err|err|err|err|] eqn:E; try done;
    rewrite ?orb_false_r in Hc.
  - exists (MigrateNext true). unfold step. rewrite E. eauto.
  - exists (MigrateNext true). unfold step. rewrite E. eauto.
  - exists (Listen true). unfold step. rewrite E. destruct (w_http_on w); eauto.
  - destruct Hat as (_ & [Hp|Hp] & _).
    + exists PipeReturns. unfold step. rewrite Hp. by eexists.
    + exists PipeDrained. unfold step. rewrite E, Hp. by eexists.
  - exists StartNext. unfold step. rewrite E. eauto.
  - exists StartNext. unfold step. rewrite E. eauto.
  - exists BoundCancelled. unfold step, src_cancelled. rewrite E, Hc. eauto.
  - exists SelectDone. unfold step. rewrite E, Hc. eauto.
  - destruct (sources_done w) eqn:Ed.
    + exists SourcesStopped. unfold step. rewrite E, Ed. eauto.
    + apply forallb_false in Ed as (n & _ & Ed%negb_false_iff). destruct Hat as (_ & _ & Hsc & _).
      exists (SourceStops n). unfold step, src_cancelled. rewrite Hsc, Ed, orb_true_r. by eexists.
  - exists HTTPShutdown. unfold step. rewrite E. eauto.
  - destruct Hat as (_ & _ & _ & [Hh|Hh]).
    + exists ServeReturns. unfold step. rewrite Hh. by eexists.
    + exists HTTPDone. unfold step. rewrite E, Hh. by eexists.
  - exists PipeTimeout. unfold step. rewrite E. eauto.
Qed.

(** C29. [Run] terminates. From any boot, every schedule is finite (its length
    is bounded by [remaining]). And once [Run] has been told to stop, by a
    signal, a failed listen or a source that died, no state but the returned
    one is without an [obliged] step: one of the main goroutine itself, or the
    answer of a source to its cancelled context, of [Serve] to [Shutdown], of
    the pipeline to its own cancelled context. Neither a source nor the HTTP
    server has to fail by itself for [Run] to get on. So the collector shuts
    down whatever the order in which its goroutines run, provided that each
    call in that list returns and each goroutine is eventually scheduled. *)
Theorem run_terminates a http order srcs evs w :
  NoDup srcs -> run evs (start a http order srcs) = Some w ->
  (length evs <= remaining (start a http order srcs))%nat /\
  (stopping w = true -> (forall ev, obliged ev = true -> step ev w = None) -> exists err, w_pc w = MReturned err).
Proof.
  intros Hnd Hrun. split.
  - pose proof (inv_start a http order srcs) as Hi. unfold w0 in Hi. revert Hi Hrun.
    generalize (start a http order srcs) as v. induction evs as [|ev evs IH]; intros v Hi Hr; simpl in *; [lia|].
    destruct (step ev v) as [v1|] eqn:E; [|done]. pose proof (remaining_step _ _ _ _ _ _ _ Hnd Hi E).
    specialize (IH v1 (app_inv_step _ _ _ _ _ _ _ Hi E) Hr). lia.
  - intros Hc Hn. apply reach_inv in Hrun as [Hi _]. destruct (returned (w_pc w)) eqn:Er.
    + destruct (w_pc w) as [| | | | | | | | | |err]; try done. by exists err.
    + destruct (no_deadlock _ _ _ _ w Hi Hc Er) as (ev & w' & Ho & E). by rewrite (Hn ev Ho) in E.
Qed.

(** A source dies; the other and the server are told to stop and do. *)
Definition source_dies : list event :=
  [MigrateNext true; Listen true; StartNext; SourceBinds "netflow"; BoundSeen; StartNext; StartNext;
   SourceFails "kafka"; SelectErr; SourceStops "netflow"; SourcesStopped; ServeReturns; HTTPShutdown; HTTPDone;
   PipeTimeout].

(** In a state in which no source runs and the server and the pipeline are
    done, only the main goroutine could take an obliged step. *)
Lemma quiet_returned w err :
  w_pc w = MReturned err -> w_http w = HDone -> w_pipe w = PDone -> sources_done w = true ->
  (forall n, src_at w n <> SIdle -> n ∈ a_sources (w_app w)) -> forall ev, obliged ev = true -> step ev w = None.
Proof.
  intros Hpc Hh Hp Hd Hs ev Ho. destruct ev; try done; unfold step; rewrite ?Hpc, ?Hh, ?Hp; try done.
  destruct (running (src_at w n)) eqn:E; [|done]. unfold sources_done in Hd. rewrite forallb_forall in Hd.
  specialize (Hd n). rewrite E in Hd. discriminate Hd. apply list_elem_of_In, Hs. by destruct (src_at w n).
Qed.

Lemma run_terminates_witness :
  exists w err, run life (start two_sinks true ["postgres"%string] ["netflow"%string]) = Some w /\
    (length life <= 33)%nat /\ stopping w = true /\ w_pc w = MReturned err.
Proof.
  destruct (run life (start two_sinks true ["postgres"%string] ["netflow"%string])) as [w|] eqn:E.
  - destruct (run_terminates _ _ _ _ _ w (NoDup_singleton "netflow"%string) E) as [Hl Hr].
    pose proof (reach_inv _ _ _ _ _ _ E) as [Hi _].
    assert (H : w_pc w = MReturned None /\ w_http w = HDone /\ w_pipe w = PDone /\ sources_done w = true /\ stopping w = true)
      by (vm_compute in E; injection E as <-; done).
    destruct H as (H1 & H2 & H3 & H4 & H5).
    destruct Hr as [err He]; [done|eapply quiet_returned; [done..|]|].
    + intros n. rewrite (app_sources _ _ _ _ w Hi). apply (inv_src _ _ _ _ w Hi).
    + exists w, err. split_and!; [done|etrans; [exact Hl|apply leb_complete; by vm_compute]|done..].
  - vm_compute in E. discriminate E.
Defined.

(** A schedule in which the failure of a source starts the shutdown. *)
Example source_dies_returns :
  exists w, run source_dies (start two_sinks true ["postgres"%string] ["netflow"; "kafka"]%string) = Some w /\
    w_pc w = MReturned (Some []) /\ w_ctx w = false.
Proof. vm_compute. eexists. by split. Qed.
