(* ===== verification/Contract.v ===== *)
(** * The storage contract ([internal/flow/ports.go])

    What a storage backend promises to the pipeline that writes to it and to
    the API that reads from it, as an interface: a state, a write, the rows a
    query ranges over, and laws that say that what was written is what is
    there, at the database's precision and with redeliveries collapsed.
    Clients are proved against the interface; the three backends discharge it
    ([Backend] instances in [ContractRelational] and [ContractClickHouse]). *)

From S2P Require Import Prelude GoTime Netip Flow Text Json Cursor Rows Store Query QueryThms.

(** ** The reference store *)

(** A record as every backend keeps it: microseconds, no id. *)
Definition at_rest (r : FlowRecord) : FlowRecord := stored r 0.

(** [sinktest.comparable]: without the field a write cannot know. *)
Definition comparable (r : FlowRecord) : FlowRecord := set_ExporterID 0 r.

(** Records as rows of the reference: [same_key] is the identity
    [(received_at, dedup_key)] and [dedup_rows] the insertion that skips what is
    present. *)
#[export] Instance rec_codec : RowCodec FlowRecord := {|
  row_insert r _ := at_rest r; row_scan r _ := r; row_received := ReceivedAt; row_dedup := DedupKey;
  row_instant _ := true |}.

Definition ref_write (present records : list FlowRecord) : list FlowRecord :=
  present ++ dedup_rows present (at_rest <$> records).

(** Equal identities are one record, delivered again. *)
Definition redeliveries (l : list FlowRecord) : Prop := forall x y, x ∈ l -> y ∈ l -> same_key x y = true -> x = y.

(** The instants that the columns of a backend hold. *)
Definition column_holds (k : backend_kind) : Time -> bool :=
  match k with Postgres => pg_instant | MariaDB => my_instant | ClickHouse => ch_instant end.

(** What the sources hand over: [storable] records whose reception time a
    cursor can express and whose instants the columns hold. *)
Record writable (holds : Time -> bool) (r : FlowRecord) : Prop := {
  wr_storable : storable r;
  wr_columns : columns_hold holds r = true;
  wr_key : match DedupKey r with Some k => bytes_wf k | None => True end;
  wr_range : unix_nano_range (micro (ReceivedAt r))
}.

(** Instants that the columns of every backend hold. *)
Definition everywhere (t : Time) : bool := pg_instant t && my_instant t && ch_instant t.

Lemma writable_everywhere k r : writable everywhere r -> writable (column_holds k) r.
Proof.
  intros [Hs Hc Hk Hr]. constructor; [done| |done..]. unfold columns_hold, everywhere in *. rewrite !andb_true_iff in *.
  destruct k; cbn [column_holds]; tauto.
Qed.

(** ** The interface *)

(** [st_choice] is what the code leaves open in one call: the order in which a
    map is ranged over, random numbers, background work; [st_allowed] says
    which choices are considered. *)
Class Storage (B : Type) := {
  st_kind : backend_kind;
  st_choice : Type;
  st_new : B;
  st_write : st_choice -> list FlowRecord -> B -> B * bool;
  st_rows : B -> list row;
  st_allowed : st_choice -> list FlowRecord -> B -> Prop
}.

Section storage.
Context {B : Type} `{Storage B}.

(** [Querier.Query], and what the store holds. *)
Definition st_query (q : FlowQuery) (b : B) : result query_error FlowResultPage := Query st_kind q (st_rows b).
Definition contents (b : B) : list FlowRecord := comparable ∘ r_rec <$> st_rows b.

(** Rows as the query relies on them: keys, ranges, and ids that name
    exporters. *)
Record view_ok (rows : list row) : Prop := {
  vo_keys : keys_unique rows;
  vo_rows : Forall (row_ok st_kind) rows;
  vo_pos : Forall (fun x => 0 < ExporterID (r_rec x)) rows;
  vo_ids : forall x y, x ∈ rows -> y ∈ rows ->
    ExporterID (r_rec x) = ExporterID (r_rec y) <-> ExporterAddr (r_rec x) = ExporterAddr (r_rec y)
}.
End storage.
Arguments st_kind B {_}.
Arguments st_choice B {_}.
Arguments st_new B {_}.

Class StorageLaws (B : Type) `{Storage B} := {
  st_good : B -> Prop;
  st_new_good : st_good (st_new B);
  st_new_empty : st_rows (st_new B) = [];
  st_view b : st_good b -> view_ok (st_rows b);
  st_write_law c records b :
    st_good b -> Forall (writable (column_holds (st_kind B))) records -> redeliveries (contents b ++ (at_rest <$> records)) ->
    st_allowed c records b ->
    exists b', st_write c records b = (b', true) /\ st_good b' /\ contents b' ≡ₚ ref_write (contents b) records
}.

(** ** Facts about the reference *)

Lemma comparable_stored r id : comparable (stored r id) = at_rest r.
Proof. done. Qed.

Lemma at_rest_idemp r : at_rest (at_rest r) = at_rest r.
Proof. unfold at_rest, stored. cbn. unfold micro, UTC. by rewrite !TruncateMicro_idemp. Qed.

Lemma existsb_perm {A} (f : A -> bool) l l' : l ≡ₚ l' -> existsb f l = existsb f l'.
Proof. induction 1; simpl; [done|congruence| |congruence]. destruct (f x), (f y); done. Qed.

Lemma dedup_rows_perm {Row} `{RowCodec Row} (p p' rows : list Row) :
  p ≡ₚ p' -> dedup_rows p rows = dedup_rows p' rows.
Proof.
  revert p p'. induction rows as [|r rows IH]; intros p p' Hp; simpl; [done|].
  rewrite (existsb_perm _ p p' Hp). destruct (existsb _ p'); [by apply IH|]. f_equal. apply IH. by rewrite Hp.
Qed.

#[export] Instance ref_write_perm : Proper (Permutation ==> (=) ==> Permutation) ref_write.
Proof. intros p p' Hp r r' ->. unfold ref_write. by rewrite (dedup_rows_perm p p' _ Hp), Hp. Qed.

Lemma dedup_rows_app {Row} `{RowCodec Row} (p l l' : list Row) :
  dedup_rows p (l ++ l') = dedup_rows p l ++ dedup_rows (p ++ dedup_rows p l) l'.
Proof.
  revert p. induction l as [|r l IH]; intros p; simpl; [by rewrite app_nil_r|].
  destruct (existsb _ p); [apply IH|]. simpl. f_equal. rewrite IH. f_equal. f_equal. by rewrite <- app_assoc.
Qed.

Lemma ref_write_app p l l' : ref_write p (l ++ l') = ref_write (ref_write p l) l'.
Proof. unfold ref_write. by rewrite fmap_app, dedup_rows_app, app_assoc. Qed.

(** The same identities seen through two representations are skipped alike. *)
Lemma dedup_rows_map {A X Y} `{RowCodec X, RowCodec Y} (f : A -> X) (g : A -> Y) p l :
  (forall a b, a ∈ p ++ l -> b ∈ p ++ l -> same_key (f a) (f b) = same_key (g a) (g b)) ->
  exists kept, dedup_rows (f <$> p) (f <$> l) = f <$> kept /\ dedup_rows (g <$> p) (g <$> l) = g <$> kept /\
    forall a, a ∈ kept -> a ∈ l.
Proof.
  revert p. induction l as [|a l IH]; intros p Hk; [by exists []|]. rewrite !fmap_cons. cbn [dedup_rows].
  assert (E : existsb (same_key (f a)) (f <$> p) = existsb (same_key (g a)) (g <$> p)).
  { assert (Ha : a ∈ p ++ a :: l) by (apply elem_of_app; right; by left).
    assert (Hp : forall b, b ∈ p -> b ∈ p ++ a :: l) by (intros; by apply elem_of_app; left).
    clear IH. induction p as [|b p IHp]; [done|]. rewrite !fmap_cons. cbn [existsb]. f_equal.
    - apply Hk; [done|]. apply Hp. by left.
    - apply IHp; [|apply elem_of_app; right; by left|by intros; apply elem_of_app; left].
      intros x y Hx Hy. apply Hk; by right. }
  rewrite E. destruct (existsb _ (g <$> p)).
  - destruct (IH p) as (kept & E1 & E2 & Hin).
    { intros x y Hx Hy. apply Hk; rewrite elem_of_app, elem_of_cons; rewrite elem_of_app in Hx, Hy; tauto. }
    exists kept. split_and!; [done..|]. intros b Hb. right. auto.
  - destruct (IH (p ++ [a])) as (kept & E1 & E2 & Hin); [by rewrite <- app_assoc|].
    exists (a :: kept). rewrite !fmap_app in *. cbn [fmap list_fmap] in *. rewrite E1, E2. split_and!; [done..|].
    intros b [->|Hb]%elem_of_cons; [by left|right; auto].
Qed.

(** ** Histories of writes, and what clients read back *)

Section client.
Context {B : Type} `{StorageLaws B}.

(** A sequence of calls of [WriteBatch], each of which may only be made when it
    is allowed; [None] when one fails. *)
Fixpoint write_all (calls : list (st_choice B * list FlowRecord)) (b : B) : option B :=
  match calls with
  | [] => Some b
  | (c, records) :: rest =>
    let '(b', ok) := st_write c records b in if ok then write_all rest b' else None
  end.

Fixpoint all_allowed (calls : list (st_choice B * list FlowRecord)) (b : B) : Prop :=
  match calls with
  | [] => True
  | (c, records) :: rest => st_allowed c records b /\ all_allowed rest (st_write c records b).1
  end.

Lemma write_all_spec calls b :
  st_good b -> Forall (writable (column_holds (st_kind B))) (concat calls.*2) -> redeliveries (contents b ++ (at_rest <$> concat calls.*2)) ->
  all_allowed calls b ->
  exists b', write_all calls b = Some b' /\ st_good b' /\ contents b' ≡ₚ ref_write (contents b) (concat calls.*2).
Proof.
  revert b. induction calls as [|[c records] calls IH]; intros b Hb Hw Hr Ha.
  - exists b. split_and!; [done..|]. unfold ref_write. simpl. by rewrite app_nil_r.
  - rewrite fmap_cons in *. cbn [concat snd] in *. apply Forall_app in Hw as [Hw Hw'].
    destruct Ha as [Ha Ha']. destruct (st_write_law c records b Hb Hw) as (b1 & E & Hb1 & Hc1); [|done|].
    { intros x y Hx Hy. apply Hr; rewrite fmap_app, !elem_of_app in *; tauto. }
    cbn [write_all]. rewrite E in *. cbn [fst] in Ha'.
    destruct (IH b1 Hb1 Hw') as (b' & E' & Hb' & Hc'); [|done|].
    + intros x y Hx Hy. assert (Hin : forall z, z ∈ contents b1 ++ (at_rest <$> concat calls.*2) ->
        z ∈ contents b ++ (at_rest <$> records ++ concat calls.*2)); [|by apply Hr; apply Hin].
      intros z [Hz|Hz]%elem_of_app; rewrite fmap_app, !elem_of_app; [|tauto].
      rewrite Hc1 in Hz. unfold ref_write in Hz. apply elem_of_app in Hz as [Hz|Hz]; [tauto|].
      right. left. by eapply elem_of_sublist; [|apply dedup_rows_sublist].
    + exists b'. split_and!; [done..|]. by rewrite Hc', Hc1, ref_write_app.
Qed.

(** The rows a query selects, by what it says about the records alone. *)
Definition wanted (q : FlowQuery) (r : FlowRecord) : bool := matches (st_kind B) q (mkRow 0 r).

Lemma matches_wanted q x : q_ExporterID q = 0 -> matches (st_kind B) q x = wanted q (comparable (r_rec x)).
Proof. intros E. unfold wanted, matches. cbn. by rewrite E. Qed.

Lemma filter_fmap_comm {X Y} (f : X -> Y) (p : X -> bool) (p' : Y -> bool) l :
  (forall x, p x = p' (f x)) -> f <$> List.filter p l = List.filter p' (f <$> l).
Proof.
  intros Hp. induction l as [|x l IH]; [done|]. cbn [List.filter fmap list_fmap]. rewrite Hp.
  destruct (p' (f x)); [rewrite fmap_cons; by f_equal|done].
Qed.

Lemma listfilter_perm {X} (p : X -> bool) l l' : l ≡ₚ l' -> List.filter p l ≡ₚ List.filter p l'.
Proof.
  induction 1; cbn [List.filter]; [done| | |by etrans].
  - destruct (p x); [by apply Permutation_skip|done].
  - destruct (p x), (p y); try done. apply Permutation_swap.
Qed.

(** The order of an answer, on the records' times. *)
Lemma newest_first l : StronglySorted gt_key l -> StronglySorted (fun x y => After y x = false) (ReceivedAt <$> (r_rec <$> l)).
Proof.
  induction 1 as [|x l _ IH Hx]; [constructor|].
  rewrite !fmap_cons. constructor; [done|]. rewrite !Forall_fmap. eapply Forall_impl; [exact Hx|].
  intros y Hy. apply before_spec in Hy. cbn. unfold After, r_time in *.
  rewrite orb_false_iff, andb_false_iff, !Z.ltb_ge, Z.eqb_neq. lia.
Qed.

(** A client that follows the cursors reads what the store holds. *)
Lemma crawl_contents b q fuel :
  st_good b -> q_Cursor q = ""%string -> q_ExporterID q = 0 -> (length (contents b) < fuel)%nat ->
  exists recs, crawl fuel (st_kind B) q (st_rows b) = Some recs /\
    comparable <$> recs ≡ₚ List.filter (wanted q) (contents b) /\
    StronglySorted (fun x y => After y x = false) (ReceivedAt <$> recs).
Proof.
  intros Hb Hc He Hf. destruct (st_view b Hb) as [Hk Hr _ _]. unfold contents in *. rewrite length_fmap in Hf.
  rewrite (crawl_answer (st_kind B) (st_rows b) q Hk Hr fuel Hc Hf). eexists. split; [done|]. split.
  - unfold answer. rewrite <- list_fmap_compose, ordered_perm.
    by rewrite (filter_fmap_comm (comparable ∘ r_rec) (matches (st_kind B) q) (wanted q)) by (intros; by apply matches_wanted).
  - by apply newest_first, answer_sorted.
Qed.
End client.
