(* ===== verification/ContractRelational.v ===== *)
(** * The contract of PostgreSQL and MariaDB

    The rows a query ranges over are [flow_records] joined with [exporters] on
    the id; with that join, [WriteBatch] and [Query] of both backends satisfy
    the laws of [Contract]. *)

From S2P Require Import Prelude GoTime Netip Flow Text Json Cursor Rows Store Exporters StoreThms Query QueryThms Contract.

(** ** Sequences *)

Section sequences.
Context {Row : Type} `{RowCodec Row}.

(** Generated values are distinct, positive and below the next one. *)
Record table_ok (t : table Row) : Prop := {
  to_next : 1 <= t_next t;
  to_nodup : NoDup (t_rows t).*1;
  to_range : Forall (fun s => 1 <= s < t_next t) (t_rows t).*1
}.

Lemma table_ok_skip t n : table_ok t -> t_next t <= n -> table_ok (mkTable (t_rows t) n).
Proof.
  intros [H1 H2 H3] Hn. split; simpl; [lia|done|]. eapply Forall_impl; [exact H3|]. simpl. lia.
Qed.

Lemma table_ok_append row t : table_ok t -> table_ok (append row t).
Proof.
  intros [H1 H2 H3]. unfold append. split; simpl; [lia|..]; rewrite fmap_app; simpl.
  - apply NoDup_app. split_and!; [done| |by apply NoDup_singleton].
    intros s Hs ->%list_elem_of_singleton. rewrite Forall_forall in H3. specialize (H3 _ Hs). simpl in H3. lia.
  - apply Forall_app. split; [eapply Forall_impl; [exact H3|]; simpl; lia|]. apply Forall_singleton. lia.
Qed.

Lemma insert_all_ok rows t :
  table_ok t -> table_ok (insert_all rows t) /\ t_next (insert_all rows t) = t_next t + Z.of_nat (length rows).
Proof.
  revert t. induction rows as [|r rows IH]; intros t Ht; simpl; [split; [done|lia]|].
  assert (Ht' : table_ok (insert_ignore t r) /\ t_next (insert_ignore t r) = t_next t + 1).
  { unfold insert_ignore. destruct (conflicts r t); [split; [apply table_ok_skip; [done|lia]|done]|].
    split; [by apply table_ok_append|done]. }
  destruct Ht' as [Ht' En]. destruct (IH _ Ht') as [H1 H2]. split; [done|]. fold (insert_all rows (insert_ignore t r)).
  rewrite H2, En. lia.
Qed.

Lemma copy_from_ok rows t :
  table_ok t ->
  match copy_from rows t with
  | Ok t' => table_ok t' /\ t_next t' = t_next t + Z.of_nat (length rows)
  | Err next => t_next t <= next <= t_next t + Z.of_nat (length rows)
  end.
Proof.
  revert t. induction rows as [|r rows IH]; intros t Ht; cbn [copy_from length]; [split; [done|lia]|].
  destruct (conflicts r t); [lia|]. specialize (IH _ (table_ok_append r t Ht)).
  destruct (copy_from rows (append r t)); cbn [append t_next] in IH; [destruct IH; split; [done|lia]|lia].
Qed.

Lemma my_chunks_ok fuel rows t :
  table_ok t -> (length rows <= fuel)%nat ->
  table_ok (my_chunks fuel rows t) /\ t_next (my_chunks fuel rows t) = t_next t + Z.of_nat (length rows).
Proof.
  revert rows t. induction fuel as [|f IH]; intros rows t Ht Hf; cbn [my_chunks].
  - destruct rows; [split; [done|simpl; lia]|simpl in Hf; lia].
  - destruct rows as [|r rows]; [split; [done|simpl; lia]|].
    destruct (insert_all_ok (take insertRows (r :: rows)) t Ht) as [H1 H2].
    destruct (IH (drop insertRows (r :: rows)) (insert_all (take insertRows (r :: rows)) t)) as [H3 H4];
      [done|rewrite length_drop; unfold insertRows; simpl in Hf |- *; lia|].
    split; [done|]. rewrite H4, H2, length_take, length_drop. lia.
Qed.

(** A write that keeps the sequences in order and draws at most two values per
    row. *)
Definition keeps_sequences (write : list Row -> option write_error -> table Row -> result write_error (table Row)) : Prop :=
  forall rows t t', table_ok t -> write rows None t = Ok t' ->
    table_ok t' /\ t_next t <= t_next t' <= t_next t + 2 * Z.of_nat (length rows).

Lemma pg_sequences : keeps_sequences pg_write.
Proof.
  intros rows t t' Ht. unfold pg_write. pose proof (copy_from_ok rows t Ht) as Hc.
  destruct (copy_from rows t) as [u|next]; intros E; injection E as <-; [destruct Hc; split; [done|lia]|].
  destruct (insert_all_ok rows (mkTable (t_rows t) next)) as [H1 H2]; [apply table_ok_skip; [done|lia]|].
  split; [done|]. rewrite H2. simpl. lia.
Qed.

Lemma my_sequences : keeps_sequences my_write.
Proof.
  intros rows t t' Ht E. injection E as <-. destruct (my_chunks_ok (length rows) rows t Ht) as [H1 H2]; [done|].
  split; [done|lia].
Qed.
End sequences.

(** ** The join with [exporters] *)

Definition join_exporter (t : exp_table) (id : Z) : option Addr :=
  fst <$> List.find (fun ar => x_id ar.2 =? id) (map_to_list (x_rows t)).

Lemma join_known t a x : exp_ok t -> x_rows t !! a = Some x -> join_exporter t (x_id x) = Some a.
Proof.
  intros Ht Ha. unfold join_exporter.
  destruct (List.find _ _) as [[a' x']|] eqn:E.
  - apply find_some in E as [Hin Eid%Z.eqb_eq]. apply list_elem_of_In, elem_of_map_to_list in Hin.
    simpl. f_equal. by eapply (xo_inj t Ht).
  - pose proof (find_none _ _ E (a, x)) as Hn. simpl in Hn. rewrite Z.eqb_refl in Hn. exfalso.
    assert (true = false); [|done]. apply Hn, list_elem_of_In. by apply elem_of_map_to_list.
Qed.

(** Ids are positive. *)
Definition exp_pos (t : exp_table) : Prop := 1 <= x_next t /\ forall a x, x_rows t !! a = Some x -> 1 <= x_id x.

Lemma exp_pos_one s x : exp_pos (v_table s) -> exp_pos (v_table (resolve_one s x)).
Proof.
  destruct x as [addr last]. intros [H1 H2]. unfold resolve_one. destruct (v_cache s !! addr) as [id|].
  - split; [done|]. intros a x. cbn [v_table]. rewrite touch_lookup. intros (x0 & Hx0 & ->)%fmap_Some.
    specialize (H2 _ _ Hx0). by destruct (_ && _).
  - unfold upsert. destruct (x_rows (v_table s) !! addr) as [x0|] eqn:E; (split; [cbn; lia|]); cbn [v_table x_rows];
      intros a x [[<- <-]|[_ Ha]]%lookup_insert_Some; cbn [x_id]; eauto.
Qed.

Lemma exp_pos_loop fails order s : exp_pos (v_table s) -> exp_pos (v_table (resolve_loop fails order s).1).
Proof.
  revert s. induction order as [|x order IH]; intros s Hs; simpl; [done|]. destruct (fails x.1); [done|].
  by apply IH, exp_pos_one.
Qed.

(** ** The instances *)

(** The id column, beside the codec. *)
Class RowExporter (Row : Type) `{RowCodec Row} := {
  row_exporter : Row -> Z;
  row_exporter_insert r id : row_exporter (row_insert r id) = id
}.
#[export] Instance pg_exporter : RowExporter PgRow := {| row_exporter := pg_exporter_id; row_exporter_insert _ _ := eq_refl |}.
#[export] Instance my_exporter : RowExporter MyRow := {| row_exporter := my_exporter_id; row_exporter_insert _ _ := eq_refl |}.

(** [selectSQL]: the rows of [flow_records JOIN exporters]. *)
Definition joined {Row} `{RowExporter Row} (b : backend Row) : list row :=
  omap (fun sr => (fun a => mkRow sr.1 (row_scan sr.2 a)) <$> join_exporter (b_exporters b) (row_exporter sr.2))
    (t_rows (b_flows b)).

Section relational.
Context {Row : Type} `{RowExporter Row} {RL : RowLaws Row (fun _ id => id)}.
Context (write : list Row -> option write_error -> table Row -> result write_error (table Row)).
Context (Hwrite : refines_reference write) (Hseq : keeps_sequences write).

Definition id_in (t : exp_table) (r : FlowRecord) : Z := default 0 (x_id <$> x_rows t !! ExporterAddr r).
Definition row_of (t : exp_table) (r : FlowRecord) : Row := row_insert r (id_in t r).
Definition known (t : exp_table) (r : FlowRecord) : Prop := is_Some (x_rows t !! ExporterAddr r).

Record rel_good (b : backend Row) : Prop := {
  rg_backend : backend_ok b;
  rg_table : table_ok (b_flows b);
  rg_room : t_next (b_flows b) <= 2 ^ 63;
  rg_pos : exp_pos (b_exporters b);
  rg_records : exists records, Forall (writable row_instant) records /\ Forall (known (b_exporters b)) records /\
    values (b_flows b) = row_of (b_exporters b) <$> records
}.

Lemma joined_spec (b : backend Row) records :
  exp_ok (b_exporters b) -> Forall (writable row_instant) records -> Forall (known (b_exporters b)) records ->
  values (b_flows b) = row_of (b_exporters b) <$> records ->
  joined b = zip_with (fun s r => mkRow s (stored r (id_in (b_exporters b) r))) (t_rows (b_flows b)).*1 records.
Proof.
  intros Ht Hw Hk. unfold joined, values. generalize (t_rows (b_flows b)). revert Hk.
  induction Hw as [|r records Hr _ IH]; intros Hk l.
  - destruct l; [done|]. by rewrite fmap_cons.
  - destruct l as [|[s row] l]; [done|]. rewrite !fmap_cons. intros [= Erow El]. simpl in Erow. subst row.
    apply Forall_cons in Hk as [[x Hx] Hk].
    assert (Eid : id_in (b_exporters b) r = x_id x) by (unfold id_in; by rewrite Hx).
    cbn [omap list_omap fst snd zip_with]. unfold row_of. rewrite row_exporter_insert, !Eid, (join_known _ _ _ Ht Hx).
    cbn [fmap option_fmap option_map]. rewrite row_roundtrip by apply Hr. f_equal. by apply IH.
Qed.

Lemma zip_fst {X Y Z'} (f : X -> Y -> Z') (g : Z' -> X) (l : list X) (k : list Y) :
  (forall x y, g (f x y) = x) -> (length l <= length k)%nat -> g <$> zip_with f l k = l.
Proof.
  intros Hg. revert k. induction l as [|x l IH]; intros [|y k] Hl; simpl in *; try done; [lia|].
  rewrite Hg. f_equal. apply IH. lia.
Qed.

Lemma zip_snd {X Y Z' W} (f : X -> Y -> Z') (g : Z' -> W) (h : Y -> W) (l : list X) (k : list Y) :
  (forall x y, g (f x y) = h y) -> (length k <= length l)%nat -> g <$> zip_with f l k = h <$> k.
Proof.
  intros Hg. revert l. induction k as [|y k IH]; intros [|x l] Hl; simpl in *; try done; [lia|].
  rewrite Hg. f_equal. apply IH. lia.
Qed.

Lemma values_length (b : backend Row) records :
  values (b_flows b) = row_of (b_exporters b) <$> records -> length (t_rows (b_flows b)).*1 = length records.
Proof. intros E. apply (f_equal length) in E. unfold values in E. by rewrite !length_fmap in *. Qed.

(** The rows of a good state: keys, ranges, ids. *)
Lemma rel_view_ok k (b : backend Row) :
  rel_good b -> match k with ClickHouse => False | _ => True end -> 
  keys_unique (joined b) /\ Forall (row_ok k) (joined b) /\ Forall (fun x => 0 < ExporterID (r_rec x)) (joined b) /\
  forall x y, x ∈ joined b -> y ∈ joined b ->
    ExporterID (r_rec x) = ExporterID (r_rec y) <-> ExporterAddr (r_rec x) = ExporterAddr (r_rec y).
Proof.
  intros [[Ht _ _ _] [Hn Hnd Hrg] Hroom [_ Hpos] (records & Hw & Hk & Ev)] Hkind.
  pose proof (values_length b records Ev) as Hlen. rewrite (joined_spec b records Ht Hw Hk Ev).
  set (f := fun s r => mkRow s (stored r (id_in (b_exporters b) r))).
  assert (Hel : forall x, x ∈ zip_with f (t_rows (b_flows b)).*1 records -> exists s r e, x = f s r /\
    s ∈ (t_rows (b_flows b)).*1 /\ r ∈ records /\ x_rows (b_exporters b) !! ExporterAddr r = Some e /\
    id_in (b_exporters b) r = x_id e).
  { intros x (i & Hi)%list_elem_of_lookup. apply lookup_zip_with_Some in Hi as (s & r & -> & Hs & Hr).
    apply list_elem_of_lookup_2 in Hs, Hr. destruct (proj1 (Forall_forall _ _) Hk r Hr) as [e He].
    exists s, r, e. split_and!; try done. unfold id_in. by rewrite He. }
  split_and!.
  - unfold keys_unique. apply (NoDup_fmap_1 (fun p => p.2)). rewrite <- list_fmap_compose.
    rewrite (zip_fst f) by (done || lia). done.
  - apply Forall_forall. intros x (s & r & e & -> & Hs & Hr & _)%Hel.
    destruct (proj1 (Forall_forall _ _) Hw r Hr) as [[Hty _ _ _ _ _] _ _ Hrange].
    pose proof (proj1 (Forall_forall _ _) Hrg s Hs) as Hsr. cbv beta in Hsr.
    assert (Hbase : time_wf (r_time (f s r)) /\ whole_micro (r_time (f s r)) /\ is_sint 64 s).
    { split_and!; [apply TruncateMicro_wf, Hty|apply TruncateMicro_whole|]. unfold is_sint. simpl. lia. }
    destruct k; [..|done]; destruct Hbase as (? & ? & ?); by split_and!.
  - apply Forall_forall. intros x (s & r & e & -> & _ & _ & He & Eid)%Hel. cbn. rewrite Eid.
    specialize (Hpos _ _ He). lia.
  - intros x y (s & r & e & -> & _ & _ & He & Eid)%Hel (s' & r' & e' & -> & _ & _ & He' & Eid')%Hel. cbn.
    rewrite Eid, Eid'. split; [intros E; by eapply (xo_inj _ Ht)|]. intros E. rewrite E in He. congruence.
Qed.

Lemma rel_contents (b : backend Row) records :
  exp_ok (b_exporters b) -> Forall (writable row_instant) records -> Forall (known (b_exporters b)) records ->
  values (b_flows b) = row_of (b_exporters b) <$> records -> comparable ∘ r_rec <$> joined b = at_rest <$> records.
Proof.
  intros Ht Hw Hk Ev. rewrite (joined_spec b records Ht Hw Hk Ev). apply zip_snd; [done|].
  by rewrite (values_length b records Ev).
Qed.

(** Identities survive the representation as rows. *)
Lemma same_key_row_of t r r' : writable row_instant r -> writable row_instant r' ->
  same_key (row_of t r) (row_of t r') = same_key (at_rest r) (at_rest r').
Proof.
  intros [[Ht _ _ _ _ Hk] Hc _ _] [[Ht' _ _ _ _ Hk'] Hc' _ _]. apply columns_received in Hc, Hc'. unfold same_key, row_of.
  rewrite !row_received_insert, !row_dedup_insert by (done || apply Ht || apply Ht'). done.
Qed.

(** Rows written under an earlier table are rows of the later one. *)
Lemma row_of_le t t' records : exp_le t t' -> Forall (known t) records -> row_of t <$> records = row_of t' <$> records.
Proof.
  intros Hle Hk. apply list_fmap_ext. intros i r Hr. unfold row_of, id_in.
  destruct (proj1 (Forall_lookup _ _) Hk i r Hr) as [x Hx]. destruct (Hle _ _ Hx) as (x' & -> & Ex & _).
  rewrite Hx. simpl. by rewrite Ex.
Qed.

Lemma known_le t t' r : exp_le t t' -> known t r -> known t' r.
Proof. intros Hle [x Hx]. destruct (Hle _ _ Hx) as (x' & Hx' & _). by exists x'. Qed.

(** A batch whose ids the table knows, inserted beside earlier rows. *)
Lemma rows_commit t recs0 records ids :
  Forall (writable row_instant) recs0 -> Forall (writable row_instant) records ->
  (forall r, r ∈ records -> exists x, ids !! ExporterAddr r = Some (x_id x) /\ x_rows t !! ExporterAddr r = Some x) ->
  Forall (known t) records /\
  exists kept, dedup_rows (row_of t <$> recs0) (batch_rows ids records) = row_of t <$> kept /\
    dedup_rows (at_rest <$> recs0) (at_rest <$> records) = at_rest <$> kept /\ forall r, r ∈ kept -> r ∈ records.
Proof.
  intros Hw0 Hw Hids. split.
  { apply Forall_forall. intros r Hr. destruct (Hids r Hr) as (x & _ & Hx). by exists x. }
  assert (Eb : batch_rows ids records = row_of t <$> records).
  { apply list_fmap_ext. intros i r Hr. apply list_elem_of_lookup_2 in Hr.
    destruct (Hids r Hr) as (x & -> & Hx). unfold row_of, id_in. by rewrite Hx. }
  rewrite Eb. apply dedup_rows_map. rewrite Forall_forall in Hw0, Hw.
  intros r r' [Hr|Hr]%elem_of_app [Hr'|Hr']%elem_of_app; apply same_key_row_of; auto.
Qed.

Definition rel_allowed (order : list (Addr * Time)) (records : list FlowRecord) (b : backend Row) : Prop :=
  enumerates order records /\ t_next (b_flows b) + 2 * Z.of_nat (length records) <= 2 ^ 63.

Definition rel_write (order : list (Addr * Time)) (records : list FlowRecord) (b : backend Row) : backend Row * bool :=
  let '(b', e) := WriteBatch write no_faults order records b in (b', bool_decide (e = None)).

Lemma rel_write_law order records b :
  rel_good b -> Forall (writable row_instant) records -> rel_allowed order records b ->
  exists b', rel_write order records b = (b', true) /\ rel_good b' /\
    comparable ∘ r_rec <$> joined b' = ref_write (comparable ∘ r_rec <$> joined b) records.
Proof.
  intros Hb Hw [Hen Hroom]. unfold rel_write. destruct (decide (records = [])) as [->|Hne].
  { exists b. split_and!; [done..|]. unfold ref_write. simpl. by rewrite app_nil_r. }
  destruct Hb as [Hok Htab Hr63 Hpos (recs0 & Hw0 & Hk0 & Ev0)].
  destruct (WriteBatch_ok write order records b Hwrite Hne) as (v & t & Er & Ew & Ht).
  pose proof (WriteBatch_write write order records b v t Hne Er Ew) as Hwr.
  destruct (resolve_batch order records b v None Hok Hen) as (_ & Hv & Hle & Hids);
    [eapply Forall_impl; [exact Hw|]; by intros r [[[] _ _ _ _ _] _ _]|done|].
  assert (Hk2 : Forall (known (v_table v)) recs0) by (eapply Forall_impl; [exact Hk0|]; intros; by eapply known_le).
  destruct (rows_commit (v_table v) recs0 records (v_ids v) Hw0 Hw) as (Hk1 & kept & E1 & E2 & Hin).
  { intros r Hr. destruct (Hids r Hr) as (x & ? & ? & _). eauto. }
  rewrite Ev0, (row_of_le _ _ _ Hle Hk0), E1, <- fmap_app in Ht.
  assert (Hsub : forall P, Forall P records -> Forall P recs0 -> Forall P (recs0 ++ kept)).
  { intros P HP HP0. apply Forall_app. split; [done|]. apply Forall_forall. intros r Hr. rewrite Forall_forall in HP. auto. }
  exists (mkBackend (v_table v) (v_cache v) t). rewrite Ew, bool_decide_eq_true_2 by done. split; [done|].
  assert (Hnew : exp_ok (v_table v)) by apply Hv. split.
  - pose proof (WriteBatch_backend_ok write order records b Hwrite Hok) as Hok'. rewrite Ew in Hok'.
    destruct (Hseq _ _ _ Htab Hwr) as [Htab' Hn]. unfold batch_rows in Hn. rewrite length_fmap in Hn.
    pose proof (exp_pos_loop (fun _ => false) order (mkResolver (b_exporters b) (b_cache b) ∅) Hpos) as Hp.
    unfold resolveExporters in Er. rewrite Er in Hp.
    split; cbn [b_flows b_exporters]; [done|done|lia|done|]. exists (recs0 ++ kept). split_and!; [by apply Hsub..|done].
  - rewrite (rel_contents _ (recs0 ++ kept)), (rel_contents b recs0) by (done || (by apply Hsub) || apply Hok).
    unfold ref_write. by rewrite fmap_app, E2.
Qed.

Lemma rel_new_good : rel_good (empty_backend Row).
Proof.
  split; simpl.
  - split; simpl; [split; simpl|intros a id Ha; by rewrite lookup_empty in Ha|rewrite map_size_empty; lia|].
    + intros a b r s Ha. by rewrite lookup_empty in Ha.
    + intros a r Ha. by rewrite lookup_empty in Ha.
    + intros i j x y Hij Hx. by destruct i.
  - split; simpl; [done|constructor|constructor].
  - done.
  - split; [done|]. intros a x Hx. simpl in Hx. by rewrite lookup_empty in Hx.
  - exists []. split_and!; constructor.
Qed.
End relational.

#[export] Instance pg_storage : Storage (backend PgRow) := {|
  st_kind := Postgres; st_choice := list (Addr * Time); st_new := empty_backend PgRow;
  st_write := rel_write pg_write; st_rows := joined; st_allowed := rel_allowed |}.

#[export] Instance my_storage : Storage (backend MyRow) := {|
  st_kind := MariaDB; st_choice := list (Addr * Time); st_new := empty_backend MyRow;
  st_write := rel_write my_write; st_rows := joined; st_allowed := rel_allowed |}.

#[export] Instance pg_storage_laws : StorageLaws (backend PgRow).
Proof.
  refine {| st_good := rel_good |}; [apply rel_new_good|done| |].
  - intros b Hb. destruct (rel_view_ok Postgres b Hb I) as (? & ? & ? & ?). by constructor.
  - intros c records b Hb Hw _ Ha. destruct (rel_write_law pg_write pg_refines pg_sequences c records b Hb Hw Ha)
      as (b' & E & Hb' & Hc). exists b'. split_and!; [done..|]. unfold contents. simpl. by rewrite Hc.
Defined.

#[export] Instance my_storage_laws : StorageLaws (backend MyRow).
Proof.
  refine {| st_good := rel_good |}; [apply rel_new_good|done| |].
  - intros b Hb. destruct (rel_view_ok MariaDB b Hb I) as (? & ? & ? & ?). by constructor.
  - intros c records b Hb Hw _ Ha. destruct (rel_write_law my_write my_refines my_sequences c records b Hb Hw Ha)
      as (b' & E & Hb' & Hc). exists b'. split_and!; [done..|]. unfold contents. simpl. by rewrite Hc.
Defined.
