(* ===== verification/Retention.v ===== *)
(** * Retention and life cycle of the MariaDB backend ([internal/sink/mariadb])

    Expired rows are deleted in chunks, oldest first, by a goroutine that
    [Migrate] starts and [Close] stops. The table is the list of its rows; the
    order of the list carries no meaning, so results are stated up to
    permutation. *)

From S2P Require Import Prelude GoTime Netip Flow Text Json Cursor Rows Query.

(** ** [applyRetention] *)

Definition retentionChunk : nat := Z.to_nat 10000.
Definition Hour : Z := 3600 * Second.

(** [-time.Duration(days) * 24 * time.Hour], each operation in 64 bits. *)
Definition retention_offset (days : Z) : Z := i64 (i64 (i64 (- days) * 24) * Hour).
Definition cutoff (now : Time) (days : Z) : Time := Add (UTC now) (retention_offset days).

Definition expired (c : Time) (x : row) : bool := Before (r_time x) c.

(** ORDER BY received_at. *)
Definition older (x y : row) : Prop := After (r_time x) (r_time y) = false.
#[global] Instance older_dec x y : Decision (older x y).
Proof. unfold older. apply _. Defined.

(** [DELETE ... WHERE received_at < c ORDER BY received_at LIMIT n]: what is
    left, and the number of rows affected. *)
Definition delete_chunk (c : Time) (n : nat) (rows : list row) : list row * nat :=
  let old := merge_sort older (List.filter (expired c) rows) in
  (List.filter (fun x => negb (expired c x)) rows ++ drop n old, Nat.min n (length old)).

(** The loop; [fails i] says whether statement [i] returns an error. The fuel
    is a bound on the number of statements. *)
Fixpoint delete_loop (fuel : nat) (fails : nat -> bool) (i : nat) (c : Time) (rows : list row) : option (list row) :=
  match fuel with
  | O => None
  | S f =>
    if fails i then Some rows
    else
      let '(rows', n) := delete_chunk c retentionChunk rows in
      if (n <? retentionChunk)%nat then Some rows' else delete_loop f fails (S i) c rows'
  end.

Definition applyRetention (fuel : nat) (fails : nat -> bool) (now : Time) (days : Z) (rows : list row)
  : option (list row) :=
  delete_loop fuel fails 0 (cutoff now days) rows.

(** ** [Migrate], [retentionLoop], [Close] *)

(** The channels and the goroutine. *)
Inductive loop_state := NoLoop | LoopRunning | LoopExited.
Record retention := mkRetention {
  retentionStarted : bool;
  stopRetention : bool;       (* closed *)
  retentionDone : bool;       (* closed *)
  loop : loop_state;
  db_open : bool
}.

Definition new_retention : retention := mkRetention false false false NoLoop true.

(** [Migrate]; [ok] is the outcome of the migrations. *)
Definition Migrate (ok : bool) (b : retention) : retention :=
  if ok && negb (retentionStarted b)
  then mkRetention true (stopRetention b) (retentionDone b) LoopRunning (db_open b)
  else b.

(** The loop sees the closed channel and returns; closing a closed channel
    panics ([None]). *)
Definition loop_exit (b : retention) : option retention :=
  match loop b with
  | LoopRunning =>
    if stopRetention b then
      if retentionDone b then None
      else Some (mkRetention (retentionStarted b) true true LoopExited (db_open b))
    else Some b
  | _ => Some b
  end.

(** [Close], with the exit of the loop it waits for. *)
Definition Close (b : retention) : option retention :=
  if retentionStarted b then
    if stopRetention b then None
    else
      match loop_exit (mkRetention false true (retentionDone b) (loop b) (db_open b)) with
      | Some b' => if retentionDone b' then Some (mkRetention false true true (loop b') false) else None
      | None => None
      end
  else Some (mkRetention false (stopRetention b) (retentionDone b) (loop b) false).

(** ** Facts *)

#[global] Instance older_total : Total older.
Proof.
  intros x y. unfold older. destruct (After (r_time x) (r_time y)) eqn:E; [right|by left].
  apply not_true_iff_false. intros E'. unfold After in *.
  rewrite orb_true_iff, andb_true_iff, !Z.ltb_lt, Z.eqb_eq in E, E'. lia.
Qed.

Lemma filter_negb_perm {A} (f : A -> bool) l :
  List.filter (fun x => negb (f x)) l ++ List.filter f l ≡ₚ l.
Proof.
  induction l as [|x l IH]; simpl; [done|]. destruct (f x); simpl; [|by rewrite IH].
  by rewrite <- Permutation_middle, IH.
Qed.

Lemma listfilter_all {A} (f : A -> bool) l : (forall x, x ∈ l -> f x = true) -> List.filter f l = l.
Proof.
  induction l as [|x l IH]; [done|]. intros H. simpl. rewrite (H x) by (by left). f_equal. apply IH.
  intros y Hy. apply H. by right.
Qed.

Lemma listfilter_none {A} (f : A -> bool) l : (forall x, x ∈ l -> f x = false) -> List.filter f l = [].
Proof.
  induction l as [|x l IH]; [done|]. intros H. simpl. rewrite (H x) by (by left). apply IH.
  intros y Hy. apply H. by right.
Qed.

Section delete.
Context (c : Time).
Abbreviation fresh := (List.filter (fun x => negb (expired c x))).
Abbreviation old := (List.filter (expired c)).

Lemma old_elem l x : x ∈ old l -> expired c x = true.
Proof. rewrite list_elem_of_In, filter_In. by intros []. Qed.

Lemma sorted_old_elem l x : x ∈ merge_sort older (old l) -> expired c x = true.
Proof. rewrite merge_sort_Permutation. apply old_elem. Qed.

(** A statement leaves the fresh rows alone and takes [n] of the expired ones. *)
Lemma delete_chunk_fresh n l : fresh (delete_chunk c n l).1 = fresh l.
Proof.
  unfold delete_chunk. cbn [fst]. rewrite List.filter_app, (listfilter_none _ (drop n _)), app_nil_r.
  - apply listfilter_all. intros x. rewrite list_elem_of_In, filter_In. by intros [].
  - intros x Hx. apply negb_false_iff, (sorted_old_elem l). by apply subseteq_drop in Hx.
Qed.

Lemma delete_chunk_old n l : (length (old (delete_chunk c n l).1) = length (old l) - n)%nat.
Proof.
  unfold delete_chunk. cbn [fst]. rewrite List.filter_app, (listfilter_none _ (fresh l)).
  - simpl. rewrite listfilter_all.
    + by rewrite length_drop, merge_sort_Permutation.
    + intros x Hx. apply (sorted_old_elem l). by apply subseteq_drop in Hx.
  - intros x. rewrite list_elem_of_In, filter_In. intros [_ H%negb_true_iff]. done.
Qed.

Lemma delete_chunk_count n l : (delete_chunk c n l).2 = Nat.min n (length (old l)).
Proof. unfold delete_chunk. cbn [snd]. by rewrite merge_sort_Permutation. Qed.

(** Enough fuel for every expired row, however many statements. *)
Lemma delete_loop_spec fuel fails i l :
  (length (old l) < fuel * retentionChunk)%nat ->
  exists l', delete_loop fuel fails i c l = Some l' /\ fresh l' = fresh l /\
    ((forall j, fails j = false) -> old l' = []).
Proof.
  revert i l. induction fuel as [|f IH]; intros i l Hf; [lia|]. rewrite Nat.mul_succ_l in Hf. cbn [delete_loop].
  destruct (fails i) eqn:Ef; [exists l; split_and!; [done..|]; intros H; by rewrite H in Ef|].
  pose proof (delete_chunk_fresh retentionChunk l) as H1. pose proof (delete_chunk_old retentionChunk l) as H2.
  pose proof (delete_chunk_count retentionChunk l) as H3.
  destruct (delete_chunk c retentionChunk l) as [l1 n]. cbn [fst snd] in *.
  destruct (Nat.ltb_spec n retentionChunk) as [Hn|Hn].
  - exists l1. split_and!; [done..|]. intros _. apply length_zero_iff_nil. lia.
  - destruct (IH (S i) l1) as (l' & -> & E1 & E2); [lia|].
    exists l'. split_and!; [done|congruence|done].
Qed.
End delete.

(** ** Claims *)

(** A row's age in nanoseconds. *)
Definition age (now : Time) (x : row) : Z := nanos now - nanos (r_time x).
Definition day : Z := 24 * Hour.

(** A clock that 64-bit durations cannot push out of range. *)
Definition clock_ok (now : Time) : Prop := time_wf now /\ 0 <= sec now < 2 ^ 62.

Lemma retention_offset_exact days : 0 <= days <= 106751 -> retention_offset days = - (days * day).
Proof.
  intros H. unfold retention_offset, day, Hour, Second.
  rewrite (wrap_s_small 64 (- days)), (wrap_s_small 64 (- days * 24)) by (lia || (unfold is_sint; lia)).
  rewrite wrap_s_small by (lia || (unfold is_sint; lia)). lia.
Qed.

(** Past 106751 days the product leaves the 64-bit range and comes back positive. *)
Lemma retention_offset_wraps days : 106752 <= days <= 213503 -> retention_offset days = 2 ^ 64 - days * day.
Proof.
  intros H. unfold retention_offset, day, Hour, Second.
  rewrite (wrap_s_small 64 (- days)), (wrap_s_small 64 (- days * 24)) by (lia || (unfold is_sint; lia)).
  unfold wrap_s. replace (- days * 24 * (3600 * 1000000000) + 2 ^ (64 - 1))
    with (2 ^ 64 - days * (24 * (3600 * 1000000000)) + 2 ^ (64 - 1) + (-1) * 2 ^ 64) by lia.
  rewrite Z.mod_add by lia. rewrite Z.mod_small; lia.
Qed.

Lemma nanos_cutoff now days :
  clock_ok now -> nanos (cutoff now days) = nanos now + retention_offset days.
Proof.
  intros [[_ Hn] Hs]. apply nanos_Add. unfold UTC.
  assert (is_sint 64 (retention_offset days)) as [H1 H2] by (apply wrap_s_range; lia).
  assert (- 2 ^ 61 <= (nsec now + retention_offset days) / Second <= 2 ^ 61).
  { unfold Second in *. split; [apply Z.div_le_lower_bound; lia|apply Z.div_le_upper_bound; lia]. }
  unfold is_sint. lia.
Qed.

Lemma expired_age now days x :
  clock_ok now -> time_wf (r_time x) ->
  expired (cutoff now days) x = (- retention_offset days <? age now x).
Proof.
  intros Hc Hx. unfold expired, Before. rewrite After_nanos by (done || apply Add_wf).
  rewrite nanos_cutoff by done. unfold age. apply eq_true_iff_eq. rewrite !Z.ltb_lt. lia.
Qed.

Lemma filter_ext_elem {A} (f g : A -> bool) l : (forall x, x ∈ l -> f x = g x) -> List.filter f l = List.filter g l.
Proof.
  induction l as [|x l IH]; [done|]. intros H. simpl. rewrite (H x) by (by left).
  rewrite IH; [done|]. intros y Hy. apply H. by right.
Qed.

(** C40. Retention is exact up to 106751 days: whatever the number of chunks,
    the loop ends, and what is left is exactly the rows not older than the
    retention period; when a statement fails the loop ends early, but no row
    within the period is ever deleted. *)
Theorem retention_exact fuel fails now days rows :
  clock_ok now -> Forall (fun x => time_wf (r_time x)) rows -> 1 <= days <= 106751 ->
  (length rows < fuel * retentionChunk)%nat ->
  exists rows', applyRetention fuel fails now days rows = Some rows' /\
    (forall x, x ∈ rows -> age now x <= days * day -> x ∈ rows') /\
    ((forall i, fails i = false) -> rows' ≡ₚ List.filter (fun x => age now x <=? days * day) rows).
Proof.
  intros Hc Hw Hd Hf. unfold applyRetention. set (c := cutoff now days).
  assert (Hx : forall x, x ∈ rows -> negb (expired c x) = (age now x <=? days * day)).
  { intros x Hx. rewrite Forall_forall in Hw. unfold c.
    rewrite expired_age, retention_offset_exact by (done || lia || by apply Hw).
    rewrite Z.opp_involutive. by rewrite Z.leb_antisym. }
  destruct (delete_loop_spec c fuel fails 0 rows) as (rows' & E & Hfr & Hold).
  { pose proof (filter_length_le (expired c) rows). lia. }
  exists rows'. split; [done|]. split.
  - intros x Hin Ha. assert (H : x ∈ List.filter (fun x => negb (expired c x)) rows').
    { rewrite Hfr. apply list_elem_of_In, filter_In. split; [by apply list_elem_of_In|]. rewrite Hx by done. lia. }
    rewrite list_elem_of_In, filter_In in H. apply list_elem_of_In, H.
  - intros Hno. rewrite <- (filter_negb_perm (expired c) rows'), (Hold Hno), app_nil_r, Hfr.
    by rewrite (filter_ext_elem _ _ rows Hx).
Qed.

(** A longer retention deletes everything: from 106752 to 213503 days the
    64-bit product that gives the retention period wraps around, the cutoff
    lies in the future, and every row received until now is deleted. *)
Theorem retention_overflow_deletes_all fuel now days rows :
  clock_ok now -> Forall (fun x => time_wf (r_time x) /\ 0 <= age now x) rows -> 106752 <= days <= 213503 ->
  (length rows < fuel * retentionChunk)%nat ->
  applyRetention fuel (fun _ => false) now days rows = Some [].
Proof.
  intros Hc Hw Hd Hf. unfold applyRetention. set (c := cutoff now days).
  assert (Hx : forall x, x ∈ rows -> expired c x = true).
  { intros x Hx. rewrite Forall_forall in Hw. destruct (Hw x Hx) as [Hxw Ha]. unfold c.
    rewrite expired_age, retention_offset_wraps by (done || lia). unfold day, Hour, Second. lia. }
  destruct (delete_loop_spec c fuel (fun _ => false) 0 rows) as (rows' & E & Hfr & Hold).
  { pose proof (filter_length_le (expired c) rows). lia. }
  rewrite E. f_equal. apply Permutation_nil_r. rewrite <- (filter_negb_perm (expired c) rows').
  rewrite Hold, Hfr, app_nil_r by done. rewrite listfilter_none; [done|]. intros x Hin. by rewrite Hx.
Qed.

Definition sample_row (t : Time) : row := mkRow 1 (set_ReceivedAt t zeroRecord).
Definition sample_now : Time := Unix 1700000000 0.
Definition sample_rows_ret : list row := [sample_row (Unix 1699999999 0); sample_row (Unix 1600000000 0)].

Lemma sample_clock : clock_ok sample_now.
Proof. by vm_compute. Qed.

Lemma sample_fuel : (length sample_rows_ret < 1 * retentionChunk)%nat.
Proof. apply Nat.ltb_lt. by vm_compute. Qed.

Lemma retention_exact_witness :
  exists rows', applyRetention 1 (fun _ => false) sample_now 30 sample_rows_ret = Some rows' /\
    rows' ≡ₚ [sample_row (Unix 1699999999 0)].
Proof.
  destruct (retention_exact 1 (fun _ => false) sample_now 30 sample_rows_ret) as (rows' & E & _ & H).
  - apply sample_clock.
  - repeat constructor; by vm_compute.
  - lia.
  - apply sample_fuel.
  - exists rows'. split; [done|]. rewrite H by done. by vm_compute.
Defined.

Lemma retention_overflow_deletes_all_witness :
  applyRetention 1 (fun _ => false) sample_now 106752 sample_rows_ret = Some [].
Proof.
  apply retention_overflow_deletes_all; [apply sample_clock| |lia|apply sample_fuel].
  repeat constructor; by vm_compute.
Defined.

(** However often the backend was migrated, [Close] ends the loop and releases
    the database, and a second [Close] changes nothing. *)
Lemma retention_life_cycle oks :
  exists b, Close (foldl (fun b ok => Migrate ok b) new_retention oks) = Some b /\
    loop b <> LoopRunning /\ db_open b = false /\ Close b = Some b.
Proof.
  assert (H : forall b, b = new_retention \/ b = mkRetention true false false LoopRunning true ->
    let b' := foldl (fun b ok => Migrate ok b) b oks in b' = new_retention \/ b' = mkRetention true false false LoopRunning true).
  { induction oks as [|ok oks IH]; intros b Hb; simpl; [done|]. apply IH.
    destruct Hb as [-> | ->], ok; simpl; auto. }
  destruct (H new_retention (or_introl eq_refl)) as [-> | ->]; by eexists.
Qed.

(** ** The retention policies of ClickHouse and PostgreSQL

    Both are applied by [Migrate] at every start. *)

Inductive RetentionError := errInspect | errAlter.

(** [applyRetention] of ClickHouse: the error, the table's TTL in days, and how
    many ALTER statements were run; [inspect] and [alter] are the outcomes of
    the two statements. *)
Definition ch_applyRetention (days : Z) (inspect alter : bool) (ttl : option Z) : option RetentionError * option Z * nat :=
  if negb inspect then (Some errInspect, ttl, 0%nat)
  else if bool_decide (ttl = Some days) then (None, ttl, 0%nat)
  else if alter then (None, Some days, 1%nat) else (Some errAlter, ttl, 1%nat).

(** Without an error the configured TTL is set; an error leaves the one that
    was there; and when it is set already the table is left alone. *)
Theorem ch_retention_applied days inspect alter ttl :
  match ch_applyRetention days inspect alter ttl with
  | (None, ttl', _) => ttl' = Some days
  | (Some _, ttl', _) => ttl' = ttl
  end /\ snd (ch_applyRetention days inspect alter (Some days)) = 0%nat.
Proof.
  unfold ch_applyRetention. rewrite (bool_decide_eq_true_2 (Some days = _)) by done.
  destruct inspect; simpl; [|done]. case_bool_decide as E; [done|]. by destruct alter.
Qed.

Section timescale.
(** [add_retention_policy(..., if_not_exists => TRUE)]: creates the policy, or
    leaves the one that is there, with a notice. *)
Context (add_retention_policy : Z -> option Z -> option Z).
Hypothesis add_new : forall days, add_retention_policy days None = Some days.
Hypothesis add_existing : forall days p, add_retention_policy days (Some p) = Some p.

(** The policy after a sequence of starts with the given settings. *)
Definition pg_starts (settings : list Z) : option Z := foldl (fun p days => add_retention_policy days p) None settings.

(** The setting of the first start stays for good. *)
Theorem pg_retention_not_updated first later : pg_starts (first :: later) = Some first.
Proof.
  unfold pg_starts. cbn [foldl]. rewrite add_new. induction later as [|d later IH]; [done|]. cbn [foldl]. by rewrite add_existing.
Qed.
End timescale.
