(* ===== verification/KafkaSink.v ===== *)
(** * The Kafka sink: [internal/sink/kafka/kafka.go], and the two tiers together

    [New] and [WriteBatch] over a topic; then what an edge collector's
    acknowledged batches become at the central collector, whose Kafka source
    ([KafkaSource]) reads partitions of the same topic. *)

From S2P Require Import Prelude GoTime Netip Flow Text NetipText Decode DecodeThms Json Wire WireThms Sha256.
From S2P Require Import KafkaSource KafkaThms.

(** ** [New] *)

Inductive SinkError := errNotSet | errClient | errPing | SinkEncode (e : WireError) | SinkProduce (n : nat).

(** The client, by its seed brokers, and the topic. *)
Record sink := mkSink { s_brokers : list string; s_topic : string }.

(** [client] and [ping] are the outcomes of [kgo.NewClient] and [Ping]. *)
Definition New (brokers : list string) (topic : string) (client ping : bool) : result SinkError sink :=
  if bool_decide (brokers = []) || bool_decide (topic = ""%string) then Err errNotSet
  else if negb client then Err errClient
  else if negb ping then Err errPing
  else Ok (mkSink brokers topic).

(** ** [WriteBatch] *)

(** [kgo.Record], the fields the sink sets. *)
Record PRecord := mkPRecord { p_Key : text; p_Value : text; p_Timestamp : Time }.

Definition record_key (r : FlowRecord) : text := Addr_String (ExporterAddr r).

(** The loop: every record is encoded before any is produced. *)
Fixpoint encode_batch (records : list FlowRecord) (recs : list PRecord) : result SinkError (list PRecord) :=
  match records with
  | [] => Ok recs
  | r :: rest =>
    match Encode r with
    | Err e => Err (SinkEncode e)
    | Ok body => encode_batch rest (recs ++ [mkPRecord (record_key r) body (ReceivedAt r)])
    end
  end.

(** The topic: its records in the order the broker appended them. A
    partition is the subsequence whose keys hash to it. *)
Definition topic_log := list PRecord.
Definition partition (part : text -> nat) (q : nat) (t : topic_log) : list PRecord :=
  filter (fun x => part (p_Key x) = q) t.

(** What [ProduceSync] does to the topic: all records are acknowledged, or
    [FirstErr] is an error and some of them, by the mask, are in the log. *)
Definition landed (mask : list bool) (recs : list PRecord) : list PRecord :=
  omap (fun xb : PRecord * bool => if xb.2 then Some xb.1 else None) (zip recs mask).

Definition WriteBatch (records : list FlowRecord) (outcome : option (list bool)) (t : topic_log)
  : option SinkError * topic_log :=
  if bool_decide (records = []) then (None, t)
  else
    match encode_batch records [] with
    | Err e => (Some e, t)
    | Ok recs =>
      match outcome with
      | None => (None, t ++ recs)
      | Some mask => (Some (SinkProduce (length records)), t ++ landed mask recs)
      end
    end.

(** A sequence of batches with the outcome of each. *)
Fixpoint write_all (runs : list (list FlowRecord * option (list bool))) (t : topic_log)
  : list (option SinkError) * topic_log :=
  match runs with
  | [] => ([], t)
  | (b, o) :: rest =>
    let '(e, t1) := WriteBatch b o t in
    let '(es, t2) := write_all rest t1 in (e :: es, t2)
  end.

(** ** Facts *)

(** Records the sink can encode and the source accepts. *)
Definition shippable (r : FlowRecord) : Prop :=
  encodable r /\ deliverable r /\
  year_ok (ReceivedAt r) && year_ok (FirstSwitched r) && year_ok (LastSwitched r) = true.

(** The record at the centre: normalised, with its dedup key. *)
Definition central (r : FlowRecord) : FlowRecord :=
  let n := normalise r in set_DedupKey (Some (DedupKeyOf n)) n.

(** [x] is the message the sink makes of [r]. *)
Definition message_of (r : FlowRecord) (x : PRecord) : Prop :=
  p_Key x = record_key r /\ p_Timestamp x = ReceivedAt r /\ Encode r = Ok (p_Value x).

Lemma encode_batch_app records acc :
  encode_batch records acc =
  match encode_batch records [] with Ok recs => Ok (acc ++ recs) | Err e => Err e end.
Proof.
  revert acc. induction records as [|r rest IH]; intros acc; simpl; [by rewrite app_nil_r|].
  destruct (Encode r) as [body|e]; [|done]. rewrite IH, (IH [_]).
  destruct (encode_batch rest []); [|done]. by rewrite <- app_assoc.
Qed.

Lemma encode_batch_messages records recs :
  encode_batch records [] = Ok recs -> Forall2 message_of records recs.
Proof.
  revert recs. induction records as [|r rest IH]; intros recs; simpl; [by intros [= <-]|].
  destruct (Encode r) as [body|e] eqn:Ee; [|done]. rewrite encode_batch_app.
  destruct (encode_batch rest []) as [l|]; [|done]. intros [= <-]. constructor; [by split_and!|by apply IH].
Qed.

Lemma encode_batch_ok records :
  is_ok (encode_batch records []) = forallb (fun r => is_ok (Encode r)) records.
Proof.
  induction records as [|r rest IH]; [done|]. simpl. destruct (Encode r) as [body|e]; [|done].
  rewrite encode_batch_app, <- IH. by destruct (encode_batch rest []).
Qed.

Lemma encode_batch_err records e : encode_batch records [] = Err e -> e = SinkEncode errEncode.
Proof.
  induction records as [|r rest IH]; [done|]. simpl. unfold Encode.
  destruct (marshal (toMessage r)); [|congruence]. rewrite encode_batch_app.
  destruct (encode_batch rest []); [done|]. intros [= <-]. by apply IH.
Qed.

Lemma shippable_encodes r : shippable r -> is_ok (Encode r) = true.
Proof. intros (_ & _ & H). by rewrite Encode_ok. Qed.

Lemma batch_encodes b : Forall shippable b -> exists recs, encode_batch b [] = Ok recs /\ Forall2 message_of b recs.
Proof.
  intros H. assert (E : is_ok (encode_batch b []) = true).
  { rewrite encode_batch_ok. apply forallb_forall. intros r Hr%list_elem_of_In. apply shippable_encodes.
    by eapply Forall_forall. }
  destruct (encode_batch b []) as [recs|] eqn:Eb; [|done]. eauto using encode_batch_messages.
Qed.

(** Whatever timestamp the broker stores, the message decodes to the central record. *)
Lemma message_decodes p r x rt : shippable r -> message_of r x -> kdecode p (mkKRecord (p_Value x) rt) = Some (central r).
Proof.
  intros (He & Hd & _) (_ & _ & E). unfold kdecode, KDecode. cbn [k_Value k_Timestamp].
  by rewrite (Decode_Encode p r _ rt He E), fromMessage_toMessage.
Qed.

Lemma landed_sublist mask recs : sublist (landed mask recs) recs.
Proof.
  revert mask. induction recs as [|x recs IH]; intros [|[] mask]; unfold landed; simpl;
    try apply sublist_nil_l; constructor; apply IH.
Qed.

(** The topic holds only messages of the batches, and all of an acknowledged one. *)
Definition made_of (rs : list FlowRecord) (t : topic_log) : Prop :=
  forall x, x ∈ t -> exists r, r ∈ rs /\ message_of r x.

Lemma produce_ok b t : Forall shippable b ->
  exists recs, WriteBatch b None t = (None, t ++ recs) /\ Forall2 message_of b recs.
Proof.
  intros H. unfold WriteBatch. case_bool_decide as E; [exists []; subst b; by rewrite app_nil_r|].
  destruct (batch_encodes b H) as (recs & -> & Hm). eauto.
Qed.

Lemma WriteBatch_grows b o t : exists new, (WriteBatch b o t).2 = t ++ new /\ made_of b new.
Proof.
  unfold WriteBatch. case_bool_decide as E; [exists []; split; [by rewrite app_nil_r|by intros x ?%elem_of_nil]|].
  destruct (encode_batch b []) as [recs|] eqn:Eb;
    [|exists []; split; [by rewrite app_nil_r|by intros x ?%elem_of_nil]].
  apply encode_batch_messages in Eb.
  assert (Hall : made_of b recs).
  { intros x Hx. apply list_elem_of_lookup in Hx as [i Hi]. destruct (Forall2_lookup_r _ _ _ _ _ Eb Hi) as (r & Hr & Hm).
    exists r. split; [by eapply list_elem_of_lookup_2|done]. }
  destruct o as [mask|]; [|by exists recs]. exists (landed mask recs). split; [done|].
  intros x Hx. apply Hall. by eapply sublist_subseteq; [apply landed_sublist|].
Qed.

Lemma write_all_grows runs t : exists new, (write_all runs t).2 = t ++ new /\ made_of (concat runs.*1) new.
Proof.
  revert t. induction runs as [|[b o] runs IH]; intros t; simpl;
    [exists []; split; [by rewrite app_nil_r|by intros x ?%elem_of_nil]|].
  destruct (WriteBatch_grows b o t) as (n1 & E1 & H1). destruct (WriteBatch b o t) as [e t1]. simpl in E1. subst t1.
  destruct (IH (t ++ n1)) as (n2 & E2 & H2). destruct (write_all runs (t ++ n1)) as [es t2]. simpl in *.
  exists (n1 ++ n2). split; [by rewrite app_assoc|].
  intros x [Hx|Hx]%elem_of_app; [destruct (H1 x Hx) as (r & ? & ?)|destruct (H2 x Hx) as (r & ? & ?)];
    exists r; rewrite elem_of_app; auto.
Qed.

Lemma write_all_contains runs t b r :
  Forall shippable b -> (b, None) ∈ runs -> r ∈ b -> exists x, x ∈ (write_all runs t).2 /\ message_of r x.
Proof.
  intros Hb. revert t. induction runs as [|[b' o] runs IH]; intros t Hin Hr; [by apply elem_of_nil in Hin|].
  simpl. apply elem_of_cons in Hin as [[= <- <-]|Hin].
  - destruct (produce_ok b t Hb) as (recs & -> & Hm).
    destruct (write_all_grows runs (t ++ recs)) as (n & E & _). destruct (write_all _ _) as [es t2]. simpl in *. subst t2.
    apply list_elem_of_lookup in Hr as [i Hi]. destruct (Forall2_lookup_l _ _ _ _ _ Hm Hi) as (x & Hx & ?).
    exists x. split; [|done]. rewrite !elem_of_app. left. right. by eapply list_elem_of_lookup_2.
  - destruct (WriteBatch b' o t) as [e t1]. specialize (IH t1 Hin Hr). by destruct (write_all runs t1).
Qed.

Lemma write_all_exact bs t :
  Forall (Forall shippable) bs ->
  exists new, write_all ((fun b => (b, None)) <$> bs) t = (replicate (length bs) None, t ++ new) /\
  Forall2 message_of (concat bs) new.
Proof.
  intros H. revert t. induction H as [|b bs Hb _ IH]; intros t; [exists []; by rewrite app_nil_r|].
  rewrite fmap_cons. cbn [write_all].
  destruct (produce_ok b t Hb) as (recs & -> & Hm). destruct (IH (t ++ recs)) as (new & -> & Hn).
  exists (recs ++ new). rewrite app_assoc. split; [done|]. by apply Forall2_app.
Qed.

(** Filtering both sides of a pairing by key. *)
Lemma partition_messages part q rs ms :
  Forall2 message_of rs ms ->
  Forall2 message_of (filter (fun r => part (record_key r) = q) rs) (partition part q ms).
Proof.
  unfold partition. induction 1 as [|r x rs ms Hm _ IH]; [constructor|].
  rewrite (filter_cons _ r), (filter_cons _ x). pose proof (proj1 Hm) as Hk. destruct (decide (part (record_key r) = q)) as [H1|H1];
    destruct (decide (part (p_Key x) = q)) as [H2|H2]; try congruence.
  - constructor; [done|exact IH].
  - exact IH.
Qed.

(** ** From the edge to the centre *)

Section tiers.
Context (p : text -> option Time) (part : text -> nat) (q : nat) (log : list KRecord).

(** [log] is a partition as a consumer reads it: its values; timestamps may be
    rounded by the broker. *)
Definition reads (t : topic_log) : Prop := k_Value <$> log = p_Value <$> partition part q t.

Lemma reads_lookup t i x : reads t -> partition part q t !! i = Some x ->
  exists rt, log !! i = Some (mkKRecord (p_Value x) rt).
Proof.
  intros E Hx. assert (H : (k_Value <$> log) !! i = Some (p_Value x)) by (by rewrite E, list_lookup_fmap, Hx).
  rewrite list_lookup_fmap in H. destruct (log !! i) as [[v rt]|]; [|done]. simpl in H. injection H as ->. by exists rt.
Qed.

Lemma reads_lookup_back t i y : reads t -> log !! i = Some y ->
  exists x, partition part q t !! i = Some x /\ k_Value y = p_Value x.
Proof.
  intros E Hy. assert (H : (p_Value <$> partition part q t) !! i = Some (k_Value y)) by (by rewrite <- E, list_lookup_fmap, Hy).
  rewrite list_lookup_fmap in H. destruct (partition part q t !! i) as [x|]; [|done]. simpl in H. injection H as H.
  by exists x.
Qed.

Lemma reads_decode_all rs ms :
  Forall shippable rs -> Forall2 message_of rs ms -> k_Value <$> log = p_Value <$> ms ->
  omap (kdecode p) log = central <$> rs.
Proof.
  revert rs ms. induction log as [|[v rt] l IH]; intros rs ms Hs Hm E.
  - symmetry in E. apply fmap_nil_inv in E as ->. by inversion Hm.
  - destruct Hm as [|r x rs ms Hx Hm]; [done|]. injection E as -> E. apply Forall_cons in Hs as [Hr Hs].
    cbn [omap list_omap]. rewrite (message_decodes p r x rt Hr Hx), fmap_cons. f_equal. by apply (IH rs ms).
Qed.

End tiers.

(** Every record of an acknowledged batch has an offset in its partition. *)
Lemma acknowledged_offset p part runs log b r :
  Forall (Forall shippable) runs.*1 -> (forall q, reads part q (log q) (write_all runs []).2) ->
  (b, None) ∈ runs -> r ∈ b -> exists off, decodes p log (part (record_key r), off) (central r).
Proof.
  intros Hs Hl Hb Hr. set (q := part (record_key r)). assert (Hbs : Forall shippable b).
  { eapply Forall_forall in Hs; [exact Hs|]. apply list_elem_of_fmap. by exists (b, None). }
  destruct (write_all_contains runs [] b r Hbs Hb Hr) as (x & Hx & Hm).
  assert (Hp : x ∈ partition part q (write_all runs []).2)
    by (apply list_elem_of_filter; unfold q; destruct Hm as [-> _]; done).
  apply list_elem_of_lookup in Hp as [off Hp]. destruct (reads_lookup part q (log q) _ _ _ (Hl q) Hp) as [rt Ho].
  exists off. eexists. split; [exact Ho|]. eapply message_decodes; [|exact Hm]. by eapply Forall_forall.
Qed.

(** The topic decodes to nothing but what the edge wrote. *)
Lemma topic_from_edge p part runs log m rec :
  Forall (Forall shippable) runs.*1 -> (forall q, reads part q (log q) (write_all runs []).2) ->
  decodes p log m rec -> exists r, r ∈ concat runs.*1 /\ rec = central r.
Proof.
  destruct m as [q off]. intros Hs Hl (y & Hy & Hk).
  destruct (reads_lookup_back part q (log q) _ _ _ (Hl q) Hy) as (x & Hx & Ev).
  apply list_elem_of_lookup_2, list_elem_of_filter in Hx as [_ Hx].
  destruct (write_all_grows runs []) as (new & En & Hm). rewrite En in Hx. destruct (Hm x Hx) as (r & Hr & Hrx).
  exists r. split; [done|]. destruct y as [v rt]. simpl in Ev. subst v.
  rewrite (message_decodes p r x rt) in Hk; [by injection Hk|eapply Forall_forall; [|exact Hr]|done].
  by apply Forall_concat.
Qed.

(** Two tiers. Batches written at the edge, some of them failing with
    part of their records in the topic, and a central collector reading that
    topic under any schedule and any assignment of its partitions: every record
    of an acknowledged batch has an offset in its partition that decodes to the
    normalised record with its dedup key, and is written at the centre once the
    group has committed past it, unless another member of the group did; the
    topic decodes to nothing the edge did not write; and when every batch is
    acknowledged every partition holds exactly its records, in the order
    written. *)
Theorem edge_to_centre p part runs log w :
  Forall (Forall shippable) runs.*1 ->
  (forall q, reads part q (log q) (write_all runs []).2) ->
  star (steps_to (step p log)) (init_world []) w ->
  (forall b r, (b, None) ∈ runs -> r ∈ b ->
    let q := part (record_key r) in
    exists off, decodes p log (q, off) (central r) /\
      ((off < committed_at w q)%nat ->
        (exists i, w_intake w !! i = Some (central r, Done)) \/ passed (w_elsewhere w) (q, off))) /\
  (forall m rec, decodes p log m rec -> exists r, r ∈ concat runs.*1 /\ rec = central r) /\
  (Forall (fun bo => bo.2 = None) runs ->
    forall q, omap (kdecode p) (log q) = central <$> filter (fun r => part (record_key r) = q) (concat runs.*1)).
Proof.
  intros Hs Hl Hw. pose proof (kafka_reachable_inv p log [] w Hw) as Hi. split_and!.
  - intros b r Hb Hr q. destruct (acknowledged_offset p part runs log b r Hs Hl Hb Hr) as [off Hd]. fold q in Hd.
    exists off. split; [exact Hd|]. intros Hc. exact (inv_committed p log w Hi q off Hc _ Hd).
  - intros m rec. by apply (topic_from_edge p part).
  - intros Ho q. specialize (Hl q). assert (Er : runs = (fun b => (b, None)) <$> runs.*1).
    { clear -Ho. induction Ho as [|[b o] runs E _ IH]; [done|]. simpl in E. subst o.
      rewrite !fmap_cons. by f_equal. }
    rewrite Er in Hl. destruct (write_all_exact runs.*1 [] Hs) as (new & E & Hm). unfold reads in Hl. rewrite E in Hl.
    apply (reads_decode_all p (log q) _ (partition part q new)); [|by apply partition_messages|exact Hl].
    apply Forall_forall. intros r [_ Hr]%list_elem_of_filter. eapply Forall_forall; [|exact Hr]. by apply Forall_concat.
Qed.

Definition sample_runs : list (list FlowRecord * option (list bool)) :=
  [([sample_record; mapped_record], Some [false; true]); ([sample_record], None)].

Definition sample_part (k : text) : nat := length k mod 2.

Definition sample_topic (q : nat) : list KRecord :=
  (fun x => mkKRecord (p_Value x) (Unix 1789819200 123000000)) <$> partition sample_part q (write_all sample_runs []).2.

Definition sample_central_run : list act :=
  [AConnect; AAssign 0; AAssign 1; AFetch [(1, 1); (0, 1)]%nat; AOffer; AOffer; AEndPoll; ASendAck; ATakeAck; ASettle 0 true; ASettle 1 true;
   AWrittenNil; ACommit [0; 1]%nat].

Lemma sample_shippable : shippable sample_record /\ shippable mapped_record.
Proof.
  split; (split; [split|]); try by vm_compute; try (constructor; vm_compute; intuition congruence);
    repeat constructor.
Qed.

Lemma edge_to_centre_witness :
  exists w, run_script (step (fun _ => None) sample_topic) sample_central_run (init_world []) = Some w /\
  let q := sample_part (record_key sample_record) in
  committed_at w q = 1%nat /\
  exists off, decodes (fun _ => None) sample_topic (q, off) (central sample_record) /\
    ((off < committed_at w q)%nat ->
      (exists i, w_intake w !! i = Some (central sample_record, Done)) \/ passed (w_elsewhere w) (q, off)).
Proof.
  destruct (run_script (step (fun _ => None) sample_topic) sample_central_run (init_world [])) as [w|] eqn:E;
    [|vm_compute in E; discriminate E].
  exists w. split; [reflexivity|]. split; [vm_compute in E; by injection E as <-|].
  apply (edge_to_centre (fun _ => None) sample_part sample_runs sample_topic w) with (b := [sample_record]).
  - destruct sample_shippable. repeat (apply List.Forall_cons || apply List.Forall_nil); assumption.
  - intros q. unfold reads, sample_topic. rewrite <- list_fmap_compose. reflexivity.
  - exact (run_script_star _ _ _ _ E).
  - right. left.
  - left.
Defined.

(** One absurd timestamp loses the batch. A templated record whose
    8-byte [flowStartMilliseconds] lies in year 10000 is a well-formed output
    of the decoder, yet any batch that contains it is refused as a whole:
    nothing of it reaches the topic, whatever the broker would have done. *)
Theorem poison_record_fails_batch base boot rest b outcome t :
  emit_ok base -> Forall (fun f => match Value f with Some v => bytes_wf v | None => True end) rest ->
  Forall (fun f => FieldType f = octetDeltaCount \/ FieldType f = packetDeltaCount) rest ->
  let r := templated_record base boot (mkDataField false flowStartMilliseconds (Some (be_bytes 8 253402300800000)) :: rest) in
  emit_ok r /\ (r ∈ b -> WriteBatch b outcome t = (Some (SinkEncode errEncode), t)).
Proof.
  intros Hb Hf Ht r. split; [apply templated_record_ok; [constructor; [apply be_bytes_wf|done]|done]|].
  intros Hr. unfold WriteBatch. rewrite bool_decide_eq_false_2 by (intros ->; by apply elem_of_nil in Hr).
  assert (Hy : FirstSwitched r = UnixMilli 253402300800000).
  { unfold r, templated_record. cbn [foldl].
    assert (Hk : forall r0, FirstSwitched (foldl (fun r f => applyField f boot r) r0 rest) = FirstSwitched r0).
    { clear -Ht. induction Ht as [|f rest Hf _ IH]; intros r0; [done|]. cbn [foldl]. rewrite IH. unfold applyField.
      destruct (Value f); [|done]. destruct (_ || _); [done|]. by destruct Hf as [-> | ->]. }
    destruct (IsZero _); simpl; by rewrite Hk. }
  destruct (encode_batch b []) as [recs|e] eqn:E; [|by rewrite (encode_batch_err _ _ E)].
  assert (Ho : is_ok (encode_batch b []) = true) by (by rewrite E). rewrite encode_batch_ok, forallb_forall in Ho.
  specialize (Ho r). rewrite Encode_ok, Hy in Ho. rewrite list_elem_of_In in Hr. apply Ho in Hr.
  change (year_ok (UnixMilli 253402300800000)) with false in Hr. by rewrite andb_false_r in Hr.
Qed.

Lemma poison_record_fails_batch_witness :
  let r := templated_record (templated_base FlowTypeIPFIX (Addr4 1) (Unix 1700000000 0)) (Unix 1700000000 0)
    [mkDataField false flowStartMilliseconds (Some (be_bytes 8 253402300800000))] in
  WriteBatch [sample_record; r; sample_record] None [] = (Some (SinkEncode errEncode), []).
Proof.
  apply (poison_record_fails_batch (templated_base FlowTypeIPFIX (Addr4 1) (Unix 1700000000 0)) (Unix 1700000000 0) []).
  - constructor; [constructor|..]; vm_compute; intuition congruence.
  - constructor.
  - constructor.
  - right. left.
Defined.
