(* ===== verification/Backends.v ===== *)
(** * Opening, migrating and closing the storage backends

    [New], [Migrate] and [Close] of [internal/sink/postgres], [mariadb] and
    [clickhouse], and [NewKafka] of [internal/templatestore]. What the drivers
    answer is an input; what is modelled is the guards, the order of the calls
    and which handles are open afterwards, as a trace of openings and
    releases. Then the migrations of several backends at once: goose keeps its
    dialect in a process-wide variable, which [migrations.Lock] protects. *)

From S2P Require Import Prelude Retention.

(** ** Handles *)

Inductive handle := PgPool | MyDB | ChConn | ChDB | KafkaClient.
#[global] Instance handle_eq_dec : EqDecision handle.
Proof. solve_decision. Defined.

Inductive event := Opened (h : handle) | Released (h : handle).

(** The handles a trace leaves open. *)
Definition held (tr : list event) : list handle :=
  foldl (fun hs e => match e with Opened h => h :: hs | Released h => filter (fun x => x <> h) hs end) [] tr.

(** ** Constructors *)

Inductive NewError := errParseDSN | errDSNOptions | errOpen | errPing | errNotSet | errClient | errCreateTopic.

(** [mysql.ParseDSN]'s result, the fields the code looks at; [Loc] is the name
    of the location, [None] for a nil one. *)
Record dsn_options := mkDsnOptions { ParseTime : bool; Loc : option string }.

(** What a driver answers: the parsed DSN, the opening, the ping. *)
Record driver := mkDriver { d_parsed : option dsn_options; d_open : bool; d_ping : bool }.

Definition pg_New (d : driver) : result NewError (list handle) * list event :=
  if negb (d_open d) then (Err errOpen, [])
  else if negb (d_ping d) then (Err errPing, [Opened PgPool; Released PgPool])
  else (Ok [PgPool], [Opened PgPool]).

Definition my_New (d : driver) : result NewError (list handle) * list event :=
  match d_parsed d with
  | None => (Err errParseDSN, [])
  | Some cfg =>
    if negb (ParseTime cfg) || negb (bool_decide (Loc cfg = Some "UTC"%string)) then (Err errDSNOptions, [])
    else if negb (d_open d) then (Err errOpen, [])
    else if negb (d_ping d) then (Err errPing, [Opened MyDB; Released MyDB])
    else (Ok [MyDB], [Opened MyDB])
  end.

Definition ch_New (d : driver) : result NewError (list handle) * list event :=
  match d_parsed d with
  | None => (Err errParseDSN, [])
  | Some _ =>
    if negb (d_open d) then (Err errOpen, [])
    else if negb (d_ping d) then (Err errPing, [Opened ChConn; Released ChConn])
    else (Ok [ChDB; ChConn], [Opened ChConn; Opened ChDB])
  end.

(** The client library's error codes, as far as the code tells them apart. *)
Inductive kerr := TopicAlreadyExists | OtherCode.

(** [ensureCompacted]: [err] and [resp] are [CreateTopic]'s error and the
    error in its response. *)
Definition ensureCompacted (err resp : option kerr) : option NewError :=
  match err with
  | Some OtherCode => Some errCreateTopic
  | Some TopicAlreadyExists => None
  | None => match resp with Some OtherCode => Some errCreateTopic | _ => None end
  end.

(** The cluster: client, ping, and the answer to [CreateTopic]. *)
Record cluster := mkCluster { k_client : bool; k_ping : bool; k_err : option kerr; k_resp : option kerr }.

Definition NewKafka (brokers : list string) (topic : string) (k : cluster) : result NewError (list handle) * list event :=
  if bool_decide (brokers = []) || bool_decide (topic = ""%string) then (Err errNotSet, [])
  else if negb (k_client k) then (Err errClient, [])
  else if negb (k_ping k) then (Err errPing, [Opened KafkaClient; Released KafkaClient])
  else
    match ensureCompacted (k_err k) (k_resp k) with
    | Some e => (Err e, [Opened KafkaClient; Released KafkaClient])
    | None => (Ok [KafkaClient], [Opened KafkaClient])
    end.

(** [Close] of each; ClickHouse closes both handles whatever the first answers. *)
Definition pg_Close : list event := [Released PgPool].
Definition ch_Close : list event := [Released ChConn; Released ChDB].
Definition store_Close : list event := [Released KafkaClient].

(** Opened handles are owned: a failed construction leaves none open, a
    successful one exactly those of the backend, and its [Close] releases them. *)
Theorem constructors_release :
  (forall d, match pg_New d with
    | (Err _, tr) => held tr = []
    | (Ok hs, tr) => held tr = hs /\ hs <> [] /\ held (tr ++ pg_Close) = [] end) /\
  (forall d, match my_New d with
    | (Err _, tr) => held tr = []
    | (Ok hs, tr) => held tr = hs /\ hs = [MyDB] end) /\
  (forall d, match ch_New d with
    | (Err _, tr) => held tr = []
    | (Ok hs, tr) => held tr = hs /\ hs <> [] /\ held (tr ++ ch_Close) = [] end) /\
  (forall brokers topic k, match NewKafka brokers topic k with
    | (Err _, tr) => held tr = []
    | (Ok hs, tr) => held tr = hs /\ hs <> [] /\ held (tr ++ store_Close) = [] end).
Proof.
  split_and!.
  - intros [p o g]. unfold pg_New. cbn. by destruct o, g.
  - intros [[c|] o g]; unfold my_New; cbn; [|done]. by destruct (_ || _), o, g.
  - intros [[c|] o g]; unfold ch_New; cbn; [|done]. by destruct o, g.
  - intros b t [c g e r]. unfold NewKafka. cbn. destruct (_ || _), c, g; cbn; try done. by destruct (ensureCompacted e r).
Qed.

(** ** Migrations under the lock *)

Inductive kind := KPostgres | KMariaDB | KClickHouse.
#[global] Instance kind_eq_dec : EqDecision kind.
Proof. solve_decision. Defined.

(** Where a call of [Migrate] is. PostgreSQL keeps the lock until it returns
    (a deferred unlock); the other two release it after the migrations. *)
Inductive mig_pc :=
| AtLock
| AtDialect                (* holds the lock: SetBaseFS, SetLogger, SetDialect *)
| InUp                     (* goose.UpContext, which reads the dialect as it goes *)
| AtPolicy                 (* PostgreSQL: add_retention_policy *)
| AtUnlock (err : bool)
| AtRetention              (* MariaDB: start the loop; ClickHouse: the TTL *)
| Returned (err : bool).

Record mig := mkMig {
  m_calls : list (kind * mig_pc);
  m_lock : option nat;                (* the call that holds migrations.Lock *)
  m_dialect : option kind;            (* goose's dialect, process wide *)
  m_used : list (kind * option kind)  (* each read of it by an UpContext, with the migrations being applied *)
}.

Definition mig_start (calls : list kind) : mig := mkMig ((fun k => (k, AtLock)) <$> calls) None None [].

Definition goto (i : nat) (k : kind) (pc : mig_pc) (w : mig) : mig :=
  mkMig (<[i := (k, pc)]> (m_calls w)) (m_lock w) (m_dialect w) (m_used w).

(** One step of call [i]; [ok] is the outcome of the step's statement, and
    [more] says that [UpContext] goes on. *)
Record mig_act := mkMigAct { ma_call : nat; ma_ok : bool; ma_more : bool }.

Definition mig_step (a : mig_act) (w : mig) : option mig :=
  let i := ma_call a in
  match m_calls w !! i with
  | None => None
  | Some (k, pc) =>
    match pc with
    | AtLock =>
      match m_lock w with
      | None => Some (mkMig (<[i := (k, AtDialect)]> (m_calls w)) (Some i) (m_dialect w) (m_used w))
      | Some _ => None
      end
    | AtDialect =>
      Some (if ma_ok a
            then mkMig (<[i := (k, InUp)]> (m_calls w)) (m_lock w) (Some k) (m_used w)
            else goto i k (AtUnlock true) w)
    | InUp =>
      let w := mkMig (m_calls w) (m_lock w) (m_dialect w) (m_used w ++ [(k, m_dialect w)]) in
      Some (if ma_more a then w
            else if ma_ok a then goto i k (if bool_decide (k = KPostgres) then AtPolicy else AtUnlock false) w
            else goto i k (AtUnlock true) w)
    | AtPolicy => Some (goto i k (AtUnlock (negb (ma_ok a))) w)
    | AtUnlock err =>
      Some (mkMig (<[i := (k, if bool_decide (k = KPostgres) || err then Returned err else AtRetention)]> (m_calls w))
              None (m_dialect w) (m_used w))
    | AtRetention => Some (goto i k (Returned (bool_decide (k = KClickHouse) && negb (ma_ok a))) w)
    | Returned _ => None
    end
  end.

(** *** The lock's invariant *)

Definition critical (pc : mig_pc) : bool :=
  match pc with AtDialect | InUp | AtPolicy | AtUnlock _ => true | _ => false end.

Record mig_inv (w : mig) : Prop := {
  mi_lock : forall i k pc, m_calls w !! i = Some (k, pc) -> critical pc = true <-> m_lock w = Some i;
  mi_owner : forall i, m_lock w = Some i -> exists k pc, m_calls w !! i = Some (k, pc) /\ critical pc = true;
  mi_dialect : forall i k, m_calls w !! i = Some (k, InUp) -> m_dialect w = Some k;
  mi_used : Forall (fun u => u.2 = Some u.1) (m_used w)
}.

(** A step of the holder inside its critical section. *)
Lemma mig_inv_inside w i k pc pc' d us :
  mig_inv w -> m_calls w !! i = Some (k, pc) -> critical pc = true -> critical pc' = true ->
  (pc' = InUp -> d = Some k) -> Forall (fun u => u.2 = Some u.1) us ->
  mig_inv (mkMig (<[i := (k, pc')]> (m_calls w)) (m_lock w) d us).
Proof.
  intros [Hl Ho Hd Hu] Hi Hc Hc' Hp Hus. pose proof (proj1 (Hl _ _ _ Hi) Hc) as Hown.
  pose proof (lookup_lt_Some _ _ _ Hi) as Hlt.
  constructor; cbn [m_calls m_lock m_dialect m_used]; [..|done].
  - intros j k' q Hj. apply list_lookup_insert_Some in Hj as [(<- & [= <- <-] & _)|[_ Hj]]; [|eauto].
    rewrite Hown. done.
  - intros j Hj. rewrite Hown in Hj. injection Hj as <-. exists k, pc'. by rewrite list_lookup_insert_eq.
  - intros j k' Hj. apply list_lookup_insert_Some in Hj as [(<- & E & _)|[Hne Hj]]; [injection E as <- ->; auto|].
    exfalso. pose proof (proj1 (Hl _ _ _ Hj) eq_refl). congruence.
Qed.

(** A step from outside to outside. *)
Lemma mig_inv_outside w i k pc pc' :
  mig_inv w -> m_calls w !! i = Some (k, pc) -> critical pc = false -> critical pc' = false ->
  mig_inv (goto i k pc' w).
Proof.
  intros [Hl Ho Hd Hu] Hi Hc Hc'.
  assert (Hn : m_lock w <> Some i) by (intros E; apply (Hl _ _ _ Hi) in E; congruence).
  constructor; cbn [goto m_calls m_lock m_dialect m_used]; [..|done].
  - intros j k' q Hj. apply list_lookup_insert_Some in Hj as [(<- & [= <- <-] & _)|[_ Hj]]; [|eauto].
    rewrite Hc'. split; congruence.
  - intros j Hj. destruct (Ho j Hj) as (k' & q & Hjq & Hq). exists k', q.
    rewrite list_lookup_insert_ne; [done|congruence].
  - intros j k' Hj. apply list_lookup_insert_Some in Hj as [(<- & [= <- ->] & _)|[_ Hj]]; [done|eauto].
Qed.

(** Taking the lock, and giving it back. *)
Lemma mig_inv_acquire w i k :
  mig_inv w -> m_calls w !! i = Some (k, AtLock) -> m_lock w = None ->
  mig_inv (mkMig (<[i := (k, AtDialect)]> (m_calls w)) (Some i) (m_dialect w) (m_used w)).
Proof.
  intros [Hl Ho Hd Hu] Hi Hn. pose proof (lookup_lt_Some _ _ _ Hi) as Hlt.
  constructor; cbn [m_calls m_lock m_dialect m_used]; [..|done].
  - intros j k' q Hj. apply list_lookup_insert_Some in Hj as [(<- & [= <- <-] & _)|[Hne Hj]]; [done|].
    rewrite (Hl _ _ _ Hj), Hn. split; congruence.
  - intros j [= <-]. exists k, AtDialect. by rewrite list_lookup_insert_eq.
  - intros j k' Hj. apply list_lookup_insert_Some in Hj as [(<- & E & _)|[_ Hj]]; [done|eauto].
Qed.

Lemma mig_inv_release w i k err pc' :
  mig_inv w -> m_calls w !! i = Some (k, AtUnlock err) -> critical pc' = false ->
  mig_inv (mkMig (<[i := (k, pc')]> (m_calls w)) None (m_dialect w) (m_used w)).
Proof.
  intros [Hl Ho Hd Hu] Hi Hc. pose proof (proj1 (Hl _ _ _ Hi) eq_refl) as Hown.
  constructor; cbn [m_calls m_lock m_dialect m_used]; [..|done].
  - intros j k' q Hj. apply list_lookup_insert_Some in Hj as [(<- & [= <- <-] & _)|[Hne Hj]]; [by rewrite Hc|].
    rewrite (Hl _ _ _ Hj), Hown. split; congruence.
  - done.
  - intros j k' Hj. apply list_lookup_insert_Some in Hj as [(<- & [= <- ->] & _)|[_ Hj]]; [done|eauto].
Qed.

Lemma mig_inv_step w a w' : mig_inv w -> mig_step a w = Some w' -> mig_inv w'.
Proof.
  intros Hi. unfold mig_step. destruct (m_calls w !! ma_call a) as [[k pc]|] eqn:Ei; [|done].
  pose proof (mi_used w Hi) as Hu. destruct pc as [| | | |err| |err]; [..|done].
  - destruct (m_lock w) eqn:El; [done|]. intros E. injection E as <-. by apply mig_inv_acquire.
  - intros E. injection E as <-. destruct (ma_ok a); by apply mig_inv_inside with AtDialect.
  - pose proof (mi_dialect w Hi _ _ Ei) as Hd. intros E. injection E as <-.
    assert (Hus : Forall (fun u => u.2 = Some u.1) (m_used w ++ [(k, m_dialect w)]))
      by (apply Forall_app; split; [done|by apply Forall_singleton]).
    destruct (ma_more a).
    + rewrite <- (list_insert_id (m_calls w) (ma_call a) (k, InUp)) by done. by apply mig_inv_inside with InUp.
    + unfold goto. cbn [m_calls m_lock m_dialect m_used].
      destruct (ma_ok a); [case_bool_decide|]; by apply mig_inv_inside with InUp.
  - intros E. injection E as <-. by apply mig_inv_inside with AtPolicy.
  - intros E. injection E as <-. apply mig_inv_release with err; [done..|]. by case_match.
  - intros E. injection E as <-. by apply mig_inv_outside with AtRetention.
Qed.

Lemma mig_reachable calls w : star (steps_to mig_step) (mig_start calls) w -> mig_inv w.
Proof.
  apply star_invariant; [intros s1 s2 Hi [a Ha]; by eapply mig_inv_step|].
  assert (Hp : forall i k pc, m_calls (mig_start calls) !! i = Some (k, pc) -> pc = AtLock).
  { intros i k pc. cbn. rewrite list_lookup_fmap. destruct (calls !! i); simpl; congruence. }
  constructor; [..|constructor]; cbn [mig_start m_lock]; [|done|].
  - intros i k pc ->%Hp. done.
  - intros i k Hk%Hp. done.
Qed.

(** *** Every call returns *)

Definition pc_rank (pc : mig_pc) : nat :=
  match pc with
  | AtLock => 6 | AtDialect => 5 | InUp => 4 | AtPolicy => 3 | AtUnlock _ => 2 | AtRetention => 1 | Returned _ => 0
  end.
Definition mig_left (w : mig) : nat := sum_list_with (fun c => pc_rank c.2) (m_calls w).

Lemma rank_insert (l : list (kind * mig_pc)) i k pc pc' :
  l !! i = Some (k, pc) -> (pc_rank pc' < pc_rank pc)%nat ->
  (sum_list_with (fun c => pc_rank c.2) (<[i := (k, pc')]> l) < sum_list_with (fun c => pc_rank c.2) l)%nat.
Proof.
  revert i. induction l as [|c l IH]; intros [|i] Hi Hr; simplify_eq/=; [lia|]. specialize (IH i Hi Hr). lia.
Qed.

(** A call that holds the lock, or need not wait for it, can go on. *)
Lemma mig_advance w i k pc :
  m_calls w !! i = Some (k, pc) -> (forall err, pc <> Returned err) -> (pc = AtLock -> m_lock w = None) ->
  exists w', mig_step (mkMigAct i true false) w = Some w' /\ (mig_left w' < mig_left w)%nat.
Proof.
  intros Hi Hp Hl. unfold mig_step. cbn [ma_call ma_ok ma_more]. rewrite Hi.
  destruct pc as [| | | |err| |err]; try (eexists; split; [reflexivity|]; apply (rank_insert _ _ _ _ _ Hi); cbn; lia).
  - rewrite Hl by done. eexists. split; [reflexivity|]. apply (rank_insert _ _ _ _ _ Hi). cbn. lia.
  - eexists. split; [reflexivity|]. apply (rank_insert _ _ _ _ _ Hi). case_bool_decide; cbn; lia.
  - eexists. split; [reflexivity|]. apply (rank_insert _ _ _ _ _ Hi). case_match; cbn; lia.
  - by destruct (Hp err).
Qed.

Lemma mig_progress w :
  mig_inv w -> (exists i k pc, m_calls w !! i = Some (k, pc) /\ forall err, pc <> Returned err) ->
  exists a w', mig_step a w = Some w' /\ (mig_left w' < mig_left w)%nat.
Proof.
  intros Hi (i & k & pc & Hp & Hr). destruct (m_lock w) as [j|] eqn:El.
  - destruct (mi_owner w Hi j El) as (k' & q & Hj & Hq). eexists. apply (mig_advance w j k' q Hj); [intros err ->|intros ->]; done.
  - eexists. by apply (mig_advance w i k pc).
Qed.

Definition all_returned (w : mig) : Prop := Forall (fun c => exists err, c.2 = Returned err) (m_calls w).

Lemma returned_dec (w : mig) :
  all_returned w \/ exists i k pc, m_calls w !! i = Some (k, pc) /\ forall err, pc <> Returned err.
Proof.
  unfold all_returned. induction (m_calls w) as [|[k pc] l IH]; [by left|].
  destruct pc as [| | | |err| |err]; try (right; by eexists 0%nat, _, _).
  destruct IH as [IH|(i & k' & q & Hi & Hq)]; [left; constructor; [by eexists|done]|right; by exists (S i), k', q].
Qed.

Lemma mig_completes n w :
  (mig_left w <= n)%nat -> mig_inv w -> exists w', star (steps_to mig_step) w w' /\ all_returned w'.
Proof.
  revert w. induction n as [n IH] using lt_wf_ind. intros w Hn Hi.
  destruct (returned_dec w) as [Hd|Hd]; [by exists w; split; [apply star_refl|]|].
  destruct (mig_progress w Hi Hd) as (a & w1 & Hs & Hlt).
  destruct (IH (mig_left w1) ltac:(lia) w1 ltac:(lia) (mig_inv_step _ _ _ Hi Hs)) as (w' & Hstar & Hr).
  exists w'. split; [|done]. apply star_trans with w1; [|done]. apply (star_snoc _ _ w); [apply star_refl|by exists a].
Qed.

(** Migrations do not disturb each other. Whatever backends are migrated at the
    same time, in every interleaving and whatever fails: each [UpContext] sees
    its own dialect at every moment it reads it, no two calls are between lock
    and unlock at once, a call that has returned does not hold the lock, and
    there is always a way for all the calls to return. *)
Theorem migrations_isolated calls w :
  star (steps_to mig_step) (mig_start calls) w ->
  Forall (fun u => u.2 = Some u.1) (m_used w) /\
  (forall i j k k' pc pc', m_calls w !! i = Some (k, pc) -> m_calls w !! j = Some (k', pc') ->
    critical pc = true -> critical pc' = true -> i = j) /\
  (forall i k err, m_calls w !! i = Some (k, Returned err) -> m_lock w <> Some i) /\
  (all_returned w -> m_lock w = None) /\
  exists w', star (steps_to mig_step) w w' /\ all_returned w'.
Proof.
  intros Hr%mig_reachable. split_and!.
  - apply Hr.
  - intros i j k k' pc pc' Hi Hj Hc Hc'. apply (mi_lock w Hr _ _ _ Hi) in Hc. apply (mi_lock w Hr _ _ _ Hj) in Hc'. congruence.
  - intros i k err Hi E. by apply (mi_lock w Hr _ _ _ Hi) in E.
  - intros Ha. destruct (m_lock w) as [i|] eqn:El; [|done]. destruct (mi_owner w Hr i El) as (k & pc & Hi & Hc).
    destruct (Forall_lookup_1 _ _ _ _ Ha Hi) as [err E]. simpl in E. by subst pc.
  - by apply (mig_completes (mig_left w)).
Qed.

(** Three backends start at once; MariaDB's migrations fail. *)
Definition sample_migration : list mig_act :=
  [mkMigAct 1 true false; mkMigAct 1 true false; mkMigAct 1 true true; mkMigAct 1 false false; mkMigAct 1 true false;
   mkMigAct 0 true false; mkMigAct 0 true false; mkMigAct 0 true false; mkMigAct 0 true false; mkMigAct 0 true false;
   mkMigAct 2 true false; mkMigAct 2 true false].

Lemma migrations_isolated_witness :
  exists w, run_script mig_step sample_migration (mig_start [KPostgres; KMariaDB; KClickHouse]) = Some w /\
    m_calls w = [(KPostgres, Returned false); (KMariaDB, Returned true); (KClickHouse, InUp)] /\
    length (m_used w) = 3%nat /\ Forall (fun u => u.2 = Some u.1) (m_used w).
Proof.
  eexists. split; [vm_compute; reflexivity|]. split; [reflexivity|]. split; [reflexivity|].
  apply (migrations_isolated [KPostgres; KMariaDB; KClickHouse]).
  apply run_script_star with sample_migration. vm_compute. reflexivity.
Defined.
