(* ===== verification/DotEnv.v ===== *)
(** * Reading the environment: [.env] files and the shell ([internal/config/config.go])

    [findDotEnv], [parseDotEnv] and the first half of [load]: which file is
    read, what its lines mean, and how the process environment is laid over it. *)

From S2P Require Import Prelude Text Strings.

Open Scope char_scope.
Open Scope Z_scope.

(** ** [parseDotEnv] *)

Abbreviation vars := (gmap text text).

Definition LF : ascii := chr 10.
Definition CR : ascii := chr 13.
Definition dquote : ascii := chr 34.
Definition squote : ascii := chr 39.

(** [bufio.Scanner] over lines: the pieces between line feeds, no piece after
    a final one. *)
Definition scan_lines (s : text) : list text :=
  let ls := Split LF s in
  match last ls with Some [] => removelast ls | _ => ls end.

Definition dropCR (l : text) : text :=
  match rev l with c :: r => if bool_decide (c = CR) then rev r else l | [] => l end.

(** A line that does not fit the scanner's buffer ends the scan. *)
Definition MaxScanTokenSize : Z := 65536.

Definition strip_quotes (val : text) : text :=
  if 2 <=? Z.of_nat (length val) then
    match head val, last val with
    | Some q, Some e =>
      if (bool_decide (q = dquote) || bool_decide (q = squote)) && bool_decide (e = q)
      then take (length val - 2) (drop 1 val) else val
    | _, _ => val
    end
  else val.

Inductive line := LSkip | LBad | LSet (key val : text).

Definition parse_line (raw : text) : line :=
  let l := TrimSpace raw in
  if bool_decide (l = []) || HasPrefix l (tx "#") then LSkip
  else
    let l := TrimPrefix l (tx "export ") in
    match Cut "="%char l with
    | None => LBad
    | Some (key, val) =>
      let key := TrimSpace key in
      if bool_decide (key = []) then LBad else LSet key (strip_quotes (TrimSpace val))
    end.

Inductive DotEnvError := errLine (n : nat) | errTooLong | errRead.

Fixpoint parse_lines (n : nat) (ls : list text) (m : vars) : result DotEnvError vars :=
  match ls with
  | [] => Ok m
  | l :: rest =>
    if MaxScanTokenSize <=? Z.of_nat (length l) then Err errTooLong
    else
      match parse_line (dropCR l) with
      | LSkip => parse_lines (S n) rest m
      | LBad => Err (errLine n)
      | LSet k v => parse_lines (S n) rest (<[k := v]> m)
      end
  end.

(** The file's content, and whether reading it ended without an error. *)
Definition parseDotEnv (content : text) (read_ok : bool) : result DotEnvError vars :=
  match parse_lines 1 (scan_lines content) ∅ with
  | Ok m => if read_ok then Ok m else Err errRead
  | Err e => Err e
  end.

(** ** [findDotEnv] and [load] *)

Definition maxWalkUp : nat := 10.

(** A cleaned absolute path, innermost name first; the root is its own parent. *)
Abbreviation path := (list text).

Section files.
(** The directories that hold a regular file named [.env], and what opening it
    gives. *)
Context (has : path -> bool) (open : path -> option (text * bool)).

Fixpoint walk_up (n : nat) (dir : path) : option path :=
  match n with
  | O => None
  | S n' =>
    if has dir then Some dir
    else match dir with [] => None | _ :: parent => walk_up n' parent end
  end.

Definition findDotEnv (dir : path) : option path := walk_up (S maxWalkUp) dir.

Inductive LoadError := errOpen (p : path) | errParse (p : path) (e : DotEnvError).

Definition overlay (environ : list text) (m : vars) : vars :=
  foldl (fun m kv => match Cut "="%char kv with Some (k, v) => <[k := v]> m | None => m end) m environ.

(** [load] up to the call of [parse]. *)
Definition load_vars (wd : path) (environ : list text) : result LoadError vars :=
  match findDotEnv wd with
  | None => Ok (overlay environ ∅)
  | Some p =>
    match open p with
    | None => Err (errOpen p)
    | Some (content, read_ok) =>
      match parseDotEnv content read_ok with
      | Err e => Err (errParse p e)
      | Ok m => Ok (overlay environ m)
      end
    end
  end.

End files.

(** ** Facts on texts *)

(** A text whose two ends are visible ASCII characters has nothing to trim. *)
Definition visible (c : ascii) : Prop := 33 <= ord c < 127.

Lemma trim_left_visible c s : visible c -> trim_left (c :: s) = c :: s.
Proof.
  unfold visible. intros Hc. cbn [trim_left]. unfold ascii_space, space2, space3. cbv zeta.
  replace ((9 <=? ord c) && (ord c <=? 13) || (ord c =? 32)) with false by lia.
  destruct s as [|b s]; [done|]. replace (ord c =? 194) with false by lia. rewrite andb_false_l.
  destruct s as [|d s]; [done|].
  replace (ord c =? 225) with false by lia. replace (ord c =? 226) with false by lia.
  by replace (ord c =? 227) with false by lia.
Qed.

Lemma trim_right_visible c s : visible c -> trim_right_rev (c :: s) = c :: s.
Proof.
  unfold visible. intros Hc. cbn [trim_right_rev]. unfold ascii_space, space2, space3. cbv zeta.
  replace ((9 <=? ord c) && (ord c <=? 13) || (ord c =? 32)) with false by lia.
  destruct s as [|b s]; [done|].
  replace (ord c =? 133) with false by lia. replace (ord c =? 160) with false by lia.
  rewrite andb_false_r. destruct s as [|d s]; [done|].
  replace (ord c =? 128) with false by lia. replace (128 <=? ord c) with false by lia.
  replace (ord c =? 168) with false by lia. replace (ord c =? 169) with false by lia.
  replace (ord c =? 175) with false by lia. replace (ord c =? 159) with false by lia.
  by rewrite !andb_false_r.
Qed.

Lemma TrimSpace_visible c m d : visible c -> visible d -> TrimSpace (c :: m ++ [d]) = c :: m ++ [d].
Proof.
  intros Hc Hd. unfold TrimSpace. rewrite trim_left_visible by done.
  rewrite app_comm_cons, rev_app_distr. cbn [rev app]. rewrite trim_right_visible by done.
  cbn [rev]. by rewrite rev_app_distr, rev_involutive.
Qed.

Lemma TrimSpace_all_visible s : Forall visible s -> TrimSpace s = s.
Proof.
  intros H. destruct s as [|c s]; [done|]. apply Forall_cons in H as [Hc H].
  destruct s as [|e s'] using rev_ind; [|apply Forall_app in H as [_ [He _]%Forall_cons]; by apply TrimSpace_visible].
  unfold TrimSpace. rewrite trim_left_visible by done. cbn [rev app]. by rewrite trim_right_visible.
Qed.

(** ** Printing a file and reading it back *)

(** The characters of a variable's name. *)
Definition name_char (c : ascii) : Prop :=
  65 <= ord c <= 90 \/ 97 <= ord c <= 122 \/ 48 <= ord c <= 57 \/ ord c = 95.

Definition quoted (kv : text * text) : text := kv.1 ++ ("="%char :: dquote :: (kv.2 ++ [dquote])).

(** [KEY="value"], one per line. *)
Definition print_env (kvs : list (text * text)) : text := concat ((fun kv => (quoted kv) ++ [LF]) <$> kvs).

(** A name, any value on one line, and a line that fits the scanner. *)
Definition printable_var (kv : text * text) : Prop :=
  kv.1 <> [] /\ Forall name_char kv.1 /\ (LF ∉ kv.2) /\ Z.of_nat (length (quoted kv)) < MaxScanTokenSize.

Lemma name_char_visible c : name_char c -> visible c.
Proof. unfold name_char, visible. lia. Qed.

Lemma name_char_ne c d : name_char c -> ~ name_char d -> c <> d.
Proof. by intros ? ? ->. Qed.

Lemma not_in_name d k : ~ name_char d -> Forall name_char k -> d ∉ k.
Proof. intros Hd Hk Hin. apply Hd. by eapply Forall_forall. Qed.

Lemma quoted_no_LF kv : printable_var kv -> LF ∉ quoted kv.
Proof.
  intros (_ & Hk & Hv & _). unfold quoted. rewrite elem_of_app, !elem_of_cons, elem_of_app, list_elem_of_singleton.
  intros [H|[H|[H|[H|H]]]]; [|discriminate H|discriminate H|done|discriminate H].
  revert H. apply not_in_name; [|done]. vm_compute. intuition congruence.
Qed.

Lemma strip_quotes_quoted v : strip_quotes (dquote :: v ++ [dquote]) = v.
Proof.
  unfold strip_quotes. cbn [length]. rewrite length_app. cbn [length].
  rewrite (proj2 (Z.leb_le 2 _)) by lia.
  cbn [head]. rewrite app_comm_cons, last_snoc.
  rewrite (bool_decide_eq_true_2 (dquote = dquote)) by done. cbn [orb andb app drop].
  replace (S (length v + 1) - 2)%nat with (length v) by lia. rewrite drop_0. by rewrite take_app_length.
Qed.

Lemma not_export k s : Forall name_char k -> HasPrefix (k ++ "="%char :: s) (tx "export ") = false.
Proof.
  intros Hk. apply not_true_iff_false. intros [r E]%HasPrefix_spec.
  destruct (decide (length k < 7)%nat) as [Hl|Hl].
  - assert (Hq : (k ++ ("="%char :: s)) !! length k = Some "="%char) by (by rewrite lookup_app_r, Nat.sub_diag by lia).
    rewrite E, lookup_app_l in Hq by (simpl; lia). revert Hq Hl. generalize (length k). clear.
    intros n Hq Hl. do 7 (destruct n as [|n]; [discriminate Hq|]). lia.
  - assert (Hq : (k ++ ("="%char :: s)) !! 6%nat = Some " "%char) by (by rewrite E).
    rewrite lookup_app_l in Hq by lia. apply list_elem_of_lookup_2 in Hq. revert Hq.
    apply not_in_name; [|done]. vm_compute. intuition congruence.
Qed.

Lemma parse_line_quoted kv : printable_var kv -> parse_line (quoted kv) = LSet kv.1 kv.2.
Proof.
  destruct kv as [k v]. intros (Hne & Hk & Hv & _). cbn [fst snd] in *. unfold parse_line, quoted. cbn [fst snd].
  destruct k as [|c k]; [done|]. apply Forall_cons in Hk as Hk'. destruct Hk' as [Hc Hk'].
  assert (Ht : TrimSpace ((c :: k) ++ "="%char :: dquote :: v ++ [dquote]) = (c :: k) ++ "="%char :: dquote :: v ++ [dquote]).
  { pose proof (TrimSpace_visible c (k ++ "="%char :: dquote :: v) dquote (name_char_visible c Hc)) as E.
    cbn [app] in *. rewrite <- app_assoc in E. cbn [app] in E. apply E. vm_compute. intuition congruence. }
  rewrite Ht, bool_decide_eq_false_2 by done.
  assert (Hh : HasPrefix ((c :: k) ++ "="%char :: dquote :: v ++ [dquote]) (tx "#") = false).
  { cbn. rewrite bool_decide_eq_false_2; [done|]. apply not_eq_sym, name_char_ne; [done|]. vm_compute. intuition congruence. }
  rewrite Hh. cbn [orb]. unfold TrimPrefix. rewrite not_export by done.
  rewrite Cut_some by (apply not_in_name; [vm_compute; intuition congruence|done]).
  rewrite TrimSpace_all_visible by (eapply Forall_impl; [exact Hk|apply name_char_visible]).
  rewrite bool_decide_eq_false_2 by done. rewrite TrimSpace_visible by (vm_compute; intuition congruence).
  by rewrite strip_quotes_quoted.
Qed.

Lemma scan_lines_cons l s : LF ∉ l -> scan_lines (l ++ LF :: s) = l :: scan_lines s.
Proof.
  intros Hl. unfold scan_lines. rewrite Split_cons by done.
  destruct (Split LF s) as [|x xs] eqn:E; [by destruct s as [|c s]; simpl in E; repeat case_match|].
  change (last (l :: x :: xs)) with (last (x :: xs)). by destruct (last (x :: xs)) as [[|]|].
Qed.

Lemma scan_print kvs : Forall printable_var kvs -> scan_lines (print_env kvs) = quoted <$> kvs.
Proof.
  induction 1 as [|kv kvs Hkv _ IH]; [done|]. unfold print_env. rewrite fmap_cons. cbn [concat].
  rewrite <- app_assoc. cbn [app]. rewrite scan_lines_cons by (by apply quoted_no_LF). rewrite fmap_cons. f_equal. exact IH.
Qed.

Lemma dropCR_quoted kv : dropCR (quoted kv) = quoted kv.
Proof. unfold dropCR, quoted. by rewrite !app_comm_cons, app_assoc, rev_app_distr. Qed.

(** The assignments of a list, later ones over earlier ones. *)
Definition assign (kvs : list (text * text)) (m : vars) : vars := foldl (fun m kv => <[kv.1 := kv.2]> m) m kvs.

Lemma parse_lines_quoted n kvs m :
  Forall printable_var kvs -> parse_lines n (quoted <$> kvs) m = Ok (assign kvs m).
Proof.
  intros H. revert n m. induction H as [|kv kvs Hkv _ IH]; intros n m; [done|].
  rewrite fmap_cons. cbn [parse_lines]. pose proof Hkv as (_ & _ & _ & Hl).
  rewrite (proj2 (Z.leb_gt MaxScanTokenSize _)) by done.
  rewrite dropCR_quoted, parse_line_quoted by done. apply IH.
Qed.

(** The value the last assignment to [k] gives, if there is one. *)
Definition last_value (k : text) (kvs : list (text * text)) : option text :=
  snd <$> last (filter (fun kv => kv.1 = k) kvs).

Lemma assign_snoc kvs kv m : assign (kvs ++ [kv]) m = <[kv.1 := kv.2]> (assign kvs m).
Proof. unfold assign. by rewrite foldl_app. Qed.

Lemma assign_lookup kvs m k :
  assign kvs m !! k = match last_value k kvs with Some v => Some v | None => m !! k end.
Proof.
  unfold last_value. induction kvs as [|[k' v'] kvs IH] using rev_ind; [done|]. rewrite assign_snoc, filter_app.
  rewrite filter_cons, filter_nil. cbn [fst snd]. destruct (decide (k' = k)) as [->|Hne].
  - by rewrite lookup_insert_eq, last_snoc.
  - by rewrite lookup_insert_ne, app_nil_r.
Qed.

(** The assignments the shell makes: its entries with an equals sign. *)
Definition shell_vars (environ : list text) : list (text * text) := omap (Cut "="%char) environ.

Lemma overlay_assign environ m : overlay environ m = assign (shell_vars environ) m.
Proof.
  unfold overlay, assign, shell_vars. revert m. induction environ as [|kv environ IH]; intros m; [done|].
  cbn [foldl omap list_omap]. destruct (Cut "="%char kv) as [[k v]|]; apply IH.
Qed.

Lemma walk_up_spec has n dir d :
  walk_up has n dir = Some d <->
  exists k, (k < n)%nat /\ (k <= length dir)%nat /\ d = drop k dir /\ has d = true /\
    forall j, (j < k)%nat -> has (drop j dir) = false.
Proof.
  revert dir. induction n as [|n IH]; intros dir; simpl; [split; [done|by intros (k & Hk & _); lia]|].
  destruct (has dir) eqn:E.
  - split.
    + intros [= <-]. exists 0%nat. rewrite drop_0. repeat split; try done; lia.
    + intros (k & _ & _ & -> & _ & Hj). destruct k as [|k]; [by rewrite drop_0|].
      specialize (Hj 0%nat ltac:(lia)). rewrite drop_0 in Hj. congruence.
  - destruct dir as [|c parent].
    + split; [done|]. intros (k & _ & Hk & -> & Hh & _). simpl in Hk. replace k with 0%nat in Hh by lia.
      rewrite drop_0 in Hh. congruence.
    + rewrite IH. split.
      * intros (k & H1 & H2 & H3 & H4 & H5). exists (S k). repeat split; try done; simpl; try lia.
        intros [|j] Hj; [done|]. apply H5. lia.
      * intros ([|k] & H1 & H2 & H3 & H4 & H5); [rewrite drop_0 in H3; congruence|].
        exists k. simpl in *. repeat split; try done; try lia. intros j Hj. apply (H5 (S j)). lia.
Qed.

(** C32. The environment of the program. A [.env] file of [KEY="value"] lines,
    any value on one line, read from the nearest of the working directory and
    its ten ancestors that has one, gives every variable the value the shell
    assigns last, or else the value the file assigns last, or else none; and
    when none of those directories has a file, the shell alone decides. *)
Theorem env_precedence has open wd environ k :
  match findDotEnv has wd with
  | Some d =>
    (exists n, (n <= maxWalkUp)%nat /\ d = drop n wd /\ has d = true /\
      forall j, (j < n)%nat -> has (drop j wd) = false) /\
    forall kvs, open d = Some (print_env kvs, true) -> Forall printable_var kvs ->
    exists m, load_vars has open wd environ = Ok m /\
      m !! k = match last_value k (shell_vars environ) with Some v => Some v | None => last_value k kvs end
  | None =>
    (forall n, (n <= maxWalkUp)%nat -> (n <= length wd)%nat -> has (drop n wd) = false) /\
    exists m, load_vars has open wd environ = Ok m /\ m !! k = last_value k (shell_vars environ)
  end.
Proof.
  unfold load_vars. destruct (findDotEnv has wd) as [d|] eqn:E; unfold findDotEnv in E.
  - apply walk_up_spec in E as (n & Hn & _ & -> & Hh & Hj). split; [exists n; repeat split; try done; lia|].
    intros kvs -> Hk. unfold parseDotEnv. rewrite scan_print, parse_lines_quoted by done.
    eexists. split; [done|]. rewrite overlay_assign, assign_lookup. destruct (last_value _ _); [done|].
    rewrite assign_lookup, lookup_empty. by destruct (last_value k kvs).
  - split.
    + intros n. induction n as [n IH] using lt_wf_ind. intros Hn Hl. apply not_true_iff_false. intros Hh.
      assert (Hs : walk_up has (S maxWalkUp) wd = Some (drop n wd)); [|congruence]. apply walk_up_spec.
      exists n. repeat split; try done; [lia|]. intros j Hj. apply IH; lia.
    + eexists. split; [done|]. rewrite overlay_assign, assign_lookup, lookup_empty. by destruct (last_value _ _).
Qed.

Definition sample_kvs : list (text * text) :=
  [(tx "NFC_SINKS", tx "postgres"); (tx "NFC_API_KEYS", tx " a'b = #c "); (tx "NFC_SINKS", tx "kafka")].

(** The file is two levels up; the shell sets another variable. *)
Lemma env_precedence_witness :
  exists m, load_vars (fun d => bool_decide (d = [tx "srv"])) (fun _ => Some (print_env sample_kvs, true))
    [tx "internal"; tx "app"; tx "srv"] [tx "NFC_HTTP_ADDR=:8080"] = Ok m /\
  m !! tx "NFC_SINKS" = Some (tx "kafka").
Proof.
  destruct (env_precedence (fun d => bool_decide (d = [tx "srv"])) (fun _ => Some (print_env sample_kvs, true))
    [tx "internal"; tx "app"; tx "srv"] [tx "NFC_HTTP_ADDR=:8080"] (tx "NFC_SINKS")) as [_ H].
  destruct (H sample_kvs eq_refl) as (m & Hm & Hk).
  - assert (Hn : forall c, name_char c <->
      (65 <=? ord c) && (ord c <=? 90) || (97 <=? ord c) && (ord c <=? 122)
      || (48 <=? ord c) && (ord c <=? 57) || (ord c =? 95) = true) by (intros c; unfold name_char; lia).
    repeat (apply List.Forall_cons); [..|apply List.Forall_nil];
      (split; [done|]; split; [repeat (apply List.Forall_cons || apply List.Forall_nil); apply Hn; reflexivity|];
       split; [apply (bool_decide_unpack _); reflexivity|reflexivity]).
  - exists m. split; [exact Hm|]. rewrite Hk. reflexivity.
Defined.

(** What the reader makes of the forms the documentation names, and of lines it
    refuses. *)
Example parse_line_export : parse_line (tx "export NFC_WORKERS = 8 ") = LSet (tx "NFC_WORKERS") (tx "8").
Proof. reflexivity. Qed.
Example parse_line_single : parse_line (tx "NFC_KAFKA_GROUP='g h'") = LSet (tx "NFC_KAFKA_GROUP") (tx "g h").
Proof. reflexivity. Qed.
Example parse_line_none : parse_line (tx "NFC_LOG_LEVEL") = LBad.
Proof. reflexivity. Qed.
