(* ===== verification/Config.v ===== *)
(** * The configuration: [internal/config/config.go]

    Binding is the [env] library's, a parameter ([env_bind]); so is the
    validator's [hostname_port]. The derived flags, the rules of the struct
    tags in the order of the fields, the cross checks, and the errors with the
    variable each one names are the program's. A slice is nil exactly when its
    variable is unset or empty, so lists stand for slices. *)

From S2P Require Import Prelude GoTime Netip Flow Text Strings Api Pipeline DotEnv Backends KafkaSink App.

Open Scope char_scope.
Open Scope Z_scope.

Record Config := mkConfig {
  c_LogLevel : string;
  c_HTTPAddr : string;
  c_NetFlowAddr : string;
  c_Sources : list string;
  c_Sinks : list string;
  c_PostgresDSN : string;
  c_MariaDBDSN : string;
  c_ClickHouseDSN : string;
  c_RetentionDays : Z;
  c_KafkaBrokers : list string;
  c_KafkaTopic : string;
  c_KafkaGroup : string;
  c_KafkaTemplateTopic : string;
  c_PipelineBuffer : Z;
  c_BatchSize : Z;
  c_BatchInterval : Z;
  c_Workers : Z;
  c_APIKeys : list text;
  (* derived *)
  c_PostgresEnabled : bool;
  c_MariaDBEnabled : bool;
  c_ClickHouseEnabled : bool;
  c_KafkaSourceEnabled : bool;
  c_KafkaSinkEnabled : bool;
  c_KafkaEnabled : bool;
  c_NetFlowEnabled : bool
}.

(** The field names with their [env] tags. *)
Definition env_tags : list (string * string) :=
  [("LogLevel", "NFC_LOG_LEVEL"); ("HTTPAddr", "NFC_HTTP_ADDR"); ("NetFlowAddr", "NFC_NETFLOW_ADDR");
   ("Sources", "NFC_SOURCES"); ("Sinks", "NFC_SINKS"); ("PostgresDSN", "NFC_POSTGRES_DSN");
   ("MariaDBDSN", "NFC_MARIADB_DSN"); ("ClickHouseDSN", "NFC_CLICKHOUSE_DSN");
   ("RetentionDays", "NFC_RETENTION_DAYS"); ("KafkaBrokers", "NFC_KAFKA_BROKERS");
   ("KafkaTopic", "NFC_KAFKA_TOPIC"); ("KafkaGroup", "NFC_KAFKA_GROUP");
   ("KafkaTemplateTopic", "NFC_KAFKA_TEMPLATE_TOPIC"); ("PipelineBuffer", "NFC_PIPELINE_BUFFER");
   ("BatchSize", "NFC_BATCH_SIZE"); ("BatchInterval", "NFC_BATCH_INTERVAL"); ("Workers", "NFC_WORKERS");
   ("APIKeys", "NFC_API_KEYS")]%string.

Definition env_names : list text := tx <$> env_tags.*2.

Definition contains (s : string) (l : list string) : bool := bool_decide (s ∈ l).
Definition unset (s : string) : bool := bool_decide (s = ""%string).

(** The flags derived from the lists before validation. *)
Definition derive (c : Config) : Config :=
  let src := contains "kafka" (c_Sources c) in
  let snk := contains "kafka" (c_Sinks c) in
  mkConfig (c_LogLevel c) (c_HTTPAddr c) (c_NetFlowAddr c) (c_Sources c) (c_Sinks c) (c_PostgresDSN c)
    (c_MariaDBDSN c) (c_ClickHouseDSN c) (c_RetentionDays c) (c_KafkaBrokers c) (c_KafkaTopic c)
    (c_KafkaGroup c) (c_KafkaTemplateTopic c) (c_PipelineBuffer c) (c_BatchSize c) (c_BatchInterval c)
    (c_Workers c) (c_APIKeys c)
    (contains "postgres" (c_Sinks c)) (contains "mariadb" (c_Sinks c)) (contains "clickhouse" (c_Sinks c))
    src snk (src || snk || negb (unset (c_KafkaTemplateTopic c))) (contains "netflow" (c_Sources c)).

(** ** Validation *)

Inductive tag :=
| TagRequired | TagRequiredIf | TagOneof (options : list string) | TagMin (n : Z) | TagGt (n : Z)
| TagHostnamePort | TagOther (name : string).

Record FieldError := mkFieldError { fe_Field : text; fe_Tag : tag; fe_Value : string }.

Inductive message :=
| MustBeSet | MustBeOneOf (options : list string) (got : string) | MustBeAtLeast (n : Z) | MustBeGreaterThan (n : Z)
| MustBeHostPort | FailedTag (name : string)
| MustDiffer | CannotBeBoth | InvalidValue (type err : string) | OtherMessage (m : string).

Record VarError := mkVarError { ve_Var : text; ve_Msg : message }.

Definition describe (fe : FieldError) : message :=
  match fe_Tag fe with
  | TagRequired | TagRequiredIf => MustBeSet
  | TagOneof options => MustBeOneOf options (fe_Value fe)
  | TagMin n => MustBeAtLeast n
  | TagGt n => MustBeGreaterThan n
  | TagHostnamePort => MustBeHostPort
  | TagOther name => FailedTag name
  end.

(** [NFC_SINKS[1]] is reported as [NFC_SINKS]. *)
Definition strip_index (name : text) : text :=
  match Cut "["%char name with Some (c :: r, _) => c :: r | _ => name end.

Definition validationError (ves : list FieldError) : list VarError :=
  (fun fe => mkVarError (strip_index (fe_Field fe)) (describe fe)) <$> ves.

Definition rule (name : string) (ok : bool) (t : tag) (value : string) : list FieldError :=
  if ok then [] else [mkFieldError (tx name) t value].

(** [dive]: every element, with its index in the name. *)
Fixpoint dive (name : string) (i : Z) (ok : string -> bool) (t : tag) (l : list string) : list FieldError :=
  match l with
  | [] => []
  | s :: r =>
    (if ok s then [] else [mkFieldError (tx name ++ "["%char :: (print_dec i ++ ["]"%char])) t s])
    ++ dive name (i + 1) ok t r
  end.

Definition levels : list string := ["debug"; "info"; "warn"; "error"]%string.

Section validator.
Context (hostname_port : string -> bool).

Definition validate (c : Config) : list FieldError :=
  rule "NFC_LOG_LEVEL" (contains (c_LogLevel c) levels) (TagOneof levels) (c_LogLevel c)
  ++ rule "NFC_HTTP_ADDR" (unset (c_HTTPAddr c) || hostname_port (c_HTTPAddr c)) TagHostnamePort (c_HTTPAddr c)
  ++ rule "NFC_NETFLOW_ADDR" (unset (c_NetFlowAddr c) || hostname_port (c_NetFlowAddr c)) TagHostnamePort (c_NetFlowAddr c)
  ++ dive "NFC_SOURCES" 0 (fun s => contains s known_sources) (TagOneof known_sources) (c_Sources c)
  ++ dive "NFC_SINKS" 0 (fun s => contains s known_sinks) (TagOneof known_sinks) (c_Sinks c)
  ++ rule "NFC_POSTGRES_DSN" (negb (c_PostgresEnabled c) || negb (unset (c_PostgresDSN c))) TagRequiredIf ""
  ++ rule "NFC_MARIADB_DSN" (negb (c_MariaDBEnabled c) || negb (unset (c_MariaDBDSN c))) TagRequiredIf ""
  ++ rule "NFC_CLICKHOUSE_DSN" (negb (c_ClickHouseEnabled c) || negb (unset (c_ClickHouseDSN c))) TagRequiredIf ""
  ++ rule "NFC_RETENTION_DAYS" (1 <=? c_RetentionDays c) (TagMin 1) ""
  ++ (if c_KafkaEnabled c && bool_decide (c_KafkaBrokers c = [])
      then [mkFieldError (tx "NFC_KAFKA_BROKERS") TagRequiredIf ""]
      else dive "NFC_KAFKA_BROKERS" 0 hostname_port TagHostnamePort (c_KafkaBrokers c))
  ++ rule "NFC_KAFKA_TOPIC" (negb (c_KafkaEnabled c) || negb (unset (c_KafkaTopic c))) TagRequiredIf ""
  ++ rule "NFC_KAFKA_GROUP" (negb (c_KafkaSourceEnabled c) || negb (unset (c_KafkaGroup c))) TagRequiredIf ""
  ++ rule "NFC_PIPELINE_BUFFER" (1 <=? c_PipelineBuffer c) (TagMin 1) ""
  ++ rule "NFC_BATCH_SIZE" (1 <=? c_BatchSize c) (TagMin 1) ""
  ++ rule "NFC_BATCH_INTERVAL" (0 <? c_BatchInterval c) (TagGt 0) ""
  ++ rule "NFC_WORKERS" (1 <=? c_Workers c) (TagMin 1) "".

(** ** Binding errors, [parse], [load] *)

(** What the library reports: an aggregate of errors, or something else. *)
Inductive env_error := ParseError (field type err : string) | OtherError (m : string).
Inductive bind_failure := AggregateError (es : list env_error) | OtherFailure (m : string).

Definition envName (field : string) : string :=
  match List.find (fun ft => bool_decide (ft.1 = field)) env_tags with Some ft => ft.2 | None => field end.

Inductive ConfigError := VarErrors (es : list VarError) | errPlain (m : string) | errLoad (e : LoadError).

Definition bindError (e : bind_failure) : ConfigError :=
  match e with
  | OtherFailure m => errPlain m
  | AggregateError es =>
    VarErrors ((fun e => match e with
      | ParseError f ty err => mkVarError (tx (envName f)) (InvalidValue ty err)
      | OtherError m => mkVarError (tx "?") (OtherMessage m)
      end) <$> es)
  end.

Context (env_bind : vars -> result bind_failure Config).

Definition parse (vs : vars) : result ConfigError Config :=
  match env_bind vs with
  | Err e => Err (bindError e)
  | Ok bound =>
    let cfg := derive bound in
    match validate cfg with
    | (_ :: _) as ves => Err (VarErrors (validationError ves))
    | [] =>
      if negb (unset (c_KafkaTemplateTopic cfg)) && bool_decide (c_KafkaTemplateTopic cfg = c_KafkaTopic cfg)
      then Err (VarErrors [mkVarError (tx "NFC_KAFKA_TEMPLATE_TOPIC") MustDiffer])
      else if c_KafkaSourceEnabled cfg && c_KafkaSinkEnabled cfg
      then Err (VarErrors [mkVarError (tx "NFC_SINKS") CannotBeBoth])
      else Ok cfg
    end
  end.

Definition load (has : path -> bool) (open : path -> option (text * bool)) (wd : path) (environ : list text)
  : result ConfigError Config :=
  match load_vars has open wd environ with
  | Err e => Err (errLoad e)
  | Ok vs => parse vs
  end.

End validator.

(** ** The constructors' view of a configuration *)

(** What [app.New] takes from it. *)
Definition to_app (c : Config) : app_config :=
  mkAppConfig (mkAuthConfig (c_HTTPAddr c) (c_APIKeys c)) (c_Sinks c) (c_Sources c) (c_KafkaTemplateTopic c)
    (mkOptions (c_PipelineBuffer c) (c_BatchSize c) (c_BatchInterval c) (c_Workers c) 0).

(** What the drivers and the cluster of sink [i] answer. *)
Record endpoint := mkEndpoint { en_driver : driver; en_client : bool; en_ping : bool }.

Definition failed {E A} (x : result E A) : option error := match x with Ok _ => None | Err _ => Some [] end.

(** [newSink] *)
Definition new_sink (c : Config) (ends : nat -> endpoint) (i : nat) : option error :=
  match c_Sinks c !! i with
  | None => None
  | Some n =>
    if bool_decide (n = "postgres"%string) then failed (fst (pg_New (en_driver (ends i))))
    else if bool_decide (n = "mariadb"%string) then failed (fst (my_New (en_driver (ends i))))
    else if bool_decide (n = "clickhouse"%string) then failed (fst (ch_New (en_driver (ends i))))
    else if bool_decide (n = "kafka"%string)
    then failed (KafkaSink.New (c_KafkaBrokers c) (c_KafkaTopic c) (en_client (ends i)) (en_ping (ends i)))
    else Some [ErrConfig]
  end.

(** [newSource]: [New] of [source/netflow] and of [source/kafka]. *)
Definition new_source (c : Config) (n : string) : bool :=
  if bool_decide (n = "netflow"%string) then negb (unset (c_NetFlowAddr c))
  else if bool_decide (n = "kafka"%string)
  then negb (bool_decide (c_KafkaBrokers c = []) || unset (c_KafkaTopic c) || unset (c_KafkaGroup c))
  else false.

(** The template store. *)
Definition new_store (c : Config) (k : cluster) : bool :=
  is_ok (fst (NewKafka (c_KafkaBrokers c) (c_KafkaTemplateTopic c) k)).

Definition boot_outcomes (c : Config) (ends : nat -> endpoint) (k : cluster) : outcomes :=
  mkOutcomes (new_sink c ends) (new_store c k) (new_source c).
