(* ===== verification/ConfigThms.v ===== *)
(** * Properties of the configuration *)

From S2P Require Import Prelude GoTime Netip Flow Text Strings Api Pipeline DotEnv Backends KafkaSink App Config.

Open Scope char_scope.
Open Scope Z_scope.

(** ** What the rules mean *)

Section accepted.
Context (hostname_port : string -> bool).

(** The documented constraints on a bound configuration, flags derived. *)
Record accepted (c : Config) : Prop := {
  ac_level : c_LogLevel c ∈ levels;
  ac_http : c_HTTPAddr c = ""%string \/ hostname_port (c_HTTPAddr c) = true;
  ac_netflow : c_NetFlowAddr c = ""%string \/ hostname_port (c_NetFlowAddr c) = true;
  ac_sources : Forall (fun s => s ∈ known_sources) (c_Sources c);
  ac_sinks : Forall (fun s => s ∈ known_sinks) (c_Sinks c);
  ac_postgres : "postgres"%string ∈ c_Sinks c -> c_PostgresDSN c <> ""%string;
  ac_mariadb : "mariadb"%string ∈ c_Sinks c -> c_MariaDBDSN c <> ""%string;
  ac_clickhouse : "clickhouse"%string ∈ c_Sinks c -> c_ClickHouseDSN c <> ""%string;
  ac_retention : 1 <= c_RetentionDays c;
  ac_hosts : Forall (fun s => hostname_port s = true) (c_KafkaBrokers c);
  ac_kafka : "kafka"%string ∈ c_Sources c \/ "kafka"%string ∈ c_Sinks c \/ c_KafkaTemplateTopic c <> ""%string ->
    c_KafkaBrokers c <> [] /\ c_KafkaTopic c <> ""%string;
  ac_group : "kafka"%string ∈ c_Sources c -> c_KafkaGroup c <> ""%string;
  ac_buffer : 1 <= c_PipelineBuffer c;
  ac_batch : 1 <= c_BatchSize c;
  ac_interval : 0 < c_BatchInterval c;
  ac_workers : 1 <= c_Workers c;
  ac_topics : c_KafkaTemplateTopic c = ""%string \/ c_KafkaTemplateTopic c <> c_KafkaTopic c;
  ac_loop : ~ ("kafka"%string ∈ c_Sources c /\ "kafka"%string ∈ c_Sinks c)
}.

Lemma app_nil_iff {A} (l k : list A) : l ++ k = [] <-> l = [] /\ k = [].
Proof. split; [apply app_eq_nil|by intros [-> ->]]. Qed.

Lemma rule_nil name ok t v : rule name ok t v = [] <-> ok = true.
Proof. by destruct ok. Qed.

Lemma dive_nil name i ok t l : dive name i ok t l = [] <-> Forall (fun s => ok s = true) l.
Proof.
  revert i. induction l as [|s l IH]; intros i; simpl; [done|].
  rewrite app_nil_iff, Forall_cons, IH. destruct (ok s); intuition congruence.
Qed.

Lemma contains_true s l : contains s l = true <-> s ∈ l.
Proof. apply bool_decide_eq_true. Qed.
Lemma contains_false s l : contains s l = false <-> s ∉ l.
Proof. apply bool_decide_eq_false. Qed.
Lemma unset_true s : unset s = true <-> s = ""%string.
Proof. apply bool_decide_eq_true. Qed.
Lemma unset_false s : unset s = false <-> s <> ""%string.
Proof. apply bool_decide_eq_false. Qed.

(** A conditional rule: a flag asks for a value. *)
Lemma required_iff (P : Prop) b s : (b = true <-> P) -> (negb b || negb (unset s) = true <-> (P -> s <> ""%string)).
Proof. rewrite <- unset_false. destruct b, (unset s); simpl; intuition congruence. Qed.

Lemma omitempty_iff s b : unset s || b = true <-> s = ""%string \/ b = true.
Proof. by rewrite orb_true_iff, unset_true. Qed.

Lemma kafka_flag a b s :
  contains "kafka" a || contains "kafka" b || negb (unset s) = true <->
  "kafka"%string ∈ a \/ "kafka"%string ∈ b \/ s <> ""%string.
Proof. rewrite !orb_true_iff, !contains_true, negb_true_iff, unset_false. tauto. Qed.

Lemma brokers_nil (e : bool) (P : Prop) l n :
  (e = true <-> P) ->
  (if e && bool_decide (l = []) then [mkFieldError (tx n) TagRequiredIf ""] else dive n 0 hostname_port TagHostnamePort l) = []
  <-> (P -> l <> []) /\ Forall (fun s => hostname_port s = true) l.
Proof.
  intros He. case_bool_decide as E; [subst l; destruct e; simpl|rewrite andb_false_r, dive_nil; tauto].
  - split; [done|]. intros [H _]. by destruct H; [apply He|].
  - split; [|done]. intros _. split; [|constructor]. by intros ?%He.
Qed.

Definition cross_checks (c : Config) : Prop :=
  (c_KafkaTemplateTopic c = ""%string \/ c_KafkaTemplateTopic c <> c_KafkaTopic c) /\
  ~ ("kafka"%string ∈ c_Sources c /\ "kafka"%string ∈ c_Sinks c).

Lemma validate_accepts c : accepted c <-> validate hostname_port (derive c) = [] /\ cross_checks c.
Proof.
  unfold validate. rewrite !app_nil_iff, !rule_nil, !dive_nil. unfold derive.
  cbn [c_LogLevel c_HTTPAddr c_NetFlowAddr c_Sources c_Sinks c_PostgresDSN c_MariaDBDSN c_ClickHouseDSN
    c_RetentionDays c_KafkaBrokers c_KafkaTopic c_KafkaGroup c_KafkaTemplateTopic c_PipelineBuffer c_BatchSize
    c_BatchInterval c_Workers c_PostgresEnabled c_MariaDBEnabled c_ClickHouseEnabled c_KafkaSourceEnabled
    c_KafkaSinkEnabled c_KafkaEnabled].
  rewrite (brokers_nil _ _ _ _ (kafka_flag _ _ _)), (required_iff _ _ (c_KafkaTopic c) (kafka_flag _ _ _)).
  rewrite !(required_iff _ _ _ (contains_true _ _)), !omitempty_iff, contains_true, !Z.leb_le, Z.ltb_lt.
  assert (Hf : forall k l, Forall (fun s => contains s k = true) l <-> Forall (fun s => s ∈ k) l)
    by (intros k l; rewrite !Forall_forall; by setoid_rewrite contains_true).
  rewrite !Hf. unfold cross_checks. split.
  - intros []. tauto.
  - intros H. destruct_and! H. constructor; tauto.
Qed.

Lemma strip_index_dive name i : "["%char ∉ tx name -> tx name <> [] ->
  strip_index (tx name ++ "["%char :: i) = tx name.
Proof. intros Hn Hne. unfold strip_index. rewrite Cut_some by done. by destruct (tx name). Qed.

Lemma Cut_none c s : c ∉ s -> Cut c s = None.
Proof.
  induction s as [|x s IH]; [done|]. rewrite not_elem_of_cons. intros [Hx Hs]. simpl.
  by rewrite bool_decide_eq_false_2, IH.
Qed.

(** The errors of a field name its variable. *)
Definition names (name : string) (ves : list FieldError) : Prop :=
  Forall (fun fe => strip_index (fe_Field fe) = tx name) ves.

Lemma rule_names name ok t v : "["%char ∉ tx name -> names name (rule name ok t v).
Proof.
  intros Hn. unfold rule. destruct ok; repeat constructor. unfold strip_index. simpl. by rewrite Cut_none.
Qed.

Lemma dive_names name i ok t l : "["%char ∉ tx name -> tx name <> [] -> names name (dive name i ok t l).
Proof.
  intros Hn Hne. revert i. induction l as [|s l IH]; intros i; [constructor|]. simpl. apply Forall_app.
  split; [|apply IH]. destruct (ok s); repeat constructor. by apply strip_index_dive.
Qed.

(** The constraint each variable documents, in the order of the fields, stated
    of a bound configuration. *)
Definition documented (c : Config) : list (string * Prop) :=
  let kafka := "kafka"%string ∈ c_Sources c \/ "kafka"%string ∈ c_Sinks c \/ c_KafkaTemplateTopic c <> ""%string in
  [("NFC_LOG_LEVEL", c_LogLevel c ∈ levels);
   ("NFC_HTTP_ADDR", c_HTTPAddr c = "" \/ hostname_port (c_HTTPAddr c) = true);
   ("NFC_NETFLOW_ADDR", c_NetFlowAddr c = "" \/ hostname_port (c_NetFlowAddr c) = true);
   ("NFC_SOURCES", Forall (fun s => s ∈ known_sources) (c_Sources c));
   ("NFC_SINKS", Forall (fun s => s ∈ known_sinks) (c_Sinks c));
   ("NFC_POSTGRES_DSN", "postgres" ∈ c_Sinks c -> c_PostgresDSN c <> "");
   ("NFC_MARIADB_DSN", "mariadb" ∈ c_Sinks c -> c_MariaDBDSN c <> "");
   ("NFC_CLICKHOUSE_DSN", "clickhouse" ∈ c_Sinks c -> c_ClickHouseDSN c <> "");
   ("NFC_RETENTION_DAYS", 1 <= c_RetentionDays c);
   ("NFC_KAFKA_BROKERS", (kafka -> c_KafkaBrokers c <> []) /\ Forall (fun s => hostname_port s = true) (c_KafkaBrokers c));
   ("NFC_KAFKA_TOPIC", kafka -> c_KafkaTopic c <> "");
   ("NFC_KAFKA_GROUP", "kafka" ∈ c_Sources c -> c_KafkaGroup c <> "");
   ("NFC_PIPELINE_BUFFER", 1 <= c_PipelineBuffer c);
   ("NFC_BATCH_SIZE", 1 <= c_BatchSize c);
   ("NFC_BATCH_INTERVAL", 0 < c_BatchInterval c);
   ("NFC_WORKERS", 1 <= c_Workers c)]%string.

(** Variable [v] breaks its constraint. *)
Definition violates (c : Config) (v : text) : Prop :=
  exists n P, (n, P) ∈ documented c /\ ~ P /\ v = tx n.

(** The variables an error has to name: those that break their own constraint;
    when none does, the template topic if it is the topic, and otherwise the
    sinks if kafka is on both sides. *)
Definition blamed (c : Config) (v : text) : Prop :=
  violates c v \/
  (forall u, ~ violates c u) /\
  let clash := c_KafkaTemplateTopic c <> ""%string /\ c_KafkaTemplateTopic c = c_KafkaTopic c in
  (clash /\ v = tx "NFC_KAFKA_TEMPLATE_TOPIC" \/
   ~ clash /\ ("kafka"%string ∈ c_Sources c /\ "kafka"%string ∈ c_Sinks c) /\ v = tx "NFC_SINKS").

(** The errors of one field: none exactly when its constraint holds, and all
    with its name. *)
Definition field_errors (d : string * Prop) (ves : list FieldError) : Prop := (ves = [] <-> d.2) /\ names d.1 ves.

Lemma field_errors_name ds blocks v :
  Forall2 field_errors ds blocks ->
  (exists fe, fe ∈ concat blocks /\ strip_index (fe_Field fe) = v) <-> exists n P, (n, P) ∈ ds /\ ~ P /\ v = tx n.
Proof.
  induction 1 as [|[n P] ves ds blocks [Hn Hv] _ IH]; simpl in *.
  - split; [intros (? & ?%elem_of_nil & _)|intros (? & ? & ?%elem_of_nil & _)]; done.
  - split.
    + intros (fe & [Hin|Hin]%elem_of_app & <-).
      * exists n, P. split; [by left|]. split; [|exact (proj1 (Forall_forall _ _) Hv fe Hin)].
        intros HP%Hn. rewrite HP in Hin. by apply elem_of_nil in Hin.
      * destruct (proj1 IH) as (m & Q & Hm & HQ & E); [by eauto|]. exists m, Q. split; [by right|done].
    + intros (m & Q & [Hm|Hm]%elem_of_cons & HQ & ->).
      * injection Hm as -> ->. destruct ves as [|fe ves]; [by destruct HQ; apply Hn|].
        exists fe. split; [apply elem_of_app; left; by left|]. by inversion Hv.
      * destruct (proj2 IH) as (fe & Hin & E); [by eauto|]. exists fe. split; [apply elem_of_app; by right|done].
Qed.

Lemma field_errors_none ds blocks : Forall2 field_errors ds blocks -> concat blocks = [] <-> Forall snd ds.
Proof.
  induction 1 as [|[n P] ves ds blocks [Hn _] _ IH]; simpl in *; [done|]. by rewrite app_nil_iff, Forall_cons, Hn, IH.
Qed.

Lemma rule_field n ok (P : Prop) t v : "["%char ∉ tx n -> (ok = true <-> P) -> field_errors (n, P) (rule n ok t v).
Proof. intros Hn HP. split; [by rewrite rule_nil|by apply rule_names]. Qed.

Lemma dive_field n ok (P : string -> Prop) t l :
  "["%char ∉ tx n -> tx n <> [] -> (forall s, ok s = true <-> P s) -> field_errors (n, Forall P l) (dive n 0 ok t l).
Proof.
  intros Hn Hne HP. split; [|by apply dive_names]. rewrite dive_nil, !Forall_forall. by setoid_rewrite HP.
Qed.

Lemma brokers_field n e (P : Prop) l : "["%char ∉ tx n -> tx n <> [] -> (e = true <-> P) ->
  field_errors (n, (P -> l <> []) /\ Forall (fun s => hostname_port s = true) l)
    (if e && bool_decide (l = []) then [mkFieldError (tx n) TagRequiredIf ""] else dive n 0 hostname_port TagHostnamePort l).
Proof.
  intros Hn Hne He. split; [by apply brokers_nil|]. cbn [fst]. destruct (e && _); [|by apply dive_names].
  repeat constructor. unfold strip_index. cbn [fe_Field]. by rewrite Cut_none.
Qed.

(** Finds the lemma of a field by the shape of its rule. *)
Ltac field_ok Nb :=
  lazymatch goal with
  | |- field_errors _ (dive _ _ _ _ _) => apply dive_field; [by apply Nb|done|intros ?; apply contains_true]
  | |- field_errors _ (rule _ (contains _ _) _ _) => apply rule_field; [by apply Nb|apply contains_true]
  | |- field_errors _ (rule _ (unset _ || _) _ _) => apply rule_field; [by apply Nb|apply omitempty_iff]
  | |- field_errors _ (rule _ (_ <=? _) _ _) => apply rule_field; [by apply Nb|apply Z.leb_le]
  | |- field_errors _ (rule _ (_ <? _) _ _) => apply rule_field; [by apply Nb|apply Z.ltb_lt]
  | |- field_errors _ (rule _ (negb (contains _ _) || _) _ _) =>
    apply rule_field; [by apply Nb|apply required_iff, contains_true]
  | |- field_errors _ (rule _ _ _ _) => apply rule_field; [by apply Nb|apply required_iff, kafka_flag]
  | |- field_errors _ (if _ then _ else _) => apply brokers_field; [by apply Nb|done|apply kafka_flag]
  end.

Lemma validate_fields c :
  exists blocks, validate hostname_port (derive c) = concat blocks /\ Forall2 field_errors (documented c) blocks.
Proof.
  assert (Nb : forall n, bool_decide ("["%char ∈ tx n) = false -> "["%char ∉ tx n) by (intros n; apply bool_decide_eq_false).
  unfold validate. eexists [_; _; _; _; _; _; _; _; _; _; _; _; _; _; _; _].
  split; [cbn [concat]; rewrite app_nil_r; reflexivity|]. unfold documented, derive.
  cbn [c_LogLevel c_HTTPAddr c_NetFlowAddr c_Sources c_Sinks c_PostgresDSN c_MariaDBDSN c_ClickHouseDSN
    c_RetentionDays c_KafkaBrokers c_KafkaTopic c_KafkaGroup c_KafkaTemplateTopic c_PipelineBuffer c_BatchSize
    c_BatchInterval c_Workers c_PostgresEnabled c_MariaDBEnabled c_ClickHouseEnabled c_KafkaSourceEnabled
    c_KafkaSinkEnabled c_KafkaEnabled].
  repeat (apply List.Forall2_cons; [field_ok Nb|]); apply List.Forall2_nil.
Qed.

End accepted.

(** The variables of the errors of [validate]. *)
Lemma validate_blames hostname_port c v :
  (exists e, e ∈ validationError (validate hostname_port (derive c)) /\ ve_Var e = v) <-> violates hostname_port c v.
Proof.
  destruct (validate_fields hostname_port c) as (blocks & -> & Hb). unfold violates.
  rewrite <- (field_errors_name _ _ v Hb). unfold validationError. split.
  - intros (e & (fe & -> & Hin)%list_elem_of_fmap & <-). by exists fe.
  - intros (fe & Hin & <-). eexists. split; [by apply list_elem_of_fmap_2, Hin|done].
Qed.

Lemma validate_none hostname_port c : validate hostname_port (derive c) = [] -> forall u, ~ violates hostname_port c u.
Proof. intros H u (e & He & _)%validate_blames. rewrite H in He. by apply elem_of_nil in He. Qed.

Lemma blamed_cross hostname_port c v :
  validate hostname_port (derive c) = [] ->
  blamed hostname_port c v <->
  let clash := c_KafkaTemplateTopic c <> ""%string /\ c_KafkaTemplateTopic c = c_KafkaTopic c in
  clash /\ v = tx "NFC_KAFKA_TEMPLATE_TOPIC" \/
  ~ clash /\ ("kafka"%string ∈ c_Sources c /\ "kafka"%string ∈ c_Sinks c) /\ v = tx "NFC_SINKS".
Proof.
  intros H. pose proof (validate_none _ _ H) as Hn. unfold blamed. split.
  - intros [Hv|[_ Hv]]; [by destruct (Hn v)|exact Hv].
  - intros Hv. by right.
Qed.

Lemma one_error v m u : (exists e, e ∈ [mkVarError v m] /\ ve_Var e = u) <-> u = v.
Proof.
  split; [by intros (e & ->%list_elem_of_singleton & <-)|]. intros ->.
  eexists. split; [by apply list_elem_of_singleton|done].
Qed.

Lemma parse_cases hostname_port env_bind vs c :
  env_bind vs = Ok c ->
  (parse hostname_port env_bind vs = Ok (derive c) <-> accepted hostname_port c) /\
  (accepted hostname_port c \/
   exists es, parse hostname_port env_bind vs = Err (VarErrors es) /\ es <> [] /\
     forall v, (exists e, e ∈ es /\ ve_Var e = v) <-> blamed hostname_port c v).
Proof.
  intros E. unfold parse. rewrite E, validate_accepts. unfold cross_checks.
  pose proof (validate_blames hostname_port c) as Hb. pose proof (blamed_cross hostname_port c) as Hx.
  destruct (validate hostname_port (derive c)) as [|fe ves].
  - specialize (fun v => Hx v eq_refl). clear Hb. cbv zeta in Hx. rewrite <- !contains_true, <- unset_true.
    setoid_rewrite <- contains_true in Hx. setoid_rewrite <- unset_false in Hx.
    cbn [derive c_KafkaTemplateTopic c_KafkaTopic c_KafkaSourceEnabled c_KafkaSinkEnabled].
    destruct (unset (c_KafkaTemplateTopic c)) eqn:Eu; cbn [negb andb]; [|case_bool_decide as Et];
      try (destruct (contains "kafka" (c_Sources c)) eqn:Es, (contains "kafka" (c_Sinks c)) eqn:Ek; cbn [andb]);
      (split; [intuition congruence|]);
      first [left; intuition congruence
            | right; eexists; (split; [reflexivity|split; [done|]]); intros v; rewrite one_error, Hx; intuition congruence].
  - split; [split; [discriminate|by intros [? _]]|]. right. eexists. split; [done|]. split; [done|].
    intros v. rewrite Hb. unfold blamed. split; [by left|]. intros [Hv|[Hv _]]; [done|].
    destruct (Hv (strip_index (fe_Field fe))). apply Hb. eexists. split; [by left|done].
Qed.

(** The error a failed binding of one field is turned into. *)
Definition bind_reported (e : env_error) (ve : VarError) : Prop :=
  match e with
  | ParseError f ty err => (forall n, (f, n) ∈ env_tags -> ve_Var ve = tx n) /\ ve_Msg ve = InvalidValue ty err
  | OtherError m => ve = mkVarError (tx "?") (OtherMessage m)
  end.

Lemma envName_tag f n : (f, n) ∈ env_tags -> envName f = n.
Proof.
  intros H. assert (Hall : Forall (fun ft => envName ft.1 = ft.2) env_tags) by (repeat constructor).
  exact (proj1 (Forall_forall _ _) Hall (f, n) H).
Qed.

(** C31. [parse] on every outcome of the binding. When the [env] library bound
    a configuration, [parse] returns it, with its flags derived, exactly when
    all documented constraints hold; otherwise it returns a non-empty list of
    errors, and the variables these name are exactly the ones to fix: every
    NFC_ variable whose own constraint is broken and no other (an element of a
    list by the list's variable), or, when each variable is fine by itself, the
    template topic if it equals the topic and otherwise the sinks if kafka is on
    both sides. When the library reports errors of fields, there is one error
    for each, in order, that names the variable of the field's [env] tag (an
    error of another type is reported under the name "?"); when it fails
    otherwise, that failure is returned. *)
Theorem parse_exact hostname_port env_bind vs :
  match env_bind vs with
  | Ok c =>
    (parse hostname_port env_bind vs = Ok (derive c) <-> accepted hostname_port c) /\
    (accepted hostname_port c \/
     exists es, parse hostname_port env_bind vs = Err (VarErrors es) /\ es <> [] /\
       forall v, (exists e, e ∈ es /\ ve_Var e = v) <-> blamed hostname_port c v)
  | Err (AggregateError bs) =>
    exists es, parse hostname_port env_bind vs = Err (VarErrors es) /\ Forall2 bind_reported bs es
  | Err (OtherFailure m) => parse hostname_port env_bind vs = Err (errPlain m)
  end.
Proof.
  destruct (env_bind vs) as [c|[bs|m]] eqn:E; [by apply parse_cases| |]; unfold parse; rewrite E; [|done].
  eexists. split; [reflexivity|]. apply Forall2_fmap_r, Forall_Forall2_diag, Forall_forall.
  intros [f ty err|m] _; [|done]. split; [|done]. intros n <-%envName_tag. done.
Qed.

Definition sample_config : Config :=
  (mkConfig "info" ":8080" ":2055" ["netflow"] ["postgres"; "kafka"] "postgres://db" "" "" 30
    ["kafka-1:9092"] "flows" "" "" 65536 2000 Second 4 [tx "key"]
    false false false false false false false)%string.

Definition bad_config : Config :=
  (mkConfig "loud" "" "" ["netflow"; "udp"] [] "" "" "" 0 [] "" "" "" 1 1 1 0 []
    false false false false false false false)%string.

Lemma parse_exact_witness :
  exists es, parse (fun _ => true) (fun _ => Ok bad_config) ∅ = Err (VarErrors es) /\
  es = [mkVarError (tx "NFC_LOG_LEVEL") (MustBeOneOf levels "loud");
        mkVarError (tx "NFC_SOURCES") (MustBeOneOf known_sources "udp");
        mkVarError (tx "NFC_RETENTION_DAYS") (MustBeAtLeast 1);
        mkVarError (tx "NFC_WORKERS") (MustBeAtLeast 1)] /\
  (forall v, (exists e, e ∈ es /\ ve_Var e = v) <-> blamed (fun _ => true) bad_config v) /\
  exists l, parse (fun _ => true) (fun _ => Err (AggregateError [ParseError "Workers" "int" "syntax"; OtherError "x"])) ∅
            = Err (VarErrors l) /\ ve_Var <$> l = [tx "NFC_WORKERS"; tx "?"].
Proof.
  destruct (parse_exact (fun _ => true) (fun _ => Ok bad_config) ∅) as [_ [[]|(es & E & _ & Hn)]].
  - vm_compute in ac_retention0. congruence.
  - exists es. split; [exact E|]. split; [|split; [exact Hn|]]; [vm_compute in E; injection E as <-; reflexivity|].
    destruct (parse_exact (fun _ => true)
      (fun _ => Err (AggregateError [ParseError "Workers" "int" "syntax"; OtherError "x"])) ∅) as (l & El & H).
    exists l. split; [exact El|]. apply Forall2_cons_inv_l in H as (e1 & l1 & [H1 _] & H2 & ->).
    apply Forall2_cons_inv_l in H2 as (e2 & l2 & H3 & ->%Forall2_nil_inv_l & ->). simpl in H3. subst e2. simpl.
    by rewrite (H1 "NFC_WORKERS"%string ltac:(apply (bool_decide_unpack _); reflexivity)).
Defined.

(** ** Booting an accepted configuration *)

Lemma build_sinks_ok o i names a :
  (forall j n, names !! j = Some n -> newSink o (i + j) = None) ->
  exists a', build_sinks o i names a = (a', None) /\
    dom (a_sinks a') = dom (a_sinks a) ∪ list_to_set names.
Proof.
  revert i a. induction names as [|n names IH]; intros i a H; simpl.
  - exists a. split; [done|]. set_solver.
  - pose proof (H 0%nat n eq_refl) as H0. rewrite Nat.add_0_r in H0. rewrite H0.
    destruct (IH (S i) (add_sink n i a)) as (a' & -> & Hd).
    + intros j m Hj. rewrite Nat.add_succ_l, <- Nat.add_succ_r. by apply (H (S j) m).
    + exists a'. split; [done|]. rewrite Hd. cbn [add_sink a_sinks]. rewrite dom_insert_L. set_solver.
Qed.

Lemma build_sources_ok o names a :
  if forallb (newSource o) names
  then exists a', build_sources o names a = (a', None) /\ a_sinks a' = a_sinks a
  else exists a', build_sources o names a = (a', Some [ErrConfig]).
Proof.
  revert a. induction names as [|n names IH]; intros a; simpl; [by exists a|].
  destruct (newSource o n); simpl; [|eauto]. exact (IH (add_source n a)).
Qed.

(** The names of a non-empty set of sinks. *)
Lemma sinks_nonempty (m : gmap string nat) : (map_to_list m).*1 = [] <-> dom m = ∅.
Proof.
  rewrite dom_empty_iff_L. split; [|intros ->; by rewrite map_to_list_empty].
  intros H. apply fmap_nil_inv in H. by apply map_to_list_empty_iff.
Qed.

Lemma CheckNames_ok hostname_port c :
  accepted hostname_port c -> CheckConfig (cfg_auth (to_app (derive c))) = None -> CheckNames (to_app (derive c)) = None.
Proof.
  intros Hc Ha. unfold CheckNames. rewrite Ha. cbn [to_app derive cfg_Sinks cfg_Sources c_Sinks c_Sources].
  assert (Hf : forall k l : list string, Forall (fun s => s ∈ k) l -> forallb (fun s => bool_decide (s ∈ k)) l = true).
  { intros k l H. apply forallb_forall. intros s Hs%list_elem_of_In. apply bool_decide_eq_true.
    exact (proj1 (Forall_forall _ _) H s Hs). }
  by rewrite (Hf _ _ (ac_sinks _ _ Hc)), (Hf _ _ (ac_sources _ _ Hc)).
Qed.

(** The guards of the constructors never fire on an accepted configuration,
    but for the listener's address. *)
Record endpoint_ok (n : string) (e : endpoint) : Prop := {
  eo_parsed : exists o, d_parsed (en_driver e) = Some o /\
    (n = "mariadb"%string -> ParseTime o = true /\ Loc o = Some "UTC"%string);
  eo_open : d_open (en_driver e) = true;
  eo_up : d_ping (en_driver e) = true;
  eo_client : en_client e = true;
  eo_ping : en_ping e = true
}.

Definition cluster_ok (k : cluster) : Prop :=
  k_client k = true /\ k_ping k = true /\ ensureCompacted (k_err k) (k_resp k) = None.

(** Every server can be reached, and the drivers take their DSNs. *)
Definition reachable (c : Config) (ends : nat -> endpoint) (k : cluster) : Prop :=
  (forall i n, c_Sinks c !! i = Some n -> endpoint_ok n (ends i)) /\ cluster_ok k.

Lemma new_sink_ok hp c ends k i : accepted hp c -> reachable (derive c) ends k -> new_sink (derive c) ends i = None.
Proof.
  intros Hc [Hu _]. specialize (Hu i). unfold new_sink. cbn [derive c_Sinks c_KafkaBrokers c_KafkaTopic] in *.
  destruct (c_Sinks c !! i) as [n|] eqn:E; [|done]. apply list_elem_of_lookup_2 in E.
  destruct (Hu n eq_refl) as [(o & Hp & Hm) Ho Hg Hk Hq].
  pose proof (proj1 (Forall_forall _ _) (ac_sinks _ _ Hc) n E) as Hn. cbv beta in Hn. unfold known_sinks in Hn.
  rewrite !elem_of_cons in Hn. destruct Hn as [->|[->|[->|[->|Hn%elem_of_nil]]]]; [..|done].
  - unfold pg_New. by rewrite Ho, Hg.
  - destruct (Hm eq_refl) as [H1 H2]. unfold my_New. cbn. by rewrite Hp, H1, H2, Ho, Hg.
  - unfold ch_New. cbn. by rewrite Hp, Ho, Hg.
  - destruct (ac_kafka _ _ Hc) as [Hb Ht]; [tauto|]. unfold KafkaSink.New.
    by rewrite Hk, Hq, (bool_decide_eq_false_2 (c_KafkaBrokers c = [])), (bool_decide_eq_false_2 (c_KafkaTopic c = _)).
Qed.

Lemma new_store_ok c k : c_KafkaBrokers c <> [] -> c_KafkaTemplateTopic c <> ""%string -> cluster_ok k -> new_store c k = true.
Proof.
  intros Hb Ht (H1 & H2 & H3). unfold new_store, NewKafka. by rewrite !bool_decide_eq_false_2, H1, H2, H3.
Qed.

Lemma new_source_ok hp c : accepted hp c ->
  forallb (new_source (derive c)) (c_Sources c) = true <->
  ("netflow"%string ∈ c_Sources c -> c_NetFlowAddr c <> ""%string).
Proof.
  intros Hc. rewrite forallb_forall. split.
  - intros H Hn%list_elem_of_In. specialize (H _ Hn). unfold new_source in H.
    rewrite bool_decide_eq_true_2, negb_true_iff, unset_false in H by done. done.
  - intros H n Hn%list_elem_of_In. unfold new_source.
    cbn [derive c_NetFlowAddr c_KafkaBrokers c_KafkaTopic c_KafkaGroup].
    pose proof (proj1 (Forall_forall _ _) (ac_sources _ _ Hc) n Hn) as Hk. cbv beta in Hk.
    unfold known_sources in Hk. rewrite !elem_of_cons in Hk. destruct Hk as [->|[->|Hk%elem_of_nil]]; [| |done].
    + rewrite bool_decide_eq_true_2, negb_true_iff, unset_false by done. by apply H.
    + rewrite bool_decide_eq_false_2, bool_decide_eq_true_2 by done.
      destruct (ac_kafka _ _ Hc) as [Hb Ht]; [tauto|]. pose proof (ac_group _ _ Hc Hn) as Hg.
      apply unset_false in Ht, Hg. by rewrite bool_decide_eq_false_2, Ht, Hg.
Qed.

Lemma new_options_ok hp c ss : accepted hp c ->
  is_ok (Pipeline.New (cfg_Options (to_app (derive c))) ss) = negb (bool_decide (ss = [])).
Proof.
  intros []. unfold Pipeline.New. cbn [to_app derive cfg_Options BufferSize BatchSize BatchInterval Workers WriteTimeout
    c_PipelineBuffer c_BatchSize c_BatchInterval c_Workers].
  replace (c_PipelineBuffer c <? 1) with false by lia. replace (c_BatchSize c <? 1) with false by lia.
  replace (c_BatchInterval c <=? 0) with false by lia. replace (c_Workers c <? 1) with false by lia. by destruct ss.
Qed.

Definition bootable (c : Config) : Prop :=
  c_Sinks c <> [] /\ ("netflow"%string ∈ c_Sources c -> c_NetFlowAddr c <> ""%string).

Lemma parse_ok_inv hp env_bind vs c : parse hp env_bind vs = Ok c -> exists c0, accepted hp c0 /\ c = derive c0.
Proof.
  intros Hp. destruct (env_bind vs) as [c0|] eqn:E; [|unfold parse in Hp; by rewrite E in Hp].
  destruct (parse_cases hp env_bind vs c0 E) as [H1 [Ha|(es & He & _)]]; [|congruence].
  exists c0. split; [done|]. apply H1 in Ha. congruence.
Qed.

Lemma bootable_bool hp c : accepted hp c ->
  negb (bool_decide (c_Sinks c = [])) && forallb (new_source (derive c)) (c_Sources c) = true <-> bootable (derive c).
Proof.
  intros Hc. rewrite andb_true_iff, (new_source_ok hp c Hc), negb_true_iff, bool_decide_eq_false. done.
Qed.

Lemma NewApp_accepted hp c ends k :
  accepted hp c -> CheckConfig (cfg_auth (to_app (derive c))) = None -> reachable (derive c) ends k ->
  snd (NewApp (boot_outcomes (derive c) ends k) (to_app (derive c))) =
  if negb (bool_decide (c_Sinks c = [])) && forallb (new_source (derive c)) (c_Sources c) then None else Some [ErrConfig].
Proof.
  intros Hc Ha Hu. unfold NewApp. rewrite (CheckNames_ok hp c Hc Ha). cbn [to_app cfg_Sinks cfg_Sources cfg_TemplateTopic].
  destruct (build_sinks_ok (boot_outcomes (derive c) ends k) 0 (c_Sinks (derive c)) app0) as (a & -> & Hd).
  { intros j n _. by apply (new_sink_ok hp _ _ k). }
  assert (Hst : negb (bool_decide (c_KafkaTemplateTopic (derive c) = ""%string)) && NetFlowEnabled (to_app (derive c))
    && negb (newStore (boot_outcomes (derive c) ends k)) = false).
  { cbn [boot_outcomes newStore]. case_bool_decide as Et; [done|]. destruct (ac_kafka _ _ Hc) as [Hb _]; [tauto|].
    rewrite new_store_ok; [by rewrite andb_false_r|done|done|apply Hu]. }
  rewrite Hst. pose proof (build_sources_ok (boot_outcomes (derive c) ends k) (c_Sources (derive c))
    (if negb (bool_decide (c_KafkaTemplateTopic (derive c) = ""%string)) && NetFlowEnabled (to_app (derive c))
     then set_templates a else a)) as Hb.
  cbn [boot_outcomes newSource] in Hb. change (c_Sources (derive c)) with (c_Sources c) in *.
  destruct (forallb (new_source (derive c)) (c_Sources c)); destruct Hb as (a' & Hb); [destruct Hb as [-> Hs]|rewrite Hb];
    [|by rewrite andb_false_r].
  rewrite andb_true_r. pose proof (new_options_ok hp c (map_to_list (a_sinks a')).*1 Hc) as Ho.
  assert (He : (map_to_list (a_sinks a')).*1 = [] <-> c_Sinks c = []).
  { assert (Hs' : a_sinks a' = a_sinks a) by (rewrite Hs; by case_match).
    rewrite sinks_nonempty, Hs', Hd. cbn [app0 a_sinks derive c_Sinks]. rewrite dom_empty_L.
    split; [|intros ->; set_solver]. destruct (c_Sinks c) as [|x l]; [done|]. set_solver. }
  rewrite (bool_decide_ext _ _ He) in Ho. destruct (bool_decide (c_Sinks c = [])), (Pipeline.New _ _); done.
Qed.

(** C30. What -validate-config promises. When the configuration loads and the
    API keys pass, -validate-config exits 0; with every server reachable and
    every DSN fit for its driver (MariaDB's with parseTime and UTC) the
    collector then starts exactly when at least one sink is named and the
    NetFlow source, if named, has an address; otherwise it refuses the
    configuration it has just declared valid, with exit code 2. No other guard
    of any constructor can fire. *)
Theorem validated_config_boots hp env_bind vs c ends k :
  parse hp env_bind vs = Ok c -> CheckConfig (cfg_auth (to_app c)) = None -> reachable c ends k ->
  (forall dumped probe app,
    main_run (Args false true false false) (CheckNames (to_app c)) dumped probe app = exitOK) /\
  (snd (NewApp (boot_outcomes c ends k) (to_app c)) = None <-> bootable c) /\
  (~ bootable c -> exit_code (snd (NewApp (boot_outcomes c ends k) (to_app c))) = exitConfig).
Proof.
  intros Hp Ha Hu. destruct (parse_ok_inv _ _ _ _ Hp) as (c0 & Hc & ->).
  pose proof (CheckNames_ok hp c0 Hc Ha) as Hn. split; [intros; by rewrite Hn|].
  rewrite (NewApp_accepted hp c0 ends k Hc Ha Hu), <- (bootable_bool hp c0 Hc).
  destruct (_ && _); simpl; intuition congruence.
Qed.

(** Nothing set but the defaults. *)
Definition idle_config : Config :=
  (mkConfig "info" "" "" [] [] "" "" "" 30 [] "" "" "" 65536 2000 Second 4 []
    false false false false false false false)%string.

Definition up_endpoint : endpoint := mkEndpoint (mkDriver (Some (mkDsnOptions true (Some "UTC"%string))) true true) true true.
Definition up_cluster : cluster := mkCluster true true (Some TopicAlreadyExists) None.

Lemma all_up c : reachable c (fun _ => up_endpoint) up_cluster.
Proof. split; [|done]. intros i n _. by constructor; [eexists|..]. Qed.

Lemma validated_config_boots_witness :
  exists c, parse (fun _ => true) (fun _ => Ok sample_config) ∅ = Ok c /\
  snd (NewApp (boot_outcomes c (fun _ => up_endpoint) up_cluster) (to_app c)) = None /\
  exists d, parse (fun _ => true) (fun _ => Ok idle_config) ∅ = Ok d /\
  exit_code (snd (NewApp (boot_outcomes d (fun _ => up_endpoint) up_cluster) (to_app d))) = exitConfig.
Proof.
  eexists. split; [reflexivity|]. split.
  - apply (validated_config_boots (fun _ => true) (fun _ => Ok sample_config) ∅); [reflexivity..|apply all_up|].
    split; [discriminate|intros _; discriminate].
  - eexists. split; [reflexivity|].
    eapply (validated_config_boots (fun _ => true) (fun _ => Ok idle_config) ∅); [reflexivity..|apply all_up|]. by intros [H _].
Defined.

(** A sink named twice passes validation and is built twice; only the second
    is in the map, so the first is never closed. *)
Theorem duplicate_sink_leaks o cfg a :
  cfg_Sinks cfg = ["postgres"; "postgres"]%string -> NewApp o cfg = (a, None) ->
  a_closed (closeSinks a) = [1%nat] /\ contains "postgres" known_sinks = true.
Proof.
  intros Hs. unfold NewApp. destruct (CheckNames cfg); [done|]. rewrite Hs. cbn [build_sinks].
  destruct (newSink o 0); [done|]. destruct (newSink o 1); [done|]. destruct (_ && negb _); [done|].
  assert (Hb : forall l b b', build_sources o l b = (b', None) -> a_sinks b' = a_sinks b /\ a_closed b' = a_closed b).
  { induction l as [|n l IH]; intros b b'; simpl; [by intros [= ->]|]. destruct (newSource o n); [|done].
    by intros [? ?]%IH. }
  destruct (build_sources _ _ _) as [b [e|]] eqn:E; [done|]. apply Hb in E as [E1 E2].
  destruct (Pipeline.New _ _); [|done]. intros [= <-]. unfold closeSinks. cbn [a_closed]. rewrite E1, E2.
  by destruct (_ && _).
Qed.
