(* ===== verification/Process.v ===== *)
(** * The process: [app.Run], the constructors of the sources, and the health check

    What [cmd/collector] does around the application: configuration, logging
    and telemetry before anything else, then [New] and [Run] of
    [internal/app/run.go]; the guards of the sources' constructors; and the
    probe that the container runs against its own port. *)

From S2P Require Import Prelude GoTime Netip Flow Text Strings DotEnv Api App Backends Config.

Open Scope char_scope.
Open Scope Z_scope.

(** ** [app.Run] *)

(** What the process has set up and torn down, in order. *)
Inductive effect := LoggingSet | MetricsSet | Built | SignalsCaught | AppRan | SignalsReleased | MetricsStopped.

#[global] Instance effect_eq_dec : EqDecision effect.
Proof. solve_decision. Defined.

(** [SetupMetrics]: a collector registered before is not an error. *)
Inductive register_error := AlreadyRegistered | OtherError.
Definition SetupMetrics (registered : option register_error) : option error :=
  match registered with Some OtherError => Some [] | _ => None end.

(** [Run]: deferred calls run on every return after their statement. *)
Definition app_Run (loaded : result ConfigError Config) (registered : option register_error)
  (build : Config -> option error) (run : Config -> option error) : option error * list effect :=
  match loaded with
  | Err _ => (Some [ErrConfig], [])
  | Ok cfg =>
    match SetupMetrics registered with
    | Some e => (Some e, [LoggingSet])
    | None =>
      match build cfg with
      | Some e => (Some e, [LoggingSet; MetricsSet; MetricsStopped])
      | None => (run cfg, [LoggingSet; MetricsSet; Built; SignalsCaught; AppRan; SignalsReleased; MetricsStopped])
      end
    end
  end.

(** ** The sources' constructors *)

(** A NetFlow source: its address, and whether its decoder makes template
    systems that publish. *)
Record netflow_source := mkNetflowSource { ns_addr : string; ns_shared : bool }.

(** [WithTemplateStore]: a nil store leaves the source as it is. *)
Definition WithTemplateStore (store : bool) (s : netflow_source) : netflow_source :=
  if store then mkNetflowSource (ns_addr s) true else s.

Definition newNetflowSource (addr : string) (opts : list (netflow_source -> netflow_source)) : netflow_source :=
  foldl (fun s o => o s) (mkNetflowSource addr false) opts.

Definition netflow_New (c : Config) (opts : list (netflow_source -> netflow_source)) : option netflow_source :=
  if bool_decide (c_NetFlowAddr c = ""%string) then None else Some (newNetflowSource (c_NetFlowAddr c) opts).

Record kafka_source := mkKafkaSource { ks_brokers : list string; ks_topic : string; ks_group : string }.

Definition kafka_New (c : Config) : option kafka_source :=
  if bool_decide (c_KafkaBrokers c = []) || bool_decide (c_KafkaTopic c = ""%string) || bool_decide (c_KafkaGroup c = ""%string)
  then None else Some (mkKafkaSource (c_KafkaBrokers c) (c_KafkaTopic c) (c_KafkaGroup c)).

(** [kgo.Opt]: what a client is asked for; the caller's options come last. *)
Inductive kgo_opt :=
| SeedBrokers (l : list string) | ConsumerGroup (g : string) | ConsumeTopics (t : string) | ConsumeFromStart
| AutoCommitMarks | DisableAutoCommit.

Definition client_opts (s : kafka_source) (extra : list kgo_opt) : list kgo_opt :=
  [SeedBrokers (ks_brokers s); ConsumerGroup (ks_group s); ConsumeTopics (ks_topic s); ConsumeFromStart] ++ extra.

(** ** [net.SplitHostPort] and the health check *)

Fixpoint index_byte (c : ascii) (s : text) : option nat :=
  match s with
  | [] => None
  | x :: r => if bool_decide (x = c) then Some 0%nat else S <$> index_byte c r
  end.

Definition last_index (c : ascii) (s : text) : option nat :=
  (fun i => length s - 1 - i)%nat <$> index_byte c (rev s).

Inductive addr_error := missingPort | tooManyColons | missingBracket | unexpectedBracket.

Definition SplitHostPort (s : text) : result addr_error (text * text) :=
  match last_index ":" s with
  | None => Err missingPort
  | Some i =>
    let! (host, j, k) :=
      match s with
      | "[" :: _ =>
        match index_byte "]" s with
        | None => Err missingBracket
        | Some e =>
          if (e + 1 =? length s)%nat then Err missingPort
          else if (e + 1 =? i)%nat then Ok (take (e - 1) (drop 1 s), 1%nat, (e + 1)%nat)
          else if bool_decide (s !! (e + 1)%nat = Some ":") then Err tooManyColons else Err missingPort
        end
      | _ => if bool_decide (index_byte ":" (take i s) = None) then Ok (take i s, 0%nat, 0%nat) else Err tooManyColons
      end in
    if bool_decide (index_byte "[" (drop j s) = None) && bool_decide (index_byte "]" (drop k s) = None)
    then Ok (host, drop (i + 1) s) else Err unexpectedBracket
  end.

(** The port that [runHealthcheck] probes, from the process's [NFC_HTTP_ADDR]. *)
Definition healthcheck_port (addr : text) : text :=
  match addr with
  | [] => tx "8080"
  | _ => match SplitHostPort addr with
         | Ok (_, (_ :: _) as p) => p
         | _ => tx "8080"
         end
  end.

Definition healthcheck (addr : text) (probe : text -> option Z) : Z :=
  runHealthcheck (probe (tx "http://127.0.0.1:" ++ healthcheck_port addr ++ tx "/healthz")).

(** ** Facts *)

(** Telemetry is stopped exactly when it was set up, and nothing runs without it. *)
Theorem app_Run_balanced loaded registered build run :
  let '(err, tr) := app_Run loaded registered build run in
  (MetricsSet ∈ tr <-> MetricsStopped ∈ tr) /\ (SignalsCaught ∈ tr <-> SignalsReleased ∈ tr) /\
  (AppRan ∈ tr -> exists l, tr = LoggingSet :: MetricsSet :: l) /\
  (exit_code err = exitOK -> AppRan ∈ tr) /\
  (forall e, loaded = Err e -> exit_code err = exitConfig).
Proof.
  unfold app_Run. destruct loaded as [cfg|e]; [|split_and!; [set_solver..|done|by intros]].
  destruct (SetupMetrics registered) as [e|] eqn:Em.
  { assert (e = []) as -> by (unfold SetupMetrics in Em; repeat case_match; by simplify_eq).
    split_and!; [set_solver..|by vm_compute|done]. }
  destruct (build cfg) as [e|]; split_and!; try set_solver; try done; eauto.
  unfold exit_code. repeat case_bool_decide; done.
Qed.

(** The constructors refuse what [Config.new_source] says. *)
Lemma new_source_constructors c n share :
  new_source c n =
  if bool_decide (n = "netflow"%string) then bool_decide (is_Some (netflow_New c (if share : bool then [WithTemplateStore true] else [])))
  else if bool_decide (n = "kafka"%string) then bool_decide (is_Some (kafka_New c)) else false.
Proof.
  unfold new_source, netflow_New, kafka_New, unset. repeat case_bool_decide; simpl; try done;
    match goal with H : _ |- _ => exfalso; try (by destruct H) end.
  all: try (by apply H; eauto). all: match goal with H : ~ is_Some _ |- _ => by apply H; eauto end.
Qed.

Lemma index_byte_none c s : index_byte c s = None <-> c ∉ s.
Proof.
  induction s as [|x s IH]; cbn [index_byte]; [split; [intros _; apply not_elem_of_nil|done]|].
  rewrite not_elem_of_cons, <- IH. case_bool_decide as E; [subst; split; [done|by intros []]|].
  destruct (index_byte c s); cbn; split; try done; naive_solver.
Qed.

Lemma index_byte_app c s r : c ∉ s -> index_byte c (s ++ c :: r) = Some (length s).
Proof.
  induction s as [|x s IH]; cbn [index_byte app length].
  - by rewrite bool_decide_eq_true_2.
  - rewrite not_elem_of_cons. intros [Hx Hs]. rewrite bool_decide_eq_false_2 by done. by rewrite IH.
Qed.

Lemma last_index_app c h p : c ∉ p -> last_index c (h ++ c :: p) = Some (length h).
Proof.
  intros Hp. unfold last_index. rewrite rev_app_distr. cbn [rev]. rewrite <- app_assoc. cbn [app].
  rewrite index_byte_app by (rewrite list_elem_of_In, <- in_rev, <- list_elem_of_In; done).
  cbn. f_equal. rewrite length_rev, length_app. cbn [length]. lia.
Qed.

(** A plain [host:port] is split at its colon. *)
Lemma SplitHostPort_plain h p :
  ":" ∉ h -> ":" ∉ p -> "[" ∉ h ++ p -> "]" ∉ h ++ p -> SplitHostPort (h ++ ":" :: p) = Ok (h, p).
Proof.
  intros Hh Hp Hl Hr. unfold SplitHostPort. rewrite last_index_app by done. rewrite take_app_length.
  assert (Hidx : bool_decide (index_byte ":" h = None) = true) by (apply bool_decide_eq_true_2; by apply index_byte_none).
  assert (Hb : forall b, b ∉ h ++ p -> b <> ":" -> index_byte b (h ++ ":" :: p) = None).
  { intros b Hb Hne. apply index_byte_none. rewrite elem_of_app, elem_of_cons in *. naive_solver. }
  assert (Hd : drop (length h + 1) (h ++ ":" :: p) = p) by (rewrite drop_app_add; done).
  assert (Hfirst : match h ++ ":" :: p with "[" :: _ => False | _ => True end).
  { destruct h as [|x h]; [done|]. cbn. destruct (ascii_dec x "[") as [->|Hx]; [by destruct Hl; left|].
    destruct x as [[] [] [] [] [] [] [] []]; done. }
  rewrite Hidx. destruct (h ++ ":" :: p) as [|x s] eqn:E; [by destruct h|].
  assert (Hx : x <> "[") by (intros ->; done).
  replace (match x :: s with "[" :: _ => _ | _ => Ok (h, 0%nat, 0%nat) end)
    with (Ok (h, 0%nat, 0%nat) : result addr_error (text * nat * nat))
    by (destruct x as [[] [] [] [] [] [] [] []]; done).
  cbn [rbind drop]. rewrite !Hb by done. rewrite !bool_decide_eq_true_2 by done. cbn [andb]. by rewrite Hd.
Qed.

(** The probe goes to the port of the environment's address, and the verdict
    is that of its status. *)
Theorem healthcheck_exact h p probe :
  ":" ∉ h -> ":" ∉ p -> "[" ∉ h ++ p -> "]" ∉ h ++ p -> p <> [] ->
  healthcheck (h ++ ":" :: p) probe = exitOK <-> probe (tx "http://127.0.0.1:" ++ p ++ tx "/healthz") = Some 200.
Proof.
  intros Hh Hp Hl Hr Hne. unfold healthcheck, healthcheck_port. destruct (h ++ ":" :: p) as [|x s] eqn:E; [by destruct h|].
  rewrite <- E, SplitHostPort_plain by done. destruct p as [|c p]; [done|]. unfold runHealthcheck.
  destruct (probe _) as [z|]; [|done]. destruct (Z.eqb_spec z 200) as [->|Hz]; [done|]. split; [done|congruence].
Qed.

Lemma healthcheck_exact_witness :
  healthcheck (tx ":9090") (fun url => if bool_decide (url = tx "http://127.0.0.1:9090/healthz") then Some 200 else None) = exitOK.
Proof. apply (healthcheck_exact [] (tx "9090")); [by apply index_byte_none..|done|reflexivity]. Defined.
