(* ===== verification/Templates.v ===== *)
(** * Template sharing: [internal/source/netflow/templates.go], [internal/templatestore/kafka.go]

    The store's keys and values as texts; then collectors that publish the
    templates they learn to a compacted topic and apply what the topic holds,
    as a step system over the topic's partitions and the instances. What
    goflow2 owns (template records, template systems) is a parameter. *)

From S2P Require Import Prelude GoTime Netip Flow Text Strings NetipText Json Wire Decode.

Open Scope char_scope.
Open Scope Z_scope.

(** ** Keys *)

Record template_id := mkTid { t_exporter : Addr; t_version : Z; t_domain : Z; t_id : Z }.

#[global] Instance template_id_eq_dec : EqDecision template_id.
Proof. solve_decision. Defined.

Definition slash : ascii := "/".

Definition templateKey (k : template_id) : text :=
  Addr_String (t_exporter k) ++ slash :: (print_dec (t_version k) ++ slash :: (print_dec (t_domain k)
    ++ slash :: print_dec (t_id k))).

Inductive KeyError := errKeyParts | errKeyExporter | errKeyVersion | errKeyDomain | errKeyId.

Definition parseTemplateKey (key : text) : result KeyError template_id :=
  match Split slash key with
  | [e; v; d; i] =>
    match ParseAddr e with
    | None => Err errKeyExporter
    | Some a =>
      match ParseUint 16 v with
      | None => Err errKeyVersion
      | Some v =>
        match ParseUint 32 d with
        | None => Err errKeyDomain
        | Some d => match ParseUint 16 i with None => Err errKeyId | Some i => Ok (mkTid a v d i) end
        end
      end
    end
  | _ => Err errKeyParts
  end.

(** ** Values *)

(** goflow2's three record types with their JSON forms. *)
Class TemplateTypes := {
  TemplateRecord : Type;
  NFv9OptionsTemplateRecord : Type;
  IPFIXOptionsTemplateRecord : Type;
  marshal_T : TemplateRecord -> option json;
  marshal_9 : NFv9OptionsTemplateRecord -> option json;
  marshal_X : IPFIXOptionsTemplateRecord -> option json;
  unmarshal_T : json -> option TemplateRecord;
  unmarshal_9 : json -> option NFv9OptionsTemplateRecord;
  unmarshal_X : json -> option IPFIXOptionsTemplateRecord
}.

(** The dynamic type of a template: one of the three, or anything else. *)
Inductive template `{TemplateTypes} :=
| TplRecord (r : TemplateRecord)
| TplNFv9Options (r : NFv9OptionsTemplateRecord)
| TplIPFIXOptions (r : IPFIXOptionsTemplateRecord)
| TplOther.

Definition kindTemplate : string := "template".
Definition kindNFv9Options : string := "nfv9-options".
Definition kindIPFIXOptions : string := "ipfix-options".

Record templateEnvelope := mkEnvelope { e_Kind : string; e_Record : option json }.

Inductive TemplateError := errTemplateType | errTemplateMarshal | errEnvelope | errTemplateKind (k : string) | errTemplateRecord.

Section codec.
Context `{TemplateTypes}.

Definition template_kind (t : template) : option string :=
  match t with
  | TplRecord _ => Some kindTemplate
  | TplNFv9Options _ => Some kindNFv9Options
  | TplIPFIXOptions _ => Some kindIPFIXOptions
  | TplOther => None
  end.

Definition template_json (t : template) : option json :=
  match t with
  | TplRecord r => marshal_T r
  | TplNFv9Options r => marshal_9 r
  | TplIPFIXOptions r => marshal_X r
  | TplOther => None
  end.

Definition encodeTemplate (t : template) : result TemplateError text :=
  match template_kind t with
  | None => Err errTemplateType
  | Some kind =>
    match template_json t with
    | None => Err errTemplateMarshal
    | Some rec => Ok (print_json (JObj [(tx "kind", JStr (quote (tx kind))); (tx "record", rec)]))
    end
  end.

(** [json.Unmarshal] into the envelope; [json.RawMessage] keeps any value. *)
Fixpoint envelope_members (kvs : list (text * json)) (env : templateEnvelope) : option templateEnvelope :=
  match kvs with
  | [] => Some env
  | (k, v) :: r =>
    if is_field "kind" k then
      match get_string (e_Kind env) v with
      | Some s => envelope_members r (mkEnvelope s (e_Record env))
      | None => None
      end
    else if is_field "record" k then envelope_members r (mkEnvelope (e_Kind env) (Some v))
    else envelope_members r env
  end.

Definition unmarshal_envelope (b : text) : option templateEnvelope :=
  match parse_json b with
  | Some (JObj kvs) => envelope_members kvs (mkEnvelope "" None)
  | Some JNull => Some (mkEnvelope "" None)
  | _ => None
  end.

(** The record is filled in before it is returned, which is the order the
    compiler gives [return r, json.Unmarshal(env.Record, &r)]. *)
Definition decodeTemplate (b : text) : result TemplateError template :=
  match unmarshal_envelope b with
  | None => Err errEnvelope
  | Some env =>
    let typed {A} (un : json -> option A) (mk : A -> template) : result TemplateError template :=
      match e_Record env with
      | None => Err errTemplateRecord
      | Some j => match un j with Some r => Ok (mk r) | None => Err errTemplateRecord end
      end in
    if bool_decide (e_Kind env = kindTemplate) then typed unmarshal_T TplRecord
    else if bool_decide (e_Kind env = kindNFv9Options) then typed unmarshal_9 TplNFv9Options
    else if bool_decide (e_Kind env = kindIPFIXOptions) then typed unmarshal_X TplIPFIXOptions
    else Err (errTemplateKind (e_Kind env))
  end.

End codec.

(** ** Instances *)

(** [nf.NetFlowTemplateSystem]: [None] of [AddTemplate] is an error. *)
Class TemplateSystems `{Goflow2, TemplateTypes} := {
  AddTemplate : Z -> Z -> Z -> template -> TemplateSystem -> option TemplateSystem;
  GetTemplate : Z -> Z -> Z -> TemplateSystem -> option template
}.

Abbreviation entry := (text * text)%type.
Definition publishQueue : nat := 1024.

Inductive watch_state := NotWatching | Watching | WatchStopped.
Inductive listen_state := NotListening | ListeningSynced | ListeningTimeout.

Section sharing.
Context `{TS : TemplateSystems}.

(** [decoder.templates] *)
Abbreviation templates := (gmap Addr TemplateSystem).

Record instance := mkInstance {
  i_dec : templates;                (* the decoder's template systems *)
  i_queue : list entry;           (* sharing.queue *)
  i_put : option entry;           (* the entry that publish is putting into the store *)
  i_watch : watch_state;
  i_pos : gmap nat nat;           (* the consumer's next offset, by partition *)
  i_ends : gmap nat nat;          (* the end offsets listed when Watch began *)
  i_remaining : gmap nat nat;     (* Watch's map *)
  i_synced : bool;                (* the channel startSharing waits on is closed *)
  i_listen : listen_state
}.

Definition new_instance : instance := mkInstance ∅ [] None NotWatching ∅ ∅ ∅ false NotListening.

Definition pos (x : instance) (q : nat) : nat := default 0%nat (i_pos x !! q).

Definition set_dec (d : templates) (x : instance) : instance :=
  mkInstance d (i_queue x) (i_put x) (i_watch x) (i_pos x) (i_ends x) (i_remaining x) (i_synced x) (i_listen x).
Definition set_queue (q : list entry) (x : instance) : instance :=
  mkInstance (i_dec x) q (i_put x) (i_watch x) (i_pos x) (i_ends x) (i_remaining x) (i_synced x) (i_listen x).
Definition set_put (e : option entry) (x : instance) : instance :=
  mkInstance (i_dec x) (i_queue x) e (i_watch x) (i_pos x) (i_ends x) (i_remaining x) (i_synced x) (i_listen x).
Definition set_listen (l : listen_state) (x : instance) : instance :=
  mkInstance (i_dec x) (i_queue x) (i_put x) (i_watch x) (i_pos x) (i_ends x) (i_remaining x) (i_synced x) l.

(** [sharing.enqueue]: the key is lost when the template cannot be encoded or
    the queue is full. *)
Definition enqueue (key : text) (t : template) (x : instance) : instance * list text :=
  match encodeTemplate t with
  | Err _ => (x, [key])
  | Ok value =>
    if (length (i_queue x) <? publishQueue)%nat then (set_queue (i_queue x ++ [(key, value)]) x, [])
    else (x, [key])
  end.

(** A template on the inner system of an exporter. *)
Definition add_inner (k : template_id) (t : template) (d : templates) : templates * bool :=
  let '(ts, d1) := templatesFor (t_exporter k) d in
  match AddTemplate (t_version k) (t_domain k) (t_id k) t ts with
  | Some ts' => (<[t_exporter k := ts']> d1, true)
  | None => (d1, false)
  end.

(** [publishingSystem.AddTemplate], called by the decoder of a datagram. *)
Definition learn (k : template_id) (t : template) (x : instance) : instance * list text :=
  let '(d, ok) := add_inner k t (i_dec x) in
  let x := set_dec d x in
  if ok then enqueue (templateKey k) t x else (x, []).

(** [sharing.apply]: nothing is published again. *)
Definition apply_entry (key value : text) (d : templates) : templates :=
  match parseTemplateKey key with
  | Err _ => d
  | Ok k => match decodeTemplate value with Err _ => d | Ok t => fst (add_inner k t d) end
  end.

(** ** The topic *)

(** A partition: what its offsets hold, [None] when compacted away. *)
Abbreviation plog := (list (option entry)).

Record world := mkWorld {
  w_logs : gmap nat plog;
  w_insts : list instance;
  w_lost : list text              (* keys of publications that never reached the topic *)
}.

Definition log_of (w : world) (q : nat) : plog := default [] (w_logs w !! q).
Definition init_world (n : nat) : world := mkWorld ∅ (replicate n new_instance) [].

Context (part : text -> nat).

(** [Watch] until its first poll: the snapshot of the end offsets. *)
Definition watch_start (w : world) (x : instance) : instance :=
  let ends := filter (fun qn => (0 < qn.2)%nat) (length <$> w_logs w) in
  mkInstance (i_dec x) (i_queue x) (i_put x) Watching ∅ ends ends (bool_decide (ends = ∅) || i_synced x) (i_listen x).

(** One offset of partition [q] passes; a record is applied and counted. *)
Definition deliver (q : nat) (r : option entry) (x : instance) : instance :=
  let o := pos x q in
  match r with
  | None => mkInstance (i_dec x) (i_queue x) (i_put x) (i_watch x) (<[q := S o]> (i_pos x)) (i_ends x) (i_remaining x)
              (i_synced x) (i_listen x)
  | Some (key, value) =>
    let x := mkInstance (apply_entry key value (i_dec x)) (i_queue x) (i_put x) (i_watch x) (<[q := S o]> (i_pos x))
               (i_ends x) (i_remaining x) (i_synced x) (i_listen x) in
    match i_remaining x !! q with
    | Some n =>
      if (n <=? S o)%nat then
        let rem := delete q (i_remaining x) in
        mkInstance (i_dec x) (i_queue x) (i_put x) (i_watch x) (i_pos x) (i_ends x) rem
          (bool_decide (rem = ∅) || i_synced x) (i_listen x)
      else x
    | None => x
    end
  end.

(** [Watch] returns an error: no more records, and [startSharing] is released
    all the same. *)
Definition watch_stop (x : instance) : instance :=
  mkInstance (i_dec x) (i_queue x) (i_put x) WatchStopped (i_pos x) (i_ends x) (i_remaining x) true (i_listen x).

Inductive act :=
| Learn (i : nat) (k : template_id) (t : template)
| Publish (i : nat)                   (* the publisher takes an entry and calls Put *)
| PutLands (i : nat)                  (* the entry is in the topic; Put returns *)
| PutFails (i : nat)                  (* Put returns without it *)
| WatchStart (i : nat)
| Deliver (i q : nat)
| WatchFail (i : nat)
| Listen (i : nat) (timeout : bool)   (* startSharing returns *)
| Compact (q o : nat).                (* the broker drops a superseded record *)

Definition has_key (key : text) (r : option entry) : bool :=
  match r with Some kv => bool_decide (kv.1 = key) | None => false end.

Definition put_inst (i : nat) (x : instance) (w : world) : world :=
  mkWorld (w_logs w) (<[i := x]> (w_insts w)) (w_lost w).

Definition step (a : act) (w : world) : option world :=
  match a with
  | Learn i k t =>
    match w_insts w !! i with
    | Some x =>
      match i_listen x with
      | NotListening => None
      | _ =>
        let '(x', lost) := learn k t x in
        Some (mkWorld (w_logs w) (<[i := x']> (w_insts w)) (w_lost w ++ lost))
      end
    | None => None
    end
  | Publish i =>
    match w_insts w !! i with
    | Some x =>
      match i_put x, i_queue x with
      | None, e :: rest => Some (put_inst i (set_put (Some e) (set_queue rest x)) w)
      | _, _ => None
      end
    | None => None
    end
  | PutLands i =>
    match w_insts w !! i with
    | Some x =>
      match i_put x with
      | Some e =>
        Some (mkWorld (<[part e.1 := log_of w (part e.1) ++ [Some e]]> (w_logs w)) (<[i := set_put None x]> (w_insts w)) (w_lost w))
      | None => None
      end
    | None => None
    end
  | PutFails i =>
    match w_insts w !! i with
    | Some x =>
      match i_put x with
      | Some e => Some (mkWorld (w_logs w) (<[i := set_put None x]> (w_insts w)) (w_lost w ++ [e.1]))
      | None => None
      end
    | None => None
    end
  | WatchStart i =>
    match w_insts w !! i with
    | Some x => match i_watch x with NotWatching => Some (put_inst i (watch_start w x) w) | _ => None end
    | None => None
    end
  | Deliver i q =>
    match w_insts w !! i with
    | Some x =>
      match i_watch x, log_of w q !! pos x q with
      | Watching, Some r => Some (put_inst i (deliver q r x) w)
      | _, _ => None
      end
    | None => None
    end
  | WatchFail i =>
    match w_insts w !! i with
    | Some x => match i_watch x with Watching => Some (put_inst i (watch_stop x) w) | _ => None end
    | None => None
    end
  | Listen i timeout =>
    match w_insts w !! i with
    | Some x =>
      match i_watch x, i_listen x with
      | NotWatching, _ | _, ListeningSynced | _, ListeningTimeout => None
      | _, NotListening =>
        if timeout then Some (put_inst i (set_listen ListeningTimeout x) w)
        else if i_synced x then Some (put_inst i (set_listen ListeningSynced x) w) else None
      end
    | None => None
    end
  | Compact q o =>
    match log_of w q !! o with
    | Some (Some (key, _)) =>
      if existsb (has_key key) (drop (S o) (log_of w q))
      then Some (mkWorld (<[q := <[o := None]> (log_of w q)]> (w_logs w)) (w_insts w) (w_lost w))
      else None
    | _ => None
    end
  end.

End sharing.
