(* ===== verification/TemplatesThms.v ===== *)
(** * Properties of template sharing *)

From S2P Require Import Prelude GoTime Netip Flow Text Strings NetipText NetipTextFacts Json Wire WireThms Decode Templates.

Open Scope char_scope.
Open Scope Z_scope.

(** ** Keys *)

(** What the decoder can ask to be stored: an exporter taken from a socket
    address (no zone), 16-, 32- and 16-bit numbers. *)
Definition tid_typed (k : template_id) : Prop :=
  addr_wf (t_exporter k) /\ zoneless (t_exporter k) /\
  is_uint 16 (t_version k) /\ is_uint 32 (t_domain k) /\ is_uint 16 (t_id k).

Definition not_slash (c : ascii) : Prop := c <> slash.

Lemma digit_not_slash d : 0 <= d < 16 -> not_slash (digit_char d).
Proof.
  intros H E. apply (f_equal ord) in E. unfold digit_char in E. destruct (d <? 10) eqn:El;
    rewrite ord_chr in E by lia; change (ord slash) with 47 in E; lia.
Qed.

Lemma not_slash_in s : Forall not_slash s -> slash ∉ s.
Proof. intros H Hin. by apply (proj1 (Forall_forall _ _) H slash Hin). Qed.

Lemma dec_no_slash n : 0 <= n -> slash ∉ print_dec n.
Proof. intros Hn. apply not_slash_in, base_chars; [apply digit_not_slash|lia|done]. Qed.

Lemma addr_no_slash a : zoneless a -> slash ∉ Addr_String a.
Proof.
  intros Hz. destruct (decide (a = AddrZero)) as [->|Hne]; [apply (bool_decide_unpack _); reflexivity|].
  replace (Addr_String a) with (Addr_MarshalText a) by (by destruct a).
  apply not_slash_in, addr_chars; [apply digit_not_slash|done..].
Qed.

Lemma templateKey_split k : tid_typed k ->
  Split slash (templateKey k) =
  [Addr_String (t_exporter k); print_dec (t_version k); print_dec (t_domain k); print_dec (t_id k)].
Proof.
  intros (_ & Hz & [Hv _] & [Hd _] & [Hi _]). unfold templateKey.
  rewrite Split_cons by (by apply addr_no_slash). do 2 rewrite Split_cons by (by apply dec_no_slash).
  by rewrite Split_none by (by apply dec_no_slash).
Qed.

Lemma parse_templateKey k : tid_typed k ->
  parseTemplateKey (templateKey k) = if IsValid (t_exporter k) then Ok k else Err errKeyExporter.
Proof.
  intros Hk. unfold parseTemplateKey. rewrite templateKey_split by done. destruct Hk as (Hw & Hz & Hv & Hd & Hi).
  destruct (IsValid (t_exporter k)) eqn:E.
  - rewrite ParseAddr_String, !ParseUint_print by done. by destruct k.
  - by destruct (t_exporter k).
Qed.

(** ** The laws of goflow2's types *)

Class TemplateLaws `{TS : TemplateSystems} : Prop := {
  (* the records survive JSON *)
  tl_T r j : marshal_T r = Some j -> readable j /\ unmarshal_T j = Some r;
  tl_9 r j : marshal_9 r = Some j -> readable j /\ unmarshal_9 j = Some r;
  tl_X r j : marshal_X r = Some j -> readable j /\ unmarshal_X j = Some r;
  (* a system is a map; whether it takes a template depends on nothing in it *)
  tl_create v d i : GetTemplate v d i CreateTemplateSystem = None;
  tl_add_get v d i t ts ts' : AddTemplate v d i t ts = Some ts' -> GetTemplate v d i ts' = Some t;
  tl_add_other v d i t ts ts' v' d' i' : (v', d', i') <> (v, d, i) ->
    AddTemplate v d i t ts = Some ts' -> GetTemplate v' d' i' ts' = GetTemplate v' d' i' ts;
  tl_add_uniform v d i t ts ts' : is_Some (AddTemplate v d i t ts) -> is_Some (AddTemplate v d i t ts')
}.

Section laws.
Context `{L : TemplateLaws}.

(** *** Values *)

Lemma unmarshal_envelope_print kind rec :
  Forall is_ascii (tx kind) -> readable rec ->
  unmarshal_envelope (print_json (JObj [(tx "kind", JStr (quote (tx kind))); (tx "record", rec)])) =
  Some (mkEnvelope kind (Some rec)).
Proof.
  intros Hk Hr. unfold unmarshal_envelope. rewrite parse_print_object.
  - cbn [envelope_members]. change (is_field "kind" (tx "kind")) with true. cbv iota.
    cbn [get_string]. rewrite unquote_quote, st_tx by done. cbn [envelope_members].
    change (is_field "kind" (tx "record")) with false. change (is_field "record" (tx "record")) with true. done.
  - repeat (apply List.Forall_cons); [| |apply List.Forall_nil]; split; cbn [fst snd];
      [apply plain_raw; cbn; plains| |apply plain_raw; cbn; plains|done].
    by apply scalar_readable, JStr_ok, quote_raw_ok.
Qed.

Lemma decode_encodeTemplate t value : encodeTemplate t = Ok value -> decodeTemplate value = Ok t.
Proof.
  unfold encodeTemplate. destruct (template_kind t) as [kind|] eqn:Ek; [|done].
  destruct (template_json t) as [rec|] eqn:Ej; [|done]. intros E.
  match type of E with Ok ?a = _ => assert (value = a) as -> by congruence end. clear E.
  assert (Hr : readable rec) by (destruct t; simpl in Ej; [by eapply tl_T|by eapply tl_9|by eapply tl_X|done]).
  unfold decodeTemplate. destruct t; try discriminate Ek; injection Ek as <-; simpl in Ej;
    rewrite unmarshal_envelope_print by (done || (cbn; repeat constructor)); cbn [e_Kind e_Record];
    repeat case_bool_decide; try discriminate; try congruence.
  - by rewrite (proj2 (tl_T _ _ Ej)).
  - by rewrite (proj2 (tl_9 _ _ Ej)).
  - by rewrite (proj2 (tl_X _ _ Ej)).
Qed.

(** *** Template systems *)

(** The template an instance uses for a key. *)
Definition lookup_template (d : gmap Addr TemplateSystem) (k : template_id) : option template :=
  match d !! t_exporter k with Some ts => GetTemplate (t_version k) (t_domain k) (t_id k) ts | None => None end.

Lemma templatesFor_lookup e d ts d1 : templatesFor e d = (ts, d1) ->
  d1 !! e = Some ts /\ (forall k, lookup_template d1 k = lookup_template d k) /\
  (forall e', e' <> e -> d1 !! e' = d !! e').
Proof.
  unfold templatesFor. destruct (d !! e) as [ts0|] eqn:E; intros [= <- <-]; [by split_and!|].
  split; [apply lookup_insert_eq|]. split.
  - intros k. unfold lookup_template. destruct (decide (t_exporter k = e)) as [->|Hne].
    + rewrite lookup_insert_eq, E. apply tl_create.
    + by rewrite lookup_insert_ne.
  - intros e' He. by rewrite lookup_insert_ne.
Qed.

Lemma add_inner_spec k t d d' ok : add_inner k t d = (d', ok) ->
  (forall k', k' <> k -> lookup_template d' k' = lookup_template d k') /\
  (if ok then lookup_template d' k = Some t else lookup_template d' k = lookup_template d k).
Proof.
  unfold add_inner. destruct (templatesFor (t_exporter k) d) as [ts d1] eqn:Et.
  destruct (templatesFor_lookup _ _ _ _ Et) as (He & Hl & Hne).
  destruct (AddTemplate _ _ _ _ _) as [ts'|] eqn:Ea; intros [= <- <-]; [|by split].
  split.
  - intros k' Hk. rewrite <- Hl. unfold lookup_template. destruct (decide (t_exporter k' = t_exporter k)) as [E|E].
    + rewrite E, lookup_insert_eq, He. eapply tl_add_other; [|exact Ea]. intros [= E1 E2 E3].
      apply Hk. destruct k, k'. simpl in *. by subst.
    + by rewrite lookup_insert_ne.
  - unfold lookup_template. rewrite lookup_insert_eq. by eapply tl_add_get.
Qed.

(** A template some system took. *)
Definition acceptable (k : template_id) (t : template) : Prop :=
  exists ts, is_Some (AddTemplate (t_version k) (t_domain k) (t_id k) t ts).

Lemma add_inner_ok k t d : (snd (add_inner k t d) = true <-> acceptable k t).
Proof.
  unfold add_inner, acceptable. destruct (templatesFor _ _) as [ts d1].
  destruct (AddTemplate _ _ _ _ ts) eqn:E; simpl; split; try done; [eauto|].
  intros [ts' Ha]. apply (tl_add_uniform _ _ _ _ _ ts) in Ha. rewrite E in Ha. by destruct Ha.
Qed.

(** *** Entries *)

(** What the instances put into the store. *)
Definition entry_of (k : template_id) (t : template) (e : entry) : Prop :=
  tid_typed k /\ acceptable k t /\ e.1 = templateKey k /\ encodeTemplate t = Ok e.2.
Definition entry_ok (e : entry) : Prop := exists k t, entry_of k t e.

(** The template an entry carries. *)
Definition entry_template (e : entry) : option template :=
  match decodeTemplate e.2 with Ok t => Some t | Err _ => None end.

Definition valid_tid (k : template_id) : Prop := tid_typed k /\ IsValid (t_exporter k) = true.

Lemma templateKey_inj k k' : valid_tid k -> tid_typed k' -> templateKey k = templateKey k' -> k = k'.
Proof.
  intros [Hk Hv] Hk' E. pose proof (parse_templateKey k Hk) as P. rewrite Hv, E, parse_templateKey in P by done.
  destruct (IsValid (t_exporter k')); congruence.
Qed.

Lemma apply_entry_same k e d : valid_tid k -> entry_ok e -> e.1 = templateKey k ->
  lookup_template (apply_entry e.1 e.2 d) k = entry_template e /\ entry_template e <> None.
Proof.
  intros [Hk Hv] (k' & t & Hk' & Ha & Ek & Et) E.
  assert (k = k') as <- by (apply templateKey_inj; [by split|done|congruence]).
  unfold apply_entry, entry_template. rewrite Ek, parse_templateKey, Hv, (decode_encodeTemplate _ _ Et) by done.
  split; [|done]. destruct (add_inner k t d) as [d' ok] eqn:Ei. pose proof (add_inner_ok k t d) as Ho.
  rewrite Ei in Ho. simpl in Ho. apply Ho in Ha. subst ok. by apply (add_inner_spec _ _ _ _ _ Ei).
Qed.

Lemma apply_entry_other k e d : valid_tid k -> entry_ok e -> e.1 <> templateKey k ->
  lookup_template (apply_entry e.1 e.2 d) k = lookup_template d k.
Proof.
  intros [Hk Hv] (k' & t & Hk' & Ha & Ek & Et) E. unfold apply_entry.
  rewrite Ek, parse_templateKey, (decode_encodeTemplate _ _ Et) by done. destruct (IsValid (t_exporter k')); [|done].
  destruct (add_inner k' t d) as [d' ok] eqn:Ei. apply (add_inner_spec _ _ _ _ _ Ei). congruence.
Qed.

(** *** The last record of a key *)

Definition last_entry (key : text) (l : list (option entry)) : option entry :=
  last (filter (fun e : entry => e.1 = key) (omap (fun r => r) l)).

Lemma last_app_cases {A} (l1 l2 : list A) : last (l1 ++ l2) = match last l2 with Some x => Some x | None => last l1 end.
Proof.
  destruct l2 as [|x l2 _] using rev_ind; [by rewrite app_nil_r|]. by rewrite app_assoc, !last_snoc.
Qed.

Lemma last_entry_app key l1 l2 :
  last_entry key (l1 ++ l2) = match last_entry key l2 with Some e => Some e | None => last_entry key l1 end.
Proof. unfold last_entry. by rewrite omap_app, filter_app, last_app_cases. Qed.

Lemma last_entry_one key r : last_entry key [r] = match r with
  | Some e => if decide (e.1 = key) then Some e else None | None => None end.
Proof. unfold last_entry. destruct r as [e|]; [|done].
  change (omap (fun r : option entry => r) [Some e]) with [e]. rewrite filter_cons, filter_nil. by case_decide. Qed.

Lemma last_entry_cons key r l :
  last_entry key (r :: l) = match last_entry key l with Some e => Some e | None => last_entry key [r] end.
Proof. apply (last_entry_app key [r] l). Qed.

Lemma last_entry_none key l : (forall o v, l !! o <> Some (Some (key, v))) -> last_entry key l = None.
Proof.
  induction l as [|r l IH]; intros Hn; [done|]. rewrite last_entry_cons, IH, last_entry_one.
  - destruct r as [[k v]|]; [|done]. simpl. case_decide; [|done]. subst. by destruct (Hn 0%nat v).
  - intros o v. apply (Hn (S o) v).
Qed.

Lemma last_entry_exists key l : existsb (has_key key) l = true -> exists e, last_entry key l = Some e.
Proof.
  induction l as [|r l IH]; [done|]. simpl. rewrite orb_true_iff, last_entry_cons. intros Hx.
  destruct (last_entry key l) as [e|] eqn:El; [by exists e|]. destruct Hx as [Hx|Hx]; [|by destruct (IH Hx)].
  rewrite last_entry_one. destruct r as [e|]; [|done]. simpl in Hx. apply bool_decide_eq_true in Hx.
  rewrite decide_True by done. by exists e.
Qed.

Lemma last_entry_compact key o k0 v0 l :
  l !! o = Some (Some (k0, v0)) -> existsb (has_key k0) (drop (S o) l) = true ->
  last_entry key (<[o := None]> l) = last_entry key l.
Proof.
  intros Hl Hx. rewrite <- (take_drop_middle l o _ Hl) at 2.
  rewrite insert_take_drop by (by eapply lookup_lt_Some).
  rewrite !last_entry_app, !(last_entry_cons key _ (drop _ _)), !last_entry_one. simpl. case_decide as E; [|done].
  subst k0. by destruct (last_entry_exists _ _ Hx) as [e ->].
Qed.

Lemma last_entry_at key o v l :
  l !! o = Some (Some (key, v)) -> (forall o' v', (S o <= o')%nat -> l !! o' <> Some (Some (key, v'))) ->
  last_entry key l = Some (key, v).
Proof.
  intros Hl Hn. rewrite <- (take_drop_middle l o _ Hl). rewrite last_entry_app, last_entry_cons, last_entry_one.
  rewrite (last_entry_none key (drop _ _)); [simpl; by rewrite decide_True|].
  intros o' v'. rewrite lookup_drop. apply Hn. lia.
Qed.

(** *** The invariant *)

Section invariant.
Context (part : text -> nat).

(** What an instance has learned and not yet put into the topic. *)
Definition outgoing (x : instance) : list entry := option_list (i_put x) ++ i_queue x.

(** Nothing about the key is on its way to or from the instance. *)
Definition quiet (lg : nat -> list (option entry)) (x : instance) (k : template_id) : Prop :=
  (forall e, e ∈ outgoing x -> e.1 <> templateKey k) /\
  (forall o v, (pos x (part (templateKey k)) <= o)%nat ->
    lg (part (templateKey k)) !! o <> Some (Some (templateKey k, v))).

(** The template the topic holds for a key. *)
Definition published (lg : nat -> list (option entry)) (k : template_id) : option template :=
  match last_entry (templateKey k) (lg (part (templateKey k))) with Some e => entry_template e | None => None end.

Definition log_ok (q : nat) (l : list (option entry)) : Prop :=
  Forall (fun r => match r with Some e => entry_ok e /\ part e.1 = q | None => True end) l.

Record inst_ok (lg : nat -> list (option entry)) (lost : list text) (x : instance) : Prop := {
  io_queue : Forall entry_ok (outgoing x);
  io_pos q : (pos x q <= length (lg q))%nat;
  io_fresh : i_watch x = NotWatching -> i_pos x = ∅ /\ i_synced x = false;
  io_ends q n : i_ends x !! q = Some n -> i_remaining x !! q = Some n \/ (n <= pos x q)%nat;
  io_synced : i_watch x = Watching -> i_synced x = true -> i_remaining x = ∅;
  io_seen k o v : valid_tid k -> (o < pos x (part (templateKey k)))%nat ->
    lg (part (templateKey k)) !! o = Some (Some (templateKey k, v)) -> lookup_template (i_dec x) k <> None;
  io_quiet k : valid_tid k -> templateKey k ∉ lost -> quiet lg x k -> lookup_template (i_dec x) k = published lg k
}.

Record inv (w : world) : Prop := {
  inv_logs q : log_ok q (log_of w q);
  inv_insts i x : w_insts w !! i = Some x -> inst_ok (log_of w) (w_lost w) x
}.

Lemma inst_ok_lost lg lost more x : inst_ok lg lost x -> inst_ok lg (lost ++ more) x.
Proof. intros []. constructor; try done. intros k Hk Hl. rewrite elem_of_app in Hl. apply io_quiet0; tauto. Qed.

(** A record is appended; its publisher's Put is over. *)
Lemma inst_ok_append lg lg' lost x x' e :
  inst_ok lg lost x -> x' = x \/ (i_put x = Some e /\ x' = set_put None x) ->
  (forall q, lg' q = if decide (q = part e.1) then lg q ++ [Some e] else lg q) ->
  inst_ok lg' lost x'.
Proof.
  intros [] Hx Hlg. assert (Hq : outgoing x = outgoing x' \/ outgoing x = e :: outgoing x').
  { destruct Hx as [->|[Hp ->]]; [by left|right]. unfold outgoing. by rewrite Hp. }
  assert (Hpos : pos x' = pos x) by (by destruct Hx as [->|[_ ->]]).
  assert (Hdec : i_dec x' = i_dec x) by (by destruct Hx as [->|[_ ->]]).
  constructor; rewrite ?Hpos, ?Hdec; try (by destruct Hx as [->|[_ ->]]).
  - destruct Hq as [<-|Hq]; [done|]. rewrite Hq in *. by apply Forall_cons in io_queue0 as [_ ?].
  - intros q. specialize (io_pos0 q). rewrite Hlg. case_decide; rewrite ?length_app; simpl; lia.
  - intros k o v Hk Ho Hl. apply (io_seen0 k o v Hk Ho).
    pose proof (io_pos0 (part (templateKey k))). rewrite Hlg in Hl. case_decide; [|done].
    by rewrite lookup_app_l in Hl by lia.
  - intros k Hk Hl [Hqu Hlo]. rewrite Hpos in Hlo. destruct (decide (e.1 = templateKey k)) as [E|E].
    + destruct (Hlo (length (lg (part (templateKey k)))) e.2 (io_pos0 _)). rewrite Hlg, E, decide_True by done.
      rewrite lookup_app_r, Nat.sub_diag by lia. rewrite <- E. by destruct e.
    + assert (Hp : published lg' k = published lg k).
      { unfold published. rewrite Hlg. case_decide; [|done]. rewrite last_entry_app, last_entry_one.
        by rewrite decide_False. }
      rewrite Hp. apply io_quiet0; [done..|]. split.
      * intros e' He'. destruct Hq as [Hq|Hq]; rewrite Hq in He'; [by apply Hqu|].
        apply elem_of_cons in He' as [->|He']; [done|by apply Hqu].
      * intros o v Ho Hl'. apply (Hlo o v Ho). rewrite Hlg. case_decide; [|done].
        rewrite lookup_app_l; [done|by eapply lookup_lt_Some].
Qed.

(** The publisher takes an entry: it is still outgoing. *)
Lemma inst_ok_take lg lost x e rest :
  inst_ok lg lost x -> i_put x = None -> i_queue x = e :: rest -> inst_ok lg lost (set_put (Some e) (set_queue rest x)).
Proof.
  intros [] Hp Hq. assert (Ho : outgoing (set_put (Some e) (set_queue rest x)) = outgoing x) by (unfold outgoing; by rewrite Hp, Hq).
  constructor; rewrite ?Ho; try done. intros k Hk Hl [Hqu Hlo]. rewrite Ho in Hqu. by apply io_quiet0.
Qed.

(** A publication fails: the key is lost. *)
Lemma inst_ok_drop lg lost x e :
  inst_ok lg lost x -> i_put x = Some e -> inst_ok lg (lost ++ [e.1]) (set_put None x).
Proof.
  intros [] Hp. assert (Hq : outgoing x = e :: outgoing (set_put None x)) by (unfold outgoing; by rewrite Hp).
  constructor; try done; cbn [set_put i_dec].
  - rewrite Hq in *. by apply Forall_cons in io_queue0 as [_ ?].
  - intros k Hk Hl [Hqu Hlo]. rewrite elem_of_app, list_elem_of_singleton in Hl. apply io_quiet0; [done|tauto|].
    split; [|done]. intros e' He'. rewrite Hq in He'. apply elem_of_cons in He' as [->|He']; [|by apply Hqu].
    intros E. apply Hl. by right.
Qed.

Lemma inst_ok_compact lg lg' lost x q0 o0 k0 v0 :
  inst_ok lg lost x -> lg q0 !! o0 = Some (Some (k0, v0)) -> existsb (has_key k0) (drop (S o0) (lg q0)) = true ->
  (forall q, lg' q = if decide (q = q0) then <[o0 := None]> (lg q) else lg q) ->
  inst_ok lg' lost x.
Proof.
  intros [] Hl0 Hx Hlg. constructor; try done.
  - intros q. rewrite Hlg. case_decide; rewrite ?length_insert; apply io_pos0.
  - intros k o v Hk Ho Hl. apply (io_seen0 k o v Hk Ho). rewrite Hlg in Hl. case_decide; [|done].
    by apply list_lookup_insert_Some in Hl as [(_ & [=] & _)|[_ Hl]].
  - intros k Hk Hlo [Hqu Hn]. assert (Hp : published lg' k = published lg k).
    { unfold published. rewrite Hlg. case_decide as E; [|done]. rewrite E in *. by rewrite (last_entry_compact _ _ k0 v0). }
    rewrite Hp. apply io_quiet0; [done..|]. split; [done|]. intros o v Ho Hl.
    destruct (decide (part (templateKey k) = q0 /\ o = o0)) as [[E ->]|Hne].
    + rewrite E in *. rewrite Hl0 in Hl. injection Hl as -> ->.
      apply existsb_exists in Hx as (r & Hr%list_elem_of_In & Hk0). apply list_elem_of_lookup in Hr as [j Hj].
      rewrite lookup_drop in Hj. destruct r as [[k1 v1]|]; [|done]. simpl in Hk0. apply bool_decide_eq_true in Hk0.
      subst k1. apply (Hn (S o0 + j)%nat v1 ltac:(lia)). rewrite Hlg, decide_True by done.
      by rewrite list_lookup_insert_ne by lia.
    + apply (Hn o v Ho). rewrite Hlg. case_decide; [|done]. by rewrite list_lookup_insert_ne by naive_solver.
Qed.

(** An instance learns a template from the wire. *)
Lemma inst_ok_learn lg lost k t x x' l :
  inst_ok lg lost x -> tid_typed k -> learn k t x = (x', l) -> inst_ok lg (lost ++ l) x'.
Proof.
  intros [] Hk. unfold learn. destruct (add_inner k t (i_dec x)) as [d ok] eqn:Ei.
  destruct (add_inner_spec _ _ _ _ _ Ei) as [Hother Hsame].
  assert (Hseen : forall k', lookup_template (i_dec x) k' <> None -> lookup_template d k' <> None).
  { intros k' Hn. destruct (decide (k' = k)) as [->|Hne]; [|by rewrite Hother].
    destruct ok; rewrite Hsame; done. }
  destruct ok.
  - assert (Ha : acceptable k t) by (apply (add_inner_ok k t (i_dec x)); by rewrite Ei).
    unfold enqueue. cbn [set_dec i_queue].
    destruct (encodeTemplate t) as [value|] eqn:Ee; [destruct (_ <? _)%nat|]; intros [= <- <-];
      (constructor; try done; cbn [set_queue set_dec i_dec i_queue];
       [..|intros k' o v Hk' Ho Hl; by apply Hseen, (io_seen0 k' o v)|]).
    + unfold outgoing. cbn [i_put i_queue set_queue set_dec]. rewrite app_assoc. apply Forall_app. split; [done|].
      repeat constructor. by exists k, t.
    + intros k' Hk' Hl [Hqu Hlo]. unfold outgoing in Hqu. cbn [set_queue set_dec i_put i_queue] in Hqu. rewrite app_assoc in Hqu.
      rewrite app_nil_r in Hl. rewrite Hother.
      * apply io_quiet0; [done..|]. split; [|done]. intros e He. apply Hqu. apply elem_of_app. by left.
      * intros ->. apply (Hqu (templateKey k, value)); [|done]. apply elem_of_app. right. by apply list_elem_of_singleton.
    + intros k' Hk' Hl Hqu. rewrite elem_of_app, list_elem_of_singleton in Hl.
      rewrite Hother; [apply io_quiet0; tauto|]. intros ->. tauto.
    + intros k' Hk' Hl Hqu. rewrite elem_of_app, list_elem_of_singleton in Hl.
      rewrite Hother; [apply io_quiet0; tauto|]. intros ->. tauto.
  - intros [= <- <-]. rewrite app_nil_r. constructor; try done; cbn [set_dec i_dec i_queue].
    + intros k' o v Hk' Ho Hl. by apply Hseen, (io_seen0 k' o v).
    + intros k' Hk' Hl Hqu. rewrite <- io_quiet0 by done. destruct (decide (k' = k)) as [->|Hne]; [done|by apply Hother].
Qed.

(** What an offset changes. *)
Lemma deliver_fields q r x :
  outgoing (deliver q r x) = outgoing x /\ i_watch (deliver q r x) = i_watch x /\ i_ends (deliver q r x) = i_ends x /\
  i_dec (deliver q r x) = match r with Some e => apply_entry e.1 e.2 (i_dec x) | None => i_dec x end /\
  (forall q', pos (deliver q r x) q' = if decide (q' = q) then S (pos x q) else pos x q').
Proof.
  assert (Hp : forall q' y, i_pos y = <[q := S (pos x q)]> (i_pos x) ->
    pos y q' = if decide (q' = q) then S (pos x q) else pos x q').
  { intros q' y Hy. unfold pos at 1. rewrite Hy. case_decide as E; [by subst; rewrite lookup_insert_eq|].
    by rewrite lookup_insert_ne. }
  unfold deliver. destruct r as [[key value]|]; cbn [i_remaining]; [|by split_and!; [..|intros q'; apply Hp]].
  destruct (i_remaining x !! q) as [n|]; [destruct (_ <=? _)%nat|]; split_and!; try done; intros q'; by apply Hp.
Qed.

Lemma deliver_remaining q r x :
  (i_remaining (deliver q r x) = i_remaining x /\ i_synced (deliver q r x) = i_synced x) \/
  (exists n, i_remaining x !! q = Some n /\ (n <= S (pos x q))%nat /\
    i_remaining (deliver q r x) = delete q (i_remaining x) /\
    i_synced (deliver q r x) = bool_decide (delete q (i_remaining x) = ∅) || i_synced x).
Proof.
  unfold deliver. destruct r as [[key value]|]; cbn [i_remaining]; [|by left].
  destruct (i_remaining x !! q) as [n|] eqn:En; [|by left]. destruct (Nat.leb_spec n (S (pos x q))); [|by left].
  right. by exists n.
Qed.

Lemma inst_ok_deliver lg lost x q r :
  inst_ok lg lost x -> log_ok q (lg q) -> i_watch x = Watching -> lg q !! pos x q = Some r ->
  inst_ok lg lost (deliver q r x).
Proof.
  intros [] Hlog Hw Hr. destruct (deliver_fields q r x) as (Eq & Ew & Ee & Ed & Ep).
  assert (He : forall e, r = Some e -> entry_ok e /\ part e.1 = q).
  { intros e ->. exact (proj1 (Forall_lookup _ _) Hlog _ _ Hr). }
  (* the value of a key the record is not about *)
  assert (Hother : forall k, valid_tid k -> (forall v, r <> Some (templateKey k, v)) ->
    lookup_template (i_dec (deliver q r x)) k = lookup_template (i_dec x) k).
  { intros k Hk Hne. rewrite Ed. destruct r as [e|]; [|done]. apply apply_entry_other; [done|by apply He|].
    intros E. apply (Hne e.2). rewrite <- E. by destruct e. }
  assert (Hsame : forall k v, valid_tid k -> r = Some (templateKey k, v) ->
    part (templateKey k) = q /\ lookup_template (i_dec (deliver q r x)) k = entry_template (templateKey k, v) /\
    lookup_template (i_dec (deliver q r x)) k <> None).
  { intros k v Hk ->. destruct (He _ eq_refl) as [Hok Hp]. rewrite Ed.
    destruct (apply_entry_same k (templateKey k, v) (i_dec x) Hk Hok eq_refl) as [-> Hn]. by split_and!. }
  assert (Hd : forall k, (exists v, r = Some (templateKey k, v)) \/ (forall v, r <> Some (templateKey k, v))).
  { intros k. destruct r as [[k1 v1]|]; [|by right]. destruct (decide (k1 = templateKey k)) as [->|Hne];
      [left; by exists v1|right; congruence]. }
  constructor; rewrite ?Eq, ?Ew, ?Ee; try done.
  - intros q'. rewrite Ep. specialize (io_pos0 q'). case_decide as E; [subst q'|done]. by apply lookup_lt_Some in Hr.
  - congruence.
  - intros q' n Hn. rewrite Ep. specialize (io_ends0 q' n Hn).
    destruct (deliver_remaining q r x) as [[-> _]|(m & Hm & Hle & -> & _)]; case_decide as E; try subst q'.
    + destruct io_ends0; [by left|right; lia].
    + done.
    + destruct io_ends0 as [E'|]; right; [rewrite E' in Hm; injection Hm as ->|]; lia.
    + by rewrite lookup_delete_ne.
  - intros _ Hs. destruct (deliver_remaining q r x) as [[-> E]|(m & Hm & Hle & -> & E)]; rewrite E in Hs; [by apply io_synced0|].
    apply orb_true_iff in Hs as [Hs|Hs]; [by apply bool_decide_eq_true in Hs|]. by rewrite (io_synced0 Hw Hs) in Hm.
  - intros k o v Hk Ho Hl. destruct (Hd k) as [[v' Hv]|Hn]; [by apply (Hsame k v')|].
    rewrite Hother by done. apply (io_seen0 k o v Hk); [|done]. rewrite Ep in Ho. case_decide as E; [|done].
    rewrite E in Hl. destruct (decide (o = pos x q)) as [->|]; [|rewrite E; lia].
    rewrite Hr in Hl. injection Hl as ->. by destruct (Hn v).
  - intros k Hk Hl [Hqu Hlo]. rewrite Eq in Hqu. destruct (Hd k) as [[v Hv]|Hn].
    + destruct (Hsame k v Hk Hv) as (Hp & -> & _). unfold published. rewrite Hp in *.
      rewrite (last_entry_at (templateKey k) (pos x q) v (lg q)); [done|by rewrite Hr, Hv|].
      intros o v' Ho. apply Hlo. rewrite Ep, decide_True by done. done.
    + rewrite Hother by done. apply io_quiet0; [done..|]. split; [done|]. intros o v Ho Hl'.
      destruct (decide (o = pos x q /\ part (templateKey k) = q)) as [[-> E]|Hne].
      * rewrite E, Hr in Hl'. injection Hl' as ->. by destruct (Hn v).
      * apply (Hlo o v); [|done]. rewrite Ep. case_decide as E; [|done]. rewrite E in Ho.
        destruct (decide (o = pos x q)); [naive_solver|lia].
Qed.

(** *** Steps *)

Definition typed_act (a : act) : Prop := match a with Learn _ k _ => tid_typed k | _ => True end.

(** A step of the system with a typed action. *)
Definition tstep (w w' : world) : Prop := exists a, typed_act a /\ step part a w = Some w'.

Lemma log_of_insert q l logs insts lost q' :
  log_of (mkWorld (<[q := l]> logs) insts lost) q' = if decide (q' = q) then l else default [] (logs !! q').
Proof. unfold log_of. cbn [w_logs]. case_decide as E; [by subst; rewrite lookup_insert_eq|by rewrite lookup_insert_ne]. Qed.

(** One instance changes, the topic does not. *)
Lemma inv_put w i x x' more :
  inv w -> w_insts w !! i = Some x -> (inst_ok (log_of w) (w_lost w) x -> inst_ok (log_of w) (w_lost w ++ more) x') ->
  inv (mkWorld (w_logs w) (<[i := x']> (w_insts w)) (w_lost w ++ more)).
Proof.
  intros [Hl Hi] Hx Hx'. split; [done|]. cbn [w_insts w_lost]. intros j y Hy.
  change (log_of (mkWorld _ _ _)) with (log_of w).
  apply list_lookup_insert_Some in Hy as [(-> & <- & _)|[_ Hy]]; [by apply Hx', (Hi j)|]. by eapply inst_ok_lost, Hi.
Qed.

Lemma inv_put_inst w i x x' :
  inv w -> w_insts w !! i = Some x -> (inst_ok (log_of w) (w_lost w) x -> inst_ok (log_of w) (w_lost w) x') ->
  inv (put_inst i x' w).
Proof.
  intros Hi Hx Hx'. pose proof (inv_put w i x x' [] Hi Hx) as H1. rewrite app_nil_r in H1. by apply H1.
Qed.

Lemma inv_watch_start w x :
  inst_ok (log_of w) (w_lost w) x -> i_watch x = NotWatching -> inst_ok (log_of w) (w_lost w) (watch_start w x).
Proof.
  intros [] Hn. destruct (io_fresh0 Hn) as [Hp Hs].
  assert (Epos : forall q, pos (watch_start w x) q = pos x q) by (intros q; unfold pos; by rewrite Hp).
  constructor; try done; cbn [watch_start i_queue i_dec i_ends i_remaining].
  - intros q. by rewrite Epos.
  - intros q n E. by left.
  - intros _. unfold watch_start. cbn [i_synced]. rewrite Hs, orb_false_r. apply bool_decide_eq_true.
  - intros k o v Hk. rewrite Epos. by apply io_seen0.
  - intros k Hk Hl [Hqu Hlo]. apply io_quiet0; [done..|]. split; [done|]. intros o v. rewrite <- Epos. apply Hlo.
Qed.

Lemma sharing_inv_step w w' : inv w -> tstep w w' -> inv w'.
Proof.
  intros Hi (a & Ha & Hs). destruct a as [i k t|i|i|i|i|i q|i|i timeout|q o]; cbn [step] in Hs.
  - destruct (w_insts w !! i) as [x|] eqn:Ex; [|done]. destruct (i_listen x) eqn:El; [done|..];
      (destruct (learn k t x) as [x' lost] eqn:E; injection Hs as <-; apply (inv_put w i x); [done|done|];
       intros Hx; by eapply inst_ok_learn).
  - destruct (w_insts w !! i) as [x|] eqn:Ex; [|done]. destruct (i_put x) eqn:Ep; [done|]. destruct (i_queue x) as [|e rest] eqn:Eq; [done|].
    injection Hs as <-. apply (inv_put_inst w i x); [done..|]. intros Hx. by apply inst_ok_take.
  - destruct (w_insts w !! i) as [x|] eqn:Ex; [|done]. destruct (i_put x) as [e|] eqn:Ep; [|done]. injection Hs as <-.
    assert (Hok : entry_ok e).
    { pose proof (io_queue _ _ _ (inv_insts w Hi i x Ex)) as Hq. unfold outgoing in Hq. rewrite Ep in Hq. by apply Forall_cons in Hq as [? _]. }
    set (w1 := mkWorld _ _ _).
    assert (Hlg : forall q, log_of w1 q = if decide (q = part e.1) then log_of w q ++ [Some e] else log_of w q).
    { intros q. unfold w1. rewrite log_of_insert. destruct (decide (q = part e.1)) as [E|E]; [by subst q|done]. }
    split.
    + intros q. rewrite Hlg. case_decide as E; [|apply Hi]. apply Forall_app. split; [apply Hi|].
      repeat constructor; [done|]. by rewrite E.
    + intros j y Hy. cbn [w1 w_insts w_lost] in *. apply list_lookup_insert_Some in Hy as [(-> & <- & _)|[_ Hy]].
      * eapply inst_ok_append; [by eapply Hi|by right|exact Hlg].
      * eapply inst_ok_append; [by eapply Hi|by left|exact Hlg].
  - destruct (w_insts w !! i) as [x|] eqn:Ex; [|done]. destruct (i_put x) as [e|] eqn:Ep; [|done]. injection Hs as <-.
    apply (inv_put w i x); [done..|]. intros Hx. by apply inst_ok_drop.
  - destruct (w_insts w !! i) as [x|] eqn:Ex; [|done]. destruct (i_watch x) eqn:Ew; try done. injection Hs as <-.
    apply (inv_put_inst w i x); [done..|]. intros Hx. by apply inv_watch_start.
  - destruct (w_insts w !! i) as [x|] eqn:Ex; [|done]. destruct (i_watch x) eqn:Ew; try done.
    destruct (log_of w q !! pos x q) as [r|] eqn:Er; [|done]. injection Hs as <-.
    apply (inv_put_inst w i x); [done..|]. intros Hx. apply inst_ok_deliver; [done|apply Hi|done..].
  - destruct (w_insts w !! i) as [x|] eqn:Ex; [|done]. destruct (i_watch x) eqn:Ew; try done. injection Hs as <-.
    apply (inv_put_inst w i x); [done..|]. intros []. constructor; cbn; done.
  - destruct (w_insts w !! i) as [x|] eqn:Ex; [|done].
    assert (Hk : forall l, inv (put_inst i (set_listen l x) w))
      by (intros l; apply (inv_put_inst w i x); [done..|]; intros []; by constructor).
    destruct (i_watch x), (i_listen x), timeout, (i_synced x); try done; by injection Hs as <-.
  - destruct (log_of w q !! o) as [[[key value]|]|] eqn:El; try done. destruct (existsb _ _) eqn:Ex; [|done].
    injection Hs as <-. set (w1 := mkWorld _ _ _).
    assert (Hlg : forall q', log_of w1 q' = if decide (q' = q) then <[o := None]> (log_of w q') else log_of w q').
    { intros q'. unfold w1. rewrite log_of_insert. case_decide as E; [by subst q'|done]. }
    split.
    + intros q'. rewrite Hlg. case_decide; [|apply Hi]. apply Forall_insert; [apply Hi|done].
    + intros j y Hy. eapply inst_ok_compact; [by eapply Hi|exact El|exact Ex|exact Hlg].
Qed.

Lemma sharing_inv_init n : inv (init_world n).
Proof.
  split; [intros q; unfold log_of; simpl; rewrite lookup_empty; constructor|]. cbn [init_world w_insts w_lost].
  intros i x [-> _]%lookup_replicate. constructor; try done.
Qed.

Lemma templates_inv n w : star tstep (init_world n) w -> inv w.
Proof. apply star_invariant; [apply sharing_inv_step|apply sharing_inv_init]. Qed.

End invariant.
End laws.

(** C27. What is stored is what is read: a template of any of the three kinds,
    nested to any depth, stored under the key of a valid exporter, installs
    that template for that exporter, version, domain and id and changes no
    other; the key of an invalid exporter is refused. *)
Theorem template_store_roundtrip `{TemplateLaws} k t value d :
  tid_typed k -> encodeTemplate t = Ok value ->
  decodeTemplate value = Ok t /\
  parseTemplateKey (templateKey k) = (if IsValid (t_exporter k) then Ok k else Err errKeyExporter) /\
  (IsValid (t_exporter k) = true -> acceptable k t ->
   lookup_template (apply_entry (templateKey k) value d) k = Some t) /\
  (forall k', k' <> k -> lookup_template (apply_entry (templateKey k) value d) k' = lookup_template d k').
Proof.
  intros Hk He. pose proof (decode_encodeTemplate t value He) as Hd. split; [done|]. split; [by apply parse_templateKey|].
  unfold apply_entry. rewrite parse_templateKey, Hd by done. split.
  - intros -> Ha. apply (add_inner_ok k t d) in Ha. destruct (add_inner k t d) as [d' ok] eqn:E. simpl in Ha. subst ok.
    by apply (add_inner_spec _ _ _ _ _ E).
  - intros k' Hne. destruct (IsValid (t_exporter k)); [|done]. destruct (add_inner k t d) as [d' ok] eqn:E.
    by apply (add_inner_spec _ _ _ _ _ E).
Qed.

(** C25. Convergence. In every state the collectors can reach, whatever the
    order of learning, publishing, delivery and compaction: an instance with
    nothing about a key on its way (no entry queued, none being put into the
    store, no record of the key ahead of its offset) uses exactly the template the topic holds last for
    it, unless a publication of that key was lost (queue full, encoding or
    Put failed); so any two such instances use the same template. *)
Theorem templates_converge `{TemplateLaws} part n w i j x y k :
  star (tstep part) (init_world n) w -> w_insts w !! i = Some x -> w_insts w !! j = Some y ->
  valid_tid k -> templateKey k ∉ w_lost w -> quiet part (log_of w) x k -> quiet part (log_of w) y k ->
  lookup_template (i_dec x) k = published part (log_of w) k /\ lookup_template (i_dec x) k = lookup_template (i_dec y) k.
Proof.
  intros Hr Hx Hy Hk Hl Qx Qy. apply templates_inv in Hr as [_ Hi].
  rewrite (io_quiet _ _ _ _ (Hi i x Hx) k Hk Hl Qx), (io_quiet _ _ _ _ (Hi j y Hy) k Hk Hl Qy). done.
Qed.

(** C26. The replay is complete. When Watch has reported the replay done, the
    instance has passed every end offset listed when it began, and has a
    template for the key of every record still stored below them. *)
Theorem replay_complete `{TemplateLaws} part n w i x :
  star (tstep part) (init_world n) w -> w_insts w !! i = Some x -> i_watch x = Watching -> i_synced x = true ->
  forall q m, i_ends x !! q = Some m ->
  (m <= pos x q)%nat /\
  forall k o v, valid_tid k -> part (templateKey k) = q -> (o < m)%nat ->
    log_of w q !! o = Some (Some (templateKey k, v)) -> lookup_template (i_dec x) k <> None.
Proof.
  intros Hr Hx Hw Hs q m Hm. apply templates_inv in Hr as [_ Hi]. specialize (Hi i x Hx).
  assert (Hp : (m <= pos x q)%nat).
  { destruct (io_ends _ _ _ _ Hi q m Hm) as [E|]; [|done]. by rewrite (io_synced _ _ _ _ Hi Hw Hs), lookup_empty in E. }
  split; [done|]. intros k o v Hk <- Ho Hl. by apply (io_seen _ _ _ _ Hi k o v Hk); [lia|].
Qed.

(** ** A reference instance, for the witnesses *)

Module Ref.

(** A record is the length of its one field. *)
#[export] Instance types : TemplateTypes := {|
  TemplateRecord := Z; NFv9OptionsTemplateRecord := unit; IPFIXOptionsTemplateRecord := unit;
  marshal_T := fun n => if (0 <=? n) && (n <? 65536)
    then Some (JObj [(tx "fields", JArr [JObj [(tx "length", JNum (print_dec n))]])]) else None;
  marshal_9 := fun _ => Some JNull; marshal_X := fun _ => Some (JArr []);
  unmarshal_T := fun j => match j with JObj [(_, JArr [JObj [(_, JNum lit)]])] => ParseUint 16 lit | _ => None end;
  unmarshal_9 := fun _ => Some tt; unmarshal_X := fun _ => Some tt |}.

#[export] Instance goflow2 : Goflow2 := {|
  gf_error := unit; TemplateSystem := gmap (Z * Z * Z) template; CreateTemplateSystem := ∅;
  DecodeMessageV5 := fun _ => Err tt; DecodeMessageTemplated := fun _ ts => (ts, Err tt) |}.

Definition add (v d i : Z) (t : template) (ts : gmap (Z * Z * Z) template) : option (gmap (Z * Z * Z) template) :=
  Some (<[(v, d, i) := t]> ts).
Definition get (v d i : Z) (ts : gmap (Z * Z * Z) template) : option template := ts !! (v, d, i).

#[export] Instance systems : @TemplateSystems goflow2 types := @Build_TemplateSystems goflow2 types add get.

#[export] Instance laws : TemplateLaws.
Proof.
  split; cbn.
  - intros n j Hj. destruct ((0 <=? n) && (n <? 65536)) eqn:E; [|done]. injection Hj as <-.
    assert (Hn : is_uint 16 n) by (unfold is_uint; lia). split; [|by apply ParseUint_print].
    assert (Hlen : readable (JObj [(tx "length", JNum (print_dec n))])).
    { apply object_readable. apply List.Forall_cons; [|apply List.Forall_nil].
      split; cbn [fst snd]; [apply plain_raw; cbn; plains|]. apply scalar_readable, JNum_ok. apply Hn. }
    apply object_readable. apply List.Forall_cons; [|apply List.Forall_nil].
    split; cbn [fst snd]; [apply plain_raw; cbn; plains|].
    apply array_readable. apply List.Forall_cons; [done|apply List.Forall_nil].
  - intros [] j [= <-]. split; [apply scalar_readable, JNull_ok|done].
  - intros [] j [= <-]. split; [apply array_readable; constructor|done].
  - intros v d i. apply lookup_empty.
  - intros v d i t ts ts' [= <-]. apply lookup_insert_eq.
  - intros v d i t ts ts' v' d' i' Hne [= <-]. by apply lookup_insert_ne.
  - by intros.
Qed.

(** Two exporters' templates; two collectors. *)
Definition k1 : template_id := mkTid (Addr4 3221225985) 10 7 256.
Definition t1 : template := TplRecord 4.
Definition t2 : template := TplRecord 8.

Lemma k1_valid : valid_tid k1.
Proof. split; [|reflexivity]. vm_compute. intuition congruence. Qed.

Definition run_acts (acts : list act) (w : world) : option world := run_script (step (fun _ => 0%nat)) acts w.

Lemma run_acts_star acts w w' : Forall typed_act acts -> run_acts acts w = Some w' -> star (tstep (fun _ => 0%nat)) w w'.
Proof.
  intros Ht. revert w. induction Ht as [|a acts Ha _ IH]; intros w; [by intros [= ->]; constructor|].
  unfold run_acts. cbn [run_script]. destruct (step _ a w) as [w1|] eqn:E; [|done]. intros Hr.
  eapply star_trans; [apply star_one; by exists a|by apply IH].
Qed.

(** Both learn a template for the same key; the topic orders them; the older
    record is compacted away before the second instance reads it. *)
Definition script : list act :=
  [WatchStart 0; WatchStart 1; Listen 0 false; Listen 1 false; Learn 0 k1 t1; Learn 1 k1 t2; Publish 0; Publish 1; PutLands 0;
   PutLands 1; Deliver 0 0; Compact 0 0; Deliver 0 0; Deliver 1 0; Deliver 1 0].

Definition replay : list act :=
  [WatchStart 0; Listen 0 false; Learn 0 k1 t1; Publish 0; PutLands 0; WatchStart 1; Deliver 1 0].

(** The second instance's watch fails before its first record. *)
Definition failing : list act :=
  [WatchStart 0; Listen 0 false; Learn 0 k1 t1; Publish 0; PutLands 0; WatchStart 1; WatchFail 1; Listen 1 false].

Lemma typed_acts : Forall typed_act script /\ Forall typed_act replay.
Proof.
  pose proof (proj1 k1_valid).
  split; repeat (apply List.Forall_cons || apply List.Forall_nil); (exact I || assumption).
Qed.

(** What is observed of a run: of each instance the number of outgoing entries, the watch,
    the offset, the listed end, the flags and the template for [k1]; then the
    lengths of the topic and of the list of lost keys. *)
Record view := mkView {
  v_queue : nat; v_watch : watch_state; v_pos : nat; v_end : option nat; v_synced : bool; v_listen : listen_state;
  v_template : option Z
}.

Definition length_of (t : option template) : option Z := match t with Some (TplRecord n) => Some n | _ => None end.

Definition view_of (x : instance) : view :=
  mkView (length (outgoing x)) (i_watch x) (pos x 0) (i_ends x !! 0%nat) (i_synced x) (i_listen x)
    (length_of (lookup_template (i_dec x) k1)).

Definition summary (w : world) : list view * nat * nat := (view_of <$> w_insts w, length (log_of w 0), length (w_lost w)).

Lemma script_runs : summary <$> run_acts script (init_world 2) =
  Some ([mkView 0 Watching 2 None true ListeningSynced (Some 8); mkView 0 Watching 2 None true ListeningSynced (Some 8)], 2%nat, 0%nat).
Proof. vm_compute. reflexivity. Qed.

Lemma replay_runs : summary <$> run_acts replay (init_world 2) =
  Some ([mkView 0 Watching 0 None true ListeningSynced (Some 4); mkView 0 Watching 1 (Some 1%nat) true NotListening (Some 4)], 1%nat, 0%nat).
Proof. vm_compute. reflexivity. Qed.

(** A run with a summary, taken apart. *)
Lemma runs_inv acts vx vy nl no : summary <$> run_acts acts (init_world 2) = Some ([vx; vy], nl, no) ->
  exists w x y, run_acts acts (init_world 2) = Some w /\ w_insts w !! 0%nat = Some x /\ w_insts w !! 1%nat = Some y /\
  view_of x = vx /\ view_of y = vy /\ length (log_of w 0) = nl /\ length (w_lost w) = no.
Proof.
  destruct (run_acts acts (init_world 2)) as [w|]; [|done]. intros E. apply (inj Some) in E.
  unfold summary in E. injection E as E1 E2 E3. destruct (w_insts w) as [|x [|y [|]]] eqn:Ei; try done.
  injection E1 as E1 E1'. exists w, x, y. by rewrite Ei.
Qed.

(** Nothing outgoing and an offset at the end. *)
Lemma drained_quiet w x : length (outgoing x) = 0%nat -> (length (log_of w 0) <= pos x 0)%nat -> quiet (fun _ => 0%nat) (log_of w) x k1.
Proof.
  intros Hq Hp. split; [intros e He; apply nil_length_inv in Hq; rewrite Hq in He; by apply elem_of_nil in He|].
  intros o v Ho Hl. apply lookup_lt_Some in Hl. lia.
Qed.

End Ref.
Import Ref.

Lemma template_store_roundtrip_witness :
  exists value, encodeTemplate t1 = Ok value /\ decodeTemplate value = Ok t1 /\
  lookup_template (apply_entry (templateKey k1) value ∅) k1 = Some t1.
Proof.
  eexists. split; [reflexivity|].
  destruct (template_store_roundtrip k1 t1 _ ∅ (proj1 k1_valid) eq_refl) as (H1 & _ & H2 & _).
  split; [exact H1|]. apply H2; [reflexivity|]. exists ∅. by eexists.
Defined.

Lemma templates_converge_witness :
  exists w x y, run_acts script (init_world 2) = Some w /\ w_insts w !! 0%nat = Some x /\ w_insts w !! 1%nat = Some y /\
  length_of (lookup_template (i_dec x) k1) = Some 8 /\ lookup_template (i_dec x) k1 = lookup_template (i_dec y) k1.
Proof.
  destruct (runs_inv _ _ _ _ _ script_runs) as (w & x & y & E & Ex & Ey & Vx & Vy & Hl & Ho).
  exists w, x, y. split; [exact E|]. split; [exact Ex|]. split; [exact Ey|]. split; [exact (f_equal v_template Vx)|].
  apply (templates_converge (fun _ => 0%nat) 2 w 0 1 x y k1).
  - exact (run_acts_star _ _ _ (proj1 typed_acts) E).
  - exact Ex.
  - exact Ey.
  - exact k1_valid.
  - apply nil_length_inv in Ho. rewrite Ho. apply not_elem_of_nil.
  - apply drained_quiet; [exact (f_equal v_queue Vx)|]. rewrite Hl. exact (eq_ind_r (fun n => 2 <= n)%nat (le_n 2) (f_equal v_pos Vx)).
  - apply drained_quiet; [exact (f_equal v_queue Vy)|]. rewrite Hl. exact (eq_ind_r (fun n => 2 <= n)%nat (le_n 2) (f_equal v_pos Vy)).
Defined.

Lemma replay_complete_witness :
  exists w x y, run_acts replay (init_world 2) = Some w /\ w_insts w !! 0%nat = Some x /\ w_insts w !! 1%nat = Some y /\
  (1 <= pos y 0)%nat.
Proof.
  destruct (runs_inv _ _ _ _ _ replay_runs) as (w & x & y & E & Ex & Ey & Vx & Vy & Hl & Ho).
  exists w, x, y. split; [exact E|]. split; [exact Ex|]. split; [exact Ey|].
  apply (replay_complete (fun _ => 0%nat) 2 w 1 y).
  - exact (run_acts_star _ _ _ (proj2 typed_acts) E).
  - exact Ey.
  - exact (f_equal v_watch Vy).
  - exact (f_equal v_synced Vy).
  - exact (f_equal v_end Vy).
Defined.

(** When the watch fails, [startSharing] is released by the same channel as
    after a completed replay: the instance listens as if synced, without a
    template that the topic held when it started. *)
Theorem watch_failure_looks_synced :
  summary <$> run_acts failing (init_world 2) =
  Some ([mkView 0 Watching 0 None true ListeningSynced (Some 4);
         mkView 0 WatchStopped 0 (Some 1%nat) true ListeningSynced None], 1%nat, 0%nat).
Proof. vm_compute. reflexivity. Qed.
