(* ===== verification/ClickHouse.v ===== *)
(** * The ClickHouse store: [internal/sink/clickhouse/clickhouse.go] and its schema

    A ReplacingMergeTree keeps the parts that inserts wrote and merges them in
    the background; a read with FINAL sees, of the rows with one sorting key
    [(received_at, seq)], the last. The table computes [seq]: the first eight
    bytes of the dedup key, or a random number. The [exporters] table is an
    AggregatingMergeTree: the least first and the greatest last sight. Labels,
    which only an operator sets, are left out. *)

From S2P Require Import Prelude GoTime Netip Flow Rows Store Exporters.

(** ** The table [flow_records] *)

(** [reinterpretAsUInt64]: least significant byte first. *)
Definition le_val (b : list byte) : Z := be_val (rev b).

(** The MATERIALIZED column; [rand] is what [rand64()] returns for the row. *)
Definition materialize (rand : Z) (row : ChRow) : Z :=
  if bool_decide (ch_dedup_key row = []) then u64 rand else le_val (take 8 (ch_dedup_key row)).

Abbreviation srow := (Z * ChRow)%type.
Definition sort_key (x : srow) : Z * Z := (ch_received_at x.2, x.1).

(** PARTITION BY toDate(received_at). *)
Definition day (x : srow) : Z := ch_received_at x.2 / 86400000000.

(** A partition is its parts, oldest first. *)
Abbreviation ch_table := (gmap Z (list (list srow))).
Definition parts (t : ch_table) (d : Z) : list (list srow) := default [] (t !! d).

(** Of the rows with one sorting key, the last. *)
Definition keyed_in (x : srow) (l : list srow) : bool := existsb (fun y => bool_decide (sort_key y = sort_key x)) l.
Fixpoint keep_last (l : list srow) : list srow :=
  match l with
  | [] => []
  | x :: r => if keyed_in x r then keep_last r else x :: keep_last r
  end.

Definition of_day (d : Z) (l : list srow) : list srow := List.filter (fun x => day x =? d) l.

(** One INSERT: a part in every partition the block has rows for. *)
Definition insert_block (l : list srow) (t : ch_table) : ch_table :=
  foldl (fun t d => <[d := parts t d ++ [of_day d l]]> t) t (remove_dups (day <$> l)).

(** A merge of [n] consecutive parts of a partition into one. *)
Definition merge_parts (d : Z) (i n : nat) (t : ch_table) : ch_table :=
  let ps := parts t d in
  <[d := take i ps ++ [keep_last (concat (take n (drop i ps)))] ++ drop (i + n) ps]> t.

(** What FINAL shows of a partition. *)
Definition final_day (t : ch_table) (d : Z) : list srow := keep_last (concat (parts t d)).

(** The rows of a SELECT ... FINAL, in any order. *)
Definition selects (t : ch_table) (rows : list srow) : Prop := forall d, of_day d rows ≡ₚ final_day t d.

(** ** The table [exporters] *)

Record ch_exp := mkChExp { cx_id : Z; cx_addr : list byte; cx_first : Time; cx_last : Time }.

Definition earliest (a b : Time) : Time := if Before b a then b else a.

(** Two rows of one address, merged. *)
Definition agg (a b : ch_exp) : ch_exp :=
  mkChExp (cx_id a) (cx_addr a) (earliest (cx_first a) (cx_first b)) (greatest (cx_last a) (cx_last b)).

(** [touchExporters]: one row per exporter of the batch. *)
Definition exporter_row (x : Addr * Time) : ch_exp := mkChExp (exporterID x.1) (As16 x.1) x.2 x.2.

(** What FINAL shows of an address. *)
Fixpoint agg_all (l : list ch_exp) : option ch_exp :=
  match l with
  | [] => None
  | x :: r => match agg_all r with Some y => Some (agg x y) | None => Some x end
  end.
Definition final_exporter (l : list ch_exp) (a : list byte) : option ch_exp :=
  agg_all (filter (fun x => cx_addr x = a) l).

(** A background merge combines two rows of one address. *)
Inductive exp_merge : list ch_exp -> list ch_exp -> Prop :=
| exp_merge_intro l m k x y : cx_addr x = cx_addr y -> exp_merge (l ++ x :: m ++ y :: k) (l ++ agg x y :: m ++ k).

(** ** [WriteBatch] *)

Record ch_backend := mkChBackend { cb_flows : ch_table; cb_exporters : list ch_exp }.

Inductive ch_error :=
| ChPrepareExporters | ChAppendExporter | ChSendExporters (landed : bool)
| ChPrepare | ChAppend | ChSend (landed : bool).

(** [rand i] is the random number of row [i]; [order] is the order in which the
    map of exporters is ranged over. *)
Definition block_of (rand : nat -> Z) (records : list FlowRecord) : list srow :=
  imap (fun i r => let row := ch_insertRow r in (materialize (rand i) row, row)) records.

Definition touchExporters (fail : option ch_error) (order : list (Addr * Time)) (b : ch_backend)
  : ch_backend * option ch_error :=
  let b' := mkChBackend (cb_flows b) (cb_exporters b ++ (exporter_row <$> order)) in
  match fail with
  | Some (ChPrepareExporters as e) | Some (ChAppendExporter as e) => (b, Some e)
  | Some (ChSendExporters landed as e) => (if landed then b' else b, Some e)
  | _ => (b', None)
  end.

Definition ch_WriteBatch (fail : option ch_error) (order : list (Addr * Time)) (rand : nat -> Z)
  (records : list FlowRecord) (b : ch_backend) : ch_backend * option ch_error :=
  if bool_decide (records = []) then (b, None)
  else
    match touchExporters fail order b with
    | (b, Some e) => (b, Some e)
    | (b, None) =>
      let b' := mkChBackend (insert_block (block_of rand records) (cb_flows b)) (cb_exporters b) in
      match fail with
      | Some (ChPrepare as e) | Some (ChAppend as e) => (b, Some e)
      | Some (ChSend landed as e) => (if landed then b' else b, Some e)
      | _ => (b', None)
      end
    end.

(** ** [ListExporters] of the three backends *)

Definition by_id (x y : Exporter) : Prop := e_ID x <= e_ID y.
#[global] Instance by_id_dec x y : Decision (by_id x y).
Proof. unfold by_id. apply _. Defined.

(** PostgreSQL's [inet], MariaDB's bytes. *)
Definition pg_ListExporters (t : exp_table) : list Exporter :=
  merge_sort by_id ((fun ar => mkExporter (x_id ar.2) ar.1 None (UTC (x_first ar.2)) (UTC (x_last ar.2)))
    <$> map_to_list (x_rows t)).
Definition my_ListExporters (t : exp_table) : list Exporter :=
  merge_sort by_id ((fun ar => mkExporter (x_id ar.2) (AddrFromSlice (AsSlice ar.1)).1 None
    (UTC (x_first ar.2)) (UTC (x_last ar.2))) <$> map_to_list (x_rows t)).

(** ClickHouse: one row per address. *)
Definition ch_ListExporters (l : list ch_exp) : list Exporter :=
  merge_sort by_id (omap (fun a =>
    (fun x => mkExporter (i64 (cx_id x)) (Unmap (AddrFrom16 (cx_addr x))) None (UTC (cx_first x)) (UTC (cx_last x)))
    <$> final_exporter l a) (remove_dups (cx_addr <$> l))).
