(* ===== verification/ClickHouseThms.v ===== *)
(** * Properties of the ClickHouse store and of the lists of exporters *)

From S2P Require Import Prelude GoTime Netip Flow Rows Store Exporters ClickHouse.

(** ** The last row of each key *)

Lemma keyed_in_spec x l : keyed_in x l = true <-> exists y, y ∈ l /\ sort_key y = sort_key x.
Proof.
  unfold keyed_in. rewrite existsb_exists. by setoid_rewrite <- list_elem_of_In; setoid_rewrite bool_decide_eq_true.
Qed.

Lemma keyed_in_app x l k : keyed_in x (l ++ k) = keyed_in x l || keyed_in x k.
Proof. apply existsb_app. Qed.

Lemma keyed_in_key x y l : sort_key x = sort_key y -> keyed_in x l = keyed_in y l.
Proof. intros E. unfold keyed_in. by rewrite E. Qed.

Lemma keyed_in_keep_last x l : keyed_in x (keep_last l) = keyed_in x l.
Proof.
  induction l as [|y l IH]; [done|]. cbn [keep_last]. unfold keyed_in at 3. cbn [existsb]. fold (keyed_in x l).
  destruct (keyed_in y l) eqn:E.
  - rewrite IH. case_bool_decide as Ek; [|done]. by rewrite <- (keyed_in_key y x l Ek), E.
  - unfold keyed_in at 1. cbn [existsb]. fold (keyed_in x (keep_last l)). by rewrite IH.
Qed.

Lemma keep_last_app l k :
  keep_last (l ++ k) = List.filter (fun x => negb (keyed_in x k)) (keep_last l) ++ keep_last k.
Proof.
  induction l as [|x l IH]; [done|]. cbn [keep_last app]. rewrite keyed_in_app, IH.
  destruct (keyed_in x l); [done|]. cbn [orb List.filter]. by destruct (keyed_in x k).
Qed.

Lemma keep_last_keys l : NoDup (sort_key <$> keep_last l).
Proof.
  induction l as [|x l IH]; [constructor|]. cbn [keep_last]. destruct (keyed_in x l) eqn:E; [done|].
  rewrite fmap_cons. constructor; [|done]. intros (y & Ey & Hy)%list_elem_of_fmap.
  assert (keyed_in x (keep_last l) = true) as E' by (apply keyed_in_spec; by exists y).
  by rewrite keyed_in_keep_last, E in E'.
Qed.

Lemma keep_last_id l : NoDup (sort_key <$> l) -> keep_last l = l.
Proof.
  induction l as [|x l IH]; [done|]. rewrite fmap_cons. intros [Hx Hl]%NoDup_cons. cbn [keep_last].
  destruct (keyed_in x l) eqn:E; [|by rewrite IH]. apply keyed_in_spec in E as (y & Hy & Ey).
  destruct Hx. apply list_elem_of_fmap. by exists y.
Qed.

(** Merging a run of parts changes nothing. *)
Lemma keep_last_merge l k m : keep_last (l ++ keep_last k ++ m) = keep_last (l ++ k ++ m).
Proof.
  rewrite !(keep_last_app l), !(keep_last_app _ m). f_equal.
  - apply filter_ext. intros x. by rewrite !keyed_in_app, keyed_in_keep_last.
  - by rewrite (keep_last_id (keep_last k)) by apply keep_last_keys.
Qed.

Lemma key_day x y : sort_key x = sort_key y -> day x = day y.
Proof. unfold sort_key, day. by intros [= -> _]. Qed.

Lemma keyed_in_day x d l : day x = d -> keyed_in x (of_day d l) = keyed_in x l.
Proof.
  intros <-. induction l as [|y l IH]; [done|]. unfold of_day. cbn [List.filter]. fold (of_day (day x) l).
  unfold keyed_in at 2. cbn [existsb]. fold (keyed_in x l). rewrite <- IH.
  destruct (Z.eqb_spec (day y) (day x)) as [E|E]; [done|].
  rewrite bool_decide_eq_false_2; [done|]. intros Ek. by apply E, key_day.
Qed.

Lemma of_day_keep_last d l : of_day d (keep_last l) = keep_last (of_day d l).
Proof.
  induction l as [|x l IH]; [done|]. cbn [keep_last]. unfold of_day at 2. cbn [List.filter]. fold (of_day d l).
  destruct (Z.eqb_spec (day x) d) as [E|E].
  - cbn [keep_last]. rewrite keyed_in_day by done. destruct (keyed_in x l); [done|].
    unfold of_day at 1. cbn [List.filter]. rewrite (proj2 (Z.eqb_eq _ _) E). by rewrite <- IH.
  - destruct (keyed_in x l); [done|]. unfold of_day at 1. cbn [List.filter]. by rewrite (proj2 (Z.eqb_neq _ _) E).
Qed.

Lemma of_day_app d l k : of_day d (l ++ k) = of_day d l ++ of_day d k.
Proof. apply List.filter_app. Qed.

Lemma of_day_elem d l x : x ∈ of_day d l <-> x ∈ l /\ day x = d.
Proof. unfold of_day. rewrite !list_elem_of_In, filter_In, Z.eqb_eq. done. Qed.

#[export] Instance of_day_perm d : Proper (Permutation ==> Permutation) (of_day d).
Proof.
  intros l k. unfold of_day. induction 1 as [|x l k _ IH|x y l|]; cbn [List.filter]; [done|..].
  - destruct (day x =? d); [by constructor|done].
  - destruct (day x =? d), (day y =? d); done || constructor.
  - by etrans.
Qed.

(** Lists that agree on every day are permutations. *)
Lemma perm_by_day l k : (forall d, of_day d l ≡ₚ of_day d k) -> l ≡ₚ k.
Proof.
  revert k. induction l as [|x l IH]; intros k H.
  - destruct k as [|y k]; [done|]. specialize (H (day y)). unfold of_day in H. cbn [List.filter] in H.
    rewrite Z.eqb_refl in H. by apply Permutation_nil_cons in H.
  - assert (Hx : x ∈ k).
    { apply (of_day_elem (day x)). rewrite <- (H (day x)). apply of_day_elem. split; [left|done]. }
    apply elem_of_Permutation in Hx as [k' Hk]. rewrite Hk. constructor. apply IH. intros d.
    specialize (H d). assert (Hd : of_day d k ≡ₚ of_day d (x :: k')) by (by rewrite Hk).
    rewrite Hd in H. unfold of_day in *. cbn [List.filter] in H. destruct (day x =? d); [|done].
    by apply Permutation_cons_inv in H.
Qed.

(** ** The table under inserts and merges *)

Lemma parts_insert t d ps d' : parts (<[d := ps]> t) d' = if decide (d' = d) then ps else parts t d'.
Proof. unfold parts. case_decide as E; [by subst; rewrite lookup_insert_eq|by rewrite lookup_insert_ne]. Qed.

Lemma insert_days l ds t d : NoDup ds ->
  parts (foldl (fun t d => <[d := parts t d ++ [of_day d l]]> t) t ds) d =
  if decide (d ∈ ds) then parts t d ++ [of_day d l] else parts t d.
Proof.
  intros Hn. revert t. induction Hn as [|d0 ds Hd _ IH]; intros t; cbn [foldl].
  - by rewrite decide_False by apply not_elem_of_nil.
  - rewrite IH, parts_insert. destruct (decide (d = d0)) as [->|Hne].
    + rewrite (decide_False (P := d0 ∈ ds)) by done. by rewrite decide_True by left.
    + destruct (decide (d ∈ ds)); [by rewrite decide_True by (by right)|].
      rewrite decide_False; [done|]. rewrite elem_of_cons. tauto.
Qed.

Lemma insert_block_concat l t d : concat (parts (insert_block l t) d) = concat (parts t d) ++ of_day d l.
Proof.
  unfold insert_block. rewrite insert_days by apply NoDup_remove_dups. case_decide as E.
  - rewrite concat_app. cbn [concat]. by rewrite app_nil_r.
  - assert (Hn : of_day d l = []); [|by rewrite Hn, app_nil_r].
    destruct (of_day d l) as [|x k] eqn:Ek; [done|]. destruct E. rewrite elem_of_remove_dups, list_elem_of_fmap.
    assert (Hx : x ∈ of_day d l) by (rewrite Ek; by left). apply of_day_elem in Hx as [Hx <-]. by exists x.
Qed.

Lemma merge_final d i n t d' : final_day (merge_parts d i n t) d' = final_day t d'.
Proof.
  unfold final_day, merge_parts. rewrite parts_insert. case_decide as E; [subst d'|done].
  rewrite !concat_app. cbn [concat]. rewrite app_nil_r, keep_last_merge, <- !concat_app. f_equal. f_equal.
  rewrite <- drop_drop, take_drop, take_drop. done.
Qed.

(** ** A history of the backend *)

Inductive ch_op :=
| OWrite (fail : option ch_error) (order : list (Addr * Time)) (rand : nat -> Z) (records : list FlowRecord)
| OMerge (d : Z) (i n : nat).

Definition run_op (b : ch_backend) (o : ch_op) : ch_backend :=
  match o with
  | OWrite fail order rand records => (ch_WriteBatch fail order rand records b).1
  | OMerge d i n => mkChBackend (merge_parts d i n (cb_flows b)) (cb_exporters b)
  end.
Definition run_ops (ops : list ch_op) : ch_backend := foldl run_op (mkChBackend ∅ []) ops.

(** The rows an operation put into the table. *)
Definition lands (fail : option ch_error) : bool :=
  match fail with None => true | Some (ChSend landed) => landed | Some _ => false end.
Definition inserted_by (o : ch_op) : list srow :=
  match o with
  | OWrite fail _ rand records => if lands fail then block_of rand records else []
  | OMerge _ _ _ => []
  end.
Definition inserted (ops : list ch_op) : list srow := concat (inserted_by <$> ops).

Lemma inserted_app ops ops' : inserted (ops ++ ops') = inserted ops ++ inserted ops'.
Proof. unfold inserted. by rewrite fmap_app, concat_app. Qed.

Lemma write_flows fail order rand records b d :
  final_day (cb_flows (run_op b (OWrite fail order rand records))) d =
  keep_last (concat (parts (cb_flows b) d) ++ of_day d (inserted_by (OWrite fail order rand records))).
Proof.
  cbn [run_op inserted_by]. unfold ch_WriteBatch. case_bool_decide as E.
  - subst records. destruct (lands fail); cbn; by rewrite app_nil_r.
  - unfold touchExporters, final_day.
    destruct fail as [[| |[]| | |[]]|]; cbn [lands fst cb_flows]; rewrite ?insert_block_concat; try done;
      unfold of_day; cbn [List.filter]; by rewrite app_nil_r.
Qed.

Lemma final_day_ops ops d : final_day (cb_flows (run_ops ops)) d = of_day d (keep_last (inserted ops)).
Proof.
  rewrite of_day_keep_last. induction ops as [|o ops IH] using rev_ind.
  - unfold run_ops, final_day, parts. simpl. by rewrite lookup_empty.
  - unfold run_ops in *. rewrite foldl_app. cbn [foldl]. rewrite inserted_app, of_day_app.
    change (inserted [o]) with (inserted_by o ++ []). rewrite app_nil_r. destruct o as [fail order rand records|d' i n].
    + rewrite write_flows. unfold final_day in IH. rewrite !keep_last_app, IH.
      rewrite <- (keep_last_app (of_day d (inserted ops))). done.
    + cbn [run_op cb_flows inserted_by]. rewrite merge_final, IH. unfold of_day at 3. cbn [List.filter]. by rewrite app_nil_r.
Qed.

Lemma selects_rows ops rows : selects (cb_flows (run_ops ops)) rows <-> rows ≡ₚ keep_last (inserted ops).
Proof.
  unfold selects. setoid_rewrite final_day_ops. split; [apply perm_by_day|].
  intros H d. by rewrite H.
Qed.

(** ** The reference insertion *)

(** No two rows share a sorting key by chance, and rows that share a dedup key
    are one record delivered again. *)
Definition faithful (l : list srow) : Prop :=
  forall i j x y, (i < j)%nat -> l !! i = Some x -> l !! j = Some y ->
  (sort_key x = sort_key y <-> same_key x.2 y.2 = true) /\ (same_key x.2 y.2 = true -> x = y).

Definition consistent (l : list srow) : Prop := forall x y, x ∈ l -> y ∈ l -> sort_key x = sort_key y -> x = y.

Lemma faithful_consistent l : faithful l -> consistent l.
Proof.
  intros Hf x y [i Hi]%list_elem_of_lookup [j Hj]%list_elem_of_lookup E.
  destruct (lt_eq_lt_dec i j) as [[Hlt| ->]|Hgt].
  - destruct (Hf i j x y Hlt Hi Hj) as [Hk He]. by apply He, Hk.
  - congruence.
  - destruct (Hf j i y x Hgt Hj Hi) as [Hk He]. symmetry. by apply He, Hk.
Qed.

Lemma faithful_tail l x k : faithful (l ++ x :: k) -> faithful (l ++ k).
Proof.
  assert (Hm : forall i z, (l ++ k) !! i = Some z ->
    (l ++ x :: k) !! (if (i <? length l)%nat then i else S i) = Some z).
  { intros i z Hz. destruct (Nat.ltb_spec i (length l)).
    - rewrite lookup_app_l in * by lia. done.
    - rewrite lookup_app_r in * by lia. rewrite Nat.sub_succ_l by lia. done. }
  intros Hf i j y z Hij Hy Hz. apply Hm in Hy, Hz. refine (Hf _ _ y z _ Hy Hz).
  destruct (Nat.ltb_spec i (length l)), (Nat.ltb_spec j (length l)); lia.
Qed.

(** The first row of each key. *)
Fixpoint keep_first (present l : list srow) : list srow :=
  match l with
  | [] => []
  | x :: r => if keyed_in x present then keep_first present r else x :: keep_first (present ++ [x]) r
  end.

Lemma keep_first_reference present l :
  faithful (present ++ l) -> (keep_first present l).*2 = dedup_rows present.*2 l.*2.
Proof.
  revert present. induction l as [|x l IH]; intros present Hf; [done|]. cbn [keep_first fmap list_fmap dedup_rows].
  assert (E : keyed_in x present = existsb (same_key x.2) present.*2).
  { apply eq_true_iff_eq. rewrite keyed_in_spec, existsb_exists. setoid_rewrite <- list_elem_of_In. split.
    - intros (y & [i Hi]%list_elem_of_lookup & Ey). exists y.2. split; [apply list_elem_of_fmap; exists y; split; [done|by eapply list_elem_of_lookup_2]|].
      rewrite same_key_sym. apply (Hf i (length present) y x); [by eapply lookup_lt_Some| |by rewrite lookup_app_r, Nat.sub_diag by lia|done].
      rewrite lookup_app_l; [done|by eapply lookup_lt_Some].
    - intros (r & (y & -> & [i Hi]%list_elem_of_lookup)%list_elem_of_fmap & Ek). exists y. split; [by eapply list_elem_of_lookup_2|].
      rewrite same_key_sym in Ek. apply (Hf i (length present) y x); [by eapply lookup_lt_Some| |by rewrite lookup_app_r, Nat.sub_diag by lia|done].
      rewrite lookup_app_l; [done|by eapply lookup_lt_Some]. }
  rewrite E. destruct (existsb _ _); [by apply IH; eapply faithful_tail|].
  cbn [fmap list_fmap]. f_equal. rewrite IH by (by rewrite <- app_assoc). by rewrite fmap_app.
Qed.

Lemma keep_first_elem present l x :
  consistent (present ++ l) -> x ∈ keep_first present l <-> x ∈ l /\ keyed_in x present = false.
Proof.
  revert present. induction l as [|y l IH]; intros present Hc; cbn [keep_first].
  - split; [by intros ?%elem_of_nil|by intros [?%elem_of_nil _]].
  - assert (Hc' : consistent (present ++ l)).
    { intros u v Hu Hv. apply Hc; rewrite elem_of_app, elem_of_cons; rewrite elem_of_app in Hu, Hv; tauto. }
    destruct (keyed_in y present) eqn:E.
    + rewrite IH, elem_of_cons by done. split; [tauto|]. intros [[->|Hx] Hn]; [congruence|done].
    + rewrite elem_of_cons, IH by (by rewrite <- app_assoc). rewrite keyed_in_app, orb_false_iff, elem_of_cons.
      split; [intros [->|(Hx & Hn & _)]; tauto|]. intros [[->|Hx] Hn]; [by left|].
      destruct (decide (sort_key x = sort_key y)) as [Ek|Hne].
      { left. apply Hc; [rewrite elem_of_app, elem_of_cons; tauto..|done]. }
      right. split_and!; [done..|]. apply not_true_iff_false. intros (z & Hz & Ez)%keyed_in_spec.
      apply list_elem_of_singleton in Hz as ->. by apply Hne.
Qed.

Lemma keep_first_keys present l : NoDup (sort_key <$> keep_first present l).
Proof.
  assert (Hn : forall l present x, x ∈ keep_first present l -> keyed_in x present = false).
  { clear. induction l as [|y l IH]; intros present x; cbn [keep_first]; [by intros ?%elem_of_nil|].
    destruct (keyed_in y present) eqn:E; [apply IH|]. intros [->|Hx]%elem_of_cons; [done|].
    apply IH in Hx. rewrite keyed_in_app, orb_false_iff in Hx. tauto. }
  revert present. induction l as [|x l IH]; intros present; cbn [keep_first]; [constructor|].
  destruct (keyed_in x present); [done|]. rewrite fmap_cons. constructor; [|done].
  intros (y & Ey & Hy)%list_elem_of_fmap. apply Hn in Hy. rewrite keyed_in_app, orb_false_iff in Hy.
  destruct Hy as [_ Hy]. assert (keyed_in y [x] = true); [|congruence]. apply keyed_in_spec. exists x.
  split; [by apply list_elem_of_singleton|done].
Qed.

Lemma keep_last_elem l x : consistent l -> x ∈ keep_last l <-> x ∈ l.
Proof.
  induction l as [|y l IH]; intros Hc; [done|]. cbn [keep_last].
  assert (Hc' : consistent l) by (intros u v Hu Hv; apply Hc; by right).
  destruct (keyed_in y l) eqn:E; rewrite ?elem_of_cons, IH by done; [|done]. split; [tauto|].
  intros [->|?]; [|done]. apply keyed_in_spec in E as (z & Hz & Ez). by rewrite <- (Hc z y) by (done || (by left) || (by right)).
Qed.

Lemma NoDup_keys l : NoDup (sort_key <$> l) -> NoDup l.
Proof. apply NoDup_fmap_1. Qed.

Lemma keep_last_first l : consistent l -> keep_last l ≡ₚ keep_first [] l.
Proof.
  intros Hc. apply NoDup_Permutation; [apply NoDup_keys, keep_last_keys|apply NoDup_keys, keep_first_keys|].
  intros x. rewrite keep_last_elem, keep_first_elem by done. unfold keyed_in. simpl. tauto.
Qed.

(** Rows that are there already add nothing. *)
Lemma keep_last_again l k : consistent l -> (forall x, x ∈ k -> x ∈ l) -> keep_last (l ++ k) ≡ₚ keep_last l.
Proof.
  intros Hc Hk. assert (Hc' : consistent (l ++ k)).
  { intros x y [Hx|Hx]%elem_of_app [Hy|Hy]%elem_of_app; apply Hc; auto. }
  apply NoDup_Permutation; [apply NoDup_keys, keep_last_keys..|].
  intros x. rewrite !keep_last_elem, elem_of_app by done. split; [intros [?|?]; auto|by left].
Qed.

Lemma block_of_keyed rand rand' records :
  Forall (fun r => DedupKey r <> None /\ DedupKey r <> Some []) records -> block_of rand records = block_of rand' records.
Proof.
  intros Hk. apply imap_ext. intros i r Hr. cbv zeta. f_equal. unfold materialize.
  rewrite bool_decide_eq_false_2; [done|]. cbn [ch_insertRow ch_dedup_key].
  destruct (proj1 (Forall_lookup _ _) Hk i r Hr). by destruct (DedupKey r) as [[|]|].
Qed.

(** The rows FINAL shows, by position in the history. *)
Lemma keep_last_lookup l x :
  x ∈ keep_last l <-> exists i, l !! i = Some x /\ forall j y, (i < j)%nat -> l !! j = Some y -> sort_key y <> sort_key x.
Proof.
  induction l as [|z l IH]; cbn [keep_last].
  { split; [by intros ?%elem_of_nil|by intros (i & Hi & _)]. }
  assert (Hz : keyed_in z l = false <-> forall j y, (0 < j)%nat -> (z :: l) !! j = Some y -> sort_key y <> sort_key z).
  { rewrite <- not_true_iff_false, keyed_in_spec. split.
    - intros Hn [|j] y Hj Hy E; [lia|]. apply Hn. exists y. split; [by eapply (list_elem_of_lookup_2 _ j)|done].
    - intros Hall (y & [j Hj]%list_elem_of_lookup & E). by apply (Hall (S j) y); [lia|..]. }
  assert (Hl : x ∈ keep_last l <-> exists i, (z :: l) !! S i = Some x /\ forall j y, (S i < j)%nat -> (z :: l) !! j = Some y -> sort_key y <> sort_key x).
  { rewrite IH. split; intros (i & Hi & Hlast); exists i; (split; [done|]).
    - intros [|j] y Hj Hy; [lia|]. by apply (Hlast j); [lia|].
    - intros j y Hj Hy. by apply (Hlast (S j)); [lia|]. }
  destruct (keyed_in z l) eqn:E; rewrite ?elem_of_cons, Hl; split.
  - intros (i & Hi). eauto.
  - intros ([|i] & Hi & Hlast); [|eauto]. injection Hi as ->. by apply Hz in Hlast.
  - intros [->|(i & Hi)]; [|eauto]. exists 0%nat. split; [done|]. by apply Hz.
  - intros ([|i] & Hi & Hlast); [left; by injection Hi|right; eauto].
Qed.

(** C17. What a FINAL read of ClickHouse returns, after any history of batches
    (some failing, with or without their rows in the table) and any background
    merges: of the landed rows with one sorting key (received_at, seq), the last,
    and (received_at, seq) is a key of the answer. It agrees with the relational
    backends, which keep the first row of each (received_at, dedup_key), under a
    stated condition on the landed rows: that two of them share (received_at, seq)
    exactly when they share (received_at, dedup_key), that is, the first eight
    bytes of different keys and the random numbers of rows without a key do not
    collide, and that rows which share a key are equal (one record, delivered
    again). Then the rows are, up to order, those that inserting every landed row
    in order with "skip a present (received_at, dedup_key)" would give; and
    delivering again records with a dedup key that are in the table changes
    nothing, whatever their random numbers. *)
Theorem clickhouse_refines_reference ops rows :
  selects (cb_flows (run_ops ops)) rows ->
  NoDup (sort_key <$> rows) /\
  (forall x, x ∈ rows <-> exists i, inserted ops !! i = Some x /\
     forall j y, (i < j)%nat -> inserted ops !! j = Some y -> sort_key y <> sort_key x) /\
  (faithful (inserted ops) ->
   rows.*2 ≡ₚ dedup_rows [] (inserted ops).*2 /\
   forall order rand rand' records rows',
     Forall (fun r => DedupKey r <> None /\ DedupKey r <> Some []) records ->
     (forall x, x ∈ block_of rand records -> x ∈ inserted ops) ->
     selects (cb_flows (run_ops (ops ++ [OWrite None order rand' records]))) rows' -> rows' ≡ₚ rows).
Proof.
  intros Hs%selects_rows. split; [rewrite Hs; apply keep_last_keys|]. split; [intros x; by rewrite Hs, keep_last_lookup|].
  intros Hf. pose proof (faithful_consistent _ Hf) as Hc. split.
  - rewrite Hs, keep_last_first by done. by rewrite (keep_first_reference [] (inserted ops)).
  - intros order rand rand' records rows' Hk Hin Hs'%selects_rows. rewrite Hs', Hs, inserted_app.
    apply keep_last_again; [done|]. change (inserted [_]) with (block_of rand' records ++ []).
    rewrite app_nil_r, (block_of_keyed rand' rand) by done. done.
Qed.

(** A record without a key beside one delivered twice, the first time by a
    batch whose acknowledgement was lost; the two parts are merged. *)
Definition plain_record : FlowRecord := set_DedupKey None wide_record.
Definition sample_ops : list ch_op :=
  [OWrite (Some (ChSend true)) [] (fun i => Z.of_nat i) [wide_record; plain_record];
   OWrite None [] (fun i => 7 + Z.of_nat i) [wide_record; plain_record];
   OMerge (day (0, ch_insertRow wide_record)) 0 2].

Lemma sample_ops_faithful : faithful (inserted sample_ops).
Proof.
  intros i j x y Hij Hx Hy. assert (Hj : (j < 4)%nat) by (by apply lookup_lt_Some in Hy).
  destruct j as [|[|[|[|]]]], i as [|[|[|]]]; try lia; vm_compute in Hx, Hy; injection Hx as <-; injection Hy as <-;
    (split; [split|]); vm_compute; intros H; reflexivity || discriminate H.
Qed.

Lemma clickhouse_refines_reference_witness :
  exists rows, selects (cb_flows (run_ops sample_ops)) rows /\ length rows = 3%nat /\ NoDup (sort_key <$> rows) /\
    rows.*2 ≡ₚ dedup_rows [] (inserted sample_ops).*2.
Proof.
  exists (keep_last (inserted sample_ops)). split; [by apply selects_rows|]. split; [vm_compute; reflexivity|].
  destruct (clickhouse_refines_reference sample_ops (keep_last (inserted sample_ops))) as (H1 & _ & H3); [by apply selects_rows|].
  split; [exact H1|]. apply (H3 sample_ops_faithful).
Defined.

(** ** Exporters *)

Lemma time_antisym a b : time_le a b -> time_le b a -> a = b.
Proof.
  unfold time_le, After. rewrite !orb_false_iff, !andb_false_iff, !Z.ltb_ge, !Z.eqb_neq.
  destruct a, b. simpl. intros. f_equal; lia.
Qed.

Ltac times :=
  unfold Before, After in *;
  rewrite ?orb_true_iff, ?orb_false_iff, ?andb_true_iff, ?andb_false_iff, ?Z.ltb_lt, ?Z.ltb_ge, ?Z.eqb_eq, ?Z.eqb_neq in *;
  apply time_antisym; unfold time_le, After; rewrite orb_false_iff, andb_false_iff, !Z.ltb_ge, Z.eqb_neq; lia.

Lemma earliest_comm a b : earliest a b = earliest b a.
Proof. unfold earliest. destruct (Before b a) eqn:E1, (Before a b) eqn:E2; try done; times. Qed.
Lemma greatest_comm a b : greatest a b = greatest b a.
Proof. unfold greatest. destruct (Before b a) eqn:E1, (Before a b) eqn:E2; try done; times. Qed.
Lemma earliest_assoc a b c : earliest a (earliest b c) = earliest (earliest a b) c.
Proof.
  unfold earliest. destruct (Before c b) eqn:E1, (Before b a) eqn:E2, (Before c a) eqn:E3; rewrite ?E1, ?E2, ?E3; try done; times.
Qed.
Lemma greatest_assoc a b c : greatest a (greatest b c) = greatest (greatest a b) c.
Proof.
  unfold greatest. destruct (Before b c) eqn:E1, (Before a b) eqn:E2, (Before a c) eqn:E3; rewrite ?E1, ?E2, ?E3; try done; times.
Qed.

(** Rows of one address carry one id. *)
Definition ids_ok (l : list ch_exp) : Prop := forall x y, x ∈ l -> y ∈ l -> cx_addr x = cx_addr y -> cx_id x = cx_id y.

Lemma agg_assoc a b c : agg a (agg b c) = agg (agg a b) c.
Proof. unfold agg. cbn [cx_id cx_addr cx_first cx_last]. by rewrite earliest_assoc, greatest_assoc. Qed.

Lemma agg_comm a b : cx_id a = cx_id b -> cx_addr a = cx_addr b -> agg a b = agg b a.
Proof. unfold agg. intros -> ->. by rewrite earliest_comm, greatest_comm. Qed.

Lemma agg_all_agg x y l : agg_all (x :: y :: l) = agg_all (agg x y :: l).
Proof. cbn [agg_all]. destruct (agg_all l); [by rewrite agg_assoc|done]. Qed.

(** Rows of one address with one id aggregate in any order. *)
Definition same_exporter (l : list ch_exp) : Prop :=
  forall x y, x ∈ l -> y ∈ l -> cx_id x = cx_id y /\ cx_addr x = cx_addr y.

Lemma same_exporter_perm l k : l ≡ₚ k -> same_exporter l -> same_exporter k.
Proof. intros Hp Hs x y Hx Hy. apply Hs; by rewrite Hp. Qed.

Lemma agg_all_perm l k : same_exporter l -> l ≡ₚ k -> agg_all l = agg_all k.
Proof.
  intros Hs Hp. revert Hs. induction Hp as [|x l k _ IH|x y l|l k m H1 IH1 _ IH2]; intros Hs; [done|..].
  - cbn [agg_all]. rewrite IH; [done|]. intros u v Hu Hv. apply Hs; by right.
  - rewrite !agg_all_agg. destruct (Hs x y) as [E1 E2]; [right; left|left|]. by rewrite agg_comm.
  - rewrite IH1 by done. apply IH2. by eapply same_exporter_perm.
Qed.

Lemma exporter_of l a : ids_ok l -> same_exporter (filter (fun x => cx_addr x = a) l).
Proof. intros Hi x y [Ex Hx]%list_elem_of_filter [Ey Hy]%list_elem_of_filter. split; [apply Hi; [done..|congruence]|congruence]. Qed.

Lemma filter_perm_middle (a : list byte) l x m y k :
  filter (fun x => cx_addr x = a) (l ++ x :: m ++ y :: k) ≡ₚ
  filter (fun x => cx_addr x = a) (x :: y :: (l ++ m ++ k)).
Proof.
  assert (Hp : l ++ x :: m ++ y :: k ≡ₚ x :: y :: (l ++ m ++ k)).
  { rewrite <- Permutation_middle. constructor. by rewrite app_assoc, <- Permutation_middle, app_assoc. }
  by rewrite Hp.
Qed.

Lemma merge_exporter l l' a : ids_ok l -> exp_merge l l' -> ids_ok l' /\ final_exporter l' a = final_exporter l a.
Proof.
  intros Hi Hm. revert Hi. destruct Hm as [l0 m k x y E]. intros Hi. set (l1 := l0 ++ x :: m ++ y :: k) in *. set (l2 := l0 ++ agg x y :: m ++ k).
  assert (Hsub : forall z, z ∈ l2 -> exists z', z' ∈ l1 /\ cx_id z' = cx_id z /\ cx_addr z' = cx_addr z).
  { unfold l1, l2. intros z Hz. rewrite elem_of_app, elem_of_cons, elem_of_app in Hz.
    destruct Hz as [Hz|[->|[Hz|Hz]]]; [exists z| |exists z..];
      [rewrite !elem_of_app, !elem_of_cons, !elem_of_app, !elem_of_cons; tauto| |
       rewrite !elem_of_app, !elem_of_cons, !elem_of_app, !elem_of_cons; tauto..].
    exists x. rewrite !elem_of_app, !elem_of_cons. split; [tauto|done]. }
  assert (Hi2 : ids_ok l2).
  { intros u v (u' & Hu & <- & Eu)%Hsub (v' & Hv & <- & Ev)%Hsub Euv. apply Hi; [done..|congruence]. }
  split; [done|]. unfold final_exporter. pose proof (exporter_of l1 a Hi) as H1. pose proof (exporter_of l2 a Hi2) as H2.
  rewrite (agg_all_perm _ _ H1 (filter_perm_middle a l0 x m y k)).
  assert (Hp2 : l2 ≡ₚ agg x y :: (l0 ++ m ++ k)) by (unfold l2; by rewrite <- Permutation_middle).
  assert (Hf2 : filter (fun z => cx_addr z = a) l2 ≡ₚ filter (fun z => cx_addr z = a) (agg x y :: (l0 ++ m ++ k))) by (by rewrite Hp2).
  rewrite (agg_all_perm _ _ H2 Hf2), !filter_cons. change (cx_addr (agg x y)) with (cx_addr x).
  rewrite <- E. case_decide; [by rewrite agg_all_agg|done].
Qed.

Lemma merges_exporter l l' a : ids_ok l -> star exp_merge l l' -> ids_ok l' /\ final_exporter l' a = final_exporter l a.
Proof.
  intros Hi. induction 1 as [l|l l1 l2 _ IH Hm]; [done|]. destruct (IH Hi) as [H1 E1].
  destruct (merge_exporter l1 l2 a H1 Hm) as [H2 E2]. split; [done|congruence].
Qed.

(** The exporters table after a history of batches. *)
Definition touched (ops : list ch_op) : list ch_exp := cb_exporters (run_ops ops).

Lemma As16_id a b : As16 a = As16 b -> exporterID a = exporterID b.
Proof. unfold exporterID. by intros ->. Qed.

Lemma touched_ids ops : Forall (fun x => exists a, cx_addr x = As16 a /\ cx_id x = exporterID a) (touched ops).
Proof.
  unfold touched, run_ops. induction ops as [|o ops IH] using rev_ind; [constructor|]. rewrite foldl_app. cbn [foldl].
  set (b := foldl run_op _ ops) in *. destruct o as [fail order rand records|d i n]; [|done].
  cbn [run_op]. unfold ch_WriteBatch, touchExporters. case_bool_decide; [done|].
  assert (Hn : Forall (fun x => exists a, cx_addr x = As16 a /\ cx_id x = exporterID a) (cb_exporters b ++ (exporter_row <$> order))).
  { apply Forall_app. split; [done|]. apply Forall_fmap, Forall_true. intros [a t]. by exists a. }
  destruct fail as [[| |[]| | |[]]|]; done.
Qed.

Lemma touched_ids_ok ops : ids_ok (touched ops).
Proof.
  pose proof (touched_ids ops) as H. rewrite Forall_forall in H. intros x y Hx Hy E.
  destruct (H x Hx) as (a & Ea & ->). destruct (H y Hy) as (b & Eb & ->). apply As16_id. congruence.
Qed.

Lemma agg_all_bounds l z : agg_all l = Some z ->
  (forall x, x ∈ l -> time_le (cx_first z) (cx_first x) /\ time_le (cx_last x) (cx_last z)) /\
  (exists x, x ∈ l /\ cx_first z = cx_first x) /\ (exists x, x ∈ l /\ cx_last z = cx_last x).
Proof.
  revert z. induction l as [|x l IH]; intros z; [done|]. cbn [agg_all].
  destruct (agg_all l) as [y|] eqn:E; intros H; injection H as <-.
  - destruct (IH y eq_refl) as (Hb & (u & Hu & Eu) & (v & Hv & Ev)). cbn [agg cx_first cx_last].
    assert (Hmin : forall a b, time_le (earliest a b) a /\ time_le (earliest a b) b).
    { intros a b. unfold earliest. destruct (Before b a) eqn:Eb; split; try apply time_le_refl; [by apply Before_le|].
      exact Eb. }
    split_and!.
    + intros w [->|Hw]%elem_of_cons; [split; [apply Hmin|apply greatest_le_l]|]. destruct (Hb w Hw).
      split; [eapply time_le_trans; [apply Hmin|done]|eapply time_le_trans; [done|apply greatest_le_r]].
    + unfold earliest. destruct (Before _ _); [exists u; split; [by right|done]|exists x; split; [by left|done]].
    + unfold greatest. destruct (Before _ _); [exists v; split; [by right|done]|exists x; split; [by left|done]].
  - destruct l as [|y l]; [|cbn [agg_all] in E; by destruct (agg_all l)].
    split_and!; [|exists x; split; [by left|done]..]. intros w Hw. apply list_elem_of_singleton in Hw as ->.
    split; apply time_le_refl.
Qed.

Lemma merges_addrs l l' : star exp_merge l l' -> forall a, a ∈ cx_addr <$> l' <-> a ∈ cx_addr <$> l.
Proof.
  induction 1 as [l|l l1 l2 _ IH Hm]; intros a; [done|]. rewrite <- IH. destruct Hm as [l0 m k x y E].
  rewrite !list_elem_of_fmap. setoid_rewrite elem_of_app. setoid_rewrite elem_of_cons. setoid_rewrite elem_of_app.
  setoid_rewrite elem_of_cons. split.
  - intros (z & -> & [Hz|[->|[Hz|Hz]]]); [by exists z; tauto|exists x; tauto|by exists z; tauto..].
  - intros (z & -> & [Hz|[->|[Hz|[->|Hz]]]]); [by exists z; tauto|exists (agg x y); tauto|by exists z; tauto| |by exists z; tauto].
    exists (agg x y). split; [done|tauto].
Qed.

#[global] Instance by_id_total : Total by_id.
Proof. intros x y. unfold by_id. lia. Qed.
#[global] Instance by_id_trans : Transitive by_id.
Proof. intros x y z. unfold by_id. lia. Qed.

Lemma sorted_by_id l : StronglySorted by_id (merge_sort by_id l).
Proof. apply StronglySorted_merge_sort; apply _. Qed.

Lemma final_exporter_some l a : a ∈ cx_addr <$> l -> exists z, final_exporter l a = Some z.
Proof.
  intros (x & -> & Hx)%list_elem_of_fmap. unfold final_exporter.
  destruct (filter (fun z => cx_addr z = cx_addr x) l) as [|y k] eqn:E.
  - assert (Hin : x ∈ filter (fun z => cx_addr z = cx_addr x) l) by (by apply list_elem_of_filter).
    rewrite E in Hin. by apply elem_of_nil in Hin.
  - cbn [agg_all]. destruct (agg_all k); eauto.
Qed.

Lemma final_exporter_addr l a z : ids_ok l -> final_exporter l a = Some z ->
  cx_addr z = a /\ exists x, x ∈ l /\ cx_addr x = a /\ cx_id z = cx_id x.
Proof.
  intros _. unfold final_exporter. intros E.
  assert (Hx : forall k, agg_all k = Some z -> exists x, x ∈ k /\ cx_addr z = cx_addr x /\ cx_id z = cx_id x).
  { intros [|x k]; [done|]. cbn [agg_all]. intros H. exists x. split; [by left|]. destruct (agg_all k); by injection H as <-. }
  destruct (Hx _ E) as (x & [Ea Hl]%list_elem_of_filter & E1 & E2). split; [congruence|]. by exists x.
Qed.

(** The entry of a record's exporter. *)
Lemma touched_entry ops fail order rand records ops' r t :
  fail = None \/ (exists b, fail = Some (ChSend b)) \/ fail = Some ChPrepare \/ fail = Some ChAppend ->
  records <> [] -> (ExporterAddr r, t) ∈ order ->
  mkChExp (exporterID (ExporterAddr r)) (As16 (ExporterAddr r)) t t ∈ touched (ops ++ OWrite fail order rand records :: ops').
Proof.
  intros Hf Hne Hin. unfold touched, run_ops. rewrite foldl_app. cbn [foldl]. set (b := foldl run_op _ ops).
  assert (Hb : exporter_row (ExporterAddr r, t) ∈ cb_exporters (run_op b (OWrite fail order rand records))).
  { cbn [run_op]. unfold ch_WriteBatch, touchExporters. rewrite bool_decide_eq_false_2 by done.
    assert (Ha : exporter_row (ExporterAddr r, t) ∈ cb_exporters b ++ (exporter_row <$> order))
      by (apply elem_of_app; right; apply list_elem_of_fmap; by eexists).
    destruct Hf as [->|[[[] ->]|[->| ->]]]; exact Ha. }
  revert Hb. generalize (run_op b (OWrite fail order rand records)). clear. induction ops' as [|o ops' IH]; intros b Hb; [done|].
  cbn [foldl]. apply IH. destruct o as [fail' order' rand' records'|d i n]; [|done].
  cbn [run_op]. unfold ch_WriteBatch, touchExporters. case_bool_decide; [done|].
  destruct fail' as [[| |[]| | |[]]|]; cbn [fst cb_exporters]; rewrite ?elem_of_app; auto.
Qed.

Definition enumerated (order : list (Addr * Time)) (records : list FlowRecord) : Prop :=
  order ≡ₚ map_to_list (seen_of records).

(** The list of exporters. ClickHouse: after any history of batches and
    any background merges the list is the one without the merges, up to the
    order of equal ids, sorted by id; and the exporter of every record of a
    batch whose exporters were sent is in it under its own address and id,
    last seen no earlier than the record was received. PostgreSQL and
    MariaDB: the same list, sorted, one entry per row of the table. *)
Theorem exporters_listed ops l :
  star exp_merge (touched ops) l ->
  ch_ListExporters l ≡ₚ ch_ListExporters (touched ops) /\ StronglySorted by_id (ch_ListExporters l) /\
  (forall ops1 order rand records ops2 r,
    ops = ops1 ++ OWrite None order rand records :: ops2 -> enumerated order records ->
    Forall (fun r => time_wf (ReceivedAt r)) records -> r ∈ records ->
    addr_plain (ExporterAddr r) -> IsValid (ExporterAddr r) = true ->
    exists e, e ∈ ch_ListExporters l /\ e_IPAddress e = ExporterAddr r /\ e_ID e = exporterID (ExporterAddr r) /\
      time_le (micro (ReceivedAt r)) (e_LastSeenAt e)) /\
  (forall t, (forall a x, x_rows t !! a = Some x -> addr_wf a /\ zoneless a /\ IsValid a = true) ->
    my_ListExporters t = pg_ListExporters t /\ StronglySorted by_id (pg_ListExporters t) /\
    (e_ID <$> pg_ListExporters t) ≡ₚ (fun ar => x_id ar.2) <$> map_to_list (x_rows t)).
Proof.
  intros Hm. pose proof (touched_ids_ok ops) as Hi. split_and!.
  - unfold ch_ListExporters. rewrite !merge_sort_Permutation.
    assert (Hd : remove_dups (cx_addr <$> l) ≡ₚ remove_dups (cx_addr <$> touched ops)).
    { apply NoDup_Permutation; [apply NoDup_remove_dups..|]. intros a. rewrite !elem_of_remove_dups. by apply merges_addrs. }
    rewrite Hd. erewrite (list_omap_ext _ _ (remove_dups _)); [reflexivity|].
    apply Forall_Forall2_diag, Forall_true. intros a. cbv beta. by rewrite (proj2 (merges_exporter _ l a Hi Hm)).
  - apply sorted_by_id.
  - intros ops1 order rand records ops2 r -> Hen Hw Hr Hp Hv.
    destruct (proj1 (seen_of_spec records Hw) r Hr) as (t & Ht & Hle).
    assert (Hin : (ExporterAddr r, t) ∈ order) by (rewrite Hen; by apply elem_of_map_to_list).
    assert (Hne : records <> []) by (intros ->; by apply elem_of_nil in Hr).
    pose proof (touched_entry ops1 None order rand records ops2 r t (or_introl eq_refl) Hne Hin) as He.
    set (ops := ops1 ++ _) in *. set (x := mkChExp _ _ _ _) in He.
    assert (Ha : cx_addr x ∈ cx_addr <$> touched ops) by (apply list_elem_of_fmap; by exists x).
    destruct (final_exporter_some _ _ Ha) as [z Hz]. pose proof (proj2 (merges_exporter _ l (cx_addr x) Hi Hm)) as Ez.
    rewrite Hz in Ez. destruct (final_exporter_addr _ _ _ Hi Hz) as (Eza & y & Hy & Eya & Eyi).
    assert (Eid : cx_id z = exporterID (ExporterAddr r)) by (rewrite Eyi; by apply (Hi y x)).
    eexists. split; [|split; [|split]].
    + unfold ch_ListExporters. rewrite merge_sort_Permutation. apply list_elem_of_omap. exists (cx_addr x).
      split; [apply elem_of_remove_dups; by apply (merges_addrs _ _ Hm)|]. by rewrite Ez.
    + cbn [e_IPAddress]. rewrite Eza. by apply Unmap_From16.
    + cbn [e_ID]. rewrite Eid. apply wrap_s_small; [lia|]. pose proof (exporterID_range (ExporterAddr r)). unfold is_sint. lia.
    + cbn [e_LastSeenAt]. unfold UTC. eapply time_le_trans; [exact Hle|].
      apply (proj1 (agg_all_bounds _ _ Hz) x). by apply list_elem_of_filter.
  - intros t Ht. split_and!.
    + unfold my_ListExporters, pg_ListExporters. f_equal. apply list_fmap_ext. intros i [a x] Hx.
      apply list_elem_of_lookup_2, elem_of_map_to_list, Ht in Hx as (? & ? & ?). cbn [fst snd]. by rewrite AddrFromSlice_AsSlice.
    + apply sorted_by_id.
    + unfold pg_ListExporters. rewrite merge_sort_Permutation, <- list_fmap_compose. done.
Qed.

Definition sample_touch : list (Addr * Time) := map_to_list (seen_of [wide_record; plain_record]).
Definition touch_ops : list ch_op :=
  [OWrite None sample_touch (fun i => Z.of_nat i) [wide_record; plain_record];
   OWrite None sample_touch (fun i => 7 + Z.of_nat i) [wide_record; plain_record]].

(** The two rows of the one exporter are merged. *)
Lemma exporters_listed_witness :
  exists l e, star exp_merge (touched touch_ops) l /\ length l = 1%nat /\ e ∈ ch_ListExporters l /\
  e_IPAddress e = ExporterAddr wide_record /\ time_le (micro (ReceivedAt wide_record)) (e_LastSeenAt e).
Proof.
  assert (Em : exists x y, touched touch_ops = [x; y] /\ cx_addr x = cx_addr y)
    by (eexists _, _; split; [vm_compute; reflexivity|reflexivity]).
  destruct Em as (x & y & Em & Ea).
  assert (Hm : star exp_merge (touched touch_ops) [agg x y])
    by (rewrite Em; apply star_one; exact (exp_merge_intro [] [] [] x y Ea)).
  destruct (exporters_listed touch_ops [agg x y] Hm) as (_ & _ & Hr & _).
  destruct (Hr [] sample_touch (fun i => Z.of_nat i) [wide_record; plain_record] (drop 1 touch_ops) wide_record) as (e & He & H1 & _ & H2).
  - reflexivity.
  - unfold enumerated, sample_touch. reflexivity.
  - repeat (apply List.Forall_cons || apply List.Forall_nil); vm_compute; intuition congruence.
  - left.
  - vm_compute. intuition congruence.
  - reflexivity.
  - exists [agg x y], e. split; [exact Hm|]. split; [reflexivity|]. split; [exact He|]. split; [exact H1|exact H2].
Defined.
