(* ===== verification/ContractClickHouse.v ===== *)
(** * The contract of ClickHouse

    [WriteBatch] with any background merges, and FINAL reads, satisfy the laws
    of [Contract]. What is left to chance is made explicit in [ch_allowed]:
    the random sequence of a record without a key, the first eight bytes of a
    key, and the 63-bit hash that is an exporter's id. *)

From S2P Require Import Prelude GoTime Netip Flow Text Json Cursor Rows Store Exporters StoreThms Query QueryThms Contract.
From S2P Require Import ClickHouse ClickHouseThms.

(** ** FINAL reads *)

(** The rows of [SELECT ... FINAL], partition by partition. *)
Definition final_rows (t : ch_table) : list srow :=
  concat ((fun dp => final_day t dp.1) <$> map_to_list t).

Lemma of_day_of_day d d' l : of_day d (of_day d' l) = if decide (d = d') then of_day d l else [].
Proof.
  unfold of_day. induction l as [|x l IH]; cbn [List.filter]; [by destruct (decide _)|].
  destruct (Z.eqb_spec (day x) d') as [E|E]; cbn [List.filter]; rewrite IH.
  - destruct (Z.eqb_spec (day x) d), (decide (d = d')); congruence.
  - destruct (Z.eqb_spec (day x) d), (decide (d = d')); congruence.
Qed.

Lemma of_day_concat d (l : list srow) ds :
  NoDup ds -> of_day d (concat ((fun d' => of_day d' l) <$> ds)) = if decide (d ∈ ds) then of_day d l else [].
Proof.
  induction 1 as [|d0 ds Hd0 _ IH]; [done|]. rewrite fmap_cons. cbn [concat]. rewrite of_day_app, of_day_of_day, IH.
  destruct (decide (d = d0)) as [->|Hne].
  - rewrite (decide_False (P := d0 ∈ ds)) by done. rewrite decide_True by left. apply app_nil_r.
  - simpl. destruct (decide (d ∈ ds)); [by rewrite decide_True by (by right)|].
    rewrite decide_False; [done|]. rewrite elem_of_cons. tauto.
Qed.

Lemma final_rows_perm ops : final_rows (cb_flows (run_ops ops)) ≡ₚ keep_last (inserted ops).
Proof.
  apply selects_rows. intros d. unfold final_rows.
  set (t := cb_flows (run_ops ops)).
  assert (E : (fun dp => final_day t dp.1) <$> map_to_list t
    = (fun d' => of_day d' (keep_last (inserted ops))) <$> (map_to_list t).*1).
  { rewrite <- list_fmap_compose. apply list_fmap_ext. intros i [d' ps] _. apply final_day_ops. }
  rewrite E, (of_day_concat d) by apply NoDup_fst_map_to_list. unfold t. rewrite final_day_ops. fold t.
  case_decide as Hin; [done|]. rewrite <- final_day_ops. unfold final_day, parts. fold t.
  destruct (t !! d) as [ps|] eqn:El; [|done]. destruct Hin. apply list_elem_of_fmap. exists (d, ps).
  split; [done|]. by apply elem_of_map_to_list.
Qed.

(** ** The instance *)

(** The order of the exporters, the random numbers, the merges that follow. *)
Record ch_choice := mkChChoice {
  cc_order : list (Addr * Time);
  cc_rand : nat -> Z;
  cc_merges : list (Z * nat * nat)
}.

Definition merge_op (m : Z * nat * nat) : ch_op := let '(d, i, n) := m in OMerge d i n.

Definition ch_write (c : ch_choice) (records : list FlowRecord) (b : ch_backend) : ch_backend * bool :=
  let '(b', e) := ch_WriteBatch None (cc_order c) (cc_rand c) records b in
  (foldl run_op b' (merge_op <$> cc_merges c), bool_decide (e = None)).

Definition ch_rows (b : ch_backend) : list row :=
  (fun x => mkRow x.1 (ch_scan x.2)) <$> final_rows (cb_flows b).

(** Nothing coincides by chance: equal sorting keys come from equal
    identities, and equal ids from equal addresses. *)
Definition no_chance (l : list srow) : Prop :=
  forall i j x y, (i < j)%nat -> l !! i = Some x -> l !! j = Some y ->
    (sort_key x = sort_key y -> same_key x.2 y.2 = true) /\
    (ch_exporter_id x.2 = ch_exporter_id y.2 -> ch_exporter_addr x.2 = ch_exporter_addr y.2).

Definition ch_allowed (c : ch_choice) (records : list FlowRecord) (b : ch_backend) : Prop :=
  enumerates (cc_order c) records /\ no_chance (final_rows (cb_flows b) ++ block_of (cc_rand c) records).

Record ch_history (b : ch_backend) (ops : list ch_op) (records : list FlowRecord) : Prop := {
  ci_state : b = run_ops ops;
  ci_rows : (inserted ops).*2 = ch_insertRow <$> records;
  ci_writable : Forall (writable ch_instant) records;
  ci_seq : Forall (fun x => exists n, x.1 = materialize n x.2) (inserted ops);
  ci_faithful : faithful (inserted ops);
  ci_ids : forall r r', r ∈ records -> r' ∈ records ->
    exporterID (ExporterAddr r) = exporterID (ExporterAddr r') -> ExporterAddr r = ExporterAddr r'
}.
Definition ch_good (b : ch_backend) : Prop := exists ops records, ch_history b ops records.

Lemma block_of_snd rand records : (block_of rand records).*2 = ch_insertRow <$> records.
Proof.
  unfold block_of. revert rand. induction records as [|r records IH]; intros rand; [done|].
  rewrite imap_cons, !fmap_cons. f_equal. apply (IH (rand ∘ S)).
Qed.

Lemma block_of_seq rand records : Forall (fun x => exists n, x.1 = materialize n x.2) (block_of rand records).
Proof.
  apply Forall_lookup. intros i x. unfold block_of. rewrite list_lookup_imap. intros (r & _ & ->)%fmap_Some.
  by exists (rand i).
Qed.

Lemma ch_insertRow_rest r r' : at_rest r = at_rest r' -> ch_insertRow r = ch_insertRow r'.
Proof.
  intros E. assert (Hi : forall r, ch_insertRow r = ch_insertRow (at_rest r)).
  { intros x. unfold ch_insertRow, at_rest, stored. cbn. unfold micro, UTC. by rewrite !TruncateMicro_idemp. }
  by rewrite (Hi r), (Hi r'), E.
Qed.

Lemma same_key_ch r r' : writable ch_instant r -> writable ch_instant r' ->
  same_key (ch_insertRow r) (ch_insertRow r') = same_key (at_rest r) (at_rest r').
Proof.
  intros [[Ht _ _ _ _ Hk] Hc _ _] [[Ht' _ _ _ _ Hk'] Hc' _ _]. apply columns_received in Hc, Hc'. pose proof (row_dedup_insert (Row := ChRow) r 0 Hk) as E.
  pose proof (row_dedup_insert (Row := ChRow) r' 0 Hk') as E'.
  change (row_insert r 0) with (ch_insertRow r) in E. change (row_insert r' 0) with (ch_insertRow r') in E'.
  pose proof (row_received_insert (Row := ChRow) r 0 (rt_received _ Ht) Hc) as R. pose proof (row_received_insert (Row := ChRow) r' 0 (rt_received _ Ht') Hc') as R'.
  change (row_insert r 0) with (ch_insertRow r) in R. change (row_insert r' 0) with (ch_insertRow r') in R'.
  unfold same_key. by rewrite E, E', R, R'.
Qed.

(** A keyed row's sequence is its key's. *)
Lemma materialize_keyed n n' (row : ChRow) : row_dedup row <> None -> materialize n row = materialize n' row.
Proof. unfold materialize. cbn. by case_bool_decide. Qed.

Lemma same_key_keyed (x y : ChRow) : same_key x y = true -> row_dedup x <> None.
Proof. unfold same_key. rewrite andb_true_iff. intros [_ H]. by destruct (row_dedup x). Qed.

Lemma ch_contents b ops records :
  ch_history b ops records -> comparable ∘ r_rec <$> ch_rows b ≡ₚ ref_write [] records.
Proof.
  intros [-> Hrows Hw _ Hf _]. unfold ch_rows. rewrite <- list_fmap_compose.
  rewrite final_rows_perm, keep_last_first by (by apply faithful_consistent).
  change ((comparable ∘ r_rec) ∘ (fun x : srow => mkRow x.1 (ch_scan x.2))) with ((comparable ∘ ch_scan) ∘ (snd : srow -> ChRow)).
  rewrite list_fmap_compose, (keep_first_reference [] (inserted ops)) by done. rewrite Hrows.
  destruct (dedup_rows_map ch_insertRow at_rest [] records) as (kept & E1 & E2 & Hin).
  { rewrite Forall_forall in Hw. intros r r' Hr Hr'. apply same_key_ch; auto. }
  simpl in E1, E2. simpl. rewrite E1. unfold ref_write. simpl. rewrite E2, <- list_fmap_compose.
  rewrite (list_fmap_ext _ at_rest kept); [done|]. intros i r Hr. apply list_elem_of_lookup_2, Hin in Hr.
  rewrite Forall_forall in Hw. cbn. pose proof (row_roundtrip (RowLaws := ch_laws) r 0 (wr_storable _ _ (Hw r Hr)) (wr_columns _ _ (Hw r Hr))) as E.
  change (ch_scan (ch_insertRow r) = stored r (exporterID (ExporterAddr r))) in E. by rewrite E.
Qed.

Lemma unix_nano_micro t : time_wf t -> unix_nano_range t -> unix_micro_range t.
Proof.
  unfold time_wf, unix_nano_range, unix_micro_range, UnixSec, nanos, unixToInternal, Second, is_sint.
  destruct t as [s n]. simpl. intros [Hs Hn] Hr.
  assert (Hq : 0 <= n / 1000 < 1000000) by (split; [apply Z.div_pos; lia|apply Z.div_lt_upper_bound; lia]).
  rewrite wrap_s_small by (unfold is_sint; simpl; lia). lia.
Qed.

Lemma materialize_range n (row : ChRow) : bytes_wf (ch_dedup_key row) -> is_uint 64 (materialize n row).
Proof.
  intros Hw. unfold materialize. case_bool_decide; [apply wrap_u_range; lia|]. unfold le_val.
  assert (Hb : bytes_wf (rev (take 8 (ch_dedup_key row)))).
  { apply Forall_rev. by apply Forall_take. }
  pose proof (be_val_range _ Hb) as Hr. rewrite length_rev, length_take in Hr. unfold is_uint in *.
  assert (2 ^ (8 * Z.of_nat (Nat.min 8 (length (ch_dedup_key row)))) <= 2 ^ 64) by (apply Z.pow_le_mono_r; lia). lia.
Qed.

Lemma ch_view_ok b : ch_good b ->
  keys_unique (ch_rows b) /\ Forall (row_ok ClickHouse) (ch_rows b) /\
  Forall (fun x => 0 < ExporterID (r_rec x)) (ch_rows b) /\
  forall x y, x ∈ ch_rows b -> y ∈ ch_rows b ->
    ExporterID (r_rec x) = ExporterID (r_rec y) <-> ExporterAddr (r_rec x) = ExporterAddr (r_rec y).
Proof.
  intros (ops & records & [-> Hrows Hw Hseq Hf Hids]).
  assert (Hel : forall x, x ∈ ch_rows (run_ops ops) -> exists n r, r ∈ records /\
    x = mkRow (materialize n (ch_insertRow r)) (stored r (exporterID (ExporterAddr r)))).
  { intros x (y & -> & Hy)%list_elem_of_fmap. rewrite final_rows_perm, keep_last_elem in Hy by (by apply faithful_consistent).
    assert (Hr : y.2 ∈ ch_insertRow <$> records) by (rewrite <- Hrows; apply list_elem_of_fmap; by exists y).
    apply list_elem_of_fmap in Hr as (r & Er & Hr). destruct (proj1 (Forall_forall _ _) Hseq y Hy) as [n En].
    exists n, r. split; [done|]. rewrite En, Er. f_equal.
    destruct (proj1 (Forall_forall _ _) Hw r Hr) as [Hst Hcol _ _]. exact (row_roundtrip (RowLaws := ch_laws) r 0 Hst Hcol). }
  split_and!.
  - unfold keys_unique, ch_rows. rewrite <- list_fmap_compose, final_rows_perm.
    pose (g := fun p : Z * Z => (sec (of_ticks p.1), nsec (of_ticks p.1), p.2)).
    change (NoDup (g ∘ sort_key <$> keep_last (inserted ops))). rewrite list_fmap_compose.
    apply NoDup_fmap_2_strong; [|apply keep_last_keys].
    assert (Hint : forall p, p ∈ sort_key <$> keep_last (inserted ops) -> is_sint 64 p.1).
    { intros p (x & -> & Hx)%list_elem_of_fmap. rewrite keep_last_elem in Hx by (by apply faithful_consistent).
      assert (Hr : x.2 ∈ ch_insertRow <$> records) by (rewrite <- Hrows; apply list_elem_of_fmap; by exists x).
      apply list_elem_of_fmap in Hr as (r & Er & _). cbn. rewrite Er. apply wrap_s_range. lia. }
    intros [n1 s1] [n2 s2] H1 H2 [= E1 E2 ->]. f_equal. apply of_ticks_inj; [by apply (Hint _ H1)|by apply (Hint _ H2)|].
    by apply Time_ext.
  - apply Forall_forall. intros x (n & r & Hr & ->)%Hel.
    destruct (proj1 (Forall_forall _ _) Hw r Hr) as [[Hty _ _ _ _ _] _ Hkey Hrange].
    split_and!; [apply TruncateMicro_wf, Hty|apply TruncateMicro_whole| |].
    + apply materialize_range. cbn. by destruct (DedupKey r).
    + apply unix_nano_micro; [apply TruncateMicro_wf, Hty|done].
  - apply Forall_forall. intros x (n & r & Hr & ->)%Hel. cbn. pose proof (exporterID_range (ExporterAddr r)). lia.
  - intros x y (n & r & Hr & ->)%Hel (n' & r' & Hr' & ->)%Hel. cbn. split; [by apply Hids|by intros ->].
Qed.

(** The new block beside what is in the table. *)
Lemma ch_faithful_write ops records rand new :
  ch_history (run_ops ops) ops records -> Forall (writable ch_instant) new ->
  redeliveries ((comparable ∘ r_rec <$> ch_rows (run_ops ops)) ++ (at_rest <$> new)) ->
  no_chance (final_rows (cb_flows (run_ops ops)) ++ block_of rand new) ->
  faithful (inserted ops ++ block_of rand new).
Proof.
  intros Hh Hnew Hred Hch. pose proof Hh as [_ Hrows Hw Hseq Hf _].
  pose proof (faithful_consistent _ Hf) as Hcons.
  (* every row comes from a record; an old row's record is in the store *)
  assert (Hrec : forall x, x ∈ inserted ops ++ block_of rand new -> exists r n, writable ch_instant r /\ x.2 = ch_insertRow r /\
    x.1 = materialize n x.2 /\ at_rest r ∈ (comparable ∘ r_rec <$> ch_rows (run_ops ops)) ++ (at_rest <$> new)).
  { intros x [Hx|Hx]%elem_of_app.
    - assert (Hr : x.2 ∈ ch_insertRow <$> records) by (rewrite <- Hrows; apply list_elem_of_fmap; by exists x).
      apply list_elem_of_fmap in Hr as (r & Er & Hr). destruct (proj1 (Forall_forall _ _) Hseq x Hx) as [n En].
      pose proof (proj1 (Forall_forall _ _) Hw r Hr) as Hwr. exists r, n. split_and!; try done.
      apply elem_of_app. left. apply list_elem_of_fmap. exists (mkRow x.1 (ch_scan x.2)). split.
      + cbn. rewrite Er. pose proof (row_roundtrip (RowLaws := ch_laws) r 0 (wr_storable _ _ Hwr) (wr_columns _ _ Hwr)) as E.
        change (ch_scan (ch_insertRow r) = stored r (exporterID (ExporterAddr r))) in E. by rewrite E.
      + apply list_elem_of_fmap. exists x. split; [done|]. rewrite final_rows_perm. by apply keep_last_elem.
    - destruct (proj1 (Forall_forall _ _) (block_of_seq rand new) x Hx) as [n En].
      assert (Hr : x.2 ∈ ch_insertRow <$> new) by (rewrite <- (block_of_snd rand); apply list_elem_of_fmap; by exists x).
      apply list_elem_of_fmap in Hr as (r & Er & Hr). exists r, n.
      split_and!; [by apply (proj1 (Forall_forall _ _) Hnew)|done|done|].
      apply elem_of_app. right. apply list_elem_of_fmap. by exists r. }
  (* equal identities are equal rows *)
  assert (Heq : forall x y, x ∈ inserted ops ++ block_of rand new -> y ∈ inserted ops ++ block_of rand new ->
    same_key x.2 y.2 = true -> x = y).
  { intros x y (r & n & Hr & Er & En & Hin)%Hrec (r' & n' & Hr' & Er' & En' & Hin')%Hrec Hk.
    assert (E2 : x.2 = y.2).
    { rewrite Er, Er' in Hk |- *. apply ch_insertRow_rest, Hred; [done..|]. by rewrite <- same_key_ch. }
    destruct x as [s row], y as [s' row']. simpl in *. f_equal; [|exact E2].
    rewrite En, En', <- E2. apply materialize_keyed. by eapply same_key_keyed. }
  intros i j x y Hij Hx Hy. pose proof (list_elem_of_lookup_2 _ _ _ Hx) as Ix.
  pose proof (list_elem_of_lookup_2 _ _ _ Hy) as Iy. split; [|by apply Heq]. split; [|by intros ->%Heq].
  intros Ek. apply lookup_app_Some in Hy as [Hy|[Hl Hy]].
  - pose proof (lookup_lt_Some _ _ _ Hy). rewrite lookup_app_l in Hx by lia. by apply (Hf i j x y).
  - set (l := final_rows (cb_flows (run_ops ops))) in *. apply lookup_app_Some in Hx as [Hx|[Hl' Hx]].
    + apply list_elem_of_lookup_2 in Hx. assert (Hfx : x ∈ l) by (unfold l; rewrite final_rows_perm; by apply keep_last_elem).
      apply list_elem_of_lookup in Hfx as [i' Hi']. pose proof (lookup_lt_Some _ _ _ Hi').
      apply (Hch i' (length l + (j - length (inserted ops)))%nat x y); [lia|by rewrite lookup_app_l|by rewrite lookup_app_r, Nat.add_comm, Nat.add_sub by lia|done].
    + apply (Hch (length l + (i - length (inserted ops)))%nat (length l + (j - length (inserted ops)))%nat x y); [lia|..|done];
        by rewrite lookup_app_r, Nat.add_comm, Nat.add_sub by lia.
Qed.

Lemma no_chance_ids l x y :
  no_chance l -> x ∈ l -> y ∈ l -> ch_exporter_id x.2 = ch_exporter_id y.2 -> ch_exporter_addr x.2 = ch_exporter_addr y.2.
Proof.
  intros Hc [i Hi]%list_elem_of_lookup [j Hj]%list_elem_of_lookup E.
  destruct (lt_eq_lt_dec i j) as [[Hlt| ->]|Hgt]; [by apply (Hc i j x y)|congruence|].
  symmetry. by apply (Hc j i y x).
Qed.

Lemma As16_plain a b : addr_plain a /\ IsValid a = true -> addr_plain b /\ IsValid b = true -> As16 a = As16 b -> a = b.
Proof. intros [(Wa & Za & Ua) Va] [(Wb & Zb & Ub) Vb] E. rewrite <- Ua, <- Ub. by apply As16_inj. Qed.

Lemma inserted_merges ops ms : inserted (ops ++ (merge_op <$> ms)) = inserted ops.
Proof.
  rewrite inserted_app. assert (E : inserted (merge_op <$> ms) = []); [|by rewrite E, app_nil_r].
  induction ms as [|[[d i] n] ms IH]; [done|]. unfold inserted in *. by rewrite !fmap_cons.
Qed.

Lemma ch_WriteBatch_ok order rand records b : (ch_WriteBatch None order rand records b).2 = None.
Proof. unfold ch_WriteBatch. by case_bool_decide. Qed.

Lemma ch_write_law c records b :
  ch_good b -> Forall (writable ch_instant) records ->
  redeliveries ((comparable ∘ r_rec <$> ch_rows b) ++ (at_rest <$> records)) -> ch_allowed c records b ->
  exists b', ch_write c records b = (b', true) /\ ch_good b' /\
    comparable ∘ r_rec <$> ch_rows b' ≡ₚ ref_write (comparable ∘ r_rec <$> ch_rows b) records.
Proof.
  intros (ops & recs0 & Hh) Hw Hred [_ Hch]. pose proof Hh as [-> Hrows Hw0 Hseq Hf Hids].
  set (ops' := ops ++ [OWrite None (cc_order c) (cc_rand c) records] ++ (merge_op <$> cc_merges c)).
  assert (Eins : inserted ops' = inserted ops ++ block_of (cc_rand c) records).
  { unfold ops'. rewrite app_assoc, inserted_merges, inserted_app. f_equal. apply app_nil_r. }
  assert (Hh' : ch_history (run_ops ops') ops' (recs0 ++ records)).
  { split; [done|..]; rewrite ?Eins.
    - by rewrite !fmap_app, Hrows, block_of_snd.
    - by apply Forall_app.
    - apply Forall_app. split; [done|apply block_of_seq].
    - by apply (ch_faithful_write ops recs0).
    - set (l := final_rows (cb_flows (run_ops ops)) ++ block_of (cc_rand c) records) in *.
      assert (Hrow : forall r, r ∈ recs0 ++ records -> exists x, x ∈ l /\ x.2 = ch_insertRow r).
      { intros r [Hr|Hr]%elem_of_app.
        - assert (Hx : ch_insertRow r ∈ (inserted ops).*2) by (rewrite Hrows; apply list_elem_of_fmap; by exists r).
          apply list_elem_of_fmap in Hx as (x & Ex & Hx). exists x. split; [|done]. apply elem_of_app. left.
          rewrite final_rows_perm. by apply keep_last_elem; [apply faithful_consistent|].
        - assert (Hx : ch_insertRow r ∈ (block_of (cc_rand c) records).*2)
            by (rewrite block_of_snd; apply list_elem_of_fmap; by exists r).
          apply list_elem_of_fmap in Hx as (x & Ex & Hx). exists x. split; [|done]. apply elem_of_app. by right. }
      assert (Hall : forall r, r ∈ recs0 ++ records -> writable ch_instant r).
      { rewrite Forall_forall in Hw, Hw0. intros r [Hr|Hr]%elem_of_app; auto. }
      intros r r' Hr Hr' E. destruct (Hrow r Hr) as (x & Hx & Ex), (Hrow r' Hr') as (x' & Hx' & Ex').
      apply As16_plain; [by apply Hall in Hr as [[] _ _ _]|by apply Hall in Hr' as [[] _ _ _]|].
      pose proof (no_chance_ids l x x' Hch Hx Hx') as Hid. rewrite Ex, Ex' in Hid. by apply Hid. }
  exists (run_ops ops'). split; [|split; [by exists ops', (recs0 ++ records)|]].
  - unfold ch_write. pose proof (ch_WriteBatch_ok (cc_order c) (cc_rand c) records (run_ops ops)) as He.
    unfold ops', run_ops. rewrite !foldl_app. cbn [foldl run_op]. fold (run_ops ops).
    destruct (ch_WriteBatch _ _ _ _ _) as [b' e]. simpl in He. subst e. done.
  - rewrite (ch_contents _ _ _ Hh'), (ch_contents _ _ _ Hh). by rewrite ref_write_app.
Qed.

#[export] Instance ch_storage : Storage ch_backend := {|
  st_kind := Query.ClickHouse; st_choice := ch_choice; st_new := mkChBackend ∅ [];
  st_write := ch_write; st_rows := ch_rows; st_allowed := ch_allowed |}.

#[export] Instance ch_storage_laws : StorageLaws ch_backend.
Proof.
  refine {| st_good := ch_good |}.
  - exists [], []. split; [done|done|apply Forall_nil_2|apply Forall_nil_2|by intros [|] j x y Hij Hx|by intros r r' ?%elem_of_nil].
  - done.
  - intros b Hb. destruct (ch_view_ok b Hb) as (? & ? & ? & ?). by constructor.
  - intros c records b Hb Hw Hr Ha. exact (ch_write_law c records b Hb Hw Hr Ha).
Defined.
