(* ===== verification/Conformance.v ===== *)
(** * The storage contract, executable ([internal/sink/sinktest])

    The suite of [conformance.go] as a program over any [Storage]: the
    fixtures, the helpers that read everything back, and the seven subtests,
    each of which starts from a fresh backend. [None] is a failed requirement.
    What a write leaves open comes from the first argument of each subtest. *)

From S2P Require Import Prelude GoTime Netip Flow Text Strings NetipText TimeText Json Cursor Rows Store Query QueryThms.
From S2P Require Import Contract.

(** ** Fixtures *)

(** [netip.MustParseAddr], on texts that parse. *)
Definition MustParseAddr (s : text) : Addr := default AddrZero (ParseAddr s).

Definition Hour : Z := 3600 * Second.
Definition Minute : Z := 60 * Second.

Definition Fixture (i : Z) (exporter : Addr) (receivedAt : Time) (dedup : bool) : FlowRecord :=
  let receivedAt := TruncateMicro (UTC receivedAt) in
  let r := mkFlowRecord receivedAt exporter 0 FlowTypeNetFlow5
    (Add receivedAt (- 2 * Second)) (Add receivedAt (- 500 * Millisecond))
    (AddrFrom4 [203; 0; 113; u8 i]) (AddrFrom4 [198; 51; 100; u8 (200 + Z.rem i 50)])
    (u16 (40000 + i)) 443 6 24 (u64 (10 + i)) (u64 (1000 * (i + 1))) 1000 3 7 64500 64501
    (MustParseAddr (tx "198.51.100.1")) None in
  let r :=
    if Z.rem i 3 =? 1 then
      set_FlowType FlowTypeIPFIX (set_TCPFlags 0 (set_Protocol 17 (set_NextHop AddrZero
        (set_DstAddr (MustParseAddr (tx "2001:db8:ffff::1"))
          (set_SrcAddr (MustParseAddr (tx "2001:db8::" ++ print_hex (i + 1))) r)))))
    else r in
  if dedup then
    let key := bytes_of (tx "dedup-" ++ print_pad 10 i) in
    set_DedupKey (Some (take 16 (key ++ replicate 16 0))) r
  else r.

Definition exporterA : Addr := MustParseAddr (tx "192.0.2.1").
Definition exporterB : Addr := MustParseAddr (tx "192.0.2.2").

(** 2026-09-19T12:00:00Z. *)
Definition baseTime : Time := Unix 1789819200 0.

Definition batch (n : nat) (exporter : Addr) (dedup : bool) : list FlowRecord :=
  (fun i => Fixture i exporter (Add baseTime (i * Microsecond)) dedup) ∘ Z.of_nat <$> seq 0 n.

Definition window : FlowQuery :=
  mkFlowQuery (Add baseTime (- Hour)) (Add baseTime Hour) 0 AddrZero AddrZero None 1000 "".

(** [sort.Slice] on the port. *)
Definition port_le (x y : FlowRecord) : Prop := SrcPort x <= SrcPort y.
#[global] Instance port_le_dec x y : Decision (port_le x y).
Proof. unfold port_le. apply _. Defined.
Definition bySrcPort (rs : list FlowRecord) : list FlowRecord := merge_sort port_le rs.

(** ** The suite *)

(** [require.X]. *)
Definition require (ok : bool) : option unit := if ok then Some tt else None.

Section suite.
Context {B : Type} `{Storage B}.

Definition WriteBatchOk (c : st_choice B) (records : list FlowRecord) (b : B) : option B :=
  let '(b', ok) := st_write c records b in if ok then Some b' else None.

(** [all]: every record the query selects, following cursors. *)
Fixpoint all (fuel : nat) (base : FlowQuery) (b : B) : option (list FlowRecord) :=
  match fuel with
  | O => None
  | S f =>
    match st_query base b with
    | Err _ => None
    | Ok page =>
      if negb (HasMore page) then
        _ ← require (bool_decide (NextCursor page = ""%string)); Some (Records page)
      else
        _ ← require (negb (bool_decide (NextCursor page = ""%string)));
        app (Records page) <$> all f (with_cursor base (NextCursor page)) b
    end
  end.

(** The requirement of one record of [want] and the one in its place. *)
Fixpoint same_fields (want got : list FlowRecord) : bool :=
  match want, got with
  | [], _ => true
  | w :: want, g :: got => (0 <? ExporterID g) && bool_decide (comparable w = comparable g) && same_fields want got
  | _ :: _, [] => false
  end.

Definition roundTripsEveryField (fuel : nat) (c : nat -> st_choice B) : option unit :=
  let want := batch 6 exporterA false in
  b ← WriteBatchOk (c 0%nat) want (st_new B);
  got ← all fuel window b;
  _ ← require (length got =? length want)%nat;
  require (same_fields want (bySrcPort got)).

(** Two writes, then the number of rows. *)
Definition countAfter (first second : list FlowRecord) (n : nat) (fuel : nat) (c : nat -> st_choice B) : option unit :=
  b ← WriteBatchOk (c 0%nat) first (st_new B);
  b ← WriteBatchOk (c 1%nat) second b;
  got ← all fuel window b;
  require (length got =? n)%nat.

Definition dedupTwice : nat -> (nat -> st_choice B) -> option unit :=
  countAfter (batch 10 exporterA true) (batch 10 exporterA true) 10.
Definition redeliveredMix : nat -> (nat -> st_choice B) -> option unit :=
  countAfter (batch 10 exporterA true) (batch 20 exporterA true) 20.
Definition nilKeyTwice : nat -> (nat -> st_choice B) -> option unit :=
  countAfter (batch 10 exporterA false) (batch 10 exporterA false) 20.

(** The paging loop of the fifth subtest, and its pass over the pages. *)
Fixpoint pagesOf (fuel : nat) (q : FlowQuery) (b : B) : option (list FlowResultPage) :=
  match fuel with
  | O => None
  | S f =>
    match st_query q b with
    | Err _ => None
    | Ok page =>
      if negb (HasMore page) then Some [page]
      else cons page <$> pagesOf f (with_cursor q (NextCursor page)) b
    end
  end.

Fixpoint checkOrder (seen : list Z) (prev : Time) (rs : list FlowRecord) : option (list Z * Time) :=
  match rs with
  | [] => Some (seen, prev)
  | r :: rest =>
    _ ← require (negb (bool_decide (SrcPort r ∈ seen)));
    _ ← require (IsZero prev || negb (After (ReceivedAt r) prev));
    checkOrder (SrcPort r :: seen) (ReceivedAt r) rest
  end.

Definition checkPage (acc : option (list Z * Time)) (p : FlowResultPage) : option (list Z * Time) :=
  '(seen, prev) ← acc; checkOrder seen prev (Records p).

Definition with_limit (q : FlowQuery) (n : Z) : FlowQuery :=
  mkFlowQuery (q_Start q) (q_End q) (q_ExporterID q) (q_SrcAddr q) (q_DstAddr q) (q_Protocol q) n (q_Cursor q).

Definition pagesByTen (fuel : nat) (c : nat -> st_choice B) : option unit :=
  b ← WriteBatchOk (c 0%nat) (batch 25 exporterA false) (st_new B);
  pages ← pagesOf fuel (with_limit window 10) b;
  match pages with
  | [p0; p1; p2] =>
    _ ← require (length (Records p0) =? 10)%nat;
    _ ← require (length (Records p1) =? 10)%nat;
    _ ← require (length (Records p2) =? 5)%nat;
    _ ← require (HasMore p0);
    _ ← require (HasMore p1);
    _ ← require (negb (HasMore p2));
    '(seen, _) ← foldl checkPage (Some ([], zeroTime)) pages;
    require (length seen =? 25)%nat
  | _ => None
  end.

Definition range_start : Time := baseTime.
Definition range_end : Time := Add baseTime Minute.
Definition range_fixtures : list FlowRecord :=
  [Fixture 0 exporterA (Add range_start (- Microsecond)) false; Fixture 1 exporterA range_start false;
   Fixture 2 exporterA (Add range_end (- Microsecond)) false; Fixture 3 exporterA range_end false].

Definition halfOpenRange (fuel : nat) (c : nat -> st_choice B) : option unit :=
  b ← WriteBatchOk (c 0%nat) range_fixtures (st_new B);
  got ← all fuel (mkFlowQuery range_start range_end 0 AddrZero AddrZero None 100 "") b;
  match bySrcPort got with
  | [g0; g1] =>
    _ ← require (SrcPort (nth 1 range_fixtures zeroRecord) =? SrcPort g0);
    require (SrcPort (nth 2 range_fixtures zeroRecord) =? SrcPort g1)
  | _ => None
  end.

Definition filter_fixtures : list FlowRecord :=
  batch 6 exporterA false ++ [Fixture 99 exporterB (Add baseTime Second) false].

Definition with_exporter (q : FlowQuery) (id : Z) : FlowQuery :=
  mkFlowQuery (q_Start q) (q_End q) id (q_SrcAddr q) (q_DstAddr q) (q_Protocol q) (q_Limit q) (q_Cursor q).
Definition with_src (q : FlowQuery) (a : Addr) : FlowQuery :=
  mkFlowQuery (q_Start q) (q_End q) (q_ExporterID q) a (q_DstAddr q) (q_Protocol q) (q_Limit q) (q_Cursor q).
Definition with_dst (q : FlowQuery) (a : Addr) : FlowQuery :=
  mkFlowQuery (q_Start q) (q_End q) (q_ExporterID q) (q_SrcAddr q) a (q_Protocol q) (q_Limit q) (q_Cursor q).
Definition with_proto (q : FlowQuery) (p : Z) : FlowQuery :=
  mkFlowQuery (q_Start q) (q_End q) (q_ExporterID q) (q_SrcAddr q) (q_DstAddr q) (Some p) (q_Limit q) (q_Cursor q).

(** The loop that finds B's id: the last record wins. *)
Definition id_of_B (everything : list FlowRecord) : Z :=
  foldl (fun id r => if bool_decide (ExporterAddr r = exporterB) then ExporterID r else id) 0 everything.

Definition appliesFilters (fuel : nat) (c : nat -> st_choice B) : option unit :=
  let recs := filter_fixtures in
  b ← WriteBatchOk (c 0%nat) recs (st_new B);
  everything ← all fuel window b;
  _ ← require (length everything =? 7)%nat;
  let idB := id_of_B everything in
  _ ← require (0 <? idB);
  got ← all fuel (with_exporter window idB) b;
  _ ← require (match got with [g] => bool_decide (exporterB = ExporterAddr g) | _ => false end);
  got ← all fuel (with_src window (SrcAddr (nth 2 recs zeroRecord))) b;
  _ ← require (match got with [g] => SrcPort (nth 2 recs zeroRecord) =? SrcPort g | _ => false end);
  got ← all fuel (with_dst window (DstAddr (nth 1 recs zeroRecord))) b;
  _ ← require (length got =? 2)%nat;
  got ← all fuel (with_proto window 17) b;
  _ ← require (length got =? 2)%nat;
  require (forallb (fun r => 17 =? Protocol r) got).

(** [Conformance]: every subtest, each with its own choices. *)
Definition Conformance (fuel : nat) (c : nat -> nat -> st_choice B) : bool :=
  let pass (o : option unit) := match o with Some _ => true | None => false end in
  pass (roundTripsEveryField fuel (c 0%nat)) && pass (dedupTwice fuel (c 1%nat)) &&
  pass (redeliveredMix fuel (c 2%nat)) && pass (nilKeyTwice fuel (c 3%nat)) &&
  pass (pagesByTen fuel (c 4%nat)) && pass (halfOpenRange fuel (c 5%nat)) && pass (appliesFilters fuel (c 6%nat)).
End suite.
