(* ===== verification/ConformanceThms.v ===== *)
(** * Every lawful backend passes the suite

    The subtests of [Conformance] are proved from the laws of [Contract]
    alone: what a backend holds after the writes is the reference store, and a
    query reads it back, so each requirement becomes a computation on the
    fixtures. *)

From S2P Require Import Prelude GoTime Netip Flow Text Strings NetipText TimeText Json Cursor Rows Store Exporters StoreThms.
From S2P Require Import ClickHouse ClickHouseThms ContractClickHouse Query QueryThms Contract ContractRelational Conformance.

(** ** Deciding the hypotheses of a write on concrete records *)

Definition decision_iff {P Q : Prop} (e : P <-> Q) (d : Decision Q) : Decision P :=
  match d with left q => left (proj2 e q) | right n => right (fun p => n (proj1 e p)) end.

Lemma record_typed_alt r :
  record_typed r <->
  (time_wf (ReceivedAt r) /\ time_wf (FirstSwitched r) /\ time_wf (LastSwitched r) /\ addr_wf (ExporterAddr r) /\
   is_sint 64 (ExporterID r) /\ addr_wf (SrcAddr r) /\ addr_wf (DstAddr r) /\ addr_wf (NextHop r)) /\
  (is_uint 16 (SrcPort r) /\ is_uint 16 (DstPort r) /\ is_uint 8 (Protocol r) /\ is_uint 8 (TCPFlags r) /\
   is_uint 64 (Packets r) /\ is_uint 64 (Bytes r)) /\
  (is_uint 32 (SamplingRate r) /\ is_uint 32 (InputIface r) /\ is_uint 32 (OutputIface r) /\
   is_uint 32 (SrcAS r) /\ is_uint 32 (DstAS r)).
Proof. split; [intros []; tauto|intros; constructor; tauto]. Qed.

#[export] Instance record_typed_dec r : Decision (record_typed r).
Proof. apply (decision_iff (record_typed_alt r)), _. Defined.

#[export] Instance addr_plain_dec a : Decision (addr_plain a).
Proof. unfold addr_plain. apply and_dec; [apply _|]. apply and_dec; [destruct a; apply _|apply _]. Defined.

Lemma writable_alt holds r :
  writable holds r <->
  (record_typed r /\ (addr_plain (ExporterAddr r) /\ IsValid (ExporterAddr r) = true) /\
   (addr_plain (SrcAddr r) /\ IsValid (SrcAddr r) = true) /\ (addr_plain (DstAddr r) /\ IsValid (DstAddr r) = true) /\
   addr_plain (NextHop r) /\ DedupKey r <> Some []) /\
  columns_hold holds r = true /\
  match DedupKey r with Some k => bytes_wf k | None => True end /\ unix_nano_range (micro (ReceivedAt r)).
Proof. split; [intros [[] ? ? ?]; tauto|intros [? ?]; constructor; [constructor|..]; tauto]. Qed.

#[export] Instance writable_dec holds r : Decision (writable holds r).
Proof.
  apply (decision_iff (writable_alt holds r)). unfold unix_nano_range, is_byte.
  destruct (DedupKey r); apply _.
Defined.

Definition redeliveries_b (l : list FlowRecord) : bool :=
  forallb (fun x => forallb (fun y => negb (same_key x y) || bool_decide (x = y)) l) l.

Lemma redeliveries_decided l : redeliveries_b l = true -> redeliveries l.
Proof.
  unfold redeliveries_b. rewrite forallb_forall. intros Hall x y Hx Hy E. rewrite list_elem_of_In in Hx, Hy.
  specialize (Hall x Hx). rewrite forallb_forall in Hall. specialize (Hall y Hy). rewrite E in Hall.
  by apply bool_decide_eq_true in Hall.
Qed.

(** ** Sorting by port *)

(** Strict ascents, decided. *)
Fixpoint ascending (l : list FlowRecord) : bool :=
  match l with x :: (y :: _) as t => (SrcPort x <? SrcPort y) && ascending t | _ => true end.

Lemma ascending_sorted l : ascending l = true -> StronglySorted (fun x y => SrcPort x < SrcPort y) l.
Proof.
  intros Ha. apply Sorted_StronglySorted; [intros x y z; lia|]. induction l as [|x [|y l] IH]; [constructor|repeat constructor|].
  cbn [ascending] in Ha. apply andb_true_iff in Ha as [Hlt Ha]. apply Z.ltb_lt in Hlt. constructor; [by apply IH|by constructor].
Qed.

#[global] Instance port_le_total : Total port_le.
Proof. intros x y. unfold port_le. lia. Qed.
#[global] Instance port_le_trans : Transitive port_le.
Proof. intros x y z. unfold port_le. lia. Qed.

(** Records with distinct ports, in the order of their ports, are determined
    by the records there are, whatever else they carry. *)
Lemma bySrcPort_spec (want got : list FlowRecord) :
  StronglySorted (fun x y => SrcPort x < SrcPort y) want -> comparable <$> got ≡ₚ comparable <$> want ->
  comparable <$> bySrcPort got = comparable <$> want.
Proof.
  intros Hw Hp. assert (Hg : StronglySorted port_le (bySrcPort got)) by apply (StronglySorted_merge_sort port_le).
  assert (Hp' : comparable <$> bySrcPort got ≡ₚ comparable <$> want) by (unfold bySrcPort; by rewrite merge_sort_Permutation).
  clear Hp. revert Hg Hp'. generalize (bySrcPort got) as l. clear got.
  induction Hw as [|w want Hw IH Hlt]; intros l Hg Hp; [by apply Permutation_nil_r in Hp|].
  destruct Hg as [|g l Hg Hle]; [by apply Permutation_nil_l in Hp|]. rewrite !fmap_cons in *.
  assert (E : comparable g = comparable w).
  { assert (Hg' : comparable g ∈ comparable w :: (comparable <$> want)) by (rewrite <- Hp; by left).
    assert (Hw' : comparable w ∈ comparable g :: (comparable <$> l)) by (rewrite Hp; by left).
    apply elem_of_cons in Hg' as [|Hg']; [done|]. apply elem_of_cons in Hw' as [|Hw']; [done|].
    apply list_elem_of_fmap in Hg' as (w' & Eg & Hin). apply list_elem_of_fmap in Hw' as (g' & Ew & Hin').
    rewrite Forall_forall in Hlt, Hle. specialize (Hlt _ Hin). specialize (Hle _ Hin'). unfold port_le in Hle.
    apply (f_equal SrcPort) in Eg, Ew. cbn in Eg, Ew. lia. }
  rewrite E in *. f_equal. apply IH; [done|]. by apply Permutation_cons_inv in Hp.
Qed.

Lemma same_fields_spec want got :
  comparable <$> got = comparable <$> want -> Forall (fun r => 0 < ExporterID r) got -> same_fields want got = true.
Proof.
  revert got. induction want as [|w want IH]; intros [|g got] E Hp; try done.
  rewrite !fmap_cons in E. pose proof (f_equal (hd w) E) as Eg. pose proof (f_equal (@tl _) E) as Et.
  cbn [hd tl] in Eg, Et. inversion Hp as [|? ? Hg Hp']. subst. cbn [same_fields].
  rewrite !andb_true_iff. split_and!; [by apply Z.ltb_lt|by apply bool_decide_eq_true|by apply IH].
Qed.

(** ** Reading everything back *)

Section lawful.
Context {B : Type} `{StorageLaws B}.

Lemma all_suffix b q fuel c pre suf :
  st_good b -> selects (st_kind B) (st_rows b) q c suf -> answer (st_kind B) (st_rows b) q = pre ++ suf ->
  (length suf < fuel)%nat -> all fuel (with_cursor q c) b = Some (r_rec <$> suf).
Proof.
  intros Hb. destruct (st_view b Hb) as [Hk Hr _ _]. pose proof (clampLimit_range (q_Limit q)) as Hl.
  revert c pre suf. induction fuel as [|f IH]; intros c pre suf Hc Ea Hf; [lia|].
  cbn [all]. unfold st_query. rewrite (Query_selects _ _ _ c suf Hc). set (n := Z.to_nat (clampLimit (q_Limit q))).
  pose proof (NextCursor_iff (st_kind B) q suf) as Hn.
  destruct (HasMore (page_of (st_kind B) q suf)) eqn:Hm; cbn [negb].
  - rewrite bool_decide_eq_false_2 by (by apply Hn). cbn [negb require mbind option_bind].
    change (with_cursor (with_cursor q c) ?x) with (with_cursor q x).
    rewrite (IH _ (pre ++ take n suf) (drop n suf)).
    + simpl. rewrite <- fmap_app. fold n. by rewrite take_drop.
    + by apply (next_selects _ _ _ Hk Hr pre).
    + by rewrite <- app_assoc, take_drop.
    + rewrite length_drop. unfold page_of in Hm. cbn [HasMore] in Hm. apply bool_decide_eq_true in Hm. fold n in Hm. lia.
  - rewrite bool_decide_eq_true_2.
    + unfold page_of in *. cbn [HasMore Records] in *. apply bool_decide_eq_false in Hm. fold n in Hm |- *.
      cbn. by rewrite take_ge by lia.
    + destruct (decide (NextCursor (page_of (st_kind B) q suf) = ""%string)) as [|Hne]; [done|]. by apply Hn in Hne.
Qed.

Lemma all_answer b q fuel :
  st_good b -> q_Cursor q = ""%string -> (length (contents b) < fuel)%nat ->
  all fuel q b = Some (r_rec <$> answer (st_kind B) (st_rows b) q).
Proof.
  intros Hb Hq Hf. assert (E : with_cursor q "" = q) by (destruct q; simpl in *; by subst).
  rewrite <- E at 1. apply (all_suffix b q fuel "" []); [done|by left|done|].
  unfold answer. rewrite ordered_perm. pose proof (filter_length_le (matches (st_kind B) q) (st_rows b)).
  unfold contents in Hf. rewrite length_fmap in Hf. lia.
Qed.

(** What a query answers, as a part of the contents. *)
Lemma answer_contents b q :
  q_ExporterID q = 0 ->
  comparable <$> (r_rec <$> answer (st_kind B) (st_rows b) q) ≡ₚ List.filter (wanted (B := B) q) (contents b).
Proof.
  intros He. unfold answer, contents. rewrite <- list_fmap_compose, ordered_perm.
  by rewrite (filter_fmap_comm (comparable ∘ r_rec) (matches (st_kind B) q) (wanted (B := B) q)) by (intros; by apply matches_wanted).
Qed.

(** Filtering by the id of one of [a]'s rows is filtering by [a]. *)
Lemma answer_exporter b q a x :
  st_good b -> x ∈ st_rows b -> ExporterAddr (r_rec x) = a -> q_ExporterID q = ExporterID (r_rec x) ->
  comparable <$> (r_rec <$> answer (st_kind B) (st_rows b) q)
  ≡ₚ List.filter (fun r => wanted (B := B) (with_exporter q 0) r && bool_decide (ExporterAddr r = a)) (contents b).
Proof.
  intros Hb Hx Ha Hid. destruct (st_view b Hb) as [_ _ Hp Hids]. unfold answer, contents.
  rewrite <- list_fmap_compose, ordered_perm.
  assert (E : forall l, (forall y, y ∈ l -> y ∈ st_rows b) ->
    comparable ∘ r_rec <$> List.filter (matches (st_kind B) q) l =
    List.filter (fun r => wanted (B := B) (with_exporter q 0) r && bool_decide (ExporterAddr r = a)) (comparable ∘ r_rec <$> l));
    [|by rewrite E].
  intros l. induction l as [|y l IH]; intros Hl; [done|]. cbn [List.filter fmap list_fmap].
  assert (Ey : matches (st_kind B) q y =
    wanted (B := B) (with_exporter q 0) (comparable (r_rec y)) && bool_decide (ExporterAddr (r_rec y) = a)).
  { assert (Hy : y ∈ st_rows b) by (apply Hl; by left). unfold wanted, matches. cbn.
    rewrite Forall_forall in Hp. specialize (Hp x Hx). specialize (Hids y x Hy Hx). rewrite Ha, <- Hid in Hids.
    replace (q_ExporterID q =? 0) with false by (symmetry; apply Z.eqb_neq; lia).
    assert (Ee : (ExporterID (r_rec y) =? q_ExporterID q) = bool_decide (ExporterAddr (r_rec y) = a)).
    { apply eq_bool_prop_intro. rewrite !Is_true_true, Z.eqb_eq, bool_decide_eq_true. tauto. }
    rewrite Ee. cbn [orb]. rewrite !andb_true_r. destruct (bool_decide (ExporterAddr (r_rec y) = a)); [by rewrite !andb_true_r|].
    by rewrite !andb_false_r. }
  unfold compose at 2. rewrite Ey. change (ExporterAddr (comparable (r_rec y))) with (ExporterAddr (r_rec y)).
  destruct (_ && _); [rewrite fmap_cons; f_equal|]; apply IH; intros z Hz; apply Hl; by right.
Qed.

(** ** The shape of a subtest *)

Definition acceptable (recs : list FlowRecord) : bool :=
  forallb (fun r => bool_decide (writable everywhere r)) recs && redeliveries_b (at_rest <$> recs).

Lemma after_writes calls :
  acceptable (concat calls.*2) = true -> all_allowed calls (st_new B) ->
  exists b, write_all calls (st_new B) = Some b /\ st_good b /\ contents b ≡ₚ ref_write [] (concat calls.*2).
Proof.
  unfold acceptable. rewrite andb_true_iff. intros [Hw Hr] Ha.
  assert (E0 : contents (st_new B) = []) by (unfold contents; by rewrite st_new_empty).
  destruct (write_all_spec calls (st_new B) st_new_good) as (b & E & Hb & Hc).
  - apply Forall_forall. intros r Hr'. rewrite forallb_forall in Hw. 
    by apply writable_everywhere, (bool_decide_eq_true (writable everywhere r)), Hw, list_elem_of_In.
  - rewrite E0. by apply redeliveries_decided.
  - done.
  - exists b. by rewrite E0 in Hc.
Qed.

Lemma one_write c recs :
  acceptable recs = true -> all_allowed [(c, recs)] (st_new B) ->
  exists b, WriteBatchOk c recs (st_new B) = Some b /\ st_good b /\ contents b ≡ₚ ref_write [] recs.
Proof.
  intros Hr Ha. destruct (after_writes [(c, recs)]) as (b & E & Hb & Hc); [by rewrite <- (app_nil_r recs) in Hr|done|].
  cbn [write_all] in E. exists b. unfold WriteBatchOk. destruct (st_write c recs (st_new B)) as [b' []]; [|done].
  injection E as <-. split_and!; [done..|]. by rewrite Hc; cbn; rewrite app_nil_r.
Qed.

Lemma read_all b q l fuel :
  st_good b -> contents b ≡ₚ l -> q_Cursor q = ""%string -> (length l < fuel)%nat ->
  exists got, all fuel q b = Some got /\ Forall (fun r => 0 < ExporterID r) got /\
    (q_ExporterID q = 0 -> comparable <$> got ≡ₚ List.filter (wanted (B := B) q) l).
Proof.
  intros Hb Hl Hq Hf. eexists. split; [apply all_answer; [done..|by rewrite Hl]|]. split.
  - destruct (st_view b Hb) as [_ _ Hp _]. rewrite Forall_fmap, Forall_forall in *. intros x Hx. apply Hp.
    unfold answer in Hx. rewrite ordered_perm, list_elem_of_In in Hx. apply filter_In in Hx as [Hx _].
    by apply list_elem_of_In.
  - intros He. rewrite answer_contents by done. by apply listfilter_perm.
Qed.

Lemma same_length (got l : list FlowRecord) : comparable <$> got ≡ₚ l -> length got = length l.
Proof. intros Hp%Permutation_length. by rewrite length_fmap in Hp. Qed.

(** ** The subtests *)

(** Evaluates what a query wants of concrete records, on each kind of backend. *)
Ltac compute_wanted := unfold wanted; destruct (st_kind B); vm_compute; reflexivity.

Lemma roundTrips_passes fuel c :
  (6 < fuel)%nat -> all_allowed [(c 0%nat, batch 6 exporterA false)] (st_new B) -> roundTripsEveryField fuel c = Some tt.
Proof.
  intros Hf Ha. unfold roundTripsEveryField.
  destruct (one_write (c 0%nat) (batch 6 exporterA false)) as (b & -> & Hb & Hc); [by vm_compute|done|]. cbn [mbind option_bind].
  destruct (read_all b window _ fuel Hb Hc) as (got & -> & Hp & Hg); [done|vm_compute; lia|]. cbn [mbind option_bind].
  specialize (Hg eq_refl).
  assert (E : List.filter (wanted (B := B) window) (ref_write [] (batch 6 exporterA false))
              = comparable <$> batch 6 exporterA false) by compute_wanted.
  rewrite E in Hg. rewrite (same_length _ _ Hg), length_fmap, Nat.eqb_refl. cbn [require mbind option_bind].
  rewrite same_fields_spec; [done| |by unfold bySrcPort; rewrite merge_sort_Permutation].
  apply bySrcPort_spec; [|done]. apply ascending_sorted. by vm_compute.
Qed.

Lemma countAfter_passes first second n fuel c :
  acceptable (first ++ second) = true -> (length (ref_write [] (first ++ second)) < fuel)%nat ->
  length (List.filter (wanted (B := B) window) (ref_write [] (first ++ second))) = n ->
  all_allowed [(c 0%nat, first); (c 1%nat, second)] (st_new B) -> countAfter first second n fuel c = Some tt.
Proof.
  intros Hr Hf Hn Ha. unfold countAfter.
  assert (Ec : concat [(c 0%nat, first); (c 1%nat, second)].*2 = first ++ second) by (cbn; by rewrite app_nil_r).
  destruct (after_writes [(c 0%nat, first); (c 1%nat, second)]) as (b & E & Hb & Hc); [by rewrite Ec|done|].
  cbn [write_all] in E. unfold WriteBatchOk. destruct (st_write (c 0%nat) first (st_new B)) as [b1 []]; [|done].
  cbn [mbind option_bind]. destruct (st_write (c 1%nat) second b1) as [b2 []]; [|done]. injection E as <-.
  cbn [mbind option_bind]. rewrite Ec in Hc.
  destruct (read_all b2 window _ fuel Hb Hc) as (got & -> & _ & Hg); [done..|]. cbn [mbind option_bind].
  by rewrite (same_length _ _ (Hg eq_refl)), Hn, Nat.eqb_refl.
Qed.

Lemma dedupTwice_passes fuel c :
  (10 < fuel)%nat -> all_allowed [(c 0%nat, batch 10 exporterA true); (c 1%nat, batch 10 exporterA true)] (st_new B) ->
  dedupTwice fuel c = Some tt.
Proof. intros Hf. apply countAfter_passes; [by vm_compute|vm_compute; lia|compute_wanted]. Qed.

Lemma redeliveredMix_passes fuel c :
  (20 < fuel)%nat -> all_allowed [(c 0%nat, batch 10 exporterA true); (c 1%nat, batch 20 exporterA true)] (st_new B) ->
  redeliveredMix fuel c = Some tt.
Proof. intros Hf. apply countAfter_passes; [by vm_compute|vm_compute; lia|compute_wanted]. Qed.

Lemma nilKeyTwice_passes fuel c :
  (20 < fuel)%nat -> all_allowed [(c 0%nat, batch 10 exporterA false); (c 1%nat, batch 10 exporterA false)] (st_new B) ->
  nilKeyTwice fuel c = Some tt.
Proof. intros Hf. apply countAfter_passes; [by vm_compute|vm_compute; lia|compute_wanted]. Qed.

Fixpoint chunks (fuel : nat) (q : FlowQuery) (suf : list row) : option (list FlowResultPage) :=
  match fuel with
  | O => None
  | S f =>
    if HasMore (page_of (st_kind B) q suf)
    then cons (page_of (st_kind B) q suf) <$> chunks f q (drop (Z.to_nat (clampLimit (q_Limit q))) suf)
    else Some [page_of (st_kind B) q suf]
  end.

Lemma pagesOf_chunks b q fuel c pre suf :
  st_good b -> selects (st_kind B) (st_rows b) q c suf -> answer (st_kind B) (st_rows b) q = pre ++ suf ->
  pagesOf fuel (with_cursor q c) b = chunks fuel q suf.
Proof.
  intros Hb. destruct (st_view b Hb) as [Hk Hr _ _]. revert c pre suf.
  induction fuel as [|f IH]; intros c pre suf Hc Ea; [done|].
  cbn [pagesOf chunks]. unfold st_query. rewrite (Query_selects _ _ _ c suf Hc).
  destruct (HasMore (page_of (st_kind B) q suf)) eqn:Hm; [|done]. cbn [negb]. f_equal.
  change (with_cursor (with_cursor q c) ?x) with (with_cursor q x).
  apply (IH _ (pre ++ take (Z.to_nat (clampLimit (q_Limit q))) suf)); [by apply (next_selects _ _ _ Hk Hr pre)|].
  by rewrite <- app_assoc, take_drop.
Qed.

Lemma checkOrder_app seen prev l l' :
  checkOrder seen prev (l ++ l') = '(s, p) ← checkOrder seen prev l; checkOrder s p l'.
Proof.
  revert seen prev. induction l as [|r l IH]; intros seen prev; [done|]. cbn [checkOrder app].
  destruct (require (negb _)) as [[]|]; [|done]. cbn [mbind option_bind].
  destruct (require (_ || _)) as [[]|]; [|done]. apply IH.
Qed.

Lemma checkPage_all pages acc :
  foldl checkPage (Some acc) pages = checkOrder acc.1 acc.2 (concat (Records <$> pages)).
Proof.
  revert acc. induction pages as [|p pages IH]; intros [seen prev]; [done|]. cbn [foldl fmap list_fmap concat fst snd].
  rewrite checkOrder_app. change (checkPage (Some (seen, prev)) p) with (checkOrder seen prev (Records p)).
  destruct (checkOrder seen prev (Records p)) as [[s p']|]; [apply IH|].
  clear. induction pages; done.
Qed.

Lemma checkOrder_passes l seen prev :
  NoDup (SrcPort <$> l) -> (forall r, r ∈ l -> SrcPort r ∉ seen) ->
  StronglySorted (fun x y => After y x = false) (ReceivedAt <$> l) ->
  (forall r, r ∈ l -> IsZero prev = true \/ After (ReceivedAt r) prev = false) ->
  exists p, checkOrder seen prev l = Some (rev (SrcPort <$> l) ++ seen, p).
Proof.
  revert seen prev. induction l as [|r l IH]; intros seen prev Hn Hs Ht Hp; [by exists prev|].
  rewrite fmap_cons in Hn. rewrite fmap_cons in Ht. apply NoDup_cons in Hn as [Hr Hn]. apply StronglySorted_inv in Ht as [Ht Hr'].
  cbn [checkOrder]. rewrite bool_decide_eq_false_2 by (apply Hs; by left). cbn [negb require mbind option_bind].
  replace (IsZero prev || negb (After (ReceivedAt r) prev)) with true.
  2:{ destruct (Hp r) as [-> | ->]; [by left|done|]. by destruct (IsZero prev). }
  cbn [require mbind option_bind]. destruct (IH (SrcPort r :: seen) (ReceivedAt r)) as [p E]; [done| |done| |].
  - intros x Hx [E|Hin]%elem_of_cons; [|by apply (Hs x); [right|]]. apply Hr, list_elem_of_fmap. by exists x.
  - intros x Hx. right. rewrite Forall_forall in Hr'. apply Hr', list_elem_of_fmap. by exists x.
  - exists p. rewrite E. rewrite fmap_cons. cbn [rev]. by rewrite <- app_assoc.
Qed.

Lemma answer_newest b q :
  st_good b -> StronglySorted (fun x y => After y x = false) (ReceivedAt <$> (r_rec <$> answer (st_kind B) (st_rows b) q)).
Proof.
  intros Hb. destruct (st_view b Hb) as [Hk _ _ _]. apply newest_first. by apply answer_sorted.
Qed.

Lemma pagesByTen_passes fuel c :
  (3 <= fuel)%nat -> all_allowed [(c 0%nat, batch 25 exporterA false)] (st_new B) -> pagesByTen fuel c = Some tt.
Proof.
  intros Hf Ha. unfold pagesByTen.
  destruct (one_write (c 0%nat) (batch 25 exporterA false)) as (b & -> & Hb & Hc); [by vm_compute|done|]. cbn [mbind option_bind].
  set (q := with_limit window 10). set (ans := answer (st_kind B) (st_rows b) q).
  assert (Hp : comparable <$> (r_rec <$> ans) ≡ₚ comparable <$> batch 25 exporterA false).
  { assert (E : List.filter (wanted (B := B) q) (ref_write [] (batch 25 exporterA false))
                = comparable <$> batch 25 exporterA false) by compute_wanted.
    unfold ans. by rewrite answer_contents, (listfilter_perm _ _ _ Hc), E. }
  assert (Hlen : length ans = 25%nat).
  { apply same_length in Hp. rewrite length_fmap in Hp. by rewrite Hp. }
  rewrite <- (eq_refl : with_cursor q "" = q) at 1.
  rewrite (pagesOf_chunks b q fuel "" [] ans Hb) by (try (by left); done).
  destruct fuel as [|[|[|fuel]]]; [lia..|]. cbn [chunks].
  change (Z.to_nat (clampLimit (q_Limit q))) with 10%nat. unfold page_of.
  change (Z.to_nat (clampLimit (q_Limit q))) with 10%nat. cbn [HasMore]. rewrite !length_drop, Hlen. cbn [Nat.sub].
  rewrite (bool_decide_eq_true_2 (10 < 25)%nat), (bool_decide_eq_true_2 (10 < 15)%nat), (bool_decide_eq_false_2 (10 < 5)%nat) by lia.
  cbn [fmap option_fmap option_map mbind option_bind Records HasMore]. rewrite !length_fmap, !length_take, !length_drop, Hlen.
  cbn [Nat.sub Nat.min Nat.eqb require mbind option_bind negb]. rewrite checkPage_all. cbn [fst snd fmap list_fmap concat Records].
  rewrite app_nil_r, <- !fmap_app, (take_ge (drop 10 (drop 10 ans))), take_drop, take_drop
    by (rewrite !length_drop, Hlen; simpl; lia).
  destruct (checkOrder_passes (r_rec <$> ans) [] zeroTime) as [p ->].
  - assert (E : SrcPort <$> (r_rec <$> ans) ≡ₚ SrcPort <$> batch 25 exporterA false).
    { apply (fmap_Permutation SrcPort) in Hp. by rewrite <- !list_fmap_compose in *. }
    rewrite E, (eq_refl : SrcPort <$> batch 25 exporterA false = seqZ 40000 25). apply NoDup_seqZ.
  - intros r _. apply not_elem_of_nil.
  - by apply answer_newest.
  - intros r _. by left.
  - cbn [mbind option_bind]. rewrite app_nil_r, length_rev, !length_fmap, Hlen. done.
Qed.

Lemma halfOpenRange_passes fuel c :
  (4 < fuel)%nat -> all_allowed [(c 0%nat, range_fixtures)] (st_new B) -> halfOpenRange fuel c = Some tt.
Proof.
  intros Hf Ha. unfold halfOpenRange. set (q := mkFlowQuery range_start range_end 0 AddrZero AddrZero None 100 "").
  destruct (one_write (c 0%nat) range_fixtures) as (b & -> & Hb & Hc); [by vm_compute|done|]. cbn [mbind option_bind].
  destruct (read_all b q _ fuel Hb Hc) as (got & -> & _ & Hg); [done|vm_compute; lia|]. cbn [mbind option_bind].
  specialize (Hg eq_refl). set (two := take 2 (drop 1 range_fixtures)).
  assert (E : List.filter (wanted (B := B) q) (ref_write [] range_fixtures) = comparable <$> two) by compute_wanted.
  rewrite E in Hg. apply bySrcPort_spec, (f_equal (fmap SrcPort)) in Hg; [|apply ascending_sorted; by vm_compute].
  rewrite <- !list_fmap_compose in Hg. change (SrcPort ∘ comparable) with SrcPort in Hg.
  destruct (bySrcPort got) as [|g0 [|g1 [|? ?]]]; try (vm_compute in Hg; discriminate).
  injection Hg as E0 E1. by rewrite E0, E1.
Qed.

(** The id that the loop over everything finds is that of one of B's rows. *)
Lemma id_of_B_found l :
  (exists r, r ∈ l /\ ExporterAddr r = exporterB) ->
  exists r, r ∈ l /\ ExporterAddr r = exporterB /\ id_of_B l = ExporterID r.
Proof.
  unfold id_of_B. induction l as [|r l IH] using rev_ind; [intros (? & []%elem_of_nil & _)|]. intros (x & Hx & Ex).
  rewrite foldl_snoc. case_bool_decide as Er.
  - exists r. split_and!; [apply elem_of_app; right; by left|done..].
  - apply elem_of_app in Hx as [Hx|Hx%list_elem_of_singleton]; [|by subst].
    destruct IH as (y & Hy & Ey & Eid); [eauto|]. exists y. rewrite elem_of_app. eauto.
Qed.

(** One read that must return the comparable records [l]. *)
Lemma filtered_read b recs q l fuel :
  st_good b -> contents b ≡ₚ ref_write [] recs -> (length (ref_write [] recs) < fuel)%nat -> q_Cursor q = ""%string ->
  q_ExporterID q = 0 -> List.filter (wanted (B := B) q) (ref_write [] recs) = l ->
  exists got, all fuel q b = Some got /\ comparable <$> got ≡ₚ l.
Proof.
  intros Hb Hc Hf Hq He <-. destruct (read_all b q _ fuel Hb Hc) as (got & E & _ & Hg); [done..|].
  exists got. split; [done|by apply Hg].
Qed.

Lemma singleton_comparable got r : comparable <$> got ≡ₚ [comparable r] -> exists g, got = [g] /\ comparable g = comparable r.
Proof.
  intros Hp. pose proof (same_length _ _ Hp) as Hl. destruct got as [|g [|? ?]]; [done| |done].
  exists g. split; [done|]. by apply Permutation_singleton_inj in Hp.
Qed.

(** Only B's record has B's id. *)
Lemma exporter_filter b everything fuel :
  st_good b -> contents b ≡ₚ ref_write [] filter_fixtures -> (7 < fuel)%nat -> all fuel window b = Some everything ->
  0 < id_of_B everything /\
  exists g, all fuel (with_exporter window (id_of_B everything)) b = Some [g] /\ ExporterAddr g = exporterB.
Proof.
  intros Hb Hc Hf Ee. pose proof (Permutation_length Hc) as Hlen.
  rewrite all_answer in Ee by (try done; rewrite Hlen; exact Hf). injection Ee as <-.
  assert (Hin : exists r, r ∈ r_rec <$> answer (st_kind B) (st_rows b) window /\ ExporterAddr r = exporterB).
  { assert (Hw : comparable (nth 6 filter_fixtures zeroRecord) ∈
      comparable <$> (r_rec <$> answer (st_kind B) (st_rows b) window)).
    { rewrite answer_contents, (listfilter_perm _ _ _ Hc) by done.
      assert (E : List.filter (wanted (B := B) window) (ref_write [] filter_fixtures) = comparable <$> filter_fixtures)
        by compute_wanted.
      rewrite E. apply list_elem_of_fmap. eexists. split; [done|]. do 6 right. by left. }
    apply list_elem_of_fmap in Hw as (r & Er & Hr). exists r. split; [done|].
    apply (f_equal ExporterAddr) in Er. exact (eq_sym Er). }
  destruct (id_of_B_found _ Hin) as (r & Hr & Ea & Eid). rewrite Eid.
  apply list_elem_of_fmap in Hr as (x & -> & Hx). unfold answer in Hx. rewrite ordered_perm, list_elem_of_In in Hx.
  apply filter_In in Hx as [Hx _]. apply list_elem_of_In in Hx.
  destruct (st_view b Hb) as [_ _ Hp _]. rewrite Forall_forall in Hp. split; [by apply Hp|].
  set (q := with_exporter window (ExporterID (r_rec x))).
  pose proof (answer_exporter b q exporterB x Hb Hx Ea eq_refl) as Hans. rewrite (listfilter_perm _ _ _ Hc) in Hans.
  destruct (singleton_comparable (r_rec <$> answer (st_kind B) (st_rows b) q) (nth 6 filter_fixtures zeroRecord))
    as (g & Eg & Ecmp).
  { rewrite Hans. change (with_exporter q 0) with window.
    assert (E : List.filter (fun r => wanted (B := B) window r && bool_decide (ExporterAddr r = exporterB))
                  (ref_write [] filter_fixtures) = [comparable (nth 6 filter_fixtures zeroRecord)]) by compute_wanted.
    by rewrite E. }
  exists g. rewrite all_answer by (try done; rewrite Hlen; exact Hf). rewrite Eg. split; [done|].
  apply (f_equal ExporterAddr) in Ecmp. exact Ecmp.
Qed.

Lemma appliesFilters_passes fuel c :
  (7 < fuel)%nat -> all_allowed [(c 0%nat, filter_fixtures)] (st_new B) -> appliesFilters fuel c = Some tt.
Proof.
  intros Hf Ha. unfold appliesFilters. set (recs := filter_fixtures) in *.
  destruct (one_write (c 0%nat) recs) as (b & -> & Hb & Hc); [by vm_compute|done|]. cbn [mbind option_bind].
  assert (Hl : (length (ref_write [] recs) < fuel)%nat) by (vm_compute; lia).
  pose proof (fun q l => filtered_read b recs q l fuel Hb Hc Hl) as Hread.
  destruct (Hread window (comparable <$> recs)) as (everything & Ee & Hev); [done..|compute_wanted|].
  destruct (exporter_filter b everything fuel Hb Hc Hf Ee) as (Hpos & g & Eg & Egb).
  rewrite Ee. cbn [mbind option_bind]. rewrite (same_length _ _ Hev), length_fmap.
  change (length recs =? 7)%nat with true. cbn [require mbind option_bind]. rewrite (proj2 (Z.ltb_lt _ _) Hpos), Eg.
  cbn [require mbind option_bind]. rewrite bool_decide_eq_true_2 by done. cbn [require mbind option_bind].
  set (r2 := nth 2 recs zeroRecord). set (r1 := nth 1 recs zeroRecord).
  destruct (Hread (with_src window (SrcAddr r2)) [comparable r2]) as (got & -> & Hg); [done..|compute_wanted|].
  destruct (singleton_comparable got r2 Hg) as (g2 & -> & E2). apply (f_equal SrcPort) in E2.
  change (SrcPort (comparable ?r)) with (SrcPort r) in E2. cbn [mbind option_bind]. rewrite E2, Z.eqb_refl.
  cbn [require mbind option_bind].
  set (v6 := [comparable r1; comparable (nth 4 recs zeroRecord)]).
  destruct (Hread (with_dst window (DstAddr r1)) v6) as (got & -> & Hg1); [done..|compute_wanted|].
  cbn [mbind option_bind]. rewrite (same_length _ _ Hg1). cbn [length Nat.eqb v6 require mbind option_bind].
  destruct (Hread (with_proto window 17) v6) as (got' & -> & Hg'); [done..|compute_wanted|].
  cbn [mbind option_bind]. rewrite (same_length _ _ Hg'). cbn [length Nat.eqb v6 require mbind option_bind].
  rewrite (proj2 (forallb_forall _ _)); [done|]. intros x Hx. apply Z.eqb_eq. apply list_elem_of_In in Hx.
  assert (Hin : Protocol x ∈ Protocol <$> v6).
  { assert (Hin : comparable x ∈ v6) by (rewrite <- Hg'; apply list_elem_of_fmap; eauto).
    apply list_elem_of_fmap. by exists (comparable x). }
  assert (E : Protocol <$> v6 = [17; 17]) by (vm_compute; reflexivity). rewrite E in Hin. clear -Hin.
  apply elem_of_cons in Hin as [|Hin%list_elem_of_singleton]; done.
Qed.
End lawful.

(** ** The suite *)

Definition suite_writes (i : nat) : list (list FlowRecord) :=
  match i with
  | 0%nat => [batch 6 exporterA false]
  | 1%nat => [batch 10 exporterA true; batch 10 exporterA true]
  | 2%nat => [batch 10 exporterA true; batch 20 exporterA true]
  | 3%nat => [batch 10 exporterA false; batch 10 exporterA false]
  | 4%nat => [batch 25 exporterA false]
  | 5%nat => [range_fixtures]
  | 6%nat => [filter_fixtures]
  | _ => []
  end.

Definition suite_allowed {B} `{Storage B} (c : nat -> nat -> st_choice B) : Prop :=
  forall i, (i < 7)%nat -> all_allowed (imap (fun j recs => (c i j, recs)) (suite_writes i)) (st_new B).
