(* ===== verification/ContractThms.v ===== *)
(** * What the storage contract gives its clients

    Proved against the interface of [Contract], and instantiated by the three
    backends: what was written is what is read back, the backends are
    interchangeable, and each of them passes the suite of [Conformance]. *)

From S2P Require Import Prelude GoTime Netip Flow Text Strings NetipText TimeText Json Cursor Rows Store Exporters StoreThms.
From S2P Require Import ClickHouse ClickHouseThms ContractClickHouse Query QueryThms Contract ContractRelational Conformance.
From S2P Require Import ConformanceThms.

(** ** Reading back *)

Lemma read_back {B} `{StorageLaws B} calls q fuel :
  Forall (writable (column_holds (st_kind B))) (concat calls.*2) -> redeliveries (at_rest <$> concat calls.*2) -> all_allowed calls (st_new B) ->
  q_Cursor q = ""%string -> q_ExporterID q = 0 -> (length (ref_write [] (concat calls.*2)) < fuel)%nat ->
  exists b recs, write_all calls (st_new B) = Some b /\ crawl fuel (st_kind B) q (st_rows b) = Some recs /\
    comparable <$> recs ≡ₚ List.filter (wanted (B := B) q) (ref_write [] (concat calls.*2)) /\
    StronglySorted (fun x y => After y x = false) (ReceivedAt <$> recs).
Proof.
  intros Hw Hr Ha Hq He Hf. assert (E0 : contents (st_new B) = []) by (unfold contents; by rewrite st_new_empty).
  destruct (write_all_spec calls (st_new B) st_new_good) as (b & E & Hb & Hc); [done|by rewrite E0|done|].
  rewrite E0 in Hc. destruct (crawl_contents b q fuel) as (recs & E' & Hp & Hs); [done..|by rewrite Hc|].
  exists b, recs. split_and!; [done..| |done]. rewrite Hp. by apply listfilter_perm.
Qed.

(** ** The filters mean the same on every backend *)

(** A query the API can send to any backend alike: instants that an [int64] of
    microseconds can express, plain addresses. *)
Record portable (q : FlowQuery) : Prop := {
  po_start : time_wf (q_Start q) /\ unix_micro_range (q_Start q);
  po_end : time_wf (q_End q) /\ unix_micro_range (q_End q);
  po_src : addr_plain (q_SrcAddr q);
  po_dst : addr_plain (q_DstAddr q)
}.

Lemma truncate_div t : nsec (TruncateMicro t) / 1000 = nsec t / 1000.
Proof.
  unfold TruncateMicro, Microsecond. cbn [nsec]. pose proof (Z.div_mod (nsec t) 1000 ltac:(lia)).
  replace (nsec t - nsec t mod 1000) with (nsec t / 1000 * 1000) by lia. apply Z.div_mul. lia.
Qed.

Lemma UnixMicro_truncate t : UnixMicro (TruncateMicro t) = UnixMicro t.
Proof. unfold UnixMicro. by rewrite truncate_div. Qed.

Lemma bound_portable k t : time_wf t -> unix_micro_range t -> bound k t = TruncateMicro t.
Proof.
  intros Hw Hr. destruct k; [done..|]. unfold bound. rewrite <- UnixMicro_truncate.
  apply (cursor_at_T ClickHouse (mkRow 0 (set_ReceivedAt (TruncateMicro t) zeroRecord))).
  split_and!; [by apply TruncateMicro_wf|apply TruncateMicro_whole|by vm_compute|].
  split; [|apply Hr]. destruct Hr as [Hr _]. cbn [r_time r_rec ReceivedAt set_ReceivedAt]. by rewrite truncate_div.
Qed.

Lemma addr_eq_plain k a b :
  addr_plain a /\ IsValid a = true -> addr_plain b -> IsValid b = true -> addr_eq k a b = bool_decide (a = b).
Proof.
  intros Ha Hb Vb. destruct k; [done| |]; simpl; apply bool_decide_ext; (split; [|congruence]).
  - destruct Ha as [(Wa & Za & _) Va], Hb as (Wb & Zb & _). intros E.
    pose proof (AddrFromSlice_AsSlice a Wa Za Va) as Ea. pose proof (AddrFromSlice_AsSlice b Wb Zb Vb) as Eb. congruence.
  - by apply As16_plain.
Qed.

Lemma matches_portable k k' q r :
  portable q -> storable r -> matches k q (mkRow 0 r) = matches k' q (mkRow 0 r).
Proof.
  intros [(? & ?) (? & ?) Hs Hd] [_ _ Hsrc Hdst _ _]. unfold matches.
  rewrite !bound_portable by done. cbn [r_rec].
  assert (E : forall a b, addr_plain a /\ IsValid a = true -> addr_plain b ->
    negb (IsValid b) || addr_eq k a b = negb (IsValid b) || addr_eq k' a b).
  { intros a b Ha Hb. destruct (IsValid b) eqn:Vb; [|done]. by rewrite !addr_eq_plain. }
  by rewrite (E _ _ Hsrc Hs), (E _ _ Hdst Hd).
Qed.

Lemma at_rest_storable r : storable r -> storable (at_rest r).
Proof.
  intros [[] He Hs Hd Hn Hk]. constructor; try done. constructor; try done; cbn; unfold micro, UTC; by apply TruncateMicro_wf.
Qed.

Lemma ref_write_storable l : Forall storable l -> Forall storable (ref_write [] l).
Proof.
  intros Hw. rewrite Forall_forall. intros r Hr. unfold ref_write in Hr. simpl in Hr.
  assert (Hin : r ∈ at_rest <$> l) by (by eapply elem_of_sublist; [|apply dedup_rows_sublist]). clear Hr.
  apply list_elem_of_fmap in Hin as (r0 & -> & Hr0). apply at_rest_storable. by eapply Forall_forall in Hw.
Qed.

Lemma listfilter_ext {X} (p p' : X -> bool) l : (forall x, x ∈ l -> p x = p' x) -> List.filter p l = List.filter p' l.
Proof.
  intros Hp. induction l as [|x l IH]; [done|]. cbn [List.filter]. rewrite (Hp x) by (by left).
  destruct (p' x); [f_equal|]; apply IH; intros y Hy; apply Hp; by right.
Qed.

(** Two descending lists of the same times are the same. *)
Lemma descending_unique (l l' : list Time) :
  StronglySorted (fun x y => After y x = false) l -> StronglySorted (fun x y => After y x = false) l' -> l ≡ₚ l' -> l = l'.
Proof.
  assert (Hanti : forall x y, After x y = false -> After y x = false -> x = y).
  { intros x y. unfold After. rewrite !orb_false_iff, !andb_false_iff, !Z.ltb_ge, !Z.eqb_neq. intros [] [].
    apply Time_ext; lia. }
  intros Hl. revert l'. induction Hl as [|x l Hl IH Hx]; intros l' Hl' Hp; [by apply Permutation_nil_l in Hp|].
  destruct Hl' as [|y l' Hl' Hy]; [by apply Permutation_nil_r in Hp|]. rewrite Forall_forall in Hx, Hy.
  assert (x = y) as <-.
  { assert (Hxin : x ∈ y :: l') by (rewrite <- Hp; by left). assert (Hyin : y ∈ x :: l) by (rewrite Hp; by left).
    apply elem_of_cons in Hxin as [|Hxin]; [done|]. apply elem_of_cons in Hyin as [|Hyin]; [done|]. auto. }
  f_equal. apply IH; [done|]. by apply Permutation_cons_inv in Hp.
Qed.

(** What was written is what is read. *)
Theorem written_is_read {B} `{StorageLaws B} calls q fuel :
  Forall (writable (column_holds (st_kind B))) (concat calls.*2) -> redeliveries (at_rest <$> concat calls.*2) -> all_allowed calls (st_new B) ->
  q_Cursor q = ""%string -> q_ExporterID q = 0 -> (length (ref_write [] (concat calls.*2)) < fuel)%nat ->
  exists b recs, write_all calls (st_new B) = Some b /\ crawl fuel (st_kind B) q (st_rows b) = Some recs /\
    comparable <$> recs ≡ₚ List.filter (wanted (B := B) q) (ref_write [] (concat calls.*2)) /\
    StronglySorted (fun x y => After y x = false) (ReceivedAt <$> recs).
Proof. apply read_back. Qed.

(** C21. The backends are interchangeable on what they keep alike: after the same
    writes, two backends answer the same query with the same records up to the
    exporter id, in the same order of reception times. Asked of the records: that
    both backends can hold them as they are (plain valid addresses, typed fields,
    reception times that a cursor can express, and instants within the range of
    both backends' columns), and that two of them with one reception time and one
    dedup key, at microsecond precision, are the same record, since PostgreSQL and
    MariaDB keep the first and ClickHouse the last of those. Asked of each call:
    that it ranges over the exporters of the batch in some order, that the
    generated sequences fit 63 bits, and on ClickHouse that neither the first eight
    bytes of a dedup key, nor a random number, nor the hash of an exporter address
    collides. Asked of the query: bounds that an int64 of microseconds can express,
    plain addresses, no cursor, and no exporter filter, since exporter ids are the
    backend's own. *)
Theorem backends_agree {B B'} `{StorageLaws B, StorageLaws B'} calls calls' q fuel :
  calls.*2 = calls'.*2 -> Forall (writable (column_holds (st_kind B))) (concat calls.*2) ->
  Forall (writable (column_holds (st_kind B'))) (concat calls.*2) -> redeliveries (at_rest <$> concat calls.*2) ->
  all_allowed calls (st_new B) -> all_allowed calls' (st_new B') ->
  portable q -> q_Cursor q = ""%string -> q_ExporterID q = 0 -> (length (ref_write [] (concat calls.*2)) < fuel)%nat ->
  exists b b' recs recs', write_all calls (st_new B) = Some b /\ write_all calls' (st_new B') = Some b' /\
    crawl fuel (st_kind B) q (st_rows b) = Some recs /\ crawl fuel (st_kind B') q (st_rows b') = Some recs' /\
    comparable <$> recs ≡ₚ comparable <$> recs' /\ ReceivedAt <$> recs = ReceivedAt <$> recs'.
Proof.
  intros Ec Hw Hw' Hr Ha Ha' Hpq Hq He Hf.
  destruct (read_back calls q fuel Hw Hr Ha Hq He Hf) as (b & recs & E & Er & Hp & Hs).
  destruct (read_back (B := B') calls' q fuel) as (b' & recs' & E' & Er' & Hp' & Hs'); rewrite <- ?Ec; [done..|].
  assert (Hsame : comparable <$> recs ≡ₚ comparable <$> recs').
  { rewrite Hp, Hp', <- Ec. rewrite (listfilter_ext (wanted (B := B) q) (wanted (B := B') q)); [done|]. intros r Hin.
    eapply Forall_forall in Hin; [|apply ref_write_storable; eapply Forall_impl; [exact Hw|by intros x []]].
    by apply matches_portable. }
  exists b, b', recs, recs'. split_and!; [done..|]. apply descending_unique; [done..|].
  apply (fmap_Permutation ReceivedAt) in Hsame. by rewrite <- !list_fmap_compose in Hsame.
Qed.

(** ** Witnesses *)

(** Two exporters' records with and without keys, and a redelivery. *)
Definition history : list (list FlowRecord) :=
  [batch 3 exporterA true ++ batch 2 exporterB false; batch 4 exporterA true].
Definition history_orders : list (list (Addr * Time)) :=
  [[(exporterA, Add baseTime (2 * Microsecond)); (exporterB, Add baseTime Microsecond)];
   [(exporterA, Add baseTime (3 * Microsecond))]].
Definition pg_history : list (st_choice (backend PgRow) * list FlowRecord) := zip history_orders history.
Definition ch_history_calls : list (st_choice ch_backend * list FlowRecord) :=
  zip ((fun o => mkChChoice o (fun n => 1000 + Z.of_nat n) []) <$> history_orders) history.

Definition no_chance_b (l : list srow) : bool :=
  forallb (fun i => forallb (fun j =>
    match l !! i, l !! j with
    | Some x, Some y =>
      (bool_decide (sort_key x <> sort_key y) || same_key x.2 y.2) &&
      (bool_decide (ch_exporter_id x.2 <> ch_exporter_id y.2) || bool_decide (ch_exporter_addr x.2 = ch_exporter_addr y.2))
    | _, _ => true
    end) (seq (S i) (length l - S i))) (seq 0 (length l)).

Lemma no_chance_decided l : no_chance_b l = true -> no_chance l.
Proof.
  unfold no_chance_b. rewrite forallb_forall. intros Hall i j x y Hij Hx Hy.
  pose proof (lookup_lt_Some _ _ _ Hx). pose proof (lookup_lt_Some _ _ _ Hy).
  specialize (Hall i ltac:(apply in_seq; lia)). rewrite forallb_forall in Hall.
  specialize (Hall j ltac:(apply in_seq; lia)). rewrite Hx, Hy, andb_true_iff, !orb_true_iff, !bool_decide_eq_true in Hall.
  tauto.
Qed.

Lemma rel_allowed_decided {Row} order records (b : backend Row) :
  bool_decide (order = map_to_list (seen_of records)) && (t_next (b_flows b) + 2 * Z.of_nat (length records) <=? 2 ^ 63) = true ->
  rel_allowed order records b.
Proof. rewrite andb_true_iff, bool_decide_eq_true, Z.leb_le. intros [-> ?]. split; [by unfold enumerates|done]. Qed.

Lemma ch_allowed_decided c records b :
  bool_decide (cc_order c = map_to_list (seen_of records)) &&
  no_chance_b (final_rows (cb_flows b) ++ block_of (cc_rand c) records) = true -> ch_allowed c records b.
Proof.
  rewrite andb_true_iff, bool_decide_eq_true. intros [E ?]. split; [unfold enumerates; by rewrite E|by apply no_chance_decided].
Qed.

(** Discharges [all_allowed] of concrete calls by evaluation. *)
Ltac evaluate_allowed :=
  repeat (split; [first [apply rel_allowed_decided | apply ch_allowed_decided]; vm_compute; reflexivity|]); exact I.

Lemma history_writable k : Forall (writable (column_holds k)) (concat history).
Proof.
  eapply Forall_impl; [|apply (writable_everywhere k)].
  repeat (constructor; [apply (bool_decide_eq_true_1 _); vm_compute; reflexivity|]). constructor.
Qed.

Lemma history_redeliveries : redeliveries (at_rest <$> concat history).
Proof. apply redeliveries_decided. by vm_compute. Qed.

Lemma written_is_read_witness :
  exists b recs, write_all pg_history (st_new (backend PgRow)) = Some b /\
    crawl 10 Postgres window (st_rows b) = Some recs /\ length recs = 6%nat.
Proof.
  destruct (written_is_read pg_history window 10) as (b & recs & E & Er & Hp & _);
    [exact (history_writable Postgres)|exact history_redeliveries|evaluate_allowed|reflexivity|reflexivity|vm_compute; lia|].
  exists b, recs. split; [exact E|]. split; [exact Er|]. apply Permutation_length in Hp. rewrite length_fmap in Hp.
  rewrite Hp. vm_compute. reflexivity.
Defined.

Lemma backends_agree_witness :
  exists b b' recs recs', write_all pg_history (st_new (backend PgRow)) = Some b /\
    write_all ch_history_calls (st_new ch_backend) = Some b' /\
    crawl 10 Postgres window (st_rows b) = Some recs /\ crawl 10 ClickHouse window (st_rows b') = Some recs' /\
    comparable <$> recs ≡ₚ comparable <$> recs' /\ ReceivedAt <$> recs = ReceivedAt <$> recs'.
Proof.
  apply (backends_agree pg_history ch_history_calls window 10);
    [reflexivity|exact (history_writable Postgres)|exact (history_writable ClickHouse)|exact history_redeliveries|evaluate_allowed|evaluate_allowed| | | |vm_compute; lia];
    try reflexivity.
  constructor; vm_compute; intuition congruence.
Defined.

(** ** The suite on the three backends *)

(** Choices for the suite: the exporters of each write with their last times,
    increasing random numbers. *)
Definition suite_order (i j : nat) : list (Addr * Time) := map_to_list (seen_of (nth j (suite_writes i) [])).
Definition suite_choice (i j : nat) : ch_choice :=
  mkChChoice (suite_order i j) (fun n => 1000 * Z.of_nat j + Z.of_nat n) [].

Lemma pg_suite_allowed : suite_allowed (B := backend PgRow) suite_order.
Proof. intros i Hi. do 7 (destruct i as [|i]; [evaluate_allowed|]). lia. Qed.

Lemma my_suite_allowed : suite_allowed (B := backend MyRow) suite_order.
Proof. intros i Hi. do 7 (destruct i as [|i]; [evaluate_allowed|]). lia. Qed.

Lemma ch_suite_allowed : suite_allowed (B := ch_backend) suite_choice.
Proof. intros i Hi. do 7 (destruct i as [|i]; [evaluate_allowed|]). lia. Qed.

(** C20. The conformance suite passes on every storage backend. The seven
    assertions of sinktest (round trip of every field, redelivery, mixed
    redelivery, records without keys, pages of ten, the half-open range, the
    filters) succeed on whatever satisfies the storage contract, for every order
    in which maps are ranged over, every allowed draw of random numbers and every
    background merge; the three backends satisfy it. *)
Theorem conformance_passes {B} `{StorageLaws B} fuel (c : nat -> nat -> st_choice B) :
  (25 < fuel)%nat -> suite_allowed c -> Conformance fuel c = true.
Proof.
  intros Hf Hc. unfold Conformance.
  rewrite (roundTrips_passes fuel (c 0%nat) ltac:(lia) (Hc 0%nat ltac:(lia))).
  rewrite (dedupTwice_passes fuel (c 1%nat) ltac:(lia) (Hc 1%nat ltac:(lia))).
  rewrite (redeliveredMix_passes fuel (c 2%nat) ltac:(lia) (Hc 2%nat ltac:(lia))).
  rewrite (nilKeyTwice_passes fuel (c 3%nat) ltac:(lia) (Hc 3%nat ltac:(lia))).
  rewrite (pagesByTen_passes fuel (c 4%nat) ltac:(lia) (Hc 4%nat ltac:(lia))).
  rewrite (halfOpenRange_passes fuel (c 5%nat) ltac:(lia) (Hc 5%nat ltac:(lia))).
  by rewrite (appliesFilters_passes fuel (c 6%nat) ltac:(lia) (Hc 6%nat ltac:(lia))).
Qed.

Lemma conformance_passes_witness :
  Conformance (B := backend PgRow) 26 suite_order = true /\ Conformance (B := backend MyRow) 26 suite_order = true /\
  Conformance (B := ch_backend) 26 suite_choice = true.
Proof.
  split; [|split]; apply conformance_passes; try lia.
  - exact pg_suite_allowed.
  - exact my_suite_allowed.
  - exact ch_suite_allowed.
Defined.
