(* ===== verification/EndToEnd.v ===== *)
(** * From an offer to a query

    The pipeline and a storage backend run together: the steps are those of
    [Pipeline.step], and when a worker finishes a batch, the result of one of
    its sinks is that of the backend's write. Proved against the interface of
    [Contract], so for each of the three backends and whatever the other sinks
    do. *)

From S2P Require Import Prelude GoTime Netip Flow Watermark Pipeline PipelineFacts PipelineLive PipelineThms Decode DecodeThms.
From S2P Require Import Text Json Cursor Rows Store Exporters StoreThms Query QueryThms Contract ContractRelational.
From S2P Require Import ClickHouse ClickHouseThms ContractClickHouse Conformance ConformanceThms ContractThms.

(** ** The reference does not depend on the order of writes *)

Lemma dedup_rows_order p l l' :
  l ≡ₚ l' -> redeliveries (p ++ l) -> dedup_rows p l ≡ₚ dedup_rows p l'.
Proof.
  intros Hl. revert p. induction Hl as [|x l l' Hl IH|x y l|l1 l2 l3 H12 IH1 H23 IH2]; intros p Hr; cbn [dedup_rows]; [done| | |].
  - assert (Hr' : redeliveries (p ++ l)).
    { intros a b Ha Hb. apply Hr; set_solver. }
    destruct (existsb (same_key x) p); [by apply IH|]. apply Permutation_skip, IH. by rewrite <- app_assoc.
  - rewrite !existsb_app. cbn [existsb]. rewrite !orb_false_r, (same_key_sym y x).
    destruct (existsb (same_key x) p) eqn:Ex, (existsb (same_key y) p) eqn:Ey, (same_key x y) eqn:Exy; cbn [orb]; try done.
    + assert (x = y) as -> by (apply Hr; [set_solver..|done]). done.
    + rewrite <- !app_assoc. cbn [app]. rewrite (dedup_rows_perm (p ++ [x; y]) (p ++ [y; x])) by solve_Permutation.
      apply Permutation_swap.
  - etrans; [by apply IH1|]. apply IH2. intros a b Ha Hb. apply Hr; rewrite elem_of_app in *; by rewrite H12.
Qed.

Lemma ref_write_order l l' :
  l ≡ₚ l' -> redeliveries (at_rest <$> l) -> ref_write [] l ≡ₚ ref_write [] l'.
Proof. intros Hl Hr. unfold ref_write. cbn [app]. apply dedup_rows_order; [by rewrite Hl|done]. Qed.

Lemma ref_write_keyless l : Forall (fun r => DedupKey r = None) l -> ref_write [] l = at_rest <$> l.
Proof.
  unfold ref_write. cbn [app]. generalize ([] : list FlowRecord) as p. induction l as [|r l IH]; intros p Hk; [done|].
  apply Forall_cons in Hk as [Hr Hk]. rewrite fmap_cons. cbn [dedup_rows].
  assert (E : existsb (same_key (at_rest r)) p = false); [|by rewrite E, IH].
  apply not_true_iff_false. rewrite existsb_exists. intros (x & _ & Hx). by rewrite same_key_none in Hx.
Qed.

(** ** The pipeline with a backend as one of its sinks *)

(** Who touches what: the batcher and the workers leave the intake, and only a
    worker's return finishes a batch. *)
Definition intake_action (a : action) : bool :=
  match a with AOffer _ _ _ | ACheck _ | ATry _ | ACount _ | AWake _ | ACancel _ => true | _ => false end.

Lemma intake_unchanged a p p' :
  intake_action a = false -> step a p = Some p' -> accepted p' = accepted p /\ offers p' = offers p.
Proof.
  destruct a as [pl src r|i|i|i|i|i| | | | |i| |i outs|sq]; intros Ha Hs; try discriminate; simpl in Hs;
    unfold batcher_take, batcher_timer, batcher_done, batcher_drained, flush, batcher_return, worker_done, Written in Hs;
    repeat case_match; simplify_eq; by split.
Qed.

Lemma finished_unchanged a p p' :
  (forall i outs, a <> AWorker i outs) -> step a p = Some p' -> finished p' = finished p.
Proof.
  destruct a as [pl src r|i|i|i|i|i| | | | |i| |i outs|sq]; intros Ha Hs; simpl in Hs;
    unfold offer_check, offer_try, offer_count, offer_wake, offer_cancel, tryOffer, batcher_take, batcher_timer, batcher_done,
      batcher_drained, flush, batcher_return, Written in Hs;
    repeat case_match; simplify_eq; try done. by destruct (Ha i outs).
Qed.

Section composed.
Context {B : Type} `{StorageLaws B} (k : nat) (admitted : FlowRecord -> Prop).

(** Anything but a worker's return leaves the store; when a worker returns,
    the [k]-th of its results is the store's answer to the batch. *)
Inductive joint_step : Pipeline * B -> Pipeline * B -> Prop :=
| joint_pipe a p p' b :
  (forall i outs, a <> AWorker i outs) -> (forall pl src r, a = AOffer pl src r -> admitted r) ->
  step a p = Some p' -> joint_step (p, b) (p', b)
| joint_write i outs c bt ok p p' b b' :
  workers p !! i = Some (Some bt) -> st_allowed c (records bt) b -> st_write c (records bt) b = (b', ok) ->
  outs !! k = Some ok -> step (AWorker i outs) p = Some p' -> joint_step (p, b) (p', b').

(** The same without offers. *)
Definition joint_quiet (s s' : Pipeline * B) : Prop := joint_step s s' /\ no_offer s.1 s'.1.

(** What is admitted can be written, and equal identities are one record. *)
Context (Hwritable : forall r, admitted r -> writable (column_holds (st_kind B)) r).
Context (Hsame : forall x y, admitted x -> admitted y -> same_key (at_rest x) (at_rest y) = true -> at_rest x = at_rest y).

Definition stored_batches (p : Pipeline) : list FlowRecord := concat (records <$> (finished p).*1).

(** Everything the pipeline holds was admitted. *)
Definition all_admitted (p : Pipeline) : Prop :=
  Forall admitted (accepted p) /\ Forall (fun o => admitted (rec o)) (offers p).

Lemma drop_offer_admitted i l : Forall (fun o => admitted (rec o)) l -> Forall (fun o => admitted (rec o)) (delete i l).
Proof. intros Hl. rewrite Forall_forall in *. intros o Ho. apply Hl. by eapply elem_of_sublist; [|apply sublist_delete]. Qed.

Lemma move_offer_admitted i c o l :
  Forall (fun o => admitted (rec o)) l -> l !! i = Some o ->
  Forall (fun o => admitted (rec o)) (<[i := mkOffer (pull o) (source o) (rec o) c]> l).
Proof. intros Hl Hi. apply Forall_insert; [done|]. exact (Forall_lookup_1 _ _ _ _ Hl Hi). Qed.

Lemma all_admitted_step a p p' :
  all_admitted p -> (forall pl src r, a = AOffer pl src r -> admitted r) -> step a p = Some p' -> all_admitted p'.
Proof.
  intros [Ha Ho] Hadm Hs. destruct (intake_action a) eqn:Eia.
  2:{ destruct (intake_unchanged a p p' Eia Hs) as [Ea Eo]. unfold all_admitted. by rewrite Ea, Eo. }
  destruct a as [pl src r|i|i|i|i|i| | | | |i| |i outs|sq]; try discriminate; simpl in Hs.
  - injection Hs as <-. split; pipe_simpl; [done|]. apply Forall_app. split; [done|]. repeat constructor. by eapply Hadm.
  - unfold offer_check in Hs. destruct (offers p !! i) as [o|] eqn:Ei; [|done]. destruct (pc o); try done. injection Hs as <-.
    destruct (closing p); [destruct (pull o)|]; split; pipe_simpl; try done;
      (by apply drop_offer_admitted) || by apply move_offer_admitted.
  - unfold offer_try in Hs. destruct (offers p !! i) as [o|] eqn:Ei; [|done]. destruct (pc o); try done.
    unfold tryOffer in Hs. destruct (_ <? _); injection Hs as <-; [|destruct (pull o)]; split; pipe_simpl; try done;
      try (by apply move_offer_admitted).
    apply Forall_app. split; [done|]. repeat constructor. exact (Forall_lookup_1 _ _ _ _ Ho Ei).
  - unfold offer_count in Hs. destruct (offers p !! i) as [o|] eqn:Ei; [|done].
    destruct (pc o) as [| | |[]]; try done; injection Hs as <-; split; pipe_simpl; try done; by apply drop_offer_admitted.
  - unfold offer_wake in Hs. destruct (offers p !! i) as [o|] eqn:Ei; [|done]. destruct (pc o); try done.
    destruct (space p); [|done]. injection Hs as <-. split; pipe_simpl; [done|by apply move_offer_admitted].
  - unfold offer_cancel in Hs. destruct (offers p !! i) as [o|] eqn:Ei; [|done]. destruct (pc o); try done.
    injection Hs as <-. split; pipe_simpl; [done|by apply drop_offer_admitted].
Qed.

(** The joint invariant: the store is lawful and holds the reference of the
    finished batches. *)
Record joint_inv (o : Options) (ss : list string) (s : Pipeline * B) : Prop := {
  ji_reach : reachable o ss s.1;
  ji_admitted : all_admitted s.1;
  ji_good : st_good s.2;
  ji_contents : contents s.2 ≡ₚ ref_write [] (stored_batches s.1)
}.

Lemma finished_accepted o ss p r :
  reachable o ss p -> fits p -> r ∈ stored_batches p \/ (exists bt, bt ∈ busy p /\ r ∈ records bt) -> r ∈ accepted p.
Proof.
  intros Hr Hf Hin. destruct (reachable_inv _ _ _ Hr Hf) as [Ho Hw]. rewrite (oi_split p Ho).
  apply elem_of_app. left. pose proof (wk_handed p Hw) as Hh. apply list_elem_of_In, in_concat.
  assert (exists bt, bt ∈ handed p /\ r ∈ records bt) as (bt & Hbt & Hrb).
  { destruct Hin as [Hin|(bt & Hbt & Hrb)]; [|exists bt; split; [|done]; rewrite Hh; apply elem_of_app; by left].
    unfold stored_batches in Hin. apply list_elem_of_In, in_concat in Hin as (l & Hl & Hrl).
    apply list_elem_of_In, list_elem_of_fmap in Hl as (bt & -> & Hbt). exists bt.
    split; [rewrite Hh; apply elem_of_app; by right|by apply list_elem_of_In]. }
  exists (records bt). split; [|by apply list_elem_of_In]. apply list_elem_of_In, list_elem_of_fmap. eauto.
Qed.

(** Admitted records agree wherever they are kept. *)
Lemma admitted_redeliveries l : Forall admitted l -> redeliveries (at_rest <$> l).
Proof.
  intros Hl x y (x0 & -> & Hx)%list_elem_of_fmap (y0 & -> & Hy)%list_elem_of_fmap. rewrite Forall_forall in Hl.
  apply Hsame; auto.
Qed.

Lemma contents_redeliveries b l new :
  contents b ≡ₚ ref_write [] l -> Forall admitted (l ++ new) -> redeliveries (contents b ++ (at_rest <$> new)).
Proof.
  intros Hc Ha. pose proof (admitted_redeliveries _ Ha) as Hr.
  assert (Hin : forall z, z ∈ contents b ++ (at_rest <$> new) -> z ∈ at_rest <$> l ++ new).
  { intros z. rewrite fmap_app, !elem_of_app. intros [Hz|Hz]; [left|by right].
    rewrite Hc in Hz. by eapply elem_of_sublist; [exact Hz|apply dedup_rows_sublist]. }
  intros x y Hx Hy. by apply Hr; apply Hin.
Qed.

Lemma joint_inv_step o ss s s' : fits s'.1 -> joint_inv o ss s -> joint_step s s' -> joint_inv o ss s'.
Proof.
  intros Hf' [Hr Hadm Hg Hc] Hs. destruct Hs as [a p p' b Hna Hoff Hs|i outs c bt ok p p' b b' Hi Hal Hw Hk Hs]; cbn [fst snd] in *.
  - constructor; cbn [fst snd]; [by eapply reachable_snoc|by eapply all_admitted_step|done|].
    unfold stored_batches in *. by rewrite (finished_unchanged a p p' Hna Hs).
  - pose proof (fits_back _ _ _ Hs Hf') as Hf. assert (Hbt : bt ∈ busy p) by (rewrite (busy_stop p i bt Hi); by left).
    assert (Hall : Forall admitted (stored_batches p ++ records bt)).
    { rewrite Forall_forall. destruct Hadm as [Hacc _]. rewrite Forall_forall in Hacc.
      intros r [Hin|Hin]%elem_of_app; apply Hacc; eapply finished_accepted; eauto. }
    destruct (st_write_law c (records bt) b Hg) as (b1 & E & Hg1 & Hc1); [|by eapply contents_redeliveries|done|].
    { apply Forall_app in Hall as [_ Hall]. eapply Forall_impl; eauto. }
    rewrite Hw in E. injection E as -> ->. constructor; cbn [fst snd]; [by eapply reachable_snoc| |done|].
    + by apply (all_admitted_step (AWorker i outs) p).
    + assert (E : stored_batches p' = stored_batches p ++ records bt).
      { simpl in Hs. unfold worker_done in Hs. rewrite Hi in Hs. destruct (decide _); [|done]. injection Hs as <-.
        unfold stored_batches. pipe_simpl. rewrite fmap_app, fmap_app, concat_app. cbn. by rewrite app_nil_r. }
      by rewrite E, ref_write_app, <- Hc.
Qed.

Lemma joint_reach o ss p0 s :
  New o ss = Ok p0 -> star joint_step (p0, st_new B) s -> fits s.1 -> joint_inv o ss s.
Proof.
  intros Hnew Hst. remember (p0, st_new B) as s0 eqn:Es. induction Hst as [s|s t u Hst IH Hs]; intros Hf.
  - subst s. assert (Hp0 : all_admitted p0 /\ finished p0 = [])
      by (unfold New in Hnew; repeat case_match; simplify_eq; by repeat split).
    constructor; cbn [fst snd]; [exists p0; split; [done|constructor]|apply Hp0|apply st_new_good|].
    unfold contents, stored_batches. by rewrite st_new_empty, (proj2 Hp0).
  - apply (joint_inv_step o ss t u); [done| |done]. apply IH; [done|].
    destruct Hs; cbn [fst] in *; by eapply fits_back.
Qed.

(** At every instant, a client reads the finished batches, which are
    part of what was ingested. *)
Lemma joint_read o ss p0 p b q fuel :
  New o ss = Ok p0 -> star joint_step (p0, st_new B) (p, b) -> fits p ->
  q_Cursor q = ""%string -> q_ExporterID q = 0 -> (length (contents b) < fuel)%nat ->
  exists recs, crawl fuel (st_kind B) q (st_rows b) = Some recs /\
    comparable <$> recs ≡ₚ List.filter (wanted (B := B) q) (ref_write [] (stored_batches p)) /\
    StronglySorted (fun x y => After y x = false) (ReceivedAt <$> recs) /\
    (forall r, r ∈ stored_batches p -> r ∈ accepted p).
Proof.
  intros Hnew Hst Hf Hq He Hfuel. destruct (joint_reach o ss p0 (p, b) Hnew Hst Hf) as [Hr _ Hg Hc].
  destruct (crawl_contents b q fuel Hg Hq He Hfuel) as (recs & E & Hp & Hs). exists recs. split_and!; [done| |done|].
  - rewrite Hp. by apply listfilter_perm.
  - intros r Hin. by eapply finished_accepted; [| |left].
Qed.

Lemma joint_quiet_star s s' : star joint_quiet s s' -> star joint_step s s' /\ star no_offer s.1 s'.1.
Proof. induction 1 as [|s t u _ [IH1 IH2] [H1 H2]]; [split; constructor|]. split; by econstructor. Qed.

Lemma joint_shutdown o ss p0 p b p1 p2 b2 :
  New o ss = Ok p0 -> star joint_step (p0, st_new B) (p, b) -> fits p -> offers p = [] ->
  step ADone p = Some p1 -> star joint_quiet (p1, b) (p2, b2) -> ph p2 = Returned ->
  fits p2 /\ star joint_step (p0, st_new B) (p2, b2) /\ accepted p2 = accepted p /\ offers p2 = [] /\
  ref_write [] (stored_batches p2) ≡ₚ ref_write [] (accepted p).
Proof.
  intros Hnew Hst Hf Ho Hd Hq Hret. apply joint_quiet_star in Hq as [Hq1 Hq2]. cbn [fst] in Hq2.
  destruct (joint_reach o ss p0 (p, b) Hnew Hst Hf) as [Hr [Hadm _] _ _]. cbn [fst] in *.
  destruct (shutdown_flushes o ss p p1 p2 Hr Hf Ho Hd Hq2 Hret) as (Ea & Eh & Ef & _ & _ & Eo).
  split; [unfold fits in *; by rewrite Ea|]. split.
  { eapply star_trans; [|exact Hq1]. econstructor; [exact Hst|]. by apply (joint_pipe ADone). }
  split; [done|]. split; [done|]. symmetry. apply ref_write_order; [|by apply admitted_redeliveries].
  unfold stored_batches. rewrite <- Eh. by rewrite Ef.
Qed.

(** A script without worker returns and offers runs beside any store. *)
Definition quiet_action (a : action) : bool :=
  match a with AWorker _ _ | AOffer _ _ _ => false | _ => true end.

Lemma joint_script acts p p' b :
  forallb quiet_action acts = true -> run_script step acts p = Some p' -> star joint_quiet (p, b) (p', b).
Proof.
  revert p. induction acts as [|a acts IH]; intros p Ha Hr; simpl in Hr; [injection Hr as <-; constructor|].
  destruct (step a p) as [p1|] eqn:E; [|done]. cbn [forallb] in Ha. apply andb_true_iff in Ha as [Ha Has].
  apply (star_trans _ _ (p1, b)); [|by apply IH]. apply star_one. split; [|exists a; split; [|done]; by intros ? ? ? ->].
  apply (joint_pipe a); [by intros ? ? ->|by intros ? ? ? ->|done].
Qed.
End composed.

(** ** The whole path *)

Lemma joint_answer {B} `{StorageLaws B} k (admitted : FlowRecord -> Prop)
  (Hw : forall r, admitted r -> writable (column_holds (st_kind B)) r)
  (Hs : forall x y, admitted x -> admitted y -> same_key (at_rest x) (at_rest y) = true -> at_rest x = at_rest y)
  o ss p0 p b p1 p2 b2 q fuel :
  New o ss = Ok p0 -> star (joint_step k admitted) (p0, st_new B) (p, b) -> fits p -> offers p = [] ->
  step ADone p = Some p1 -> star (joint_quiet k admitted) (p1, b) (p2, b2) -> ph p2 = Returned ->
  q_Cursor q = ""%string -> q_ExporterID q = 0 -> (length (contents b2) < fuel)%nat ->
  ingested p2 = len (accepted p) /\
  exists recs, crawl fuel (st_kind B) q (st_rows b2) = Some recs /\
    comparable <$> recs ≡ₚ List.filter (wanted (B := B) q) (ref_write [] (accepted p)) /\
    StronglySorted (fun x y => After y x = false) (ReceivedAt <$> recs).
Proof.
  intros Hnew Hst Hf Ho Hd Hq Hret Hc He Hfuel.
  destruct (joint_shutdown k admitted Hw Hs o ss p0 p b p1 p2 b2) as (Hf2 & Hst2 & Ea & Eo2 & Hp); [done..|]. split.
  - destruct (joint_reach k admitted Hw Hs o ss p0 (p2, b2) Hnew Hst2 Hf2) as [Hr2 _ _ _].
    rewrite <- Ea. destruct (reachable_count _ _ _ Hr2) as [_ C2 _]. cbn [fst] in C2. rewrite Eo2 in C2. change (uncounted []) with 0 in C2. lia.
  - destruct (joint_read k admitted Hw Hs o ss p0 p2 b2 q fuel) as (recs & E & Hp2 & Hs2 & _); [done..|].
    exists recs. split_and!; [done| |done]. rewrite Hp2. by apply listfilter_perm.
Qed.

(** What was ingested is what is answered, for records of any source. If
    the records a source may offer can be written and records with the same key
    are redeliveries of one record, then in every interleaving of the pipeline
    with a reachable storage backend behind its k-th sink, after an orderly shutdown the
    counter of ingested records is the number of accepted ones, and a crawl of
    any query without exporter filter returns the accepted records that match
    it, each redelivered one once, newest first. *)
Theorem ingested_is_answered {B} `{StorageLaws B} k (admitted : FlowRecord -> Prop) o ss p0 p b p1 p2 b2 q fuel :
  (forall r, admitted r -> writable (column_holds (st_kind B)) r) ->
  (forall x y, admitted x -> admitted y -> same_key (at_rest x) (at_rest y) = true -> at_rest x = at_rest y) ->
  New o ss = Ok p0 -> star (joint_step k admitted) (p0, st_new B) (p, b) -> fits p -> offers p = [] ->
  step ADone p = Some p1 -> star (joint_quiet k admitted) (p1, b) (p2, b2) -> ph p2 = Returned ->
  q_Cursor q = ""%string -> q_ExporterID q = 0 -> (length (contents b2) < fuel)%nat ->
  ingested p2 = len (accepted p) /\
  exists recs, crawl fuel (st_kind B) q (st_rows b2) = Some recs /\
    comparable <$> recs ≡ₚ List.filter (wanted (B := B) q) (ref_write [] (accepted p)) /\
    StronglySorted (fun x y => After y x = false) (ReceivedAt <$> recs).
Proof. intros Hw Hs. by apply joint_answer. Qed.

(** Records without keys, as the listener emits them. *)
Definition keyless (k : backend_kind) (r : FlowRecord) : Prop := writable (column_holds k) r /\ DedupKey r = None.

Lemma keyless_same k x y : keyless k x -> keyless k y -> same_key (at_rest x) (at_rest y) = true -> at_rest x = at_rest y.
Proof. intros [_ Ex] _ E. by rewrite same_key_none in E. Qed.

(** A record of the listener with valid unmapped endpoints can be written. *)
Lemma emitted_keyless k r :
  emit_ok r -> IsValid (ExporterAddr r) = true -> IsValid (SrcAddr r) = true -> IsValid (DstAddr r) = true ->
  Unmap (SrcAddr r) = SrcAddr r -> Unmap (DstAddr r) = DstAddr r -> Unmap (NextHop r) = NextHop r ->
  unix_nano_range (ReceivedAt r) -> columns_hold (column_holds k) r = true -> keyless k r.
Proof.
  intros [Ht Hm _ _ _ _ Hk _ (? & ? & ? & ?) He] Ve Vs Vd Us Ud Un Hr Hc. pose proof Ht as []. split; [|done].
  constructor; [|done|by rewrite Hk|].
  - constructor; try done. by rewrite Hk.
  - unfold micro, UTC. by rewrite TruncateMicro_id.
Qed.

(** A record that a backend can hold as it is. *)
Record deliverable (k : backend_kind) (r : FlowRecord) : Prop := {
  dl_valid : IsValid (ExporterAddr r) = true /\ IsValid (SrcAddr r) = true /\ IsValid (DstAddr r) = true;
  dl_plain : Unmap (SrcAddr r) = SrcAddr r /\ Unmap (DstAddr r) = DstAddr r /\ Unmap (NextHop r) = NextHop r;
  dl_range : unix_nano_range (ReceivedAt r);
  dl_columns : columns_hold (column_holds k) r = true
}.

(** C14. From a datagram to an answer. Datagrams of any length, with any read
    errors between them, are decoded by the listener; the pipeline is fed with
    what the listener emitted and, interleaved in any way, writes through one of
    its sinks, a reachable storage backend of any kind, while its other sinks
    succeed or fail as they like. Once the sources have stopped and [Run] has returned, a client
    that follows the cursors of a query gets, up to the exporter id and
    microseconds, exactly the accepted records that match it, each as often as
    it was accepted, and nothing that did not come from a datagram. Asked of the
    emitted records: addresses that a backend stores as they are, reception times
    that a cursor can express, and instants within the documented range of the
    backend's columns, which for ClickHouse begins in 1900 and so leaves out a
    flow without its switching times (the zero time). Asked of each write: that it
    ranges over the exporters of the batch in some order, that the generated
    sequences fit 63 bits, and on ClickHouse that no random sequence and no hash
    of an exporter address collides with one in the table. *)
Theorem datagrams_are_answered {B} `{StorageLaws B} `{Goflow2Laws} evs k o ss p0 p b p1 p2 b2 q fuel :
  let from_wire r := r ∈ emitted (Start evs) in
  Forall event_typed evs -> Forall (deliverable (st_kind B)) (emitted (Start evs)) ->
  New o ss = Ok p0 -> star (joint_step k from_wire) (p0, st_new B) (p, b) -> fits p -> offers p = [] ->
  step ADone p = Some p1 -> star (joint_quiet k from_wire) (p1, b) (p2, b2) -> ph p2 = Returned ->
  q_Cursor q = ""%string -> q_ExporterID q = 0 -> (length (contents b2) < fuel)%nat ->
  Forall from_wire (accepted p) /\
  exists recs, crawl fuel (st_kind B) q (st_rows b2) = Some recs /\
    comparable <$> recs ≡ₚ List.filter (wanted (B := B) q) (at_rest <$> accepted p).
Proof.
  intros from_wire Hevs Hdel Hnew Hst Hf Ho Hd Hq Hret Hc He Hfuel.
  assert (Hkl : forall r, from_wire r -> keyless (st_kind B) r).
  { intros r Hr. pose proof (emitted_ok evs Hevs) as Hok. rewrite Forall_forall in Hok, Hdel.
    destruct (Hdel r Hr) as [(? & ? & ?) (? & ? & ?) ? ?]. apply emitted_keyless; auto. }
  assert (Hw : forall r, from_wire r -> writable (column_holds (st_kind B)) r) by (intros r Hr; by apply Hkl).
  assert (Hs : forall x y, from_wire x -> from_wire y -> same_key (at_rest x) (at_rest y) = true -> at_rest x = at_rest y)
    by (intros x y Hx Hy; eapply keyless_same; auto).
  destruct (joint_reach k from_wire Hw Hs o ss p0 (p, b) Hnew Hst Hf) as [_ [Hacc _] _ _]. split; [done|].
  destruct (joint_answer k from_wire Hw Hs o ss p0 p b p1 p2 b2 q fuel) as (_ & recs & E & Hp & _); [done..|].
  exists recs. split; [done|]. rewrite Hp, ref_write_keyless; [done|].
  eapply Forall_impl; [exact Hacc|]. intros r Hr. by apply Hkl.
Qed.

(** ** Witness: a datagram, a shutdown, and another sink that fails *)

Definition path_events : list read_event := [ReadDatagram (sample_v5 1) (udp 192 0 2 1) sample_now None].
Definition path_record : FlowRecord := Eval vm_compute in nth 0 (emitted (Start path_events)) zeroRecord.
Definition path_query : FlowQuery := mkFlowQuery (Unix 1700000000 0) (Unix 1700000002 0) 0 AddrZero AddrZero (Some 6) 10 "".

Definition path_opts : Options := mkOptions 10 2 Second 1 Second.
Definition path_run (acts : list action) : Pipeline :=
  match New path_opts ["kafka"; "postgres"]%string with
  | Ok p => default p (run_script step acts p)
  | Err _ => demo_run 1 []
  end.
Definition path_intake : list action := [AOffer false "netflow" path_record; ACheck 0; ATry 0; ACount 0].
Definition path_drain : list action := path_intake ++ [ADone; ATake; ADrained; AFlush 0].
Definition path_end : list action := path_drain ++ [AWorker 0 [false; true]; AReturn].
Definition path_order : st_choice (backend PgRow) := map_to_list (seen_of [path_record]).
Definition path_store : backend PgRow := (st_write path_order [path_record] (st_new (backend PgRow))).1.

Lemma path_ingest (P : FlowRecord -> Prop) :
  P path_record -> star (joint_step 1 P) (path_run [], st_new (backend PgRow)) (path_run path_intake, st_new (backend PgRow)).
Proof.
  intros HP. apply (star_trans _ _ (path_run [AOffer false "netflow" path_record], st_new _)).
  - apply star_one, (joint_pipe 1 P (AOffer false "netflow" path_record)); [done| |vm_compute; reflexivity].
    intros ? ? ? [= <- <- <-]. exact HP.
  - apply (joint_quiet_star 1 P), (joint_script 1 P [ACheck 0; ATry 0; ACount 0]); vm_compute; reflexivity.
Qed.

Lemma path_flush (P : FlowRecord -> Prop) :
  star (joint_quiet 1 P) (path_run (path_intake ++ [ADone]), st_new (backend PgRow)) (path_run path_end, path_store).
Proof.
  apply (star_trans _ _ (path_run path_drain, st_new (backend PgRow))).
  { apply (joint_script 1 P [ATake; ADrained; AFlush 0]); vm_compute; reflexivity. }
  apply (star_trans _ _ (path_run (path_drain ++ [AWorker 0 [false; true]]), path_store)).
  2:{ apply (joint_script 1 P [AReturn]); vm_compute; reflexivity. }
  apply star_one. split; [|exists (AWorker 0 [false; true]); split; [done|vm_compute; reflexivity]].
  apply (joint_write 1 P 0 [false; true] path_order (mkBatch [path_record] 1 1) true);
    [vm_compute; reflexivity|apply rel_allowed_decided; vm_compute; reflexivity|vm_compute; reflexivity|reflexivity
    |vm_compute; reflexivity].
Qed.

Lemma path_keyless : keyless Postgres path_record.
Proof. split; [apply (bool_decide_eq_true_1 _); vm_compute; reflexivity|reflexivity]. Qed.

Lemma path_emitted : emitted (Start path_events) = [path_record].
Proof. vm_compute. reflexivity. Qed.

Lemma ingested_is_answered_witness :
  exists recs, crawl 2 Postgres path_query (st_rows path_store) = Some recs /\ comparable <$> recs ≡ₚ [path_record].
Proof.
  destruct (ingested_is_answered (B := backend PgRow) 1 (keyless Postgres) path_opts ["kafka"; "postgres"]%string (path_run [])
    (path_run path_intake) (st_new _) (path_run (path_intake ++ [ADone])) (path_run path_end) path_store path_query 2)
    as (_ & recs & E & Hp & _);
    [by intros r [? _]|exact (keyless_same Postgres)|vm_compute; reflexivity|exact (path_ingest (keyless Postgres) path_keyless)|vm_compute; reflexivity
    |vm_compute; reflexivity|vm_compute; reflexivity|exact (path_flush (keyless Postgres))|vm_compute; reflexivity|reflexivity|reflexivity
    |vm_compute; lia|].
  exists recs. split; [exact E|]. rewrite Hp. vm_compute. reflexivity.
Defined.

Lemma datagrams_are_answered_witness :
  exists recs, crawl 2 Postgres path_query (st_rows path_store) = Some recs /\ SrcPort <$> recs = [80].
Proof.
  destruct (datagrams_are_answered (B := backend PgRow) path_events 1 path_opts ["kafka"; "postgres"]%string (path_run [])
    (path_run path_intake) (st_new _) (path_run (path_intake ++ [ADone])) (path_run path_end) path_store path_query 2)
    as (_ & recs & E & Hp).
  - repeat constructor; vm_compute; intuition congruence.
  - rewrite path_emitted. repeat constructor; vm_compute; intuition congruence.
  - vm_compute. reflexivity.
  - apply path_ingest. rewrite path_emitted. by left.
  - vm_compute. reflexivity.
  - vm_compute. reflexivity.
  - vm_compute. reflexivity.
  - apply path_flush.
  - vm_compute. reflexivity.
  - reflexivity.
  - reflexivity.
  - vm_compute. lia.
  - exists recs. split; [exact E|]. assert (Hl : comparable <$> recs ≡ₚ [path_record]) by (rewrite Hp; vm_compute; reflexivity).
    destruct (singleton_comparable recs path_record Hl) as (g & -> & Eg). apply (f_equal SrcPort) in Eg. exact (f_equal (fun z => [z]) Eg).
Defined.
