(* ===== verification/IntakeRefines.v ===== *)
(** * The pipeline keeps the contract of [flow.Intake]

    The Kafka source is modelled against the contract of [flow/pull.go]: a
    list of records with their fates ([KafkaSource]). Here the pipeline with
    one worker is shown to keep it: [intake_of] reads the list off a state of
    [Pipeline], and every step of the pipeline is a sequence of steps of the
    contract. *)

From S2P Require Import Prelude GoTime Netip Flow Text Json Wire Sha256 KafkaSource KafkaThms.
From S2P Require Import Watermark Pipeline PipelineFacts PipelineLive PipelineThms.

(** ** The fates of the accepted records *)

Definition covers (k : Z) (x : batch * bool) : bool := (b_first x.1 <=? k) && (k <=? b_last x.1).

(** The fate of the record with sequence number [k]: that of its batch. *)
Definition fate (p : Pipeline) (k : Z) : status :=
  match List.find (covers k) (finished p) with
  | None => Pending
  | Some (_, true) => Done
  | Some (b, false) => if bool_decide (batch_span b ∈ failed (wmk p)) then Failed else Reported
  end.

Definition intake_of (p : Pipeline) : intake := imap (fun i r => (r, fate p (Z.of_nat i + 1))) (accepted p).

(** One record settled. *)
Definition settles (n n' : intake) : Prop := exists i ok, settle i ok n = Some n'.

Lemma intake_of_lookup p i : intake_of p !! i = (fun r => (r, fate p (Z.of_nat i + 1))) <$> accepted p !! i.
Proof. unfold intake_of. apply list_lookup_imap. Qed.

Lemma intake_of_length p : length (intake_of p) = length (accepted p).
Proof. apply length_imap. Qed.

Lemma NoDup_fmap_elem {A X} (f : A -> X) l x y : NoDup (f <$> l) -> x ∈ l -> y ∈ l -> f x = f y -> x = y.
Proof.
  induction l as [|z l IH]; intros Hnd Hx Hy E; [by apply not_elem_of_nil in Hx|].
  rewrite fmap_cons in Hnd. apply NoDup_cons in Hnd as [Hz Hnd].
  apply elem_of_cons in Hx as [->|Hx]; apply elem_of_cons in Hy as [->|Hy]; auto.
  - destruct Hz. rewrite E. by apply list_elem_of_fmap_2.
  - destruct Hz. rewrite <- E. by apply list_elem_of_fmap_2.
Qed.

Section facts.
Context (p : Pipeline) (Ho : order_inv p) (Hw : work_inv p).

Lemma finished_handed x : x ∈ finished p -> x.1 ∈ handed p.
Proof. intros Hx. rewrite (wk_handed p Hw). apply elem_of_app. right. apply list_elem_of_fmap. eauto. Qed.

Lemma handed_span b : b ∈ handed p -> batch_span b ∈ spans p.
Proof. intros Hb. apply list_elem_of_fmap. eauto. Qed.

Lemma handed_bounds b : b ∈ handed p -> 1 <= b_first b <= b_last b /\ b_last b <= len (accepted p).
Proof.
  intros Hb. destruct (contig_bounds _ _ _ (oi_contig p Ho) (handed_span b Hb)) as (H1 & H2 & H3). cbn in *.
  rewrite (oi_end p Ho) in H3. rewrite (oi_split p Ho), length_app. lia.
Qed.

(** Ranges that meet are those of one outcome. *)
Lemma finished_unique k x y : x ∈ finished p -> y ∈ finished p -> covers k x = true -> covers k y = true -> x = y.
Proof.
  unfold covers. rewrite !andb_true_iff, !Z.leb_le. intros Hx Hy Cx Cy.
  assert (Hnd : NoDup ((fun x : batch * bool => b_first x.1) <$> finished p)).
  { pose proof (firsts_NoDup p Ho) as Hnd. rewrite (wk_handed p Hw), fmap_app in Hnd. apply NoDup_app in Hnd as (_ & _ & Hnd).
    unfold fin_batches in Hnd. by rewrite <- list_fmap_compose in Hnd. }
  eapply NoDup_fmap_elem; [exact Hnd|exact Hx|exact Hy|].
  destruct (contig_disjoint _ _ _ _ (oi_contig p Ho) (handed_span _ (finished_handed x Hx)) (handed_span _ (finished_handed y Hy)))
    as [E|[E|E]]; [by injection E|cbn in *; lia..].
Qed.

Lemma fate_found k (b : batch) (ok : bool) :
  (b, ok) ∈ finished p -> b_first b <= k <= b_last b ->
  fate p k = if ok then Done else if bool_decide (batch_span b ∈ failed (wmk p)) then Failed else Reported.
Proof.
  intros Hb Hk. assert (Hc : covers k (b, ok) = true) by (unfold covers; rewrite andb_true_iff, !Z.leb_le; done).
  unfold fate. destruct (List.find (covers k) (finished p)) as [y|] eqn:E.
  - apply find_some in E as [Hy Cy]. apply list_elem_of_In in Hy. by rewrite (finished_unique k y (b, ok)).
  - apply find_none with (x := (b, ok)) in E; [|by apply list_elem_of_In]. by rewrite Hc in E.
Qed.

Lemma fate_unfinished k : (forall b, b ∈ fin_batches p -> ~ b_first b <= k <= b_last b) -> fate p k = Pending.
Proof.
  intros Hn. unfold fate. destruct (List.find (covers k) (finished p)) as [[b ok]|] eqn:E; [|done].
  apply find_some in E as [Hy Cy]. apply list_elem_of_In in Hy. unfold covers in Cy.
  rewrite andb_true_iff, !Z.leb_le in Cy. destruct (Hn b); [|done]. apply fin_elem. eauto.
Qed.

(** A fate names its batch. *)
Lemma fate_cases k :
  fate p k = Pending \/
  exists (b : batch) (ok : bool), (b, ok) ∈ finished p /\ b_first b <= k <= b_last b /\
    fate p k = if ok then Done else if bool_decide (batch_span b ∈ failed (wmk p)) then Failed else Reported.
Proof.
  unfold fate at 1. destruct (List.find (covers k) (finished p)) as [[b ok]|] eqn:E; [right|by left].
  apply find_some in E as [Hy Cy]. apply list_elem_of_In in Hy. unfold covers in Cy.
  rewrite andb_true_iff, !Z.leb_le in Cy. exists b, ok. split; [done|]. split; [done|]. by apply fate_found.
Qed.
End facts.

(** ** Steps that settle nothing *)

Lemma intake_of_ext p p' :
  accepted p' = accepted p -> finished p' = finished p -> failed (wmk p') = failed (wmk p) -> intake_of p' = intake_of p.
Proof. intros E1 E2 E3. unfold intake_of, fate. by rewrite E1, E2, E3. Qed.

Lemma intake_of_snoc p p' r :
  order_inv p -> work_inv p -> accepted p' = accepted p ++ [r] -> finished p' = finished p ->
  failed (wmk p') = failed (wmk p) -> intake_of p' = intake_of p ++ [(r, Pending)].
Proof.
  intros Ho Hw E1 E2 E3. assert (Ef : forall k, fate p' k = fate p k) by (intros k; unfold fate; by rewrite E2, E3).
  unfold intake_of. rewrite E1, imap_app. f_equal; [apply imap_ext; intros; by rewrite Ef|]. cbn. rewrite Ef.
  rewrite fate_unfinished; [done|]. intros b [ok Hb]%fin_elem Hk.
  destruct (handed_bounds p Ho b (finished_handed p Hw _ Hb)). lia.
Qed.

(** ** A worker settles a batch *)

Lemma settle_range (ok : bool) d (n n' : intake) l :
  length n' = length n ->
  (forall i, (l <= i < l + d)%nat -> exists r, n !! i = Some (r, Pending) /\ n' !! i = Some (r, if ok then Done else Failed)) ->
  (forall i, ~ (l <= i < l + d)%nat -> n' !! i = n !! i) -> star settles n n'.
Proof.
  revert n l. induction d as [|d IH]; intros n l Hlen Hin Hout.
  - replace n' with n; [constructor|]. apply list_eq. intros i. symmetry. apply Hout. lia.
  - destruct (Hin l ltac:(lia)) as (r & Hn & Hn'). set (n1 := <[l := (r, if ok then Done else Failed)]> n).
    apply (star_trans _ _ n1).
    + apply star_one. exists l, ok. unfold settle. by rewrite Hn.
    + apply lookup_lt_Some in Hn as Hl. apply (IH n1 (S l)); [by unfold n1; rewrite length_insert| |].
      * intros i Hi. unfold n1. rewrite list_lookup_insert_ne by lia. apply Hin. lia.
      * intros i Hi. unfold n1. destruct (decide (i = l)) as [->|Hne]; [by rewrite list_lookup_insert_eq|].
        rewrite list_lookup_insert_ne by done. apply Hout. lia.
Qed.

Lemma worker_fields i outs p p' :
  worker_done i outs p = Some p' ->
  exists b, workers p !! i = Some (Some b) /\ b ∈ busy p /\ accepted p' = accepted p /\ handed p' = handed p /\
    finished p' = finished p ++ [(b, write_ok outs)] /\
    failed (wmk p') = failed (wmk p) ++ (if write_ok outs then [] else [batch_span b]).
Proof.
  unfold worker_done. intros H. destruct (workers p !! i) as [[b|]|] eqn:Ei; try done. destruct (decide _); [|done].
  injection H as <-. exists b. split; [done|]. split; [rewrite (busy_stop p i b Ei); by left|]. pipe_simpl. split_and!; try done.
  unfold complete. destruct (advance _ _ _). cbn. destruct (write_ok outs); [by rewrite app_nil_r|done].
Qed.

(** A worker's return settles the records of its batch, all of them in one
    way, and no others. *)
Definition settles_batch (b : batch) (st : status) (n n' : intake) : Prop :=
  length n' = length n /\
  (forall i, b_first b <= Z.of_nat i + 1 <= b_last b -> exists r, n !! i = Some (r, Pending) /\ n' !! i = Some (r, st)) /\
  (forall i, ~ b_first b <= Z.of_nat i + 1 <= b_last b -> n' !! i = n !! i).

Lemma worker_intake i outs p p' :
  order_inv p -> work_inv p -> order_inv p' -> work_inv p' -> worker_done i outs p = Some p' ->
  exists b, workers p !! i = Some (Some b) /\ 1 <= b_first b <= b_last b /\
    settles_batch b (if write_ok outs then Done else Failed) (intake_of p) (intake_of p').
Proof.
  intros Ho Hw Ho' Hw' H. destruct (worker_fields i outs p p' H) as (b & Hbi & Hb & Ea & Eh & Ef & Ew).
  assert (Hbh : b ∈ handed p) by (rewrite (wk_handed p Hw); apply elem_of_app; by left).
  assert (Hbf : (b, write_ok outs) ∈ finished p') by (rewrite Ef; apply elem_of_app; right; by left).
  assert (Hother : forall (c : batch) (ok : bool), (c, ok) ∈ finished p -> ~ (exists k, b_first b <= k <= b_last b /\ b_first c <= k <= b_last c)).
  { intros c ok Hc (k & Hk1 & Hk2). pose proof (firsts_NoDup p Ho) as Hnd. rewrite (wk_handed p Hw), fmap_app in Hnd.
    apply NoDup_app in Hnd as (_ & Hd & _). apply (Hd (b_first b)); [by apply list_elem_of_fmap_2|].
    apply list_elem_of_fmap. exists c. split; [|apply fin_elem; eauto].
    destruct (contig_disjoint _ _ _ _ (oi_contig p Ho) (handed_span p b Hbh) (handed_span p c (finished_handed p Hw _ Hc)))
      as [E|[E|E]]; [by injection E|cbn in *; lia..]. }
  destruct (handed_bounds p Ho b Hbh) as [Hb1 Hb2].
  exists b. split; [done|]. split; [lia|]. split; [by rewrite !intake_of_length, Ea|]. split; intros j Hj; rewrite !intake_of_lookup, Ea.
  - destruct (lookup_lt_is_Some_2 (accepted p) j ltac:(lia)) as [r Er]. exists r. rewrite Er. cbn.
    rewrite (fate_unfinished p), (fate_found p' Ho' Hw' _ b (write_ok outs)) by (done || lia || (intros c [ok Hc]%fin_elem Hk; apply (Hother c ok Hc); exists (Z.of_nat j + 1); lia)).
    split; [done|]. destruct (write_ok outs); [done|]. rewrite bool_decide_eq_true_2; [done|].
    rewrite Ew. apply elem_of_app. right. by left.
  - destruct (accepted p !! j) as [r|] eqn:Er; [|done]. cbn. do 2 f_equal.
    destruct (fate_cases p Ho Hw (Z.of_nat j + 1)) as [E|(c & ok & Hc & Hk & E)]; rewrite E.
    + apply fate_unfinished. unfold fin_batches. rewrite Ef, fmap_app. intros c [Hc|Hc]%elem_of_app Hk.
      * apply list_elem_of_fmap in Hc as ([c' ok] & -> & Hc). cbn in Hk. rewrite (fate_found p Ho Hw _ c' ok Hc Hk) in E.
        repeat case_match; done.
      * cbn in Hc. apply list_elem_of_singleton in Hc as ->. lia.
    + rewrite (fate_found p' Ho' Hw' _ c ok) by (done || (rewrite Ef; apply elem_of_app; by left)).
      destruct ok; [done|]. rewrite (bool_decide_ext (batch_span c ∈ failed (wmk p')) (batch_span c ∈ failed (wmk p))); [done|].
      rewrite Ew, elem_of_app. split; [|tauto]. intros [?|Hx]; [done|]. destruct (write_ok outs); [by apply not_elem_of_nil in Hx|].
      apply list_elem_of_singleton in Hx. injection Hx as Hx1 Hx2. lia.
Qed.

Lemma worker_settles i outs p p' :
  order_inv p -> work_inv p -> order_inv p' -> work_inv p' -> worker_done i outs p = Some p' ->
  star settles (intake_of p) (intake_of p').
Proof.
  intros Ho Hw Ho' Hw' H. destruct (worker_intake i outs p p') as (b & _ & Hb & Hl & Hin & Hout); [done..|].
  apply (settle_range (write_ok outs) (Z.to_nat (b_last b - b_first b + 1)) _ _ (Z.to_nat (b_first b - 1)));
    [done|intros j Hj; apply Hin; lia|intros j Hj; apply Hout; lia].
Qed.

(** ** Answers of [Written] *)

Lemma written_nil_refines seq p p' :
  order_inv p -> work_inv p -> seq_inv p -> 0 <= seq -> Written seq p = (AwaitNil, p') ->
  written_nil (Z.to_nat seq) (intake_of p) = true /\ intake_of p' = intake_of p.
Proof.
  intros Ho Hw Hs H0 HW. unfold Written in HW. destruct (await seq (wmk p)) as [r w'] eqn:E. injection HW as -> <-.
  pose proof (await_nil_sorted _ _ _ (si_sorted p Hs) E) as Hno.
  destruct (await_cases _ _ _ _ E) as [(? & _)|(_ & -> & _ & Hle)]; [done|]. specialize (Hle eq_refl).
  split; [|by apply intake_of_ext]. unfold written_nil. apply forallb_forall. intros x Hx.
  apply list_elem_of_In, list_elem_of_lookup in Hx as (i & Hi). apply lookup_take_Some in Hi as [Hi Hlt].
  rewrite intake_of_lookup in Hi. apply fmap_Some in Hi as (rec & _ & ->). cbn.
  pose proof (written_le_flat p Ho Hw).
  destruct (written_batch p (Z.of_nat i + 1) Ho Hw) as (b & Hb & Hk); [lia|].
  assert (Hfin : b ∈ fin_batches p) by (apply (written_finished p seq); done || lia).
  apply fin_elem in Hfin as [ok Hok]. rewrite (fate_found p Ho Hw _ b ok Hok Hk). destruct ok; [done|].
  rewrite bool_decide_eq_false_2; [done|]. intros Hf. specialize (Hno _ Hf). cbn in Hno. lia.
Qed.

(** How far a report goes: to the end of the last rejected batch that starts
    at or below [seq]. *)
Definition report_end (seq : Z) (fs : list span) : Z :=
  foldr (fun f m => if first f <=? seq then Z.max m (last f) else m) seq fs.

Lemma report_end_spec seq fs :
  seq <= report_end seq fs /\ (forall f, f ∈ fs -> first f <= seq -> last f <= report_end seq fs) /\
  (report_end seq fs = seq \/ exists f, f ∈ fs /\ first f <= seq /\ report_end seq fs = last f).
Proof.
  induction fs as [|f fs (IH1 & IH2 & IH3)]; cbn [report_end foldr].
  { split; [lia|]. split; [by intros f ?%not_elem_of_nil|by left]. }
  fold (report_end seq fs). destruct (Z.leb_spec (first f) seq) as [Hf|Hf].
  - split; [lia|]. split.
    + intros g [->|Hg]%elem_of_cons Hgs; [lia|]. specialize (IH2 g Hg Hgs). lia.
    + destruct (Z.max_spec (report_end seq fs) (last f)) as [[_ ->]|[_ ->]]; [right; exists f; split; [by left|done]|].
      destruct IH3 as [?|(g & ? & ? & ?)]; [by left|]. right. exists g. split; [by right|done].
  - split; [done|]. split.
    + intros g [->|Hg]%elem_of_cons Hgs; [lia|]. auto.
    + destruct IH3 as [?|(g & ? & ? & ?)]; [by left|]. right. exists g. split; [by right|done].
Qed.

(** Reporting is what the filter on the failed ranges does. *)
Lemma report_fates seq p k :
  order_inv p -> work_inv p -> 1 <= k ->
  forall p', finished p' = finished p -> failed (wmk p') = filter (fun f => seq < first f) (failed (wmk p)) ->
  fate p' k = if decide (k <= report_end seq (failed (wmk p))) then (report (zeroRecord, fate p k)).2 else fate p k.
Proof.
  intros Ho Hw Hk p' Ef Ew. destruct (report_end_spec seq (failed (wmk p))) as (H1 & H2 & H3).
  unfold fate. rewrite Ef. pose proof (fate_cases p Ho Hw k) as Hc. unfold fate in Hc.
  destruct (List.find (covers k) (finished p)) as [[b [|]]|] eqn:E; [by case_decide| |by case_decide].
  apply find_some in E as [Hb Cb]. apply list_elem_of_In in Hb. unfold covers in Cb.
  rewrite andb_true_iff, !Z.leb_le in Cb. cbn [fst] in Cb. clear Hc.
  rewrite (bool_decide_ext _ (seq < b_first b /\ batch_span b ∈ failed (wmk p))) by (by rewrite Ew, list_elem_of_filter).
  case_decide as Hm.
  - rewrite (bool_decide_eq_false_2 (_ /\ _)); [unfold report; by case_bool_decide|]. intros [Hlt Hin].
    destruct H3 as [H3|(f & Hf & Hfs & H3)]; [lia|].
    destruct (wk_failed_sub p Hw f Hf) as (c & Hc & ->). cbn in Hfs, H3.
    assert (Hcb : (c, false) = (b, false)).
    { apply (finished_unique p Ho Hw k); [done..| |]; unfold covers; rewrite andb_true_iff, !Z.leb_le; cbn; lia. }
    injection Hcb as ->. lia.
  - destruct (bool_decide_reflect (batch_span b ∈ failed (wmk p))) as [Hin|Hin].
    + rewrite bool_decide_eq_true_2; [done|]. split; [|done]. specialize (H2 _ Hin). cbn in H2. lia.
    + rewrite bool_decide_eq_false_2; [done|tauto].
Qed.

Lemma written_failed_refines seq p p' :
  order_inv p -> work_inv p -> 0 <= seq -> Written seq p = (AwaitErrWriteFailed, p') ->
  exists m, written_failed (Z.to_nat seq) m (intake_of p) = Some (intake_of p').
Proof.
  intros Ho Hw H0 HW. unfold Written in HW. destruct (await seq (wmk p)) as [r w'] eqn:E. injection HW as -> <-.
  destruct (await_cases _ _ _ _ E) as [(_ & Hf & f0 & fs & Ef & Hf0)|(? & _)]; [|done].
  destruct (report_end_spec seq (failed (wmk p))) as (Hm & _). set (m := report_end seq (failed (wmk p))) in *.
  exists (Z.to_nat m). unfold written_failed. rewrite (proj2 (Nat.leb_le _ _)) by lia. rewrite andb_true_r.
  assert (Hex : existsb is_failed (list.take (Z.to_nat seq) (intake_of p)) = true).
  { assert (Hin : f0 ∈ failed (wmk p)) by (rewrite Ef; by left). destruct (wk_failed_sub p Hw f0 Hin) as (b & Hb & ->).
    destruct (handed_bounds p Ho b (finished_handed p Hw _ Hb)) as [Hb1 Hb2]. cbn in Hf0.
    destruct (lookup_lt_is_Some_2 (accepted p) (Z.to_nat (b_first b - 1)) ltac:(lia)) as [rec Er].
    apply existsb_exists. exists (rec, Failed). split; [|done]. apply list_elem_of_In, list_elem_of_lookup.
    exists (Z.to_nat (b_first b - 1)). rewrite lookup_take_lt, intake_of_lookup, Er by lia. cbn. do 2 f_equal.
    rewrite (fate_found p Ho Hw _ b false Hb) by lia. by rewrite bool_decide_eq_true_2. }
  rewrite Hex. f_equal. apply list_eq. intros i. rewrite fmap_take.
  assert (Hp' : forall k, 1 <= k -> _) by
    (intros k Hk; exact (report_fates seq p k Ho Hw Hk (set_wmk w' (set_reported (reported p ++ filter (fun f => first f <= seq) (failed (wmk p))) p)) eq_refl Hf)).
  rewrite intake_of_lookup. pipe_simpl. destruct (accepted p !! i) as [rec|] eqn:Er.
  - apply lookup_lt_Some in Er as Hl. cbn [fmap option_fmap option_map]. rewrite Hp' by lia. fold m. case_decide as Hk.
    + rewrite lookup_app_l by (rewrite length_take, length_fmap, intake_of_length; lia).
      rewrite lookup_take_lt, list_lookup_fmap, intake_of_lookup, Er by lia. cbn. unfold report. cbn. by destruct (fate p _).
    + rewrite lookup_app_r by (rewrite length_take, length_fmap, intake_of_length; lia).
      rewrite length_take, length_fmap, intake_of_length, lookup_drop, intake_of_lookup.
      replace (Z.to_nat m + (i - Z.to_nat m `min` length (accepted p)))%nat with i by lia. by rewrite Er.
  - apply lookup_ge_None in Er. cbn [fmap option_fmap option_map]. apply lookup_ge_None.
    rewrite length_app, length_take, length_fmap, length_drop, intake_of_length. lia.
Qed.

(** ** The refinement *)

Lemma step_intake a p p' :
  order_inv p -> work_inv p -> step a p = Some p' ->
  match a with ATry _ | AWorker _ _ | AWritten _ => True | _ => intake_of p' = intake_of p end.
Proof.
  intros Ho Hw Hs. destruct a; try done; apply intake_of_ext; step_cases Hs; done.
Qed.

(** The sequence number that call [i] is about to return. *)
Definition sent (i : nat) (p : Pipeline) : option Z :=
  o ← offers p !! i; match pc o with AtCount (Ingested seq) => Some seq | _ => None end.

Lemma try_intake i p p' :
  order_inv p -> work_inv p -> fits p' -> step (ATry i) p = Some p' ->
  exists o, offers p !! i = Some o /\
    match sent i p' with
    | Some seq => intake_of p' = intake_of p ++ [(rec o, Pending)] /\ seq = len (intake_of p')
    | None => intake_of p' = intake_of p
    end.
Proof.
  intros Ho Hw Hf Hs. pose proof (oi_next p' (order_step _ _ _ Ho Hf Hs)) as Hn. rewrite intake_of_length. cbn [step] in Hs.
  unfold offer_try in Hs. destruct (offers p !! i) as [o|] eqn:Ei; [|done]. exists o. split; [done|].
  apply lookup_lt_Some in Ei as Hl. destruct (pc o); try done. unfold tryOffer in Hs. unfold sent.
  destruct (_ <? _); [|destruct (pull o)]; injection Hs as <-; pipe_simpl; unfold move_offer; pipe_simpl;
    rewrite list_lookup_insert_eq by done; cbn [mbind option_bind pc].
  - split; [by apply intake_of_snoc|exact Hn].
  - by apply intake_of_ext.
  - by apply intake_of_ext.
Qed.

(** The sequence number that a call holds is the position of its record. *)
Definition positions (p : Pipeline) : Prop :=
  Forall (fun o => forall seq, pc o = AtCount (Ingested seq) ->
    1 <= seq /\ accepted p !! Z.to_nat (seq - 1) = Some (rec o)) (offers p).

Lemma positions_grow p l r :
  Forall (fun o => forall seq, pc o = AtCount (Ingested seq) -> 1 <= seq /\ accepted p !! Z.to_nat (seq - 1) = Some (rec o)) l ->
  Forall (fun o => forall seq, pc o = AtCount (Ingested seq) -> 1 <= seq /\ (accepted p ++ [r]) !! Z.to_nat (seq - 1) = Some (rec o)) l.
Proof.
  intros H. eapply Forall_impl; [exact H|]. intros o Ho seq E. destruct (Ho seq E) as [H1 H2]. split; [done|].
  by apply lookup_app_l_Some.
Qed.

Lemma positions_step a p p' : order_inv p -> fits p' -> positions p -> step a p = Some p' -> positions p'.
Proof.
  intros Ho Hf Hp Hs. pose proof (oi_next p' (order_step _ _ _ Ho Hf Hs)) as Hn.
  destruct a; step_cases Hs; unfold positions in *; pipe_simpl; try done;
    try (apply Forall_delete; done); try (apply Forall_insert; [|done]; done).
  - apply Forall_app. split; [done|]. by apply Forall_singleton.
  - apply Forall_insert; [by apply positions_grow|]. cbn [pc rec]. intros seq [= <-]. rewrite Hn, length_app. cbn [length].
    split; [lia|]. by rewrite list_lookup_middle by lia.
Qed.

Lemma reachable_positions o ss p : reachable o ss p -> fits p -> positions p.
Proof.
  intros (p0 & H0 & Hr) Hf. induction Hr as [p|p0 p1 p2 Hr IH [a Ha]].
  - unfold New in H0. repeat case_match; simplify_eq; constructor.
  - pose proof (fits_back _ _ _ Ha Hf) as Hf1. eapply positions_step; [|done|by apply IH|done].
    apply (reachable_inv o ss); [by exists p0|done].
Qed.

(** What a step of the pipeline is to the contract. *)
Definition keeps_contract (a : action) (p p' : Pipeline) : Prop :=
  match a with
  | AWritten seq =>
    0 <= seq ->
    match (Written seq p).1 with
    | AwaitNil => written_nil (Z.to_nat seq) (intake_of p) = true /\ intake_of p' = intake_of p
    | AwaitErrWriteFailed => exists m, written_failed (Z.to_nat seq) m (intake_of p) = Some (intake_of p')
    | _ => intake_of p' = intake_of p
    end
  | ATry i =>
    exists o, offers p !! i = Some o /\
      match sent i p' with
      | Some seq => intake_of p' = intake_of p ++ [(rec o, Pending)] /\ seq = len (intake_of p')
      | None => intake_of p' = intake_of p
      end
  | ACount i =>
    intake_of p' = intake_of p /\
    exists o, offers p !! i = Some o /\
      forall seq, sent i p = Some seq -> 1 <= seq /\ fst <$> intake_of p !! Z.to_nat (seq - 1) = Some (rec o)
  | AWorker i outs =>
    exists b, workers p !! i = Some (Some b) /\
      settles_batch b (if forallb id outs then Done else Failed) (intake_of p) (intake_of p')
  | _ => intake_of p' = intake_of p
  end.

Lemma count_intake i p p' :
  positions p -> order_inv p -> work_inv p -> step (ACount i) p = Some p' -> keeps_contract (ACount i) p p'.
Proof.
  intros Hp Ho Hw Hs. split; [by apply (step_intake (ACount i))|]. cbn [step] in Hs. unfold offer_count in Hs.
  destruct (offers p !! i) as [o|] eqn:Ei; [|done]. exists o. split; [done|]. unfold sent. rewrite Ei. cbn [mbind option_bind].
  intros seq E. destruct (pc o) as [| | |[s| |]] eqn:Ec; try done. injection E as ->.
  destruct (Forall_lookup_1 _ _ _ _ Hp Ei seq Ec) as [H1 H2]. split; [done|]. by rewrite intake_of_lookup, H2.
Qed.

Lemma write_ok_forallb outs : outs <> [] -> write_ok outs = forallb id outs.
Proof.
  intros Hne. apply eq_true_iff_eq. rewrite write_ok_all, forallb_forall. split.
  - intros [_ H] x Hx. apply H. by apply list_elem_of_In.
  - intros H. split; [done|]. intros x Hx. apply (H x). by apply list_elem_of_In.
Qed.

Lemma worker_contract o ss i outs p p' :
  reachable o ss p -> fits p' -> step (AWorker i outs) p = Some p' -> keeps_contract (AWorker i outs) p p'.
Proof.
  intros Hr Hf Hs. destruct (reachable_inv _ _ _ Hr (fits_back _ _ _ Hs Hf)) as [Ho Hw].
  destruct (worker_intake i outs p p') as (b & Hb & _ & Hset); [done..|by eapply order_step|by eapply work_step|exact Hs|].
  exists b. split; [done|]. rewrite <- write_ok_forallb; [done|]. intros ->. cbn [step] in Hs. unfold worker_done in Hs.
  rewrite Hb in Hs. destruct (decide _) as [E|]; [|done]. destruct (reachable_results o ss p Hr) as [_ Es]. rewrite Es in E.
  destruct Hr as (p0 & H0 & _). unfold New in H0. destruct ss; [|done]. repeat case_match; done.
Qed.

Lemma written_contract o ss seq p p' :
  reachable o ss p -> Workers o = 1 -> step (AWritten seq) p = Some p' -> fits p' -> keeps_contract (AWritten seq) p p'.
Proof.
  intros Hr H1 Hs Hf H0. destruct (reachable_inv _ _ _ Hr (fits_back _ _ _ Hs Hf)) as [Ho Hw].
  injection Hs as <-. pose proof (reachable_seq o ss p Hr) as Hq. unfold Written in Hf.
  destruct (Written seq p) as [r p'] eqn:E. cbn [fst snd].
  assert (Hfp : fits p) by (unfold Written in E; destruct (await _ _) as [r1 w1]; destruct r1; injection E as <- <-; exact Hf).
  destruct r.
  all: try (by apply written_nil_refines; auto). all: try (by eapply written_failed_refines).
  all: unfold Written in E; destruct (await seq (wmk p)) as [r1 w1] eqn:Ea; injection E as -> <-;
    apply intake_of_ext; try done; destruct (await_cases _ _ _ _ Ea) as [(? & _)|(_ & -> & _)]; done.
Qed.

Lemma refines_intake o ss a p p' :
  reachable o ss p -> Workers o = 1 -> step a p = Some p' -> fits p' -> keeps_contract a p p'.
Proof.
  intros Hr H1 Hs Hf. pose proof (fits_back _ _ _ Hs Hf) as Hf0. destruct (reachable_inv _ _ _ Hr Hf0) as [Ho Hw].
  pose proof (step_intake a p p' Ho Hw Hs) as Hi. destruct a; try exact Hi; clear Hi.
  - by apply try_intake.
  - apply count_intake; [by eapply reachable_positions|done..].
  - by eapply worker_contract.
  - by eapply written_contract.
Qed.

(** For a client, a worker's return is a sequence of settlements. *)
Lemma worker_settlements o ss i outs p p' :
  reachable o ss p -> fits p' -> step (AWorker i outs) p = Some p' -> star settles (intake_of p) (intake_of p').
Proof.
  intros Hr Hf Hs. destruct (reachable_inv _ _ _ Hr (fits_back _ _ _ Hs Hf)) as [Ho Hw].
  apply (worker_settles i outs); try done; [by eapply order_step|by eapply work_step].
Qed.

(** C9. The pipeline with one worker keeps the contract of flow.Intake that
    the Kafka source is proved against. Read off a reachable state, the accepted
    records with the fates of their batches form the contract's list, and every
    step keeps it: a successful tryOffer appends the offered record, pending, and
    the sequence number its call returns is that record's position, then and when
    the call ends, whichever source it came from; a tryOffer without room changes
    nothing; a worker's return settles the records of its batch and no others, as
    written when every sink accepted the batch and as rejected otherwise; Written
    answers nil only when everything up to its sequence number is written or was
    reported, answers ErrWriteFailed only when a rejected record up to it is
    unreported, and then reports the rejected batches up to it; nothing else
    changes a fate. *)
Theorem pipeline_refines_intake o ss a p p' :
  reachable o ss p -> Workers o = 1 -> step a p = Some p' -> fits p' -> keeps_contract a p p'.
Proof. apply refines_intake. Qed.

(** A batch that a sink rejects is reported, and then answered nil. *)
Definition rejected_script : list action := push 1 ++ push 2 ++ [ATake; ATake; AFlush 0; AWorker 0 [true; false]].

Lemma pipeline_refines_intake_witness :
  let p := demo_run 1 rejected_script in
  intake_of p = [(demo_record 1, Failed); (demo_record 2, Failed)] /\
  exists m, written_failed 1 m (intake_of p) = Some (intake_of (Written 1 p).2) /\
    intake_of (Written 1 p).2 = [(demo_record 1, Reported); (demo_record 2, Reported)].
Proof.
  intros p. split; [vm_compute; reflexivity|].
  pose proof (pipeline_refines_intake (demo_opts 1) demo_sinks (AWritten 1) p (Written 1 p).2) as Hk.
  assert (Hr : keeps_contract (AWritten 1) p (Written 1 p).2)
    by (apply Hk; [demo_reach|reflexivity|reflexivity|vm_compute; reflexivity]).
  unfold keeps_contract in Hr. assert (Ew : (Written 1 p).1 = AwaitErrWriteFailed) by (vm_compute; reflexivity).
  rewrite Ew in Hr. destruct (Hr ltac:(lia)) as [m Hm]. exists m. split; [exact Hm|vm_compute; reflexivity].
Defined.
