(* ===== verification/Central.v ===== *)
(** * One central collector: Kafka source, pipeline and store

    The Kafka source ([internal/source/kafka]), the pipeline with one worker
    and a storage backend behind its [k]-th sink run together; other sources
    push into the same pipeline and other sinks take part in every batch. The
    calls between the source and the pipeline, [Intake.Offer] and
    [Intake.Written], are joint steps. A failed write of the backend may have
    taken effect or not. Every joint step is one of the source against the
    contract of [flow.Intake]; [Group] runs several such collectors. *)

From S2P Require Import Prelude GoTime Netip Flow Text Json Wire WireThms Sha256 KafkaSource KafkaThms.
From S2P Require Import Cursor Rows Store Exporters StoreThms Query QueryThms Contract ContractRelational ConformanceThms ContractThms.
From S2P Require Import Watermark Pipeline PipelineFacts PipelineLive PipelineThms EndToEnd IntakeRefines.

(** ** The joint system *)

(** Steps of the source that touch nothing but itself and the broker. *)
Definition own (a : KafkaSource.act) : bool :=
  match a with
  | KafkaSource.ACancel | AConnect | AConnectErr | AAssign _ | ARevoke _ | AFetch _ | APollDone | AEndPoll | ASendAck | ASendDone | ATakeAck | ACommit _ | ACommitterExit
  | KafkaSource.AReturn => true
  | _ => false
  end.

Section central.
Context (tp : text -> option Time) (log : nat -> list KRecord).
Context {B : Type} `{StorageLaws B} (k : nat) (other : FlowRecord -> Prop).

Abbreviation kstep := (KafkaSource.step tp log).

(** The record that the poll loop offers next, if the message decodes. *)
Definition current (w : world) : option FlowRecord :=
  match w_poll w with
  | Offering _ (m :: _) _ => log m.1 !! m.2 ≫= kdecode tp
  | _ => None
  end.

(** A call of [Offer] has ended. *)
Definition ends (p p' : Pipeline) : bool := (length (offers p') <? length (offers p))%nat.

(** Steps of the pipeline in which the Kafka source takes no part: offers of
    other sources, and everything that does not decide a call of its [Offer].
    The counter that such a call increments on its way back is read by nobody,
    so the increment is a step of the pipeline alone. *)
Definition alone (a : action) (p p' : Pipeline) : bool :=
  match a with
  | AOffer pl _ _ => negb pl
  | ATry i => match offers p !! i, sent i p' with Some o, Some _ => negb (pull o) | _, _ => true end
  | ACheck i | ACancel i =>
    match offers p !! i with Some o => negb (pull o) || negb (ends p p') | None => true end
  | AWorker _ _ | AWritten _ => false
  | _ => true
  end.

(** [CWrite i outs c landed]: worker [i] finishes; [c] is what the backend
    leaves open, [landed] whether a failed write took effect. *)
Inductive cact :=
| CSource (a : KafkaSource.act)
| CPoison
| CCall
| COffer (i : nat)
| CRefused (a : action)
| CWritten
| CPipe (a : action)
| CWrite (i : nat) (outs : list bool) (c : st_choice B) (landed : bool).

Definition cstate : Type := world * Pipeline * B.

Definition c_step (a : cact) (s : cstate) : option cstate :=
  let '(w, p, b) := s in
  match a with
  | CSource a => if own a then (fun w' => (w', p, b)) <$> kstep a w else None
  | CPoison =>
    match current w with None => (fun w' => (w', p, b)) <$> kstep KafkaSource.AOffer w | Some _ => None end
  | CCall =>
    r ← current w;
    if forallb (fun o => negb (pull o)) (offers p) then (fun p' => (w, p', b)) <$> step (AOffer true "kafka" r) p else None
  | COffer i =>
    o ← offers p !! i; p' ← step (ATry i) p; seq ← sent i p';
    match w_poll w with
    | Offering ms (m :: todo) _ =>
      if negb (w_returned w) && pull o && bool_decide (current w = Some (rec o))
      then Some (w_set_poll (Offering (ms ++ [m]) todo (Z.to_nat seq)) w, p', b) else None
    | _ => None
    end
  | CRefused a =>
    match a with
    | ACheck i | ACancel i =>
      o ← offers p !! i; p' ← step a p;
      if pull o && ends p p' then (fun w' => (w', p', b)) <$> kstep AOfferErr w else None
    | _ => None
    end
  | CWritten =>
    match w_committer w with
    | Waiting a =>
      if w_returned w then None
      else
      let '(r, p') := Written (Z.of_nat (ack_seq a)) p in
      match r with
      | AwaitNil => Some (w_set_committer (Committing a) w, p', b)
      | AwaitErrWriteFailed => Some (w_set_failed true (w_set_session_done true (w_set_committer Exited w)), p', b)
      | AwaitCanceled => (fun w' => (w', p', b)) <$> kstep AWrittenCtx w
      | AwaitBlock => if w_session_done w then (fun w' => (w', p', b)) <$> kstep AWrittenCtx w else None
      end
    | _ => None
    end
  | CPipe a => p' ← step a p; if alone a p p' then Some (w, p', b) else None
  | CWrite i outs c landed =>
    match workers p !! i with
    | Some (Some bt) =>
      p' ← step (AWorker i outs) p;
      ok ← outs !! k;
      Some (w, p', if (ok : bool) || landed then (st_write c (records bt) b).1 else b)
    | _ => None
    end
  end.

(** What other sources push, and the choices the backend's contract allows. *)
Definition c_allowed (a : cact) (s : cstate) : Prop :=
  match a with
  | CPipe (AOffer _ _ r) => other r
  | CWrite i _ c _ => forall bt, workers s.1.2 !! i = Some (Some bt) -> st_allowed c (records bt) s.2
  | _ => True
  end.

(** ** The source sees its contract *)

Definition view (s : cstate) : world := w_set_intake (intake_of s.1.2) s.1.1.

(** Steps that do not look at the intake. *)
Definition blind (a : KafkaSource.act) : bool :=
  match a with ASettle _ _ | AOther _ | KafkaSource.AOffer | AWrittenNil | AWrittenFailed _ => false | _ => true end.

Lemma blind_view a w w' n : blind a = true -> kstep a w = Some w' -> kstep a (w_set_intake n w) = Some (w_set_intake n w').
Proof.
  intros Ha Hs. destruct w as [wc wp wl wa wm wf wsd wctx wi wde wr wret wels]. destruct a; try done;
    unfold KafkaSource.step in *; cbn in *; repeat (case_match; try done); simplify_eq; try done.
  - by destruct (fetch log fs wp) as [[ms pos]|]; simplify_eq/=.
  - destruct (log _ !! _) as [x|]; [|done]. cbn in *. by destruct (kdecode tp x); simplify_eq/=.
Qed.

Lemma blind_star a w w' n :
  blind a = true -> kstep a w = Some w' -> star (steps_to kstep) (w_set_intake n w) (w_set_intake n w').
Proof. intros Ha Hs. apply star_one. exists a. by apply blind_view. Qed.

Lemma poison_view w w' n :
  current w = None -> kstep KafkaSource.AOffer w = Some w' ->
  kstep KafkaSource.AOffer (w_set_intake n w) = Some (w_set_intake n w').
Proof.
  unfold current. intros Hc Hs. destruct w as [wc wp wl wa wm wf wsd wctx wi wde wr wret wels].
  unfold KafkaSource.step in *. cbn in *. destruct (_ && _); [done|]. destruct wl as [| |ms [|m todo] last| |]; try done.
  destruct (log m.1 !! m.2) as [r|]; [|done]. cbn in *. rewrite Hc in *. by simplify_eq.
Qed.

Lemma settles_steps n n' w : star settles n n' -> star (steps_to kstep) (w_set_intake n w) (w_set_intake n' w).
Proof.
  induction 1 as [|n1 n2 n3 _ IH (i & ok & E)]; [constructor|]. econstructor; [exact IH|]. exists (ASettle i ok).
  unfold KafkaSource.step. cbn [environment]. rewrite andb_false_r. cbn [w_intake w_set_intake]. by rewrite E.
Qed.

Lemma offer_view w n ms m todo last r :
  w_returned w = false -> w_poll w = Offering ms (m :: todo) last -> current w = Some r ->
  kstep KafkaSource.AOffer (w_set_intake n w) =
  Some (w_set_intake (n ++ [(r, Pending)]) (w_set_poll (Offering (ms ++ [m]) todo (S (length n))) w)).
Proof.
  unfold current. intros Hr Hp Hc. rewrite Hp in Hc. destruct w as [wc wp wl wa wm wf wsd wctx wi wde wr wret wels]. cbn in *. subst.
  unfold KafkaSource.step. cbn. destruct (log m.1 !! m.2) as [x|]; [|done]. cbn in *. by rewrite Hc.
Qed.

Lemma written_view w n n' a m :
  w_returned w = false -> w_committer w = Waiting a -> written_failed (ack_seq a) m n = Some n' ->
  kstep (AWrittenFailed m) (w_set_intake n w) =
  Some (w_set_intake n' (w_set_failed true (w_set_session_done true (w_set_committer Exited w)))).
Proof.
  intros Hr Hc E. destruct w as [wc wp wl wa wm wf wsd wctx wi wde wr wret wels]. cbn in *. subst. unfold KafkaSource.step. cbn. by rewrite E.
Qed.

Lemma written_nil_view w n a :
  w_returned w = false -> w_committer w = Waiting a -> written_nil (ack_seq a) n = true ->
  kstep AWrittenNil (w_set_intake n w) = Some (w_set_intake n (w_set_committer (Committing a) w)).
Proof.
  intros Hr Hc E. destruct w as [wc wp wl wa wm wf wsd wctx wi wde wr wret wels]. cbn in *. subst. unfold KafkaSource.step. cbn. by rewrite E.
Qed.

Lemma written_view_step o ss w w' p p' b b' :
  reachable o ss p -> Workers o = 1 -> fits p' -> c_step CWritten (w, p, b) = Some (w', p', b') ->
  star (steps_to kstep) (view (w, p, b)) (view (w', p', b')) /\
  b' = b /\ exists seq, step (AWritten seq) p = Some p'.
Proof.
  intros Hr H1 Hf Hs. cbn in Hs. destruct (w_committer w) as [|a| |] eqn:Ec; try done. destruct (w_returned w) eqn:Er; [done|].
  destruct (Written (Z.of_nat (ack_seq a)) p) as [r q] eqn:EW.
  assert (Eq : step (AWritten (Z.of_nat (ack_seq a))) p = Some q) by (cbn; by rewrite EW).
  assert (q = p' /\ b' = b) as [-> ->] by (destruct r; try destruct (w_session_done w); try done; try (apply fmap_Some in Hs as (w1 & _ & Hs)); by simplify_eq).
  split; [|eauto]. pose proof (refines_intake o ss _ p p' Hr H1 Eq Hf ltac:(lia)) as Hi. rewrite EW, Nat2Z.id in Hi.
  unfold view. cbn [fst snd] in *. destruct r.
  - simplify_eq. destruct Hi as [Hi ->]. apply star_one. exists AWrittenNil. by apply written_nil_view.
  - simplify_eq. destruct Hi as [m Hi]. apply star_one. exists (AWrittenFailed m). by apply written_view with a.
  - apply fmap_Some in Hs as (w1 & Hs & E). simplify_eq. rewrite Hi. by apply (blind_star AWrittenCtx).
  - destruct (w_session_done w); [|done]. apply fmap_Some in Hs as (w1 & Hs & E). simplify_eq. rewrite Hi.
    by apply (blind_star AWrittenCtx).
Qed.

(** The steps of the pipeline by themselves. *)
Lemma pipe_view_step o ss w a p p' b :
  reachable o ss p -> Workers o = 1 -> fits p' -> step a p = Some p' -> alone a p p' = true ->
  star (steps_to kstep) (view (w, p, b)) (view (w, p', b)).
Proof.
  intros Hr H1 Hf Hs Ha. pose proof (refines_intake o ss a p p' Hr H1 Hs Hf) as Hi. unfold view. cbn [fst snd].
  destruct a; try discriminate Ha; try (rewrite Hi; constructor); [|rewrite (proj1 Hi); constructor].
  destruct Hi as (x & Hx & Hi). destruct (sent i p'); [destruct Hi as [-> _]|rewrite Hi; constructor]. apply star_one. exists (AOther (rec x)).
  unfold KafkaSource.step. cbn [environment]. by rewrite andb_false_r.
Qed.

Lemma offer_view_step o ss w w' i p p' b b' :
  reachable o ss p -> Workers o = 1 -> fits p' -> c_step (COffer i) (w, p, b) = Some (w', p', b') ->
  star (steps_to kstep) (view (w, p, b)) (view (w', p', b')) /\ b' = b /\ step (ATry i) p = Some p'.
Proof.
  intros Hr H1 Hf Hs. cbn [c_step] in Hs. destruct (offers p !! i) as [x|] eqn:Ei; [|done]. cbn [mbind option_bind] in Hs.
  destruct (step (ATry i) p) as [q|] eqn:Et; [|done]. cbn [mbind option_bind] in Hs.
  destruct (sent i q) as [seq|] eqn:Es; [|done]. cbn [mbind option_bind] in Hs.
  destruct (w_poll w) as [| |ms [|m todo] last| |] eqn:Ew; try done.
  destruct (negb (w_returned w) && pull x && bool_decide (current w = Some (rec x))) eqn:Eg; [|done]. simplify_eq.
  rewrite !andb_true_iff, negb_true_iff, bool_decide_eq_true in Eg. destruct Eg as [[Eg1 Eg2] Eg3].
  split; [|done]. destruct (refines_intake o ss (ATry i) p p' Hr H1 Et Hf) as (y & Ey & Hy). rewrite Es in Hy. destruct Hy as [En Hn].
  rewrite Ei in Ey. injection Ey as <-. unfold view. cbn [fst snd]. apply star_one. exists KafkaSource.AOffer.
  rewrite (offer_view w _ ms m todo last (rec x)) by done. rewrite <- En. do 3 f_equal. rewrite Hn, En, length_app. cbn. do 2 f_equal. lia.
Qed.

Lemma refused_view_step o ss w w' a p p' b b' :
  reachable o ss p -> Workers o = 1 -> fits p' -> c_step (CRefused a) (w, p, b) = Some (w', p', b') ->
  star (steps_to kstep) (view (w, p, b)) (view (w', p', b')) /\ b' = b /\
  (p' = p \/ exists pa, step pa p = Some p' /\ (forall i outs, pa <> AWorker i outs) /\
     forall pl src r, pa = AOffer pl src r -> current w = Some r \/ CRefused a = CPipe pa).
Proof.
  intros Hr H1 Hf Hs. cbn [c_step] in Hs.
  assert (Hc : exists i, a = ACheck i \/ a = ACancel i) by (destruct a; try done; eauto).
  destruct (step a p) as [q|] eqn:Eq; [|destruct a; try done; destruct (offers p !! _); done].
  assert (exists w1, kstep AOfferErr w = Some w1 /\ (w', p', b') = (w1, q, b)) as (w1 & Hw & E).
  { destruct Hc as [i [-> | ->]]; destruct (offers p !! i) as [x|]; try done; cbn [mbind option_bind] in Hs;
      destruct (_ && _); try done; apply fmap_Some in Hs as (w1 & ? & ?); eauto. }
  simplify_eq. pose proof (refines_intake o ss a p q Hr H1 Eq Hf) as Hi. split.
  - unfold view. cbn [fst snd]. assert (intake_of q = intake_of p) as -> by (destruct Hc as [i [-> | ->]]; exact Hi).
    by apply (blind_star AOfferErr).
  - split; [done|]. right. exists a. split; [done|]. by destruct Hc as [i [-> | ->]].
Qed.

Lemma write_view_step o ss w i outs p p' b b' :
  reachable o ss p -> Workers o = 1 -> fits p' -> step (AWorker i outs) p = Some p' ->
  star (steps_to kstep) (view (w, p, b)) (view (w, p', b')).
Proof. intros Hr H1 Hf Hs. by eapply settles_steps, worker_settlements. Qed.

(** Every joint step is one of the source against its contract, and at most
    one step of the pipeline; only a worker's return changes the store. *)
Lemma c_step_refines o ss a w p b w' p' b' :
  reachable o ss p -> Workers o = 1 -> fits p' -> c_step a (w, p, b) = Some (w', p', b') ->
  star (steps_to kstep) (view (w, p, b)) (view (w', p', b')) /\
  match a with
  | CWrite i outs c landed => exists bt ok, workers p !! i = Some (Some bt) /\ step (AWorker i outs) p = Some p' /\
      outs !! k = Some ok /\ b' = if ok || landed then (st_write c (records bt) b).1 else b
  | _ => b' = b /\ (p' = p \/ exists pa, step pa p = Some p' /\ (forall i outs, pa <> AWorker i outs) /\
      forall pl src r, pa = AOffer pl src r -> current w = Some r \/ a = CPipe pa)
  end.
Proof.
  intros Hr H1 Hf Hs. destruct a as [a| | |i|a| |a|i outs c landed].
  - cbn in Hs. destruct (own a) eqn:Ea; [|done]. apply fmap_Some in Hs as (w1 & Hs & E). simplify_eq.
    split; [|by split; [|left]]. apply (blind_star a); [by destruct a|done].
  - cbn in Hs. destruct (current w) eqn:Ec; [done|]. apply fmap_Some in Hs as (w1 & Hs & E). simplify_eq.
    split; [|by split; [|left]]. apply star_one. exists KafkaSource.AOffer. by apply poison_view.
  - cbn [c_step] in Hs. destruct (current w) as [r|] eqn:Ec; [|done]. cbn [mbind option_bind] in Hs. destruct (forallb _ _); [|done].
    apply fmap_Some in Hs as (p1 & Hs & E). simplify_eq. pose proof (refines_intake o ss _ _ _ Hr H1 Hs Hf) as Hi.
    split; [unfold view; cbn [fst snd]; rewrite Hi; constructor|]. split; [done|]. right. eexists. split; [exact Hs|].
    split; [done|]. intros pl src r' [= <- <- <-]. by left.
  - destruct (offer_view_step o ss w w' i p p' b b' Hr H1 Hf Hs) as (? & ? & ?). split; [done|]. split; [done|].
    right. exists (ATry i). by split.
  - by apply (refused_view_step o ss).
  - destruct (written_view_step o ss w w' p p' b b' Hr H1 Hf Hs) as (? & ? & seq & ?). split; [done|]. split; [done|].
    right. exists (AWritten seq). by split.
  - cbn [c_step] in Hs. destruct (step a p) as [q|] eqn:Eq; [|done]. cbn [mbind option_bind] in Hs.
    destruct (alone a p q) eqn:Ea; [|done]. simplify_eq. split; [by eapply pipe_view_step|]. split; [done|].
    right. exists a. split; [done|]. split; [by intros i outs ->|]. intros. by right.
  - cbn [c_step] in Hs. destruct (workers p !! i) as [[bt|]|] eqn:Ei; [|done..].
    destruct (step (AWorker i outs) p) as [q|] eqn:Eq; [|done]. cbn [mbind option_bind] in Hs.
    destruct (outs !! k) as [ok|] eqn:Eo; [|done]. cbn [mbind option_bind] in Hs. simplify_eq.
    split; [by eapply write_view_step|]. exists bt, ok. by split_and!.
Qed.

(** A joint step contains at most one of the pipeline. *)
Lemma c_step_pipe a w p b w' p' b' : c_step a (w, p, b) = Some (w', p', b') -> p' = p \/ exists pa, step pa p = Some p'.
Proof.
  intros Hs. destruct a as [a| | |i|a| |a|i outs c landed]; cbn [c_step] in Hs.
  - destruct (own a); [|done]. apply fmap_Some in Hs as (w1 & _ & E). left. by simplify_eq.
  - destruct (current w); [done|]. apply fmap_Some in Hs as (w1 & _ & E). left. by simplify_eq.
  - apply bind_Some in Hs as (r & _ & Hs). destruct (forallb _ _); [|done]. apply fmap_Some in Hs as (q & Hq & E). simplify_eq. eauto.
  - apply bind_Some in Hs as (x & _ & Hs). apply bind_Some in Hs as (q & Hq & Hs).
    apply bind_Some in Hs as (n & _ & Hs). repeat (case_match; try done). simplify_eq. eauto.
  - destruct a; try done; apply bind_Some in Hs as (x & _ & Hs); apply bind_Some in Hs as (q & Hq & Hs);
      destruct (_ && _); try done; apply fmap_Some in Hs as (w1 & _ & E); simplify_eq; eauto.
  - destruct (w_committer w) as [|a| |]; try done. destruct (w_returned w); [done|].
    destruct (Written (Z.of_nat (ack_seq a)) p) as [r q] eqn:E. right. exists (AWritten (Z.of_nat (ack_seq a))). cbn. rewrite E.
    repeat (case_match; try done); try (apply fmap_Some in Hs as (w1 & _ & Hs)); by simplify_eq.
  - apply bind_Some in Hs as (q & Hq & Hs). destruct (alone a p q); [|done]. simplify_eq. eauto.
  - repeat (case_match; try done). apply bind_Some in Hs as (q & Hq & Hs). apply bind_Some in Hs as (ok & _ & Hs). simplify_eq. eauto.
Qed.

End central.
