(* ===== verification/Group.v ===== *)
(** * The consumer group: several central collectors over one topic and one store

    The collectors of a Kafka consumer group, each a joint system of [Central],
    share the topic, the group's committed offsets and a storage backend.
    Collectors start, crash and start again; partitions move between them; a
    commit of one is what the others, and those that start later, resume from. *)

From S2P Require Import Prelude GoTime Netip Flow Text Json Wire WireThms Sha256 KafkaSource KafkaThms.
From S2P Require Import Cursor Rows Store Exporters StoreThms Query QueryThms Contract ContractRelational ConformanceThms ContractThms.
From S2P Require Import Watermark Pipeline PipelineFacts PipelineLive PipelineThms EndToEnd IntakeRefines Central.

(** ** The group *)

Section group.
Context (tp : text -> option Time) (log : nat -> list KRecord).
Context {B : Type} `{StorageLaws B} (k : nat) (other : FlowRecord -> Prop) (o : Options) (ss : list string).

Abbreviation kstep := (KafkaSource.step tp log).

Record group := mkGroup {
  g_members : list (world * Pipeline);
  g_offsets : gmap nat nat;             (* what the broker keeps for the group *)
  g_store : B
}.

(** Offsets that are committed elsewhere. *)
Definition hear (c : gmap nat nat) (w : world) : world :=
  w_set_committed (c ∪ w_committed w) (w_set_elsewhere (map_to_list c ++ w_elsewhere w) w).

Inductive gact :=
| GStep (i : nat) (a : cact (B := B)) (* collector [i] and the shared store *)
| GStart                              (* a collector starts, or starts again *)
| GGone (i : nat).                    (* a collector has stopped, or crashed *)

Definition g_step (a : gact) (g : group) : option group :=
  match a with
  | GStep i a =>
    '(w, p) ← g_members g !! i;
    '(w', p', b') ← c_step tp log k a (w, p, g_store g);
    let ms := if decide (w_committed w' = g_offsets g) then g_members g
              else (fun m => (hear (w_committed w') m.1, m.2)) <$> g_members g in
    Some (mkGroup (<[i := (w', p')]> ms) (w_committed w') b')
  | GStart =>
    match New o ss with
    | Ok p => Some (mkGroup (g_members g ++ [(hear (g_offsets g) (init_world []), p)]) (g_offsets g) (g_store g))
    | Err _ => None
    end
  | GGone i => Some (mkGroup (delete i (g_members g)) (g_offsets g) (g_store g))
  end.

(** As in one system; a collector that is gone had not counted past 64 bits. *)
Definition g_allowed (a : gact) (g : group) : Prop :=
  match a with
  | GStep i a => forall w p, g_members g !! i = Some (w, p) -> c_allowed other a (w, p, g_store g)
  | GStart => True
  | GGone i => forall w p, g_members g !! i = Some (w, p) -> fits p
  end.

Definition group_step (g g' : group) : Prop := exists a, g_allowed a g /\ g_step a g = Some g'.
Definition group_start : group := mkGroup [] ∅ (st_new B).

(** ** What the store holds *)

(** The records that can be in the system: those of the topic, and what other
    sources push. *)
Definition from_topic (r : FlowRecord) : Prop := exists m, decodes tp log m r.
Definition admitted (r : FlowRecord) : Prop := from_topic r \/ other r.

Context (Hwritable : forall r, admitted r -> writable (column_holds (st_kind B)) r).
Context (Hsame : forall x y, admitted x -> admitted y -> same_key (at_rest x) (at_rest y) = true -> at_rest x = at_rest y).
Context (Hone : Workers o = 1).

(** [l] are the records written so far: the store holds their reference. *)
Definition stores (l : list FlowRecord) (b : B) : Prop :=
  st_good b /\ contents b ≡ₚ ref_write [] l /\ Forall admitted l.

Definition below (l : list FlowRecord) (q c : nat) : Prop :=
  forall off r, (off < c)%nat -> decodes tp log (q, off) r -> r ∈ l.

Record member_inv (l : list FlowRecord) (m : world * Pipeline) : Prop := {
  mi_reach : reachable o ss m.2;
  mi_admitted : all_admitted admitted m.2;
  mi_written : forall bt r, (bt, true) ∈ finished m.2 -> r ∈ records bt -> r ∈ l;
  mi_view : star (steps_to kstep) (init_world []) (w_set_intake (intake_of m.2) m.1);
  mi_passed : forall q c, (q, c) ∈ w_elsewhere m.1 -> below l q c
}.

Record group_inv (l : list FlowRecord) (g : group) : Prop := {
  gi_stores : stores l (g_store g);
  gi_members : Forall (member_inv l) (g_members g);
  gi_offsets : forall q c, g_offsets g !! q = Some c -> below l q c
}.

Lemma current_topic w r : current tp log w = Some r -> from_topic r.
Proof.
  unfold current. destruct (w_poll w) as [| |ms [|m todo] last| |]; try done.
  intros (x & Hx & Hr)%bind_Some. by exists m, x.
Qed.

(** A worker's return, with what it wrote. *)
Lemma write_stored l i outs c landed bt (ok : bool) p p' b :
  reachable o ss p -> fits p -> all_admitted admitted p -> stores l b ->
  (forall bt r, (bt, true) ∈ finished p -> r ∈ records bt -> r ∈ l) ->
  workers p !! i = Some (Some bt) -> step (AWorker i outs) p = Some p' -> outs !! k = Some ok -> st_allowed c (records bt) b ->
  exists l', l ⊆ l' /\ stores l' (if ok || landed then (st_write c (records bt) b).1 else b) /\
    forall bt r, (bt, true) ∈ finished p' -> r ∈ records bt -> r ∈ l'.
Proof.
  intros Hr Hf [Hacc _] (Hg & Hl & Hal) Hin Hi Hs Ho Hc.
  assert (Hbt : Forall admitted (records bt)).
  { rewrite Forall_forall in *. intros r Hrb. apply Hacc. eapply finished_accepted; [exact Hr|done|]. right. exists bt.
    split; [|done]. rewrite (busy_stop p i bt Hi). by left. }
  assert (Ef : finished p' = finished p ++ [(bt, write_ok outs)]).
  { cbn in Hs. unfold worker_done in Hs. rewrite Hi in Hs. destruct (decide _); [|done]. by injection Hs as <-. }
  assert (Hok : write_ok outs = true -> ok = true).
  { intros [_ E]%write_ok_all. apply E. by eapply list_elem_of_lookup_2. }
  destruct (ok || landed) eqn:El.
  - destruct (st_write_law c (records bt) b Hg) as (b1 & -> & Hg1 & Hc1); cbn [fst].
    + by eapply Forall_impl.
    + eapply contents_redeliveries; [exact Hsame|exact Hl|]. apply Forall_app. by split.
    + done.
    + exists (l ++ records bt). split; [set_solver|]. split; [split_and!; [done|by rewrite Hc1, Hl, ref_write_app|by apply Forall_app]|].
      rewrite Ef. intros c' r [Hc'|Hc']%elem_of_app Hrc; apply elem_of_app; [left; eauto|right].
      apply list_elem_of_singleton in Hc'. by simplify_eq.
  - exists l. split; [done|]. split; [done|]. rewrite Ef. intros c' r [Hc'|Hc']%elem_of_app Hrc; [eauto|].
    apply list_elem_of_singleton in Hc'. injection Hc' as -> E. rewrite Hok in El by done. done.
Qed.

(** ** One collector's step *)

(** A collector adds to the offsets, and the history is the others'. *)
Definition extends (w w' : world) : Prop :=
  w_elsewhere w' = w_elsewhere w /\ exists h, w_committed w' = h ∪ w_committed w.

Lemma extends_same w w' : w_elsewhere w' = w_elsewhere w -> w_committed w' = w_committed w -> extends w w'.
Proof. intros E1 E2. split; [done|]. exists ∅. by rewrite E2, (left_id_L ∅ (∪)). Qed.

Lemma kstep_extends a w w' : kstep a w = Some w' -> (forall q c, a <> AMember q c) -> extends w w'.
Proof.
  intros Hs Ha. unfold KafkaSource.step in Hs. destruct (_ && _); [done|].
  destruct a; try (by destruct (Ha q c)); simplify_option_eq; repeat (case_match; simplify_option_eq);
    try (by apply extends_same). split; [done|]. by eexists.
Qed.

Lemma c_step_extends a w p b w' p' b' : c_step tp log k a (w, p, b) = Some (w', p', b') -> extends w w'.
Proof.
  intros Hs. destruct a as [a| | |i|a| |a|i outs c landed]; cbn [c_step] in Hs.
  - destruct (own a) eqn:Ea; [|done]. apply fmap_Some in Hs as (w1 & Hs & E). simplify_eq.
    apply (kstep_extends a); [done|]. by intros q c ->.
  - destruct (current tp log w); [done|]. apply fmap_Some in Hs as (w1 & Hs & E). simplify_eq. by apply (kstep_extends KafkaSource.AOffer).
  - apply bind_Some in Hs as (r & _ & Hs). destruct (forallb _ _); [|done]. apply fmap_Some in Hs as (q & _ & E). simplify_eq.
    by apply extends_same.
  - apply bind_Some in Hs as (x & _ & Hs). apply bind_Some in Hs as (q & _ & Hs). apply bind_Some in Hs as (n & _ & Hs).
    repeat (case_match; try done). simplify_eq. by apply extends_same.
  - destruct a; try done; apply bind_Some in Hs as (x & _ & Hs); apply bind_Some in Hs as (q & _ & Hs);
      destruct (_ && _); try done; apply fmap_Some in Hs as (w1 & Hs & E); simplify_eq; by apply (kstep_extends AOfferErr).
  - destruct (w_committer w) as [|a| |]; try done. destruct (w_returned w); [done|].
    destruct (Written (Z.of_nat (ack_seq a)) p) as [r q]. repeat (case_match; try done); simplify_eq; try (by apply extends_same);
      apply fmap_Some in Hs as (w1 & Hs & E); simplify_eq; by apply (kstep_extends AWrittenCtx).
  - apply bind_Some in Hs as (q & _ & Hs). destruct (alone a p q); [|done]. simplify_eq. by apply extends_same.
  - repeat (case_match; try done). apply bind_Some in Hs as (q & _ & Hs). apply bind_Some in Hs as (ok & _ & Hs). simplify_eq.
    by apply extends_same.
Qed.

Lemma member_inv_mono l l' m : l ⊆ l' -> member_inv l m -> member_inv l' m.
Proof. intros Hl []. constructor; try done; [eauto|]. intros q c Hqc off r Ho Hd. by apply Hl, (mi_passed0 q c Hqc off r). Qed.

Lemma member_step l a w p b w' p' b' :
  member_inv l (w, p) -> stores l b -> fits p' -> c_allowed other a (w, p, b) ->
  c_step tp log k a (w, p, b) = Some (w', p', b') ->
  exists l', l ⊆ l' /\ stores l' b' /\ member_inv l' (w', p').
Proof.
  intros [Hr Ha Hw Hv Hp] Hst Hf Hal Hs. cbn [fst snd] in *.
  destruct (c_step_refines tp log k o ss a w p b w' p' b' Hr Hone Hf Hs) as [Hsv Hb].
  pose proof (proj1 (c_step_extends _ _ _ _ _ _ _ Hs)) as Ee.
  assert (Hview : star (steps_to kstep) (init_world []) (w_set_intake (intake_of p') w')) by (by eapply star_trans).
  destruct a as [a| | |i|a| |a|i outs c landed].
  8:{ destruct Hb as (bt & ok & Hi & Hs' & Ho & ->). pose proof (fits_back _ _ _ Hs' Hf) as Hfp.
      destruct (write_stored l i outs c landed bt ok p p' b) as (l' & Hl & Hst' & Hw'); try done; [by apply Hal|].
      exists l'. split; [done|]. split; [done|]. constructor; cbn [fst snd]; try done.
      - by eapply reachable_snoc.
      - by apply (all_admitted_step admitted (AWorker i outs) p).
      - rewrite Ee. intros q c0 Hqc off r Hoff Hd. by apply Hl, (Hp q c0 Hqc off r). }
  all: destruct Hb as [-> Hb]; exists l; split; [done|]; split; [done|]; constructor; cbn [fst snd]; rewrite ?Ee; try done;
    destruct Hb as [->|(pa & Hs' & Hnw & Hoff)]; try done; try (by eapply reachable_snoc);
    try (by rewrite (finished_unchanged pa p p' Hnw Hs'));
    apply (all_admitted_step admitted pa p p' Ha); [|done]; intros pl src r Er;
    (destruct (Hoff pl src r Er) as [Hc|Hc]; [left; by eapply current_topic|]); try discriminate Hc.
  injection Hc as ->. subst pa. by right.
Qed.

(** A committed message was in a batch that every sink took, here or in
    another collector. *)
Lemma member_committed l w p q : member_inv l (w, p) -> fits p -> below l q (committed_at w q).
Proof.
  intros [Hr _ Hin Hv Hp] Hf off r Hoff Hd. cbn [fst snd] in *. destruct (reachable_inv _ _ _ Hr Hf) as [Ho Hw].
  destruct (inv_committed tp log _ (kafka_reachable_inv tp log [] _ Hv) q off Hoff r Hd) as [[i Hi]|(c & Hc & Hlt)];
    [|by apply (Hp q c Hc off)].
  cbn in Hi. rewrite intake_of_lookup in Hi. apply fmap_Some in Hi as (r' & Hi & E). injection E as <- E.
  destruct (fate_cases p Ho Hw (Z.of_nat i + 1)) as [E'|(bt & ok & Hb & Hk & E')]; rewrite E' in E; [done|].
  destruct ok; [|by case_bool_decide]. apply (Hin bt); [done|]. pose proof (finished_handed p Hw _ Hb) as Hbh. cbn in Hbh.
  pose proof (oi_sizes p Ho) as Hs. rewrite Forall_forall in Hs. specialize (Hs bt Hbh). unfold batch_sized in Hs.
  destruct (handed_bounds p Ho bt Hbh). rewrite <- (batch_slice p bt Ho Hbh). apply list_elem_of_lookup.
  exists (i - Z.to_nat (b_first bt - 1))%nat. rewrite lookup_take_lt, lookup_drop by lia. rewrite <- Hi. f_equal. lia.
Qed.

(** ** The group's steps *)

(** Hearing of offsets is a sequence of other members' commits. *)
Lemma hear_steps c w : star (steps_to kstep) w (hear c w).
Proof.
  assert (Hl : forall l : list (nat * nat), star (steps_to kstep) w
    (w_set_committed (list_to_map l ∪ w_committed w) (w_set_elsewhere (l ++ w_elsewhere w) w))).
  { induction l as [|[q x] l IH]; cbn [list_to_map foldr app].
    - rewrite (left_id_L ∅ (∪)). destruct w. constructor.
    - eapply star_snoc; [exact IH|]. exists (AMember q x). unfold KafkaSource.step. cbn [environment]. rewrite andb_false_r.
      cbn. by rewrite insert_union_l. }
  specialize (Hl (map_to_list c)). by rewrite list_to_map_to_list in Hl.
Qed.

Lemma member_hear l c w p :
  (forall q x, c !! q = Some x -> below l q x) -> member_inv l (w, p) -> member_inv l (hear c w, p).
Proof.
  intros Hc []. constructor; try done; cbn [fst snd] in *.
  - eapply star_trans; [exact mi_view0|]. exact (hear_steps c (w_set_intake (intake_of p) w)).
  - intros q x [Hx%elem_of_map_to_list|Hx]%elem_of_app; [by apply Hc|by apply mi_passed0].
Qed.

Lemma member_start l p : New o ss = Ok p -> member_inv l (init_world [], p).
Proof.
  intros Hnew. assert (Hp : all_admitted admitted p /\ finished p = [] /\ accepted p = [])
    by (unfold New in Hnew; repeat case_match; simplify_eq; by repeat split).
  destruct Hp as (Ha & Ef & Ea). constructor; cbn [fst snd].
  - exists p. split; [done|constructor].
  - done.
  - rewrite Ef. by intros bt r ?%not_elem_of_nil.
  - unfold intake_of. rewrite Ea. constructor.
  - by intros q c ?%not_elem_of_nil.
Qed.

Definition all_fit (g : group) : Prop := Forall (fun m => fits m.2) (g_members g).

Lemma all_fit_back g g' : all_fit g' -> group_step g g' -> all_fit g.
Proof.
  unfold all_fit. rewrite !Forall_lookup. intros Hf (a & Hal & Hs) i [w p] Hi. cbn [snd]. destruct a as [j a| |j]; cbn in Hs.
  - apply bind_Some in Hs as ([w0 p0] & Hj & Hs). apply bind_Some in Hs as ([[w' p'] b'] & Hs & [= <-]). cbn in Hf.
    destruct (decide (j = i)) as [->|Hne].
    + rewrite Hi in Hj. injection Hj as <- <-.
      assert (Hp' : fits p').
      { apply (Hf i (w', p')). apply list_lookup_insert_eq. apply lookup_lt_Some in Hi. by case_decide; rewrite ?length_fmap. }
      unfold fits in *. assert (len (accepted p) <= len (accepted p')); [|lia].
      destruct (c_step_pipe tp log k a w p (g_store g) w' p' b' Hs) as [->|[pa Hpa]]; [done|by eapply accepted_mono].
    + case_decide.
      * apply (Hf i (w, p)). by rewrite list_lookup_insert_ne.
      * apply (Hf i (hear (w_committed w') w, p)). by rewrite list_lookup_insert_ne, list_lookup_fmap, Hi by done.
  - destruct (New o ss); [|done]. injection Hs as <-. apply (Hf i (w, p)). cbn. rewrite lookup_app_l; [done|by eapply lookup_lt_Some].
  - injection Hs as <-. cbn in Hf. destruct (decide (i = j)) as [->|Hne]; [by eapply Hal|].
    destruct (decide (i < j)%nat).
    + apply (Hf i (w, p)). by rewrite list_lookup_delete_lt.
    + apply (Hf (Nat.pred i) (w, p)). rewrite list_lookup_delete_ge by lia. by replace (S (Nat.pred i)) with i by lia.
Qed.

Lemma group_inv_step l g g' : all_fit g' -> group_inv l g -> group_step g g' -> exists l', group_inv l' g'.
Proof.
  intros Hf [Hst Hm Ho] (a & Hal & Hs). pose proof Hm as Hm'. rewrite Forall_lookup in Hm. destruct a as [i a| |i]; cbn in Hs.
  - apply bind_Some in Hs as ([w p] & Hi & Hs). apply bind_Some in Hs as ([[w' p'] b'] & Hs & [= <-]).
    assert (Hp' : fits p').
    { unfold all_fit in Hf. rewrite Forall_lookup in Hf. apply (Hf i (w', p')), list_lookup_insert_eq.
      apply lookup_lt_Some in Hi. by case_decide; rewrite ?length_fmap. }
    destruct (member_step l a w p (g_store g) w' p' b' (Hm i _ Hi) Hst Hp' (Hal w p Hi) Hs) as (l' & Hl & Hst' & Hi').
    assert (Hc : forall q c, w_committed w' !! q = Some c -> below l' q c).
    { intros q c Hq. pose proof (member_committed l' w' p' q Hi' Hp') as Hb. unfold committed_at in Hb. by rewrite Hq in Hb. }
    assert (Hms : Forall (member_inv l') (g_members g)) by (eapply Forall_impl; [exact Hm'|intros m; by apply member_inv_mono]).
    exists l'. constructor; cbn; [done| |done]. apply Forall_insert; [|done]. case_decide; [done|].
    apply Forall_fmap. eapply Forall_impl; [exact Hms|]. intros [w1 p1]. by apply member_hear.
  - destruct (New o ss) as [p|] eqn:En; [|done]. injection Hs as <-. exists l. constructor; cbn; [done| |done].
    apply Forall_app. split; [done|]. apply Forall_singleton, member_hear; [done|]. by apply member_start.
  - injection Hs as <-. exists l. constructor; cbn; [done| |done]. by apply Forall_delete.
Qed.

Lemma group_reach g : star group_step group_start g -> all_fit g -> exists l, group_inv l g.
Proof.
  intros Hst. remember group_start as g0 eqn:Eg. induction Hst as [g|g t u Hst IH Hs]; intros Hf.
  - subst g. exists []. constructor; cbn; [|done|done]. split_and!; [apply st_new_good| |done]. unfold contents. by rewrite st_new_empty.
  - destruct (IH Eg (all_fit_back _ _ Hf Hs)) as [l Hl]. by eapply group_inv_step.
Qed.

(** Every member resumes from the offsets the broker keeps. *)
Lemma group_agrees g : star group_step group_start g -> Forall (fun m => w_committed m.1 = g_offsets g) (g_members g).
Proof.
  apply (star_invariant _ (fun g => Forall (fun m => w_committed m.1 = g_offsets g) (g_members g))); [|done].
  clear g. intros g g' Hm (a & _ & Hs). pose proof Hm as Hm'. rewrite Forall_lookup in Hm. destruct a as [i a| |i]; cbn in Hs.
  - apply bind_Some in Hs as ([w p] & Hi & Hs). apply bind_Some in Hs as ([[w' p'] b'] & Hs & [= <-]). cbn.
    destruct (proj2 (c_step_extends _ _ _ _ _ _ _ Hs)) as [h Eh]. specialize (Hm i _ Hi). cbn in Hm. rewrite Hm in Eh.
    apply Forall_insert; [|done]. case_decide as Ed; [by rewrite Ed|]. apply Forall_fmap. eapply Forall_impl; [exact Hm'|].
    intros [w1 p1] E. cbn in *. by rewrite E, Eh, <- (assoc_L (∪)), map_union_idemp.
  - destruct (New o ss) as [p|]; [|done]. injection Hs as <-. cbn. apply Forall_app. split; [done|].
    apply Forall_singleton. cbn. apply (right_id_L ∅ (∪)).
  - injection Hs as <-. cbn. by apply Forall_delete.
Qed.
End group.

(** A row with a key is found once behind a unique index. *)
Lemma found_once {Row} `{RowCodec Row} (f : Row -> bool) (l : list Row) x :
  index_ok l -> x ∈ l -> row_dedup x <> None -> f x = true -> exists rest, List.filter f l ≡ₚ x :: rest /\ x ∉ rest.
Proof.
  intros Hi Hx Hk Hf. apply list_elem_of_lookup in Hx as [i Hx].
  assert (Hn : forall j, j <> i -> l !! j <> Some x).
  { intros j Hj Hy. pose proof (same_key_refl x Hk) as E.
    assert (i < j \/ j < i)%nat as [Hlt|Hlt] by lia; by rewrite (Hi _ _ x x Hlt) in E. }
  rewrite <- (take_drop_middle l i x Hx), List.filter_app. cbn [List.filter]. rewrite Hf.
  exists (List.filter f (list.take i l) ++ List.filter f (drop (S i) l)). split; [by rewrite Permutation_middle|].
  rewrite elem_of_app, !list_elem_of_In, !filter_In, <- !list_elem_of_In.
  intros [[[j Hy]%list_elem_of_lookup _]|[[j Hy]%list_elem_of_lookup _]].
  - apply lookup_take_Some in Hy as [Hy Hj]. apply (Hn j); [lia|done].
  - rewrite lookup_drop in Hy. apply (Hn (S i + j)%nat); [lia|done].
Qed.

(** What is represented among agreeing records is there itself. *)
Lemma ref_write_elem l r : redeliveries (at_rest <$> l) -> r ∈ l -> at_rest r ∈ ref_write [] l.
Proof.
  intros Hr Hin. apply (list_elem_of_fmap_2 at_rest) in Hin as Ha.
  destruct (dedup_rows_represented [] (at_rest <$> l) (at_rest r) Ha) as [?|(y & Hy & E)%existsb_exists]; [done|].
  apply list_elem_of_In in Hy. rewrite (Hr (at_rest r) y); [done|done| |done].
  by eapply elem_of_sublist; [exact Hy|apply dedup_rows_sublist].
Qed.

(** Messages carry keys. *)
Lemma decodes_keyed tp log m r : decodes tp log m r -> DedupKey r <> None.
Proof.
  intros (x & _ & Hd). unfold kdecode, KDecode in Hd. destruct (Decode _ _ _); [|done]. by injection Hd as <-.
Qed.

(** What the group's store answers: the reference of the records written, all
    admitted, among them those of every committed message. *)
Lemma group_answer tp log {B} `{StorageLaws B} k (other : FlowRecord -> Prop) o ss g q fuel :
  (forall r, admitted tp log other r -> writable (column_holds (st_kind B)) r) ->
  (forall x y, admitted tp log other x -> admitted tp log other y -> same_key (at_rest x) (at_rest y) = true -> at_rest x = at_rest y) ->
  Workers o = 1 -> star (group_step tp log k other o ss) (group_start (B := B)) g -> all_fit g ->
  q_Cursor q = ""%string -> q_ExporterID q = 0 -> (length (contents (g_store g)) < fuel)%nat ->
  exists recs, crawl fuel (st_kind B) q (st_rows (g_store g)) = Some recs /\
    (forall x, x ∈ comparable <$> recs -> exists r, admitted tp log other r /\ x = at_rest r) /\
    (forall pt off r, (off < default 0%nat (g_offsets g !! pt))%nat -> decodes tp log (pt, off) r ->
      wanted (B := B) q (at_rest r) = true ->
      exists rest, comparable <$> recs ≡ₚ at_rest r :: rest /\ at_rest r ∉ rest).
Proof.
  intros Hw Hs H1 Hst Hf Hc He Hfuel.
  destruct (group_reach tp log k other o ss Hw Hs H1 g Hst Hf) as (l & [(Hg & Hl & Hal) _ Hb]).
  destruct (crawl_contents (g_store g) q fuel Hg Hc He Hfuel) as (recs & E & Hp & _).
  rewrite (listfilter_perm _ _ _ Hl) in Hp. exists recs. split; [done|]. split.
  - intros x. rewrite Hp, list_elem_of_In, filter_In, <- list_elem_of_In. intros [Hx _].
    assert (Hx' : x ∈ at_rest <$> l) by (by eapply elem_of_sublist; [exact Hx|apply dedup_rows_sublist]).
    apply list_elem_of_fmap in Hx' as (r & -> & Hr). exists r. split; [|done]. by eapply Forall_forall in Hal.
  - intros pt off r Hoff Hd Hq.
    assert (Hr : r ∈ l) by (destruct (g_offsets g !! pt) as [c|] eqn:Ec; [by apply (Hb pt c Ec off)|cbn in Hoff; lia]).
    destruct (found_once (wanted (B := B) q) (ref_write [] l) (at_rest r)) as (rest & Hrest & Hn); [..|by exists rest; rewrite Hp].
    + apply dedup_rows_index. intros i j x y _ Hx. by rewrite lookup_nil in Hx.
    + apply ref_write_elem; [by eapply admitted_redeliveries|done].
    + exact (decodes_keyed tp log _ r Hd).
    + done.
Qed.

(** C11. The central tier, from a topic to an answer. Any number of collectors
    of one consumer group, each a Kafka source and a pipeline with one worker
    whose sinks include a shared storage backend, run together in any
    interleaving: collectors start, crash and start again, partitions move
    between them, other sources push, other sinks fail, and writes of the
    backend fail with or without having taken effect. Once an offset is
    committed for the group, by whichever collector, every decodable message
    below it is answered by every query it matches, exactly once, however often
    it was redelivered. Asked of the records: that the backend can hold them as
    they are (their instants included), and that records with one identity are
    redeliveries; and of each write, a choice that the backend's contract allows. *)
Theorem committed_is_answered tp log {B} `{StorageLaws B} k (other : FlowRecord -> Prop) o ss g pt off r q fuel :
  (forall r, admitted tp log other r -> writable (column_holds (st_kind B)) r) ->
  (forall x y, admitted tp log other x -> admitted tp log other y -> same_key (at_rest x) (at_rest y) = true -> at_rest x = at_rest y) ->
  Workers o = 1 -> star (group_step tp log k other o ss) (group_start (B := B)) g -> all_fit g ->
  (off < default 0%nat (g_offsets g !! pt))%nat -> decodes tp log (pt, off) r ->
  wanted (B := B) q (at_rest r) = true -> q_Cursor q = ""%string -> q_ExporterID q = 0 ->
  (length (contents (g_store g)) < fuel)%nat ->
  exists recs rest, crawl fuel (st_kind B) q (st_rows (g_store g)) = Some recs /\
    comparable <$> recs ≡ₚ at_rest r :: rest /\ at_rest r ∉ rest.
Proof.
  intros Hw Hs H1 Hst Hf Hoff Hd Hq Hc He Hfuel.
  destruct (group_answer tp log k other o ss g q fuel Hw Hs H1 Hst Hf Hc He Hfuel) as (recs & E & _ & Hr).
  destruct (Hr pt off r Hoff Hd Hq) as (rest & Hp & Hn). by exists recs, rest.
Qed.

(** ** Witness: a failed write that took effect, a rewind, a crash before the
    commit, and the redelivery to another collector *)

Definition no_layouts : text -> option Time := fun _ => None.
Definition topic_record : FlowRecord :=
  Eval vm_compute in default zeroRecord (kdecode no_layouts (mkKRecord sample_body (Unix 1789819200 0))).

Definition central_opts : Options := mkOptions 10 1 Second 1 Second.
Definition central_sinks : list string := ["postgres"; "kafka"]%string.
Definition central_query : FlowQuery :=
  mkFlowQuery (Unix 1000000000 0) (Unix 2000000000 0) 0 AddrZero AddrZero None 10 "".

(** Scripts of the group with PostgreSQL whose choices are those of [seen_of]. *)
Definition pg_check (a : gact (B := backend PgRow)) (g : group (B := backend PgRow)) : bool :=
  match a with
  | GStep j a =>
    match g_members g !! j with
    | Some (w, p) =>
      match a with
      | CPipe (AOffer _ _ _) => false
      | CWrite i _ c _ =>
        match workers p !! i with
        | Some (Some bt) =>
          bool_decide (c = map_to_list (seen_of (records bt))) &&
          (t_next (b_flows (g_store g)) + 2 * Z.of_nat (length (records bt)) <=? 2 ^ 63)
        | _ => true
        end
      | _ => true
      end
    | None => true
    end
  | GStart => true
  | GGone j => match g_members g !! j with Some (w, p) => bool_decide (fits p) | None => true end
  end.

Fixpoint pg_script (log : nat -> list KRecord) (acts : list (gact (B := backend PgRow))) (g : group (B := backend PgRow)) : option (group (B := backend PgRow)) :=
  match acts with
  | [] => Some g
  | a :: rest =>
    if pg_check a g then g' ← g_step no_layouts log 0 central_opts central_sinks a g; pg_script log rest g' else None
  end.

Lemma pg_script_star log acts g g' :
  pg_script log acts g = Some g' ->
  star (group_step no_layouts log 0 (fun _ => False) central_opts central_sinks) g g'.
Proof.
  revert g. induction acts as [|a acts IH]; intros g; cbn [pg_script]; [intros [= <-]; constructor|].
  destruct (pg_check a g) eqn:Ec; [|done]. destruct (g_step _ _ _ _ _ a g) as [g1|] eqn:Es; [|done]. cbn [mbind option_bind]. intros Hr.
  apply (star_trans _ _ g1); [|by apply IH]. apply star_one. exists a. split; [|done].
  destruct a as [j a| |j]; [|done|]; cbn [g_allowed pg_check] in *; intros w p Hj; rewrite Hj in Ec; [|by apply bool_decide_eq_true in Ec].
  destruct a as [a| | |i|a| |a|i outs c landed]; try done; cbn [c_allowed] in *; [by destruct a|].
  intros bt Hi. cbn [fst snd] in *. rewrite Hi in Ec. by apply rel_allowed_decided.
Qed.

Definition delivery : list (cact (B := backend PgRow)) :=
  [CSource AConnect; CSource (AAssign 0); CSource (AFetch [(0, 2)]%nat); CCall; CPipe (ACheck 0); COffer 0; CPipe (ACount 0); CPoison; CSource AEndPoll;
   CSource ASendAck; CSource ATakeAck; CPipe ATake; CPipe (AFlush 0)].

Definition topic_order : st_choice (backend PgRow) := map_to_list (seen_of [topic_record]).
Definition group_script : list (gact (B := backend PgRow)) :=
  [GStart; GStart] ++
  (GStep 0 <$> delivery ++ [CWrite 0 [false; true] topic_order true; CWritten; CSource APollDone; CSource KafkaSource.AReturn] ++
    delivery ++ [CWrite 0 [true; true] topic_order false]) ++
  [GGone 0] ++
  (GStep 0 <$> delivery ++ [CWrite 0 [true; true] topic_order false; CWritten; CSource (ACommit [0%nat])]) ++ [GStart].

Lemma topic_only r : admitted no_layouts sample_log (fun _ => False) r -> r = topic_record.
Proof.
  intros [([q off] & x & Hx & Hd)|[]]. cbn in Hx. destruct q as [|[|q]]; [..|discriminate Hx];
    destruct off as [|[|off]]; cbn in Hx; try discriminate Hx; injection Hx as <-; vm_compute in Hd;
    try discriminate Hd; by injection Hd as <-.
Qed.

Definition group_facts (g : group (B := backend PgRow)) : bool :=
  bool_decide (g_offsets g !! 0%nat = Some 2%nat) && bool_decide (length (g_members g) = 2%nat) &&
  bool_decide (Forall (fun m => fits m.2) (g_members g)) && (length (contents (g_store g)) <? 5)%nat.

Lemma committed_is_answered_witness :
  exists g recs rest,
    pg_script sample_log group_script group_start = Some g /\
    g_offsets g !! 0%nat = Some 2%nat /\ length (g_members g) = 2%nat /\
    crawl 5 Postgres central_query (st_rows (g_store g)) = Some recs /\ comparable <$> recs ≡ₚ at_rest topic_record :: rest /\
    at_rest topic_record ∉ rest.
Proof.
  assert (Hfacts : match pg_script sample_log group_script group_start with
    | Some g => group_facts g = true
    | None => False
    end) by (vm_compute; reflexivity).
  destruct (pg_script sample_log group_script group_start) as [g|] eqn:E; [|destruct Hfacts].
  unfold group_facts in Hfacts. rewrite !andb_true_iff, !bool_decide_eq_true, Nat.ltb_lt in Hfacts.
  destruct Hfacts as [[[Ec Em] Hf] Hl].
  destruct (committed_is_answered no_layouts sample_log 0 (fun _ => False) central_opts central_sinks
    g 0 0 topic_record central_query 5) as (recs & rest & H1 & H2 & H3).
  - intros r Hr. rewrite (topic_only r Hr). apply (bool_decide_eq_true_1 _). vm_compute. reflexivity.
  - intros x y Hx Hy _. by rewrite (topic_only x Hx), (topic_only y Hy).
  - reflexivity.
  - exact (pg_script_star sample_log group_script _ _ E).
  - exact Hf.
  - rewrite Ec. cbn. lia.
  - eexists. split; [reflexivity|vm_compute; reflexivity].
  - vm_compute. reflexivity.
  - reflexivity.
  - reflexivity.
  - exact Hl.
  - exists g, recs, rest. split; [reflexivity|]. split; [exact Ec|]. split; [exact Em|]. split; [exact H1|]. split; [exact H2|exact H3].
Defined.
