(* ===== verification/Tiers.v ===== *)
(** * Both tiers: from a batch at the edge to an answer at the centre

    Edge collectors write batches to a topic through the Kafka sink
    ([internal/sink/kafka]); the collectors of a group ([Group]) read it into a
    storage backend; a client of the API ([ApiClient]) queries it. *)

From S2P Require Import Prelude GoTime Netip Flow Text NetipText Decode DecodeThms Json Wire WireThms Sha256 KafkaSource KafkaThms KafkaSink.
From S2P Require Import Strings TimeText Api ApiThms ApiClient.
From S2P Require Import Cursor Rows Store Exporters StoreThms Query QueryThms Contract ContractRelational ConformanceThms ContractThms.
From S2P Require Import Watermark Pipeline PipelineFacts PipelineLive PipelineThms EndToEnd IntakeRefines Central Group.

(** ** The record at the centre *)

Lemma Sum256_wf m : bytes_wf (Sum256 m).
Proof.
  unfold Sum256. apply Forall_concat, Forall_fmap, Forall_forall. intros x _. apply be_bytes_wf.
Qed.

Lemma DedupKeyOf_wf r : bytes_wf (DedupKeyOf r) /\ DedupKeyOf r <> [].
Proof.
  unfold DedupKeyOf. split; [apply Forall_take, Sum256_wf|]. intros E. apply (f_equal length) in E.
  by rewrite length_take, length_Sum256 in E.
Qed.

Lemma Unmap_zoneless a : zoneless a -> zoneless (Unmap a).
Proof. destruct a as [|n|n z]; cbn; try done. by destruct (_ =? _). Qed.

Lemma Unmap_plain a : addr_wf a -> zoneless a -> addr_plain (Unmap a).
Proof. intros Hw Hz. split_and!; [by apply Unmap_wf|by apply Unmap_zoneless|apply Unmap_idemp]. Qed.

(** What arrives can be stored, and is stored as it is. *)
Lemma central_writable k r :
  shippable r -> unix_nano_range (TruncateMicro (ReceivedAt r)) -> columns_hold (column_holds k) r = true ->
  writable (column_holds k) (central r).
Proof.
  intros ([[] _ (Z1 & Z2 & Z3 & Z4)] & (V1 & _ & V3 & V4 & _) & _) Hr Hc. destruct (DedupKeyOf_wf (normalise r)) as [Hk Hne].
  constructor; [|by destruct k|exact Hk|].
  - constructor; cbn [central normalise set_DedupKey ExporterAddr SrcAddr DstAddr NextHop DedupKey];
      rewrite ?Unmap_valid; try (split; [by apply Unmap_plain|done]); [|by apply Unmap_plain|congruence].
    constructor; cbn -[is_uint is_sint]; auto using TruncateMicro_wf, Unmap_wf; [unfold is_sint; lia|].
    destruct (Z.eqb_spec (SamplingRate r) 0); unfold is_uint in *; lia.
  - cbn. unfold micro, UTC. rewrite TruncateMicro_id; [done|]. apply TruncateMicro_whole.
Qed.

Lemma at_rest_central r : at_rest (central r) = central r.
Proof.
  unfold at_rest, stored, micro, UTC, central. generalize (DedupKeyOf (normalise r)) as k. intros k.
  cbn [normalise set_DedupKey ReceivedAt FirstSwitched LastSwitched].
  by rewrite !(TruncateMicro_id (TruncateMicro _)) by apply TruncateMicro_whole.
Qed.

(** Records of the edge with one natural key and one reception time are
    redeliveries of one record. *)
Definition one_flow (rs : list FlowRecord) : Prop :=
  forall x y, x ∈ rs -> y ∈ rs -> TruncateMicro (ReceivedAt x) = TruncateMicro (ReceivedAt y) ->
    DedupKeyOf (normalise x) = DedupKeyOf (normalise y) -> normalise x = normalise y.

Lemma central_same x y rs :
  one_flow rs -> x ∈ rs -> y ∈ rs -> same_key (at_rest (central x)) (at_rest (central y)) = true -> central x = central y.
Proof.
  intros Hf Hx Hy E. rewrite !at_rest_central in E. unfold same_key in E. cbn [row_received row_dedup rec_codec] in E.
  apply andb_true_iff in E as [Er Ek]. cbn in Er, Ek. apply bool_decide_eq_true in Er, Ek.
  unfold central. by rewrite (Hf x y Hx Hy Er Ek).
Qed.

(** C12. Both tiers, from a batch at the edge to an answer at the centre. Edge
    collectors write batches to the topic, some of them failing with part of
    their records in it; any number of central collectors of a group, each with a
    pipeline of one worker (NFC_WORKERS=1; with the default of four, a commit may
    overtake a rejected batch), read the partitions into one storage backend, in
    any interleaving, with crashes, restarts, rebalances, failed writes and
    redeliveries. Then a client that
    follows the cursors of a query gets nothing but normalised records that the
    edge wrote; and every record of a batch acknowledged at the edge has an
    offset in its partition such that, once the group has committed past it,
    every query it matches answers it exactly once. A client of the API gets
    these answers, rendered, if the sequences are signed 64-bit numbers. Asked of
    the records: that the wire format can carry them, that a cursor can express
    their reception times, that the backend's columns hold their instants, and
    that records with one dedup key and one reception time are the same flow; and
    of each write, the choices that the backend's contract allows: ClickHouse
    sequences and exporter ids that do not collide by chance. *)
Theorem edge_is_answered tp part runs log {B} `{StorageLaws B} k o ss g q fuel :
  Forall (Forall shippable) runs.*1 ->
  (forall r, r ∈ concat runs.*1 -> unix_nano_range (TruncateMicro (ReceivedAt r)) /\ columns_hold (column_holds (st_kind B)) r = true) ->
  one_flow (concat runs.*1) ->
  (forall pt, reads part pt (log pt) (KafkaSink.write_all runs []).2) ->
  Workers o = 1 -> star (group_step tp log k (fun _ => False) o ss) (group_start (B := B)) g -> all_fit g ->
  q_Cursor q = ""%string -> q_ExporterID q = 0 -> (length (contents (g_store g)) < fuel)%nat ->
  exists recs, crawl fuel (st_kind B) q (st_rows (g_store g)) = Some recs /\
    (forall x, x ∈ comparable <$> recs -> exists r, r ∈ concat runs.*1 /\ x = central r) /\
    (forall b r, (b, None) ∈ runs -> r ∈ b -> wanted (B := B) q (central r) = true ->
      exists off, decodes tp log (part (record_key r), off) (central r) /\
        ((off < default 0%nat (g_offsets g !! part (record_key r)))%nat ->
          exists rest, comparable <$> recs ≡ₚ central r :: rest /\ central r ∉ rest)) /\
    (forall cfg srv req, Forall (fun x => is_sint 64 (r_seq x)) (st_rows (g_store g)) ->
      querier srv = Some (fun q => Query (st_kind B) q (st_rows (g_store g))) -> flows_request cfg req ->
      asks tp (QueryParams req) q -> follow tp fuel cfg srv req = Some (toJSON <$> recs)).
Proof.
  intros Hs Hr Hf Hl H1 Hst Hfit Hc He Hfuel.
  assert (Hadm : forall x, admitted tp log (fun _ => False) x -> exists r, r ∈ concat runs.*1 /\ x = central r)
    by (intros x [[m Hm]|[]]; by eapply topic_from_edge).
  destruct (group_answer tp log k (fun _ => False) o ss g q fuel) as (recs & E & Hin & Hall); try done.
  - intros x (r & Hrr & ->)%Hadm. apply central_writable; [|by apply Hr..].
    eapply Forall_forall; [|exact Hrr]. by apply Forall_concat.
  - intros x y (r & Hrr & ->)%Hadm (r' & Hrr' & ->)%Hadm Ek. by rewrite (central_same r r' (concat runs.*1)).
  - exists recs. split; [done|]. split_and!; [..|intros; by erewrite follow_crawl, E by done].
    + intros x (y & (r & Hrr & ->)%Hadm & ->)%Hin. exists r. by rewrite at_rest_central.
    + intros b r Hb Hrb Hq. destruct (acknowledged_offset tp part runs log b r Hs Hl Hb Hrb) as [off Hd].
      exists off. split; [done|]. intros Hoff. rewrite <- at_rest_central in Hq.
      destruct (Hall _ off _ Hoff Hd Hq) as (rest & Hp & Hn). rewrite at_rest_central in Hp, Hn. by exists rest.
Qed.

(** ** Witness: a batch that fails with its record in the topic, its retry, and
    both messages read *)

Definition tier_runs : list (list FlowRecord * option (list bool)) := [([sample_record], Some [true]); ([sample_record], None)].
Definition tier_topic (q : nat) : list KRecord :=
  (fun x => mkKRecord (p_Value x) (Unix 1789819200 123000000)) <$> partition sample_part q (KafkaSink.write_all tier_runs []).2.

Definition tier_order : st_choice (backend PgRow) := map_to_list (seen_of [central sample_record]).
Definition tier_script : list (gact (B := backend PgRow)) :=
  GStart :: (GStep 0 <$>
  [CSource AConnect; CSource (AAssign 1); CSource (AFetch [(1, 2)]%nat); CCall; CPipe (ACheck 0); COffer 0; CPipe (ACount 0); CCall; CPipe (ACheck 0); COffer 0; CPipe (ACount 0);
   CSource AEndPoll; CSource ASendAck; CSource ATakeAck;
   CPipe ATake; CPipe (AFlush 0); CWrite 0 [true; true] tier_order false;
   CPipe ATake; CPipe (AFlush 0); CWrite 0 [true; true] tier_order false; CWritten; CSource (ACommit [1%nat])]).

Definition tier_facts (g : group (B := backend PgRow)) : bool :=
  bool_decide (g_offsets g !! 1%nat = Some 2%nat) && bool_decide (Forall (fun m => fits m.2) (g_members g)) &&
  (length (contents (g_store g)) <? 5)%nat.

Lemma tier_only r : r ∈ concat tier_runs.*1 -> r = sample_record.
Proof.
  change (concat tier_runs.*1) with [sample_record; sample_record].
  by intros [H|[H|[]%elem_of_nil]%elem_of_cons]%elem_of_cons.
Qed.

Lemma edge_is_answered_witness :
  exists g recs, pg_script tier_topic tier_script group_start = Some g /\
    g_offsets g !! 1%nat = Some 2%nat /\
    crawl 5 Postgres central_query (st_rows (g_store g)) = Some recs /\
    exists off, decodes no_layouts tier_topic (1%nat, off) (central sample_record) /\
      ((off < 2)%nat -> exists rest, comparable <$> recs ≡ₚ central sample_record :: rest /\ central sample_record ∉ rest).
Proof.
  assert (Hfacts : match pg_script tier_topic tier_script group_start with
    | Some g => tier_facts g = true
    | None => False
    end) by (vm_compute; reflexivity).
  destruct (pg_script tier_topic tier_script group_start) as [g|] eqn:E; [|destruct Hfacts].
  unfold tier_facts in Hfacts. rewrite !andb_true_iff, !bool_decide_eq_true, Nat.ltb_lt in Hfacts.
  destruct Hfacts as [[Ec Hf] Hl].
  destruct (edge_is_answered no_layouts sample_part tier_runs tier_topic 0 central_opts central_sinks g central_query 5)
    as (recs & H1 & _ & H3 & _).
  - destruct sample_shippable as [Hs _]. repeat (apply List.Forall_cons || apply List.Forall_nil); exact Hs.
  - intros r Hr. rewrite (tier_only r Hr). vm_compute. split; [split; congruence|reflexivity].
  - intros x y Hx Hy _ _. rewrite (tier_only x Hx), (tier_only y Hy). reflexivity.
  - intros pt. unfold reads, tier_topic. rewrite <- list_fmap_compose. reflexivity.
  - reflexivity.
  - exact (pg_script_star tier_topic tier_script _ _ E).
  - exact Hf.
  - reflexivity.
  - reflexivity.
  - exact Hl.
  - exists g, recs. split; [reflexivity|]. split; [exact Ec|]. split; [exact H1|].
    destruct (H3 [sample_record] sample_record) as (off & Hd & Ho); [right; left|left|vm_compute; reflexivity|].
    change (sample_part (record_key sample_record)) with 1%nat in Hd, Ho. rewrite Ec in Ho. exists off. split; [exact Hd|exact Ho].
Defined.
