(* ===== verification/Workers.v ===== *)
(** * Concurrent [WriteBatch]: several workers on one relational backend

    With [NFC_WORKERS] above one, calls of [WriteBatch] overlap on a
    backend's cache and tables. Each call is cut at its synchronisation
    points: the locked [cached], each statement on [exporters], the locked
    [remember], and the insert: for PostgreSQL the COPY and, when it
    conflicts, the INSERT that follows; for MariaDB BEGIN, the INSERT IGNORE of
    each chunk, whose rows no other connection sees, and COMMIT. Every
    interleaving is one of the sequential histories of [Contract]. *)

From S2P Require Import Prelude GoTime Netip Flow Text Json Cursor Rows Store Exporters StoreThms Query QueryThms Contract ContractRelational.
From S2P Require Import Conformance ConformanceThms.

(** How a backend inserts: PostgreSQL with one COPY and, when that conflicts, one
    INSERT, each its own transaction; MariaDB with chunks in one transaction. *)
Inductive engine := CopyThenInsert | ChunkedTransaction.

(** How a statement ends. One that fails may have taken effect: its
    acknowledgement was lost. *)
Inductive verdict := Succeeds | Fails (landed : bool).

(** Where a call is; [WDone ok landed]: it returned nil or an error, and its rows
    are in the table or not. *)
Inductive wpc (Row : Type) :=
| WLoop
| WTouch (a : Addr) (last : Time) (id : Z)
| WUpsert (a : Addr) (last : Time)
| WRemember (a : Addr) (id : Z)
| WWrite
| WFallback
| WInsert (rest : list Row)
| WCommit
| WDone (ok landed : bool).
Arguments WLoop {Row}. Arguments WTouch {Row} a last id. Arguments WUpsert {Row} a last. Arguments WRemember {Row} a id.
Arguments WWrite {Row}. Arguments WFallback {Row}. Arguments WInsert {Row} rest. Arguments WCommit {Row}. Arguments WDone {Row} ok landed.

(** A call: its records, the exporters still to resolve, the ids found, and the
    rows its open transaction has inserted. *)
Record wthread (Row : Type) := mkThread {
  th_records : list FlowRecord; th_todo : list (Addr * Time); th_ids : gmap Addr Z;
  th_staged : list (Z * Row); th_pc : wpc Row
}.
Arguments mkThread {Row} th_records th_todo th_ids th_staged th_pc.
Arguments th_records {Row} w. Arguments th_todo {Row} w. Arguments th_ids {Row} w. Arguments th_staged {Row} w. Arguments th_pc {Row} w.

(** An empty batch returns at once. *)
Definition th_start {Row} (records : list FlowRecord) (order : list (Addr * Time)) : wthread Row :=
  mkThread records order ∅ [] (match records with [] => WDone true true | _ => WLoop end).

Section workers.
Context {Row : Type} `{RowExporter Row} {RL : RowLaws Row (fun _ id => id)} (e : engine).

Record wstate := mkWState { ws_backend : backend Row; ws_threads : list (wthread Row); ws_committed : list (list FlowRecord) }.

Definition at_pc (th : wthread Row) (pc : wpc Row) : wthread Row :=
  mkThread (th_records th) (th_todo th) (th_ids th) (th_staged th) pc.

(** The call returns; a transaction that is still open is rolled back. *)
Definition finish (th : wthread Row) (ok landed : bool) : wthread Row :=
  mkThread (th_records th) (th_todo th) (th_ids th) [] (WDone ok landed).

Definition with_exporters (t : exp_table) (b : backend Row) : backend Row := mkBackend t (b_cache b) (b_flows b).
Definition with_flows (t : table Row) (b : backend Row) : backend Row := mkBackend (b_exporters b) (b_cache b) t.

(** A call whose insert is in the table. *)
Definition landed (th : wthread Row) (ok : bool) (t : table Row) (b : backend Row)
  : option (backend Row * wthread Row * option (list FlowRecord)) :=
  Some (with_flows t b, finish th ok true, Some (th_records th)).

(** COPY, which commits or is refused as a whole; the INSERT that follows a
    conflict. *)
Definition copy_step (v : verdict) (b : backend Row) (th : wthread Row) : option (backend Row * wthread Row * option (list FlowRecord)) :=
  match v, copy_from (batch_rows (th_ids th) (th_records th)) (b_flows b) with
  | Succeeds, Ok t => landed th true t b
  | Succeeds, Err n => Some (with_flows (mkTable (t_rows (b_flows b)) n) b, at_pc th WFallback, None)
  | Fails true, Ok t => landed th false t b
  | Fails _, _ => Some (b, finish th false false, None)
  end.

(** A chunk of the transaction: its rows are checked against the table and what
    the transaction itself has inserted, and stay invisible; generated
    sequences are gone whatever happens. A row whose key another open transaction
    has inserted waits for that transaction. *)
Definition insert_step (v : verdict) (others : list Row) (rest : list Row) (b : backend Row) (th : wthread Row)
  : option (backend Row * wthread Row * option (list FlowRecord)) :=
  match rest, v with
  | [], _ => Some (b, at_pc th WCommit, None)
  | _, Fails _ => Some (b, finish th false false, None)
  | _, Succeeds =>
    let chunk := take insertRows rest in
    if existsb (fun x => existsb (same_key x) others) chunk then None
    else
      let t := insert_all chunk (mkTable (t_rows (b_flows b) ++ th_staged th) (t_next (b_flows b))) in
      Some (with_flows (mkTable (t_rows (b_flows b)) (t_next t)) b,
            mkThread (th_records th) (th_todo th) (th_ids th) (drop (length (t_rows (b_flows b))) (t_rows t)) (WInsert (drop insertRows rest)),
            None)
  end.

(** One segment of a thread: the backend, the thread, and what it commits;
    [v] is how the statement it makes ends, [others] the rows of the other open
    transactions. *)
Definition th_step (v : verdict) (others : list Row) (b : backend Row) (th : wthread Row)
  : option (backend Row * wthread Row * option (list FlowRecord)) :=
  let with_id a id := mkThread (th_records th) (th_todo th) (<[a := id]> (th_ids th)) (th_staged th) WLoop in
  match th_pc th with
  | WLoop =>
    match th_todo th with
    | [] => Some (b, at_pc th WWrite, None)
    | (a, last) :: rest =>
      Some (b, mkThread (th_records th) rest (th_ids th) (th_staged th)
                 (match b_cache b !! a with Some id => WTouch a last id | None => WUpsert a last end), None)
    end
  | WTouch a last id =>
    let b' := with_exporters (touch id last (b_exporters b)) b in
    match v with
    | Succeeds => Some (b', with_id a id, None)
    | Fails took => Some (if took then b' else b, finish th false false, None)
    end
  | WUpsert a last =>
    let '(id, t) := upsert a last (b_exporters b) in
    match v with
    | Succeeds => Some (with_exporters t b, at_pc th (WRemember a id), None)
    | Fails took => Some (if took then with_exporters t b else b, finish th false false, None)
    end
  | WRemember a id => Some (mkBackend (b_exporters b) (remember a id (b_cache b)) (b_flows b), with_id a id, None)
  | WWrite =>
    match e with
    | CopyThenInsert => copy_step v b th
    | ChunkedTransaction =>
      match v with
      | Succeeds => Some (b, at_pc th (WInsert (batch_rows (th_ids th) (th_records th))), None)
      | Fails _ => Some (b, finish th false false, None)
      end
    end
  | WFallback =>
    let t := insert_all (batch_rows (th_ids th) (th_records th)) (b_flows b) in
    match v with
    | Succeeds => landed th true t b
    | Fails true => landed th false t b
    | Fails false => Some (b, finish th false false, None)
    end
  | WInsert rest => insert_step v others rest b th
  | WCommit =>
    let t := mkTable (t_rows (b_flows b) ++ th_staged th) (t_next (b_flows b)) in
    match v with
    | Succeeds => landed th true t b
    | Fails true => landed th false t b
    | Fails false => Some (b, finish th false false, None)
    end
  | WDone _ _ => None
  end.

Definition staged_rows (ths : list (wthread Row)) : list Row := concat ((fun th => (th_staged th).*2) <$> ths).

(** The scheduler picks a thread. *)
Definition w_step (a : nat * verdict) (s : wstate) : option wstate :=
  th ← ws_threads s !! a.1;
  '(b, th', commit) ← th_step a.2 (staged_rows (delete a.1 (ws_threads s))) (ws_backend s) th;
  Some (mkWState b (<[a.1 := th']> (ws_threads s)) (ws_committed s ++ option_list commit)).

Definition w_start (calls : list (list FlowRecord * list (Addr * Time))) : wstate :=
  mkWState (empty_backend Row) ((fun c => th_start c.1 c.2) <$> calls) [].

(** ** The invariant *)

(** The address a thread has taken off its list but not yet in its ids. *)
Definition pc_addr (pc : wpc Row) : option Addr :=
  match pc with WTouch a _ _ | WUpsert a _ | WRemember a _ => Some a | _ => None end.

Definition pc_ok (pc : wpc Row) (t : exp_table) : Prop :=
  match pc with WTouch a _ id | WRemember a id => exists r, x_rows t !! a = Some r /\ x_id r = id | _ => True end.

Definition writing (pc : wpc Row) : bool := match pc with WWrite | WFallback | WInsert _ | WCommit => true | _ => false end.
Definition in_transaction (pc : wpc Row) : bool := match pc with WInsert _ | WCommit => true | _ => false end.

(** Only MariaDB has a transaction, only PostgreSQL a second statement. *)
Definition legal (pc : wpc Row) : bool :=
  match e, pc with
  | CopyThenInsert, (WInsert _ | WCommit) | ChunkedTransaction, WFallback => false
  | _, _ => true
  end.

Record th_ok (t : exp_table) (th : wthread Row) : Prop := {
  to_writable : Forall (writable row_instant) (th_records th);
  to_ids : cache_ok (th_ids th) t;
  to_pc : pc_ok (th_pc th) t;
  to_cover : forall r, r ∈ th_records th ->
    is_Some (th_ids th !! ExporterAddr r) \/ ExporterAddr r ∈ (th_todo th).*1 \/ pc_addr (th_pc th) = Some (ExporterAddr r) \/
    exists ok l, th_pc th = WDone ok l;
  to_done : writing (th_pc th) = true -> th_todo th = []
}.

(** What an open transaction has inserted is what the reference insertion of its
    rows so far adds to the table as it is now. *)
Definition staged_ok (vals : list Row) (th : wthread Row) : Prop :=
  let rows := batch_rows (th_ids th) (th_records th) in
  match th_pc th with
  | WInsert rest => exists sent, sent ++ rest = rows /\ (th_staged th).*2 = dedup_rows vals sent
  | WCommit => (th_staged th).*2 = dedup_rows vals rows
  | _ => th_staged th = []
  end.

(** Open transactions hold different keys. *)
Definition apart (ths : list (wthread Row)) : Prop :=
  forall i j th th' x y, i <> j -> ths !! i = Some th -> ths !! j = Some th' ->
    x ∈ (th_staged th).*2 -> y ∈ (th_staged th').*2 -> same_key x y = false.

Lemma th_ok_le t t' th : exp_le t t' -> th_ok t th -> th_ok t' th.
Proof.
  intros Hle [Hw Hi Hp Hc Hd]. split; [done|by eapply cache_ok_le| |done|done].
  destruct (th_pc th); simpl in *; try done; destruct Hp as (r & Hr & <-); destruct (Hle _ _ Hr) as (r' & ? & ? & _); eauto.
Qed.

Record w_inv (s : wstate) : Prop := {
  wi_exporters : exp_ok (b_exporters (ws_backend s));
  wi_cache : cache_ok (b_cache (ws_backend s)) (b_exporters (ws_backend s));
  wi_size : (size (b_cache (ws_backend s)) <= cacheCap)%nat;
  wi_threads : Forall (th_ok (b_exporters (ws_backend s))) (ws_threads s);
  wi_staged : Forall (staged_ok (values (b_flows (ws_backend s)))) (ws_threads s);
  wi_apart : apart (ws_threads s);
  wi_mode : Forall (fun th => legal (th_pc th) = true) (ws_threads s);
  wi_rows : exists recs, Forall (writable row_instant) recs /\ Forall (known (b_exporters (ws_backend s))) recs /\
    values (b_flows (ws_backend s)) = row_of (b_exporters (ws_backend s)) <$> recs /\
    at_rest <$> recs = ref_write [] (concat (ws_committed s))
}.

(** A thread that is about to insert has an id of the table for every record. *)
Lemma th_resolved t th :
  th_ok t th -> writing (th_pc th) = true ->
  forall r, r ∈ th_records th -> exists x, th_ids th !! ExporterAddr r = Some (x_id x) /\ x_rows t !! ExporterAddr r = Some x.
Proof.
  intros [_ Hi _ Hc Hd] Hpc r Hr. specialize (Hd Hpc).
  destruct (Hc r Hr) as [[id Hid]|[Hin|[Ha|(ok & l & Hok)]]].
  - destruct (Hi _ _ Hid) as (x & Hx & <-). eauto.
  - rewrite Hd in Hin. by apply elem_of_nil in Hin.
  - by destruct (th_pc th).
  - by rewrite Hok in Hpc.
Qed.

(** ** Open transactions beside a commit *)

Lemma dedup_rows_grow (p q l : list Row) :
  (forall x, x ∈ dedup_rows p l -> existsb (same_key x) q = false) -> dedup_rows (p ++ q) l = dedup_rows p l.
Proof.
  revert p. induction l as [|x l IH]; intros p Hq; [done|]. cbn [dedup_rows] in *. rewrite existsb_app.
  destruct (existsb (same_key x) p) eqn:E; cbn [orb]; [by apply IH|].
  rewrite (Hq x) by (by left). f_equal. rewrite <- (IH (p ++ [x])) by (intros y Hy; apply Hq; by right).
  apply dedup_rows_perm. solve_Permutation.
Qed.

Lemma existsb_same_false (x : Row) l : (forall y, y ∈ l -> same_key x y = false) -> existsb (same_key x) l = false.
Proof.
  intros Hl. apply not_true_iff_false. rewrite existsb_exists. intros (y & Hy & E). rewrite Hl in E; [done|]. by apply list_elem_of_In.
Qed.

Lemma staged_ok_grow vals new th :
  staged_ok vals th -> (forall x y, x ∈ (th_staged th).*2 -> y ∈ new -> same_key x y = false) -> staged_ok (vals ++ new) th.
Proof.
  unfold staged_ok. intros Hs Hn. destruct (th_pc th); try done.
  - destruct Hs as (sent & E1 & E2). exists sent. split; [done|]. rewrite dedup_rows_grow; [done|]. rewrite <- E2.
    intros x Hx. apply existsb_same_false. auto.
  - rewrite dedup_rows_grow; [done|]. rewrite <- Hs. intros x Hx. apply existsb_same_false. auto.
Qed.

Lemma elem_of_delete_ne {X} (l : list X) i j x : i <> j -> l !! j = Some x -> x ∈ delete i l.
Proof.
  intros Hne Hj. destruct (decide (j < i)%nat).
  - apply list_elem_of_lookup. exists j. by rewrite list_lookup_delete_lt.
  - apply list_elem_of_lookup. exists (pred j). rewrite list_lookup_delete_ge by lia. by replace (S (pred j)) with j by lia.
Qed.

Lemma staged_rows_elem ths i j th x :
  i <> j -> ths !! j = Some th -> x ∈ (th_staged th).*2 -> x ∈ staged_rows (delete i ths).
Proof.
  intros Hne Hj Hx. unfold staged_rows. apply list_elem_of_In, in_concat. exists ((th_staged th).*2).
  split; [|by apply list_elem_of_In]. apply list_elem_of_In, list_elem_of_fmap. exists th. split; [done|]. by eapply elem_of_delete_ne.
Qed.

(** A chunk adds what the reference insertion adds. *)
Lemma chunk_staged vals (t : table Row) staged chunk sent n :
  values t = vals -> staged.*2 = dedup_rows vals sent ->
  (drop (length (t_rows t)) (t_rows (insert_all chunk (mkTable (t_rows t ++ staged) n)))).*2 = dedup_rows vals (sent ++ chunk).
Proof.
  intros <- Hs. rewrite fmap_drop. change ((t_rows (insert_all chunk (mkTable (t_rows t ++ staged) n))).*2) with
    (values (insert_all chunk (mkTable (t_rows t ++ staged) n))). rewrite insert_all_values. unfold values at 1 2. cbn [t_rows].
  rewrite !fmap_app, Hs, <- app_assoc. rewrite <- (length_fmap snd (t_rows t)), drop_app_length.
  fold (values t). by rewrite dedup_rows_app.
Qed.

(** Rows under a later table. *)
Lemma rows_le t t' vals com :
  exp_le t t' ->
  (exists recs, Forall (writable row_instant) recs /\ Forall (known t) recs /\ vals = row_of t <$> recs /\ at_rest <$> recs = com) ->
  exists recs, Forall (writable row_instant) recs /\ Forall (known t') recs /\ vals = row_of t' <$> recs /\ at_rest <$> recs = com.
Proof.
  intros Hle (recs & Hw & Hk & Ev & Er). exists recs. split_and!; [done| | |done].
  - eapply Forall_impl; [exact Hk|]. intros r Hr. by eapply known_le.
  - by rewrite Ev, (row_of_le t t').
Qed.

(** A commit appends to the reference. *)
Lemma rows_after t ids records vals com :
  Forall (writable row_instant) records ->
  (forall r, r ∈ records -> exists x, ids !! ExporterAddr r = Some (x_id x) /\ x_rows t !! ExporterAddr r = Some x) ->
  (exists recs, Forall (writable row_instant) recs /\ Forall (known t) recs /\ vals = row_of t <$> recs /\ at_rest <$> recs = ref_write [] com) ->
  exists recs, Forall (writable row_instant) recs /\ Forall (known t) recs /\
    vals ++ dedup_rows vals (batch_rows ids records) = row_of t <$> recs /\ at_rest <$> recs = ref_write [] (com ++ records).
Proof.
  intros Hw Hids (recs & Hw0 & Hk0 & -> & Er).
  destruct (rows_commit t recs records ids Hw0 Hw Hids) as (Hk & kept & E1 & E2 & Hin).
  assert (Hsub : forall P, Forall P records -> Forall P recs -> Forall P (recs ++ kept)).
  { intros P HP HP0. apply Forall_app. split; [done|]. apply Forall_forall. intros r Hr. rewrite Forall_forall in HP. auto. }
  exists (recs ++ kept). split_and!; [by apply Hsub|by apply Hsub|by rewrite E1, fmap_app|].
  rewrite fmap_app, ref_write_app, <- Er. unfold ref_write. by rewrite E2.
Qed.

(** One segment keeps the cache and the exporters right, changes the rows only
    by committing the thread's batch, and inserts nothing that another open
    transaction holds. *)
Record th_effect (others : list Row) (b : backend Row) (th : wthread Row) (b' : backend Row) (th' : wthread Row)
  (commit : option (list FlowRecord)) : Prop := {
  te_exporters : exp_ok (b_exporters b');
  te_cache : cache_ok (b_cache b') (b_exporters b');
  te_size : (size (b_cache b') <= cacheCap)%nat;
  te_le : exp_le (b_exporters b) (b_exporters b');
  te_thread : th_ok (b_exporters b') th';
  te_rows : match commit with
            | None => values (b_flows b') = values (b_flows b)
            | Some records => records = th_records th /\ writing (th_pc th) = true /\
                values (b_flows b') = values (b_flows b) ++ dedup_rows (values (b_flows b)) (batch_rows (th_ids th) records) /\
                (e = ChunkedTransaction -> dedup_rows (values (b_flows b)) (batch_rows (th_ids th) records) = (th_staged th).*2)
            end;
  te_staged : staged_ok (values (b_flows b')) th';
  te_apart : forall x, x ∈ (th_staged th').*2 -> x ∈ (th_staged th).*2 \/ existsb (same_key x) others = false;
  te_mode : legal (th_pc th') = true
}.

Lemma upsert_known a last t :
  exists r, x_rows (upsert a last t).2 !! a = Some r /\ x_id r = (upsert a last t).1.
Proof. unfold upsert. destruct (x_rows t !! a); cbn; rewrite lookup_insert_eq; eauto. Qed.

(** Putting the current address into the ids. *)
Lemma to_ids_insert t a id (th : wthread Row) :
  (exists r, x_rows t !! a = Some r /\ x_id r = id) -> cache_ok (th_ids th) t -> cache_ok (<[a := id]> (th_ids th)) t.
Proof. intros Hr Hi b x [[<- <-]|[_ Hb]]%lookup_insert_Some; [done|by apply Hi]. Qed.

Lemma to_cover_insert t a id th :
  th_ok t th -> pc_addr (th_pc th) = Some a -> forall r, r ∈ th_records th ->
  is_Some (<[a := id]> (th_ids th) !! ExporterAddr r) \/ ExporterAddr r ∈ (th_todo th).*1.
Proof.
  intros [_ _ _ Hc _] Hpc r Hr. destruct (decide (ExporterAddr r = a)) as [->|Hne]; [left; rewrite lookup_insert_eq; eauto|].
  rewrite lookup_insert_ne by done. destruct (Hc r Hr) as [Hin|[Hin|[Ha|(ok & l & Hok)]]]; [by left|by right|congruence|].
  by rewrite Hok in Hpc.
Qed.

Lemma legal_plain (pc : wpc Row) : in_transaction pc = false -> pc <> WFallback -> legal pc = true.
Proof. unfold legal. by destruct e, pc. Qed.

Section segment.
Context (others : list Row) (b : backend Row) (th : wthread Row).
Context (He : exp_ok (b_exporters b)) (Hc : cache_ok (b_cache b) (b_exporters b)) (Hs : (size (b_cache b) <= cacheCap)%nat).
Context (Hth : th_ok (b_exporters b) th) (Hst : staged_ok (values (b_flows b)) th).
Context (Hmode : legal (th_pc th) = true).

(** A call that has returned. *)
Lemma finish_ok ok l t : exp_le (b_exporters b) t -> th_ok t (finish th ok l).
Proof.
  intros Hle. destruct (th_ok_le _ _ _ Hle Hth) as [Hw Hi _ _ _]. split; cbn; try done. intros r Hr. right. right. right. eauto.
Qed.

(** It fails, at most having touched the exporters. *)
Lemma effect_failed t :
  exp_ok t -> exp_le (b_exporters b) t -> th_effect others b th (with_exporters t b) (finish th false false) None.
Proof.
  intros Ht Hle. split; cbn; try done; [by eapply cache_ok_le|by apply finish_ok|by intros x ?%elem_of_nil|by apply legal_plain].
Qed.

Lemma effect_failed_same : th_effect others b th b (finish th false false) None.
Proof. pose proof (effect_failed (b_exporters b) He (exp_le_refl _)) as Hf. by destruct b. Qed.

(** Its insert is in the table. *)
Lemma effect_landed ok t :
  writing (th_pc th) = true ->
  values t = values (b_flows b) ++ dedup_rows (values (b_flows b)) (batch_rows (th_ids th) (th_records th)) ->
  (e = ChunkedTransaction -> dedup_rows (values (b_flows b)) (batch_rows (th_ids th) (th_records th)) = (th_staged th).*2) ->
  th_effect others b th (with_flows t b) (finish th ok true) (Some (th_records th)).
Proof.
  intros Hpc Hv Hn. split; cbn; try done; [apply exp_le_refl|apply finish_ok, exp_le_refl|by intros x ?%elem_of_nil|by apply legal_plain].
Qed.

(** It moves on without touching the exporters or the rows. *)
Lemma effect_moves th' t :
  th_ok (b_exporters b) th' -> staged_ok (values (b_flows b)) th' -> values t = values (b_flows b) ->
  (forall x, x ∈ (th_staged th').*2 -> x ∈ (th_staged th).*2 \/ existsb (same_key x) others = false) ->
  legal (th_pc th') = true ->
  th_effect others b th (with_flows t b) th' None.
Proof. intros Ho Hst' Hv Ha Hm. split; cbn; try done; [apply exp_le_refl|by rewrite Hv]. Qed.

Lemma effect_stays th' :
  th_ok (b_exporters b) th' -> staged_ok (values (b_flows b)) th' ->
  (forall x, x ∈ (th_staged th').*2 -> x ∈ (th_staged th).*2 \/ existsb (same_key x) others = false) ->
  legal (th_pc th') = true -> th_effect others b th b th' None.
Proof. intros Ho Hst' Ha Hm. split; try done. apply exp_le_refl. Qed.

(** A call that resolves exporters has no transaction. *)
Lemma staged_nil : in_transaction (th_pc th) = false -> th_staged th = [].
Proof. unfold staged_ok in Hst. by destruct (th_pc th). Qed.

Lemma effect_loop_end : th_pc th = WLoop -> th_todo th = [] -> th_effect others b th b (at_pc th WWrite) None.
Proof.
  intros Epc Et. pose proof Hth as [Hw Hi _ Hcov _]. rewrite Epc in Hcov.
  apply effect_stays; [|apply staged_nil; by rewrite Epc|by left|by apply legal_plain].
  split; cbn; try done. intros r Hr.
  destruct (Hcov r Hr) as [?|[Hin|[?|(ok & l & ?)]]]; [by left|rewrite Et in Hin; by apply elem_of_nil in Hin|done|done].
Qed.

Lemma effect_loop_next a last rest :
  th_pc th = WLoop -> th_todo th = (a, last) :: rest ->
  th_effect others b th b (mkThread (th_records th) rest (th_ids th) (th_staged th)
    (match b_cache b !! a with Some id => WTouch a last id | None => WUpsert a last end)) None.
Proof.
  intros Epc Et. pose proof Hth as [Hw Hi _ Hcov _]. rewrite Epc in Hcov.
  assert (Hnil : th_staged th = []) by (apply staged_nil; by rewrite Epc).
  assert (Hcov' : forall r, r ∈ th_records th -> is_Some (th_ids th !! ExporterAddr r) \/ ExporterAddr r ∈ rest.*1 \/ ExporterAddr r = a).
  { intros r Hr. destruct (Hcov r Hr) as [?|[Hin|[?|(ok & l & ?)]]]; [by left| |done|done].
    rewrite Et, fmap_cons in Hin. apply elem_of_cons in Hin as [?|?]; tauto. }
  destruct (b_cache b !! a) as [id|] eqn:Ea; (apply effect_stays; [|exact Hnil|by left|by apply legal_plain]); split; cbn; try done;
    try (intros r Hr; destruct (Hcov' r Hr) as [?|[?| ->]]; [by left|by right; left|by right; right; left]).
  by apply Hc.
Qed.

(** UPDATE and upsert of an exporter, and the cache. *)
Lemma with_id_ok t a id :
  exp_le (b_exporters b) t -> pc_addr (th_pc th) = Some a -> (exists r, x_rows t !! a = Some r /\ x_id r = id) ->
  th_ok t (mkThread (th_records th) (th_todo th) (<[a := id]> (th_ids th)) (th_staged th) WLoop).
Proof.
  intros Hle Hpc Hr. pose proof (th_ok_le _ _ _ Hle Hth) as Hth'. pose proof Hth' as [Hw Hi _ _ _].
  split; cbn; try done; [by apply to_ids_insert|]. intros r Hrr.
  destruct (to_cover_insert _ a id th Hth' Hpc r Hrr) as [?|?]; tauto.
Qed.

Lemma effect_touch a last id :
  th_pc th = WTouch a last id ->
  th_effect others b th (with_exporters (touch id last (b_exporters b)) b)
    (mkThread (th_records th) (th_todo th) (<[a := id]> (th_ids th)) (th_staged th) WLoop) None.
Proof.
  intros Epc. pose proof (touch_le id last (b_exporters b)) as Hle. pose proof (to_pc _ _ (th_ok_le _ _ _ Hle Hth)) as Hp. rewrite Epc in Hp.
  assert (Hnil : th_staged th = []) by (apply staged_nil; by rewrite Epc).
  split; cbn; try done; [by apply touch_ok|by eapply cache_ok_le|apply with_id_ok; [done|by rewrite Epc|done]|by left|by apply legal_plain].
Qed.

Lemma effect_upsert a last :
  th_pc th = WUpsert a last ->
  th_effect others b th (with_exporters (upsert a last (b_exporters b)).2 b) (at_pc th (WRemember a (upsert a last (b_exporters b)).1)) None.
Proof.
  intros Epc. pose proof (upsert_le a last (b_exporters b)) as Hle. pose proof (th_ok_le _ _ _ Hle Hth) as [Hw Hi _ Hcov _].
  assert (Hnil : th_staged th = []) by (apply staged_nil; by rewrite Epc). rewrite Epc in Hcov.
  split; cbn; try done; [by apply upsert_ok|by eapply cache_ok_le| |by left|by apply legal_plain].
  split; cbn; try done; [apply upsert_known|]. intros r Hr.
  destruct (Hcov r Hr) as [?|[?|[?|(ok & l & ?)]]]; [by left|by right; left|by right; right; left|done].
Qed.

Lemma effect_remember a id :
  th_pc th = WRemember a id ->
  th_effect others b th (mkBackend (b_exporters b) (remember a id (b_cache b)) (b_flows b))
    (mkThread (th_records th) (th_todo th) (<[a := id]> (th_ids th)) (th_staged th) WLoop) None.
Proof.
  intros Epc. pose proof (to_pc _ _ Hth) as Hp. rewrite Epc in Hp. assert (Hnil : th_staged th = []) by (apply staged_nil; by rewrite Epc).
  split; cbn; try done; [|by apply size_remember|apply exp_le_refl|apply with_id_ok; [apply exp_le_refl|by rewrite Epc|done]|by left|by apply legal_plain].
  intros b' x [[-> ->]|Hb]%remember_lookup; [done|by apply Hc].
Qed.

(** Moving on while writing. *)
Lemma writing_ok st pc' :
  writing (th_pc th) = true -> writing pc' = true ->
  th_ok (b_exporters b) (mkThread (th_records th) (th_todo th) (th_ids th) st pc').
Proof.
  intros Hpc Hpc'. pose proof Hth as [Hw Hi _ _ Hd]. split; cbn; try done; [by destruct pc'| |auto].
  intros r Hr. destruct (th_resolved _ _ Hth Hpc r Hr) as (x & -> & _). by left.
Qed.

Lemma effect_copy v b' th' commit :
  th_pc th = WWrite -> e = CopyThenInsert -> copy_step v b th = Some (b', th', commit) -> th_effect others b th b' th' commit.
Proof.
  intros Epc Ee Hstep. unfold copy_step in Hstep. assert (Hnil : th_staged th = []) by (apply staged_nil; by rewrite Epc).
  destruct (copy_from _ (b_flows b)) as [t|n] eqn:Ec; [apply copy_from_values in Ec as [Ec _]|]; destruct v as [|[]]; unfold landed in Hstep;
    injection Hstep as <- <- <-; try apply effect_failed_same; try (apply effect_landed; [by rewrite Epc|done|by rewrite Ee]).
  apply effect_moves; [apply writing_ok; [by rewrite Epc|done]|exact Hnil|done|by left|]. unfold legal. by rewrite Ee.
Qed.

Lemma effect_begin :
  th_pc th = WWrite -> e = ChunkedTransaction ->
  th_effect others b th b (at_pc th (WInsert (batch_rows (th_ids th) (th_records th)))) None.
Proof.
  intros Epc Ee. assert (Hnil : th_staged th = []) by (apply staged_nil; by rewrite Epc).
  apply effect_stays; [apply writing_ok; [by rewrite Epc|done]| |by left|unfold legal; by rewrite Ee]. exists []. cbn. by rewrite Hnil.
Qed.

Lemma effect_insert v rest b' th' commit :
  th_pc th = WInsert rest -> insert_step v others rest b th = Some (b', th', commit) -> th_effect others b th b' th' commit.
Proof.
  intros Epc Hstep. assert (Ee : e = ChunkedTransaction) by (unfold legal in Hmode; rewrite Epc in Hmode; by destruct e).
  pose proof Hst as Hst'. unfold staged_ok in Hst'. rewrite Epc in Hst'. destruct Hst' as (sent & Es & Hstg).
  unfold insert_step in Hstep. destruct rest as [|x rest]; [injection Hstep as <- <- <-|destruct v; [|injection Hstep as <- <- <-; apply effect_failed_same]].
  - apply effect_stays; [apply writing_ok; [by rewrite Epc|done]| |by left|unfold legal; by rewrite Ee].
    unfold staged_ok. cbn [at_pc th_pc th_staged th_ids th_records]. by rewrite <- Es, app_nil_r.
  - assert (Er : take insertRows (x :: rest) ++ drop insertRows (x :: rest) = x :: rest) by apply take_drop.
    set (chunk := take insertRows (x :: rest)) in *. set (rest' := drop insertRows (x :: rest)) in *. clearbody chunk rest'.
    pose proof (chunk_staged _ (b_flows b) (th_staged th) chunk sent (t_next (b_flows b)) eq_refl Hstg) as Hch.
    destruct (existsb _ chunk) eqn:Eb; [done|]. cbv zeta in Hstep. set (t := insert_all chunk _) in *. clearbody t. injection Hstep as <- <- <-.
    apply effect_moves; [apply writing_ok; [by rewrite Epc|done]| |done| |unfold legal; by rewrite Ee].
    + exists (sent ++ chunk). cbn [th_staged th_ids th_records th_pc]. split; [|done]. by rewrite <- Es, <- app_assoc, Er.
    + cbn [th_staged]. rewrite Hch, dedup_rows_app, <- Hstg. intros y [Hy|Hy]%elem_of_app; [by left|right].
      assert (Hin : y ∈ chunk) by (by eapply elem_of_sublist; [|apply dedup_rows_sublist]).
      apply not_true_iff_false. intros E. apply not_true_iff_false in Eb. apply Eb, existsb_exists. exists y.
      split; [by apply list_elem_of_In|done].
Qed.
End segment.

Lemma th_step_effect v others b th b' th' commit :
  exp_ok (b_exporters b) -> cache_ok (b_cache b) (b_exporters b) -> (size (b_cache b) <= cacheCap)%nat ->
  th_ok (b_exporters b) th -> staged_ok (values (b_flows b)) th -> legal (th_pc th) = true ->
  th_step v others b th = Some (b', th', commit) -> th_effect others b th b' th' commit.
Proof.
  intros He Hc Hs Hth Hst Hm Hstep. unfold th_step in Hstep. destruct (th_pc th) as [|a last id|a last|a id| | |rest| |ok l] eqn:Epc; rewrite <- Epc in Hm; [..|done].
  - destruct (th_todo th) as [|[a last] rest] eqn:Et; injection Hstep as <- <- <-; [by apply effect_loop_end|by apply effect_loop_next].
  - destruct v as [|[]]; injection Hstep as <- <- <-; [by apply effect_touch|apply effect_failed|by apply effect_failed_same]; try done;
      [by apply touch_ok|apply touch_le].
  - pose proof (effect_upsert others b th He Hc Hs Hth Hst Hm a last Epc) as Hu. pose proof (upsert_ok a last _ He) as Hok.
    pose proof (upsert_le a last (b_exporters b)) as Hle. destruct (upsert a last (b_exporters b)) as [id t]. cbn [fst snd] in *.
    destruct v as [|[]]; injection Hstep as <- <- <-; [done|by apply effect_failed|by apply effect_failed_same].
  - injection Hstep as <- <- <-. by apply effect_remember.
  - assert (Ee : e = CopyThenInsert \/ e = ChunkedTransaction) by (destruct e; auto).
    destruct Ee as [Ee|Ee]; rewrite Ee in Hstep; [by eapply effect_copy|].
    destruct v; injection Hstep as <- <- <-; [by apply effect_begin|by apply effect_failed_same].
  - assert (Ec : e = ChunkedTransaction -> dedup_rows (values (b_flows b)) (batch_rows (th_ids th) (th_records th)) = (th_staged th).*2).
    { intros Ee. unfold legal in Hm. by rewrite Ee, Epc in Hm. }
    destruct v as [|[]]; unfold landed in Hstep; injection Hstep as <- <- <-; [| |by apply effect_failed_same];
      (apply effect_landed; [done..|by rewrite Epc|apply insert_all_values|done]).
  - by eapply effect_insert.
  - assert (Hsg : (th_staged th).*2 = dedup_rows (values (b_flows b)) (batch_rows (th_ids th) (th_records th)))
      by (unfold staged_ok in Hst; by rewrite Epc in Hst).
    assert (Hv : values (mkTable (t_rows (b_flows b) ++ th_staged th) (t_next (b_flows b))) =
      values (b_flows b) ++ dedup_rows (values (b_flows b)) (batch_rows (th_ids th) (th_records th)))
      by (unfold values at 1; cbn [t_rows]; by rewrite fmap_app, Hsg).
    destruct v as [|[]]; unfold landed in Hstep; injection Hstep as <- <- <-; [| |by apply effect_failed_same];
      (apply effect_landed; [done..|by rewrite Epc|exact Hv|done]).
Qed.

(** The other threads beside the one that moves. *)
Lemma apart_insert ths i th th' :
  apart ths -> ths !! i = Some th ->
  (forall x, x ∈ (th_staged th').*2 -> x ∈ (th_staged th).*2 \/ existsb (same_key x) (staged_rows (delete i ths)) = false) ->
  apart (<[i := th']> ths).
Proof.
  intros Ha Hi Hn. assert (Hside : forall j u x y, i <> j -> ths !! j = Some u -> x ∈ (th_staged th').*2 -> y ∈ (th_staged u).*2 -> same_key x y = false).
  { intros j u x y Hne Hj Hx Hy. destruct (Hn x Hx) as [Hx'|Hf]; [by eapply (Ha i j)|].
    apply not_true_iff_false. intros E. apply not_true_iff_false in Hf. apply Hf, existsb_exists. exists y. split; [|done].
    apply list_elem_of_In. by eapply staged_rows_elem. }
  intros j k u u' x y Hne Hj Hk Hx Hy. destruct (decide (i = j)) as [<-|Hij], (decide (i = k)) as [<-|Hik]; [done|..].
  - rewrite list_lookup_insert_eq in Hj by (by eapply lookup_lt_Some). injection Hj as <-. rewrite list_lookup_insert_ne in Hk by done. by eapply Hside.
  - rewrite list_lookup_insert_eq in Hk by (by eapply lookup_lt_Some). injection Hk as <-. rewrite list_lookup_insert_ne in Hj by done.
    rewrite same_key_sym. by eapply Hside.
  - rewrite list_lookup_insert_ne in Hj, Hk by done. by eapply (Ha j k).
Qed.

Lemma staged_others ths i th b b' th' commit others :
  Forall (staged_ok (values (b_flows b))) ths -> apart ths -> Forall (fun th => legal (th_pc th) = true) ths -> ths !! i = Some th ->
  th_effect others b th b' th' commit -> Forall (staged_ok (values (b_flows b'))) (<[i := th']> ths).
Proof.
  intros Hs Ha Hl Hi [_ _ _ _ _ Hrows Hst _ _]. apply Forall_lookup. intros j u Hj. destruct (decide (i = j)) as [<-|Hne].
  { rewrite list_lookup_insert_eq in Hj by (by eapply lookup_lt_Some). by injection Hj as <-. }
  rewrite list_lookup_insert_ne in Hj by done. pose proof (Forall_lookup_1 _ _ _ _ Hs Hj) as Hu.
  destruct commit as [records|]; [|by rewrite Hrows]. destruct Hrows as (-> & _ & -> & Hn).
  assert (Ee : e = CopyThenInsert \/ e = ChunkedTransaction) by (destruct e; auto). destruct Ee as [Ee|Ee].
  - pose proof (Forall_lookup_1 _ _ _ _ Hl Hj) as Hlu. cbv beta in Hlu. unfold legal in Hlu. rewrite Ee in Hlu.
    unfold staged_ok in *. by destruct (th_pc u).
  - apply staged_ok_grow; [done|]. intros x y Hx Hy. rewrite (Hn Ee) in Hy. by eapply (Ha j i).
Qed.

Lemma w_inv_step s s' : w_inv s -> steps_to w_step s s' -> w_inv s' /\ exp_le (b_exporters (ws_backend s)) (b_exporters (ws_backend s')).
Proof.
  intros [He Hc Hs Ht Hst Hap Hm Hr] [[i v] Hstep]. unfold w_step in Hstep. cbn [fst snd] in Hstep.
  destruct (ws_threads s !! i) as [th|] eqn:Ei; [|done]. cbn [mbind option_bind] in Hstep.
  destruct (th_step v _ (ws_backend s) th) as [[[b th'] commit]|] eqn:Est; [|done]. injection Hstep as <-.
  pose proof (Forall_lookup_1 _ _ _ _ Ht Ei) as Hth.
  pose proof (th_step_effect v _ _ th b th' commit He Hc Hs Hth (Forall_lookup_1 _ _ _ _ Hst Ei) (Forall_lookup_1 _ _ _ _ Hm Ei) Est) as Heff.
  pose proof (staged_others _ _ _ _ _ _ _ _ Hst Hap Hm Ei Heff) as Hst'. destruct Heff as [He' Hc' Hs' Hle Hth' Hrows _ Ha' Hm'].
  split; [|done]. split; cbn [ws_backend ws_threads ws_committed]; [done..| |done|by eapply apart_insert|by apply Forall_insert|].
  - apply Forall_insert; [|done]. eapply Forall_impl; [exact Ht|]. intros x Hx. by eapply th_ok_le.
  - apply (rows_le _ _ _ _ Hle) in Hr. destruct commit as [records|];
      [change (option_list (Some records)) with [records]|change (option_list (@None (list FlowRecord))) with (@nil (list FlowRecord))].
    + destruct Hrows as (-> & Hpc & -> & _). rewrite concat_app. cbn [concat]. rewrite app_nil_r.
      apply rows_after; [apply Hth| |done]. apply th_resolved; [by eapply th_ok_le|done].
    + rewrite Hrows, app_nil_r. done.
Qed.

(** Every thread's batch enumerates its exporters. *)
Definition calls_ok (calls : list (list FlowRecord * list (Addr * Time))) : Prop :=
  Forall (fun c => Forall (writable row_instant) c.1 /\ enumerates c.2 c.1) calls.

Lemma w_start_inv calls : calls_ok calls -> w_inv (w_start calls).
Proof.
  intros Hcalls. pose proof rel_new_good as [[He Hc Hs _] _ _ _ _].
  split; cbn [w_start ws_backend ws_threads ws_committed]; [done..| | | | |exists []; by split_and!].
  - apply Forall_fmap. eapply Forall_impl; [exact Hcalls|]. intros [records order] [Hw Hen]. cbn [fst snd compose] in *.
    split; cbn; [done|by intros a id Ha%lookup_empty_Some|by destruct records| |by destruct records].
    intros r Hr. right. left. apply list_elem_of_fmap.
    destruct (seen_of_spec records) as [H1 _].
    { eapply Forall_impl; [exact Hw|]. by intros x [[[] _ _ _ _ _] _ _ _]. }
    destruct (H1 r Hr) as (t & Hin & _). exists (ExporterAddr r, t). split; [done|].
    unfold enumerates in Hen. rewrite Hen. by apply elem_of_map_to_list.
  - apply Forall_fmap, Forall_true. intros [[|r records] order]; reflexivity.
  - intros i j th th' x y _ Hi _ Hx. apply list_lookup_fmap_Some in Hi as ([records order] & -> & _). by apply elem_of_nil in Hx.
  - apply Forall_fmap, Forall_true. intros [[|r records] order]; by apply legal_plain.
Qed.

Lemma w_reach calls s :
  calls_ok calls -> star (steps_to w_step) (w_start calls) s -> w_inv s.
Proof.
  intros Hcalls. apply star_invariant; [|by apply w_start_inv]. intros s1 s2 Hi Hs. by apply (w_inv_step s1 s2).
Qed.

(** What the calls whose insert took effect were given. *)
Definition effective (th : wthread Row) : list FlowRecord :=
  match th_pc th with WDone _ true => th_records th | _ => [] end.

Lemma effective_insert l i th th' :
  l !! i = Some th -> effective th = [] ->
  concat (effective <$> <[i := th']> l) ≡ₚ concat (effective <$> l) ++ effective th'.
Proof.
  intros Hi Hth. assert (Hlt := lookup_lt_Some _ _ _ Hi). rewrite insert_take_drop by done.
  rewrite <- (take_drop_middle l i th Hi) at 3. rewrite !fmap_app, !concat_app, !fmap_cons. cbn [concat].
  rewrite Hth. cbn [app]. rewrite <- app_assoc. f_equiv. apply Permutation_app_comm.
Qed.

(** A call returns nil only with its rows in the table. *)
Definition honest (th : wthread Row) : Prop := th_pc th <> WDone true false.

Lemma effective_step v others b th b' th' commit :
  th_step v others b th = Some (b', th', commit) ->
  effective th = [] /\ effective th' = match commit with Some records => records | None => [] end /\ honest th'.
Proof.
  intros Hs. unfold th_step, copy_step, insert_step, landed in Hs. unfold effective at 1.
  destruct (th_pc th) as [|a l id|a l|a id| | |rest| |ok l]; [..|done]; (split; [done|]);
    repeat (case_match; simplify_eq/=); split; done.
Qed.

Lemma committed_effective calls s :
  star (steps_to w_step) (w_start calls) s ->
  concat (ws_committed s) ≡ₚ concat (effective <$> ws_threads s) /\ Forall honest (ws_threads s).
Proof.
  apply (star_invariant _ (fun s => concat (ws_committed s) ≡ₚ concat (effective <$> ws_threads s) /\ Forall honest (ws_threads s))).
  - intros s1 s2 [IH Hh] [[i v] Hstep]. unfold w_step in Hstep. cbn [fst snd] in Hstep.
    destruct (ws_threads s1 !! i) as [th|] eqn:Ei; [|done]. cbn [mbind option_bind] in Hstep.
    destruct (th_step v _ (ws_backend s1) th) as [[[b th'] commit]|] eqn:Est; [|done]. injection Hstep as <-.
    apply effective_step in Est as (E0 & E1 & E2). cbn [ws_committed ws_threads]. split; [|by apply Forall_insert].
    rewrite (effective_insert _ _ th) by done. rewrite concat_app, IH, E1. f_equiv. destruct commit; cbn; by rewrite ?app_nil_r.
  - cbn [w_start ws_committed ws_threads]. clear. induction calls as [|[records order] calls [IH1 IH2]]; [done|].
    rewrite !fmap_cons. cbn [concat]. rewrite <- IH1. split; [by destruct records|]. constructor; [by destruct records|done].
Qed.
End workers.

(** ** The two databases *)

(** The statements on [exporters] are those of [Exporters]; MariaDB's do the
    same to its table statement by statement ([MyExporters.same_touch],
    [MyExporters.same_upsert]). *)
Definition pg_wstep : nat * verdict -> wstate (Row := PgRow) -> option wstate := w_step CopyThenInsert.
Definition my_wstep : nat * verdict -> wstate (Row := MyRow) -> option wstate := w_step ChunkedTransaction.

(** The shape of what both satisfy. *)
Definition serialised {Row} `{RowExporter Row} (s : wstate (Row := Row)) : Prop :=
  cache_ok (b_cache (ws_backend s)) (b_exporters (ws_backend s)) /\ (size (b_cache (ws_backend s)) <= cacheCap)%nat /\
  exp_ok (b_exporters (ws_backend s)) /\
  comparable ∘ r_rec <$> joined (ws_backend s) = ref_write [] (concat (ws_committed s)) /\
  concat (ws_committed s) ≡ₚ concat (effective <$> ws_threads s) /\ Forall honest (ws_threads s).

Lemma w_serialised {Row} `{RowExporter Row} {RL : RowLaws Row (fun _ id => id)} e calls s :
  calls_ok calls -> star (steps_to (w_step e)) (w_start calls) s -> serialised s.
Proof.
  intros Hcalls Hst. destruct (w_reach e calls s Hcalls Hst) as [He Hc Hs _ _ _ _ (recs & Hw & Hk & Ev & Er)].
  destruct (committed_effective e calls s Hst) as [Hce Hh].
  split_and!; [done..| |done|done]. by rewrite (rel_contents _ recs), Er.
Qed.

(** C19. Overlapping calls of WriteBatch on PostgreSQL and on MariaDB are
    serialisable. The calls are cut at every access to the cache and at every
    statement (the COPY and the INSERT that follows a conflict on PostgreSQL; BEGIN,
    each chunk's INSERT IGNORE and COMMIT on MariaDB, whose open transactions are
    invisible and make others wait for their keys); every statement may fail, and
    one that fails may have taken effect. In every state of every interleaving the
    cache names only rows of the exporters table and stays within its capacity,
    exporter ids are unique, and the table holds what one sequential history of
    reference insertions leaves, that of the batches in the order they took
    effect; these are the batches of the calls that returned nil and of the calls
    that returned an error after their COPY, INSERT or COMMIT had taken effect.
    Asked of the calls: records that the backend can hold, and exporters ranged
    over in some order. *)
Theorem concurrent_writes_serialised calls :
  (calls_ok (Row := PgRow) calls -> forall s, star (steps_to pg_wstep) (w_start calls) s -> serialised s) /\
  (calls_ok (Row := MyRow) calls -> forall s, star (steps_to my_wstep) (w_start calls) s -> serialised s).
Proof. split; intros Hcalls s Hst; by eapply w_serialised. Qed.

(** Two MariaDB workers with the same delivery: both miss the cache and both
    create the exporter; the second waits for the first one's transaction, whose
    COMMIT takes effect but is not acknowledged, and then skips its rows. *)
Definition race_calls : list (list FlowRecord * list (Addr * Time)) :=
  let recs := Conformance.batch 2 Conformance.exporterA true in [(recs, map_to_list (seen_of recs)); (recs, map_to_list (seen_of recs))].
Definition race_start : list (nat * verdict) := (fun i => (i, Succeeds)) <$> [0; 1; 0; 1; 0; 1; 0; 1; 0; 1; 0]%nat.
Definition race_schedule : list (nat * verdict) :=
  race_start ++ [(0%nat, Succeeds); (0%nat, Fails true); (1%nat, Succeeds); (1%nat, Succeeds); (1%nat, Succeeds)].

(** The second worker's INSERT waits. *)
Lemma race_waits : (run_script my_wstep race_start (w_start race_calls) ≫= my_wstep (1%nat, Succeeds)) = None.
Proof. vm_compute. reflexivity. Qed.

Lemma concurrent_writes_serialised_witness :
  exists s, run_script my_wstep race_schedule (w_start race_calls) = Some s /\
    serialised s /\ length (joined (ws_backend s)) = 2%nat /\ th_pc <$> ws_threads s = [WDone false true; WDone true true].
Proof.
  assert (Hcalls : calls_ok (Row := MyRow) race_calls).
  { assert (Hone : Forall (writable my_instant) (Conformance.batch 2 Conformance.exporterA true) /\
      enumerates (map_to_list (seen_of (Conformance.batch 2 Conformance.exporterA true))) (Conformance.batch 2 Conformance.exporterA true)).
    { split; [|unfold enumerates; reflexivity]. apply (bool_decide_eq_true_1 _). vm_compute. reflexivity. }
    apply Forall_cons. split; [exact Hone|]. apply Forall_cons. split; [exact Hone|constructor]. }
  eexists. split; [vm_compute; reflexivity|]. split; [|split; vm_compute; reflexivity].
  apply (proj2 (concurrent_writes_serialised race_calls) Hcalls).
  apply run_script_star with race_schedule. vm_compute. reflexivity.
Defined.
