(* ===== verification/Obs.v ===== *)
(** * Observability: [internal/obs]

    The default logger, its lines and the redaction of attributes at any depth
    ([logging.go]), and the series that [Prime] creates ([otel.go]). Attribute
    keys are ASCII; values other than groups are their text. *)

From S2P Require Import Prelude Text Strings.

Open Scope char_scope.
Open Scope Z_scope.

(** ** [logging.go] *)

Inductive level := LevelDebug | LevelInfo | LevelWarn | LevelError.

Definition ParseLevel (s : text) : level :=
  let k := ToLower (TrimSpace s) in
  if bool_decide (k = tx "debug") then LevelDebug
  else if bool_decide (k = tx "warn") || bool_decide (k = tx "warning") then LevelWarn
  else if bool_decide (k = tx "error") then LevelError
  else LevelInfo.

Definition Redacted : text := tx "[redacted]".

Definition redactedKeys : list text :=
  tx <$> ["authorization"; "api_key"; "api_keys"; "dsn"; "password"; "token"; "secret"]%string.

Definition IsRedactedKey (key : text) : bool :=
  let k := ToLower key in
  existsb (fun r => bool_decide (k = r) || HasSuffix k ("_" :: r) || HasSuffix k ("." :: r)) redactedKeys.

(** [slog.Attr]: a key with a value, or a group of attributes. *)
Inductive attr := Leaf (key value : text) | Group (key : text) (members : list attr).

(** [redact], as [HandlerOptions.ReplaceAttr]. *)
Definition redact (a : attr) : attr :=
  match a with
  | Group _ _ => a
  | Leaf key _ => if IsRedactedKey key then Leaf key Redacted else a
  end.

(** The handler's output: [ReplaceAttr] of every leaf, group by group. *)
Fixpoint render (a : attr) : attr :=
  match a with
  | Leaf _ _ => redact a
  | Group key members => Group key (render <$> members)
  end.

(** A JSON handler with [redact]: its level, and the attributes given by
    [With], which are formatted when they are given. *)
Record handler := mkHandler { h_level : level; h_attrs : list attr }.

Definition NewHandler (l : level) : handler := mkHandler l [].
Definition With (h : handler) (a : attr) : handler := mkHandler (h_level h) (h_attrs h ++ [render a]).

(** [SetupLogging]: the logger that becomes the default. *)
Definition SetupLogging (lvl service : text) : handler :=
  With (NewHandler (ParseLevel lvl)) (Leaf (tx "service") service).

Definition severity (l : level) : Z :=
  match l with LevelDebug => -4 | LevelInfo => 0 | LevelWarn => 4 | LevelError => 8 end.
Definition level_text (l : level) : text :=
  tx match l with LevelDebug => "DEBUG" | LevelInfo => "INFO" | LevelWarn => "WARN" | LevelError => "ERROR" end%string.

(** The members of one line, [None] when the level is not enabled; the built-in
    ones are replaced like the others. *)
Definition log_line (h : handler) (now : text) (l : level) (msg : text) (attrs : list attr) : option (list attr) :=
  if severity (h_level h) <=? severity l then
    Some ((redact <$> [Leaf (tx "time") now; Leaf (tx "level") (level_text l); Leaf (tx "msg") msg])
          ++ h_attrs h ++ (render <$> attrs))
  else None.

(** ** [otel.go]: [Prime] *)

Inductive instrument :=
| DecodeErrors | RecordsIngested | RecordsDropped | BatchWriteDuration | BatchWriteErrors
| PipelineBufferLength | RecordVisibilityLag | SourceRewinds.

Definition series := (instrument * string)%type.

Definition DropBufferFull : string := "buffer_full".
Definition DropShutdown : string := "shutdown".

Definition Prime (sources sinks : list string) : list series :=
  concat ((fun s => [(RecordsIngested, s); (SourceRewinds, s)]) <$> sources)
  ++ ((fun r => (RecordsDropped, r)) <$> [DropBufferFull; DropShutdown])
  ++ concat ((fun s => [(BatchWriteDuration, s); (BatchWriteErrors, s)]) <$> sinks).

(** ** Facts *)

(** The leaves of an attribute with the path of groups they are under. *)
Fixpoint leaves (path : list text) (a : attr) : list (list text * text * text) :=
  match a with
  | Leaf key value => [(path, key, value)]
  | Group key members => concat (leaves (path ++ [key]) <$> members)
  end.

(** What must be hidden, by the documented rule: the name itself, or after an
    underscore or a dot, in any case. *)
Definition secret (key : text) : Prop :=
  exists r p, r ∈ redactedKeys /\ ToLower key = p ++ r /\
    (p = [] \/ exists p', p = p' ++ ["_"] \/ p = p' ++ ["."]).

Lemma IsRedactedKey_spec key : IsRedactedKey key = true <-> secret key.
Proof.
  unfold IsRedactedKey, secret. rewrite existsb_exists. split.
  - intros (r & Hr%list_elem_of_In & H). rewrite !orb_true_iff, bool_decide_eq_true, !HasSuffix_spec in H. exists r.
    destruct H as [[->|[k ->]]|[k ->]].
    + exists []. split; [done|]. split; [done|by left].
    + exists (k ++ ["_"]). rewrite <- app_assoc. split; [done|]. split; [done|]. right. exists k. by left.
    + exists (k ++ ["."]). rewrite <- app_assoc. split; [done|]. split; [done|]. right. exists k. by right.
  - intros (r & p & Hr & E & Hp). exists r. split; [by apply list_elem_of_In|].
    rewrite !orb_true_iff, bool_decide_eq_true, !HasSuffix_spec.
    destruct Hp as [->|[k [->| ->]]]; rewrite <- ?app_assoc in E; [by left; left|left; right|right]; by exists k.
Qed.

Definition redacted_leaf (x : list text * text * text) : list text * text * text :=
  let '(path, key, value) := x in (path, key, if IsRedactedKey key then Redacted else value).

(** Induction on attributes, with the members of a group. *)
Lemma attr_rect' (P : attr -> Prop) :
  (forall k v, P (Leaf k v)) -> (forall k l, Forall P l -> P (Group k l)) -> forall a, P a.
Proof.
  intros H1 H2. fix go 1. intros [k v|k l]; [apply H1|]. apply H2. induction l as [|a l IH]; constructor; [apply go|exact IH].
Qed.

Lemma leaves_render a path : leaves path (render a) = redacted_leaf <$> leaves path a.
Proof.
  revert path. induction a as [k v|k l IH] using attr_rect'; intros path.
  - cbn [render redact leaves]. by destruct (IsRedactedKey k) eqn:E; simpl; rewrite E.
  - cbn [render leaves]. induction IH as [|a l Ha _ IHl]; [done|].
    rewrite !fmap_cons. cbn [concat]. rewrite fmap_app, Ha. by f_equal.
Qed.

(** No secret reaches the log: in the handler's output, at any depth of
    grouping, the leaves are those logged, in order and under the same groups
    and keys; one whose key is a secret name, or ends in one after an
    underscore or a dot, in any case, has the value "[redacted]", and every
    other value is unchanged. *)
Theorem redaction_exact a path :
  leaves path (render a) = redacted_leaf <$> leaves path a /\
  forall p k v, (p, k, v) ∈ leaves path (render a) ->
    (secret k -> v = Redacted) /\ (~ secret k -> (p, k, v) ∈ leaves path a).
Proof.
  split; [apply leaves_render|]. intros p k v H. rewrite leaves_render in H.
  apply list_elem_of_fmap in H as ([[p' k'] v'] & E & Hin). simpl in E. injection E as -> -> ->.
  rewrite <- IsRedactedKey_spec. by destruct (IsRedactedKey k'); split.
Qed.

(** Every line carries time, level, msg and service, and no secret: a line is
    written exactly when its level is at least the configured one (unknown
    names mean info); it begins with the four members, unredacted, and the
    leaves of the rest are those logged, redacted. *)
Theorem log_line_exact lvl service now l msg attrs :
  log_line (SetupLogging lvl service) now l msg attrs =
    (if severity (ParseLevel lvl) <=? severity l
     then Some ([Leaf (tx "time") now; Leaf (tx "level") (level_text l); Leaf (tx "msg") msg; Leaf (tx "service") service]
                ++ (render <$> attrs))
     else None) /\
  forall line p k v, log_line (SetupLogging lvl service) now l msg attrs = Some line ->
    (p, k, v) ∈ concat (leaves [] <$> line) -> secret k -> v = Redacted.
Proof.
  assert (E : log_line (SetupLogging lvl service) now l msg attrs =
    (if severity (ParseLevel lvl) <=? severity l
     then Some ([Leaf (tx "time") now; Leaf (tx "level") (level_text l); Leaf (tx "msg") msg; Leaf (tx "service") service]
                ++ (render <$> attrs))
     else None)) by (unfold log_line; cbn [SetupLogging With NewHandler h_level h_attrs]; by destruct (_ <=? _)).
  split; [exact E|]. intros line p k v Hl Hin Hs. rewrite E in Hl. destruct (_ <=? _); [|done].
  apply (inj Some) in Hl. rewrite <- Hl in Hin.
  assert (Hn : forall x, x ∈ tx <$> ["time"; "level"; "msg"; "service"]%string -> ~ secret x).
  { intros x Hx. rewrite <- IsRedactedKey_spec. rewrite !fmap_cons, !elem_of_cons in Hx.
    destruct Hx as [->|[->|[->|[->|Hx%elem_of_nil]]]]; by vm_compute. }
  rewrite fmap_app, concat_app, elem_of_app in Hin. destruct Hin as [Hin|Hin].
  - exfalso. apply (Hn k); [|done]. cbn [fmap list_fmap leaves concat app] in Hin. rewrite !elem_of_cons in Hin.
    destruct Hin as [[= _ -> _]|[[= _ -> _]|[[= _ -> _]|[[= _ -> _]|Hin%elem_of_nil]]]]; [..|done]; rewrite !fmap_cons, !elem_of_cons; tauto.
  - assert (H : forall l, concat (leaves [] <$> (render <$> l)) = redacted_leaf <$> concat (leaves [] <$> l)).
    { induction l0 as [|a l0 IH]; [done|]. rewrite !fmap_cons. cbn [concat]. by rewrite fmap_app, leaves_render, IH. }
    rewrite H in Hin. apply list_elem_of_fmap in Hin as ([[p' k'] v'] & E' & _). cbn [redacted_leaf] in E'. injection E' as -> -> ->.
    apply IsRedactedKey_spec in Hs. by rewrite Hs.
Qed.

(** The series present before any record: every instrument with labels except
    [DecodeErrors], for every configured source, sink and reason. *)
Lemma Prime_spec sources sinks i l :
  (i, l) ∈ Prime sources sinks <->
  match i with
  | RecordsIngested | SourceRewinds => l ∈ sources
  | RecordsDropped => l = DropBufferFull \/ l = DropShutdown
  | BatchWriteDuration | BatchWriteErrors => l ∈ sinks
  | DecodeErrors | PipelineBufferLength | RecordVisibilityLag => False
  end.
Proof.
  unfold Prime. rewrite !elem_of_app.
  assert (Hs : forall (j k : instrument) (ls : list string),
    (i, l) ∈ concat ((fun s => [(j, s); (k, s)]) <$> ls) <-> (i = j \/ i = k) /\ l ∈ ls).
  { intros j k ls. induction ls as [|s ls IH]; [simpl; split; [by intros ?%elem_of_nil|by intros [_ ?%elem_of_nil]]|].
    rewrite fmap_cons. cbn [concat]. rewrite elem_of_app, IH, !elem_of_cons.
    split; [intros [[[= -> ->]|[[= -> ->]|?%elem_of_nil]]|]; tauto|]. intros [[->| ->] [->|Hl]]; tauto. }
  rewrite !Hs, list_elem_of_fmap. setoid_rewrite elem_of_cons. setoid_rewrite elem_of_cons.
  assert (Hd : (exists y, (i, l) = (RecordsDropped, y) /\ (y = DropBufferFull \/ y = DropShutdown \/ y ∈ [])) <->
    i = RecordsDropped /\ (l = DropBufferFull \/ l = DropShutdown)).
  { split; [intros (y & [= -> ->] & [->|[->|?%elem_of_nil]]); tauto|intros [-> [->| ->]]; eauto 8]. }
  rewrite Hd. destruct i; intuition congruence.
Qed.

(** Prime's comment says every instrument is present from the first scrape; the
    decode error counter is not. *)
Theorem decode_errors_not_primed sources sinks l : (DecodeErrors, l) ∉ Prime sources sinks.
Proof. intros Hp. by apply Prime_spec in Hp. Qed.
