(* ===== verification/Server.v ===== *)
(** * The HTTP server around the handlers: [internal/api/server.go], and the
    OpenAPI document ([flows.go])

    A handler is what it does to its [ResponseWriter], in order, and whether it
    panics. The document is taken as the parameters it describes: the binder,
    the validator and the document read the same struct tags. *)

From S2P Require Import Prelude GoTime Netip Flow Text Strings Cursor Rows Query Api.

Open Scope char_scope.
Open Scope Z_scope.

(** ** [statusWriter] and [middleware] *)

(** What a handler does with its [ResponseWriter]. *)
Inductive hevent := HWriteHeader (code : Z) | HWrite (b : text).
Record handler := mkHandler { h_events : list hevent; h_panics : bool }.

(** The connection: the status line once it is sent, then the body. The first
    [WriteHeader] counts; a [Write] before it sends 200. *)
Record conn := mkConn { c_status : option Z; c_body : text }.

Definition conn_WriteHeader (code : Z) (c : conn) : conn :=
  match c_status c with None => mkConn (Some code) (c_body c) | Some _ => c end.
Definition conn_Write (b : text) (c : conn) : conn :=
  mkConn (Some (default 200 (c_status c))) (c_body c ++ b).
(** When the handler returns without having written, net/http sends 200. *)
Definition sent_status (c : conn) : Z := default 200 (c_status c).

Record statusWriter := mkStatusWriter { sw_conn : conn; sw_status : Z; sw_wrote : bool }.

Definition sw_WriteHeader (code : Z) (w : statusWriter) : statusWriter :=
  mkStatusWriter (conn_WriteHeader code (sw_conn w))
    (if sw_wrote w then sw_status w else code) true.

(** [Write] is the embedded writer's. *)
Definition sw_Write (b : text) (w : statusWriter) : statusWriter :=
  mkStatusWriter (conn_Write b (sw_conn w)) (sw_status w) (sw_wrote w).

Definition do_event (w : statusWriter) (e : hevent) : statusWriter :=
  match e with HWriteHeader code => sw_WriteHeader code w | HWrite b => sw_Write b w end.

(** [writeJSON]: the header, then the body. *)
Definition writeJSON (code : Z) (b : text) : list hevent := [HWriteHeader code; HWrite b].

(** The middleware: the connection afterwards and the status it logs; [err500]
    is the error envelope of a panic. *)
Definition middleware (err500 : text) (h : handler) : conn * Z :=
  let rw := foldl do_event (mkStatusWriter (mkConn None []) 200 false) (h_events h) in
  let rw := if h_panics h then foldl do_event rw (writeJSON 500 err500) else rw in
  (sw_conn rw, sw_status rw).

(** ** The whole handler: routing and handlers inside the middleware *)

Section recovered.
Context (timeParse : text -> option Time).
(** The envelope of a response, as [writeJSON] encodes it. *)
Context (render : response -> text).
(** Which calls of the backends panic: a query, the listing of a sink. *)
Context (query_panics : FlowQuery -> bool) (list_panics : string -> bool).

Definition internal_error : response := error_response 500 CodeInternal "internal error" [].

(** [flows] calls the querier once the request is bound and its cursor checked. *)
Definition flows_panics (s : Server) (r : request) : bool :=
  match bind timeParse (QueryParams r), querier s with
  | Ok req, Some _ =>
    (bool_decide (rq_Cursor req = ""%string) || checkCursor (rq_Cursor req)) && query_panics (to_query req)
  | _, _ => false
  end.

(** [exporters] asks the sinks in name order until one answers. *)
Fixpoint lister_panics (names : list string) (s : list (string * SinkCap)) : bool :=
  match names with
  | [] => false
  | n :: rest =>
    match List.find (fun x => bool_decide (x.1 = n)) s with
    | Some (_, c) =>
      match sc_list c with
      | Some ans => list_panics n || match ans with Some _ => false | None => lister_panics rest s end
      | None => lister_panics rest s
      end
    | None => lister_panics rest s
    end
  end.

Definition exporters_panics (s : Server) (r : request) : bool :=
  bool_decide (unknown_params [] (QueryParams r) = []) &&
  lister_panics (merge_sort String.le (fst <$> sinks s)) (sinks s).

(** A panic under /v1/, behind the check of the key. *)
Definition v1_panics (cfg : auth_config) (s : Server) (r : request) : bool :=
  match bearerToken (Authorization r) with Some token => keyMatches (APIKeys cfg) token | None => false end &&
  is_get (Method r) &&
  (if bool_decide (Path r = tx "/v1/flows") then flows_panics s r
   else if bool_decide (Path r = tx "/v1/exporters") then exporters_panics s r
   else false).

(** What the mux does with its [ResponseWriter]: the handlers write once, when
    they have their whole answer, so one that panics in a backend has written
    nothing. *)
Definition mux_handler (cfg : auth_config) (s : Server) (r : request) : handler :=
  if bool_decide (take (length v1_prefix) (Path r) = v1_prefix) && v1_panics cfg s r then mkHandler [] true
  else let resp := serve timeParse cfg s r in mkHandler (writeJSON (status resp) (render resp)) false.

(** The handler [New] returns: the connection afterwards and the status logged. *)
Definition ServeHTTP (cfg : auth_config) (s : Server) (r : request) : conn * Z :=
  middleware (render internal_error) (mux_handler cfg s r).

End recovered.

(** [newRequestID]: six random bytes in hexadecimal. *)
Definition hex_encode (b : list byte) : text := x ← b; [digit_char (x / 16); digit_char (x mod 16)].
Definition newRequestID (b : list byte) : text := tx "req_" ++ hex_encode b.

(** ** The OpenAPI parameters of GET /v1/flows *)

Inductive go_type := GoTime | GoAddr | GoString | GoInt.

(** The struct fields: query name, type, validation rules. *)
Definition flows_fields : list (string * go_type * text) :=
  [("start", GoTime, tx "required"); ("end", GoTime, tx "required,gtfield=Start");
   ("exporter_id", GoInt, tx "omitempty,min=1"); ("src_addr", GoAddr, []); ("dst_addr", GoAddr, []);
   ("protocol", GoInt, tx "omitempty,min=0,max=255"); ("limit", GoInt, []); ("cursor", GoString, [])]%string.

Record schema := mkSchema { s_type : string; s_format : string; s_minimum : option Z; s_maximum : option Z }.
Record param := mkParam { pa_name : string; pa_required : bool; pa_schema : schema }.

(** [strings.Contains]. *)
Fixpoint Contains (s sub : text) : bool :=
  HasPrefix s sub || match s with [] => false | _ :: r => Contains r sub end.

Definition rule_of (s : schema) (rule : text) : schema :=
  match Cut "=" rule with
  | None => s
  | Some (k, v) =>
    match ParseInt 64 v with
    | None => s
    | Some n =>
      if bool_decide (k = tx "min") then mkSchema (s_type s) (s_format s) (Some n) (s_maximum s)
      else if bool_decide (k = tx "max") then mkSchema (s_type s) (s_format s) (s_minimum s) (Some n)
      else s
    end
  end.

Definition schemaFor (t : go_type) (rules : text) : schema :=
  let base := match t with
              | GoTime => mkSchema "string" "date-time" None None
              | GoAddr => mkSchema "string" "ip" None None
              | GoString => mkSchema "string" "" None None
              | GoInt => mkSchema "integer" "" None None
              end in
  foldl rule_of base (Split "," rules).

(** The loop of [OpenAPI] over the fields of a request. *)
Definition params_of (fields : list (string * go_type * text)) : list param :=
  (fun f => let '(name, t, rules) := f in mkParam name (Contains rules (tx "required")) (schemaFor t rules)) <$> fields.

(** ** Facts *)

(** A handler that sends its header before its body, as [writeJSON] does. *)
Definition header_first (h : handler) : Prop :=
  match h_events h with HWrite _ :: _ => False | _ => True end.

Definition first_code (es : list hevent) : option Z :=
  match es with HWriteHeader code :: _ => Some code | HWrite _ :: _ => Some 200 | [] => None end.

(** Once a status is sent and recorded, nothing changes either. *)
Lemma events_settled es w code :
  c_status (sw_conn w) = Some code -> sw_wrote w = true ->
  let w' := foldl do_event w es in
  c_status (sw_conn w') = Some code /\ sw_status w' = sw_status w /\ sw_wrote w' = true.
Proof.
  revert w. induction es as [|e es IH]; intros w Hc Hw; [done|]. cbn [foldl].
  destruct e as [c|b]; cbn [do_event].
  - destruct (IH (sw_WriteHeader c w)) as (H1 & H2 & H3).
    + unfold sw_WriteHeader, conn_WriteHeader. cbn [sw_conn]. by rewrite Hc.
    + done.
    + split_and!; [done| |done]. rewrite H2. cbn [sw_WriteHeader sw_status]. by rewrite Hw.
  - destruct (IH (sw_Write b w)) as (H1 & H2 & H3); [by cbn; rewrite Hc|done|]. by split_and!.
Qed.

(** The request log tells the truth: for a handler that sends its header
    before its body, as every handler of the API does, the client receives the
    first status the handler chose, or 500 with the error envelope when it
    panics before sending anything, or 200 when it sends nothing; a panic
    after that changes neither the status sent nor the one logged, and the
    logged status is always the one the client received. *)
Theorem middleware_status err500 h :
  header_first h ->
  let '(c, logged) := middleware err500 h in
  logged = sent_status c /\
  sent_status c = match first_code (h_events h) with Some code => code | None => if h_panics h then 500 else 200 end /\
  (h_events h = [] -> h_panics h = true -> c_body c = err500).
Proof.
  intros Hf. unfold middleware. unfold header_first in Hf. destruct (h_events h) as [|[code|b] es]; [|clear Hf|done].
  - destruct (h_panics h); cbn; done.
  - cbn [foldl do_event]. set (w := sw_WriteHeader code _).
    destruct (events_settled es w code eq_refl eq_refl) as (H1 & H2 & H3). cbv zeta in *. unfold sent_status.
    destruct (h_panics h).
    + destruct (events_settled (writeJSON 500 err500) (foldl do_event w es) code H1 H3) as (G1 & G2 & _).
      cbv zeta in *. rewrite G1, G2, H2. done.
    + rewrite H1, H2. done.
Qed.

Lemma middleware_status_witness :
  let '(c, logged) := middleware (tx "{}") (mkHandler (writeJSON 503 (tx "busy")) true) in
  logged = 503 /\ sent_status c = 503.
Proof.
  destruct (middleware_status (tx "{}") (mkHandler (writeJSON 503 (tx "busy")) true) I) as (H1 & H2 & _).
  split; [reflexivity|exact H2].
Defined.

(** The client of the whole handler receives what [serve] answers, unless a
    backend panics, and then the 500 of the middleware. *)
Lemma ServeHTTP_spec tp render qp lp cfg s r :
  let c := (ServeHTTP tp render qp lp cfg s r).1 in
  (h_panics (mux_handler tp render qp lp cfg s r) = false ->
    sent_status c = status (serve tp cfg s r) /\ c_body c = render (serve tp cfg s r)) /\
  (h_panics (mux_handler tp render qp lp cfg s r) = true -> sent_status c = 500 /\ c_body c = render internal_error).
Proof. unfold ServeHTTP, mux_handler. by destruct (_ && _). Qed.

(** A handler that writes its body without a header and then panics: the client
    has 200, the log says 500. *)
Theorem body_first_panic_misreported err500 b :
  let '(c, logged) := middleware err500 (mkHandler [HWrite b] true) in sent_status c = 200 /\ logged = 500.
Proof. done. Qed.

(** A value fits the documented bounds. *)
Definition within (s : schema) (n : Z) : Prop :=
  (forall m, s_minimum s = Some m -> m <= n) /\ (forall m, s_maximum s = Some m -> n <= m).

Definition schema_of (name : string) : schema :=
  match List.find (fun p => bool_decide (pa_name p = name)) (params_of flows_fields) with
  | Some p => pa_schema p
  | None => mkSchema "" "" None None
  end.

(** The parameters documented as required. *)
Definition required_params : list string := pa_name <$> List.filter pa_required (params_of flows_fields).

(** Whether a request has a value for a parameter whose absence shows. *)
Definition present (q : FlowsRequest) (name : string) : Prop :=
  if bool_decide (name = "start"%string) then IsZero (rq_Start q) = false
  else if bool_decide (name = "end"%string) then IsZero (rq_End q) = false
  else True.

(** Two requests share an id only if they drew the same bytes, and an id has
    one width, so a log can be searched by it. *)
Lemma newRequestID_inj a b : bytes_wf a -> bytes_wf b -> newRequestID a = newRequestID b -> a = b.
Proof.
  unfold newRequestID. intros Ha Hb E. apply app_inv_head in E. revert b Hb E.
  induction Ha as [|x a Hx Ha IH]; intros b Hb E; destruct Hb as [|y b Hy Hb]; try done.
  cbn in E. injection E as E1 E2 E. f_equal; [|by apply IH].
  unfold is_byte in *. apply (f_equal digit_val) in E1, E2.
  rewrite !digit_val_char in E1, E2 by (Z.div_mod_to_equations; lia).
  injection E1 as E1. injection E2 as E2. Z.div_mod_to_equations. lia.
Qed.

Lemma newRequestID_length b : length (newRequestID b) = (4 + 2 * length b)%nat.
Proof. unfold newRequestID. rewrite length_app. f_equal. induction b as [|x b IH]; [done|]. change (S (S (length (hex_encode b))) = 2 * S (length b))%nat. lia. Qed.

(** The OpenAPI document says what the server accepts: it lists exactly
    the parameters the binder knows, in order, and a bound request passes
    validation exactly when every parameter documented as required is there,
    every integer is within its documented bounds, and the end is after the
    start (which the description alone states). *)
Theorem openapi_exact q :
  (pa_name <$> params_of flows_fields) = flows_params /\
  (validate q = [] <->
   Forall (present q) required_params /\
   (forall n, rq_ExporterID q = Some n -> within (schema_of "exporter_id") n) /\
   (forall n, rq_Protocol q = Some n -> within (schema_of "protocol") n) /\
   (forall n, rq_Limit q = n -> within (schema_of "limit") n) /\
   After (rq_End q) (rq_Start q) = true).
Proof.
  split; [reflexivity|].
  assert (Hx : schema_of "exporter_id" = mkSchema "integer" "" (Some 1) None) by reflexivity.
  assert (Hp : schema_of "protocol" = mkSchema "integer" "" (Some 0) (Some 255)) by reflexivity.
  assert (Hl : schema_of "limit" = mkSchema "integer" "" None None) by reflexivity.
  assert (Hr : required_params = ["start"; "end"]%string) by reflexivity.
  rewrite Hx, Hp, Hl, Hr, !Forall_cons. unfold present.
  change (bool_decide ("start"%string = "start"%string)) with true. change (bool_decide ("end"%string = "start"%string)) with false.
  change (bool_decide ("end"%string = "end"%string)) with true. cbv iota. unfold within. cbn [s_minimum s_maximum].
  unfold validate. destruct (IsZero (rq_Start q)), (IsZero (rq_End q)), (After (rq_End q) (rq_Start q)); cbn [negb app];
    try (split; [discriminate|intuition congruence]).
  destruct (rq_ExporterID q) as [x|], (rq_Protocol q) as [p|];
    repeat (match goal with |- context [?a <? ?b] => destruct (Z.ltb_spec a b) end; cbn [app]);
    (split; [try discriminate; intros _; split_and!; try done; intros; simplify_eq; split; intros; simplify_eq; lia|]);
    intros (_ & Hx' & Hp' & _); try done; exfalso;
    try (destruct (Hx' x eq_refl) as [Ha _]; specialize (Ha 1 eq_refl); lia);
    try (destruct (Hp' p eq_refl) as [Ha Hb]; specialize (Ha 0 eq_refl); specialize (Hb 255 eq_refl); lia).
Qed.
