(* ===== verification/OpenApi.v ===== *)
(** * The OpenAPI document ([OpenAPI] of [internal/api/flows.go])

    The document is built from the route table and the struct tags as Go's
    maps and slices, and rendered as [json.MarshalIndent] renders them. The
    result is compared with the committed [docs/openapi.json], and what it
    promises with what [Api.serve] does. *)

From S2P Require Import Prelude GoTime Netip Flow Text Strings NetipText NetipTextFacts TimeText Json Cursor Rows Query Api.
From S2P Require Import ApiThms Server.

(** ** Go values as [json.Marshal] sees them *)

Inductive any :=
| AStr (s : text)
| AInt (n : Z)
| ABool (b : bool)
| AList (l : list any)
| AMap (kvs : list (text * any)).   (* in any order: Marshal sorts *)

Definition str (s : string) : any := AStr (tx s).
Definition obj (kvs : list (string * any)) : any := AMap ((fun kv => (tx kv.1, kv.2)) <$> kvs).
Definition strs (l : list string) : any := AList (str <$> l).

(** A string as the encoder writes it: quotes and backslashes escaped, control
    characters and HTML's three as code units. *)
Definition escape_char (c : ascii) : text :=
  let n := ord c in
  if (n =? 34) || (n =? 92) then [chr 92; c]
  else if n =? 8 then [chr 92; "b"%char] else if n =? 12 then [chr 92; "f"%char]
  else if n =? 10 then [chr 92; "n"%char] else if n =? 13 then [chr 92; "r"%char] else if n =? 9 then [chr 92; "t"%char]
  else if (n <? 32) || (n =? 60) || (n =? 62) || (n =? 38)
  then chr 92 :: tx "u00" ++ [digit_char (n / 16); digit_char (n mod 16)]
  else [c].

Definition quoted (s : text) : text := chr 34 :: concat (escape_char <$> s) ++ [chr 34].

(** Byte order of the keys. *)
Fixpoint text_le (a b : text) : bool :=
  match a, b with
  | [], _ => true
  | _ :: _, [] => false
  | x :: a', y :: b' => (ord x <? ord y) || ((ord x =? ord y) && text_le a' b')
  end.

(** Insertion into a sorted object. *)
Fixpoint insert_key {V} (kv : text * V) (l : list (text * V)) : list (text * V) :=
  match l with
  | [] => [kv]
  | x :: r => if text_le kv.1 x.1 then kv :: l else x :: insert_key kv r
  end.

Definition newline_indent (depth : nat) : text := chr 10 :: concat (replicate depth (tx "  ")).

(** [json.MarshalIndent] with no prefix and two spaces. *)
Fixpoint marshal (depth : nat) (v : any) : text :=
  match v with
  | AStr s => quoted s
  | AInt n => print_int n
  | ABool b => if b then tx "true" else tx "false"
  | AList [] => tx "[]"
  | AList l =>
    "["%char :: (fix go (l : list any) : text :=
                   match l with
                   | [] => []
                   | [x] => newline_indent (S depth) ++ marshal (S depth) x
                   | x :: r => newline_indent (S depth) ++ marshal (S depth) x ++ tx "," ++ go r
                   end) l ++ newline_indent depth ++ tx "]"
  | AMap [] => tx "{}"
  | AMap kvs =>
    let rendered := (fix go (l : list (text * any)) : list (text * text) :=
                       match l with
                       | [] => []
                       | (k, x) :: r => insert_key (k, marshal (S depth) x) (go r)
                       end) kvs in
    "{"%char :: (fix go (l : list (text * text)) : text :=
                   match l with
                   | [] => []
                   | [(k, x)] => newline_indent (S depth) ++ quoted k ++ tx ": " ++ x
                   | (k, x) :: r => newline_indent (S depth) ++ quoted k ++ tx ": " ++ x ++ tx "," ++ go r
                   end) rendered ++ newline_indent depth ++ tx "}"
  end.

(** ** The document *)

(** A request struct's fields with their tags: query, type, validate, doc. *)
Definition field : Type := string * go_type * text * string.

Definition FlowsRequest_fields : list field :=
  [("start", GoTime, tx "required", "Start of the half-open range [start, end) on received_at, RFC 3339 UTC.");
   ("end", GoTime, tx "required,gtfield=Start", "End of the range, RFC 3339 UTC. Must be strictly after start.");
   ("exporter_id", GoInt, tx "omitempty,min=1", "Only records from this exporter id.");
   ("src_addr", GoAddr, [], "Exact-match source address, IPv4 or IPv6.");
   ("dst_addr", GoAddr, [], "Exact-match destination address, IPv4 or IPv6.");
   ("protocol", GoInt, tx "omitempty,min=0,max=255", "IANA protocol number: 6 TCP, 17 UDP, 1 ICMP.");
   ("limit", GoInt, [], "Records per page. Defaults to 100 and is clamped to 1000; a value below 1 means the default.");
   ("cursor", GoString, [], "Opaque cursor from a previous response's meta.next_cursor.")]%string.

Definition ExportersRequest_fields : list field := [].

Record route := mkRoute { rt_Method : string; rt_Path : string; rt_Summary : string; rt_Request : list field }.

Definition routes : list route :=
  [mkRoute "GET" "/v1/flows" "Cursor-paginated flow records over a bounded time range, with optional filters." FlowsRequest_fields;
   mkRoute "GET" "/v1/exporters" "Every known exporter with first/last seen and label." ExportersRequest_fields]%string.

(** A schema's map, with the keys that were set. *)
Definition schema_any (s : schema) : any :=
  obj ([("type"%string, str (s_type s))] ++
       (if bool_decide (s_format s = ""%string) then [] else [("format"%string, str (s_format s))]) ++
       match s_minimum s with Some n => [("minimum"%string, AInt n)] | None => [] end ++
       match s_maximum s with Some n => [("maximum"%string, AInt n)] | None => [] end).

Definition param_any (f : field) : any :=
  let '(name, t, rules, doc) := f in
  obj [("name", str name); ("in", str "query"); ("required", ABool (Contains rules (tx "required")));
       ("description", str doc); ("schema", schema_any (schemaFor t rules))]%string.

Definition json_content (ref : string) : any :=
  obj [("application/json", obj [("schema", obj [("$ref", str ref)])])]%string.

Definition errResponse (desc : string) : any :=
  obj [("description", str desc); ("content", json_content "#/components/schemas/ErrorEnvelope")]%string.

(** The responses every operation documents. *)
Definition responses : list (string * any) :=
  [("200", obj [("description", str "Success envelope"); ("content", json_content "#/components/schemas/SuccessEnvelope")]);
   ("400", errResponse "Malformed query string or undecodable cursor");
   ("401", errResponse "Missing or unknown API key");
   ("422", errResponse "Well-formed request, semantically invalid parameter");
   ("503", errResponse "The storage backend did not answer")]%string.

Definition operation_any (r : route) : any :=
  obj [("summary", str (rt_Summary r)); ("parameters", AList (param_any <$> rt_Request r));
       ("security", AList [obj [("ApiKeyAuth", AList [])]]); ("responses", obj responses)]%string.

(** [paths[r.Path] = ...] in the order of the table: a later route replaces. *)
Definition paths_any : list (string * any) :=
  foldl (fun m r => List.filter (fun kv => negb (bool_decide (kv.1 = rt_Path r))) m ++
                    [(rt_Path r, obj [(st (ToLower (tx (rt_Method r))), operation_any r)])]) [] routes.

Definition code_name (c : code) : string :=
  match c with
  | CodeValidation => "validation_error" | CodeBadRequest => "bad_request" | CodeUnauthorized => "unauthorized"
  | CodeNotFound => "not_found" | CodeMethodNotAllowed => "method_not_allowed"
  | CodeBackendUnavailable => "backend_unavailable" | CodeInternal => "internal_error"
  end.

Definition typed (t : string) : any := obj [("type", str t)]%string.
Definition object_any (required : list string) (props : list (string * any)) : any :=
  obj [("type", str "object"); ("required", strs required); ("properties", obj props)]%string.

Definition SuccessEnvelope_any : any :=
  object_any ["data"; "meta"]%string
    [("data", obj [("type", str "array"); ("items", typed "object")]);
     ("meta", object_any ["has_more"] [("next_cursor", typed "string"); ("has_more", typed "boolean")])]%string.

Definition ErrorEnvelope_any : any :=
  object_any ["error"]%string
    [("error", object_any ["code"; "message"; "request_id"]
       [("code", obj [("type", str "string");
                      ("enum", strs (code_name <$> [CodeValidation; CodeBadRequest; CodeUnauthorized; CodeNotFound;
                                                    CodeMethodNotAllowed; CodeBackendUnavailable; CodeInternal]))]);
        ("message", typed "string");
        ("details", obj [("type", str "array");
                         ("items", obj [("type", str "object");
                                        ("properties", obj [("field", typed "string"); ("message", typed "string")])])]);
        ("request_id", typed "string")])]%string.

Definition document : any :=
  obj [("openapi", str "3.1.0");
       ("info", obj [("title", str "NetFlow Collector API"); ("version", str "v1")]);
       ("paths", obj paths_any);
       ("components", obj
          [("securitySchemes", obj [("ApiKeyAuth", obj
              [("type", str "apiKey"); ("in", str "header"); ("name", str "Authorization");
               ("description", str "Bearer <key> from NFC_API_KEYS")])]);
           ("schemas", obj [("SuccessEnvelope", SuccessEnvelope_any); ("ErrorEnvelope", ErrorEnvelope_any)])])]%string.

Definition OpenAPI : text := marshal 0 document ++ [chr 10].

(** ** The committed document *)

(** [docs/openapi.json], with a backquote for every double quote. *)
Definition committed : text := (fun c => if bool_decide (c = "`"%char) then chr 34 else c) <$> tx "{
  `components`: {
    `schemas`: {
      `ErrorEnvelope`: {
        `properties`: {
          `error`: {
            `properties`: {
              `code`: {
                `enum`: [
                  `validation_error`,
                  `bad_request`,
                  `unauthorized`,
                  `not_found`,
                  `method_not_allowed`,
                  `backend_unavailable`,
                  `internal_error`
                ],
                `type`: `string`
              },
              `details`: {
                `items`: {
                  `properties`: {
                    `field`: {
                      `type`: `string`
                    },
                    `message`: {
                      `type`: `string`
                    }
                  },
                  `type`: `object`
                },
                `type`: `array`
              },
              `message`: {
                `type`: `string`
              },
              `request_id`: {
                `type`: `string`
              }
            },
            `required`: [
              `code`,
              `message`,
              `request_id`
            ],
            `type`: `object`
          }
        },
        `required`: [
          `error`
        ],
        `type`: `object`
      },
      `SuccessEnvelope`: {
        `properties`: {
          `data`: {
            `items`: {
              `type`: `object`
            },
            `type`: `array`
          },
          `meta`: {
            `properties`: {
              `has_more`: {
                `type`: `boolean`
              },
              `next_cursor`: {
                `type`: `string`
              }
            },
            `required`: [
              `has_more`
            ],
            `type`: `object`
          }
        },
        `required`: [
          `data`,
          `meta`
        ],
        `type`: `object`
      }
    },
    `securitySchemes`: {
      `ApiKeyAuth`: {
        `description`: `Bearer \u003ckey\u003e from NFC_API_KEYS`,
        `in`: `header`,
        `name`: `Authorization`,
        `type`: `apiKey`
      }
    }
  },
  `info`: {
    `title`: `NetFlow Collector API`,
    `version`: `v1`
  },
  `openapi`: `3.1.0`,
  `paths`: {
    `/v1/exporters`: {
      `get`: {
        `parameters`: [],
        `responses`: {
          `200`: {
            `content`: {
              `application/json`: {
                `schema`: {
                  `$ref`: `#/components/schemas/SuccessEnvelope`
                }
              }
            },
            `description`: `Success envelope`
          },
          `400`: {
            `content`: {
              `application/json`: {
                `schema`: {
                  `$ref`: `#/components/schemas/ErrorEnvelope`
                }
              }
            },
            `description`: `Malformed query string or undecodable cursor`
          },
          `401`: {
            `content`: {
              `application/json`: {
                `schema`: {
                  `$ref`: `#/components/schemas/ErrorEnvelope`
                }
              }
            },
            `description`: `Missing or unknown API key`
          },
          `422`: {
            `content`: {
              `application/json`: {
                `schema`: {
                  `$ref`: `#/components/schemas/ErrorEnvelope`
                }
              }
            },
            `description`: `Well-formed request, semantically invalid parameter`
          },
          `503`: {
            `content`: {
              `application/json`: {
                `schema`: {
                  `$ref`: `#/components/schemas/ErrorEnvelope`
                }
              }
            },
            `description`: `The storage backend did not answer`
          }
        },
        `security`: [
          {
            `ApiKeyAuth`: []
          }
        ],
        `summary`: `Every known exporter with first/last seen and label.`
      }
    },
    `/v1/flows`: {
      `get`: {
        `parameters`: [
          {
            `description`: `Start of the half-open range [start, end) on received_at, RFC 3339 UTC.`,
            `in`: `query`,
            `name`: `start`,
            `required`: true,
            `schema`: {
              `format`: `date-time`,
              `type`: `string`
            }
          },
          {
            `description`: `End of the range, RFC 3339 UTC. Must be strictly after start.`,
            `in`: `query`,
            `name`: `end`,
            `required`: true,
            `schema`: {
              `format`: `date-time`,
              `type`: `string`
            }
          },
          {
            `description`: `Only records from this exporter id.`,
            `in`: `query`,
            `name`: `exporter_id`,
            `required`: false,
            `schema`: {
              `minimum`: 1,
              `type`: `integer`
            }
          },
          {
            `description`: `Exact-match source address, IPv4 or IPv6.`,
            `in`: `query`,
            `name`: `src_addr`,
            `required`: false,
            `schema`: {
              `format`: `ip`,
              `type`: `string`
            }
          },
          {
            `description`: `Exact-match destination address, IPv4 or IPv6.`,
            `in`: `query`,
            `name`: `dst_addr`,
            `required`: false,
            `schema`: {
              `format`: `ip`,
              `type`: `string`
            }
          },
          {
            `description`: `IANA protocol number: 6 TCP, 17 UDP, 1 ICMP.`,
            `in`: `query`,
            `name`: `protocol`,
            `required`: false,
            `schema`: {
              `maximum`: 255,
              `minimum`: 0,
              `type`: `integer`
            }
          },
          {
            `description`: `Records per page. Defaults to 100 and is clamped to 1000; a value below 1 means the default.`,
            `in`: `query`,
            `name`: `limit`,
            `required`: false,
            `schema`: {
              `type`: `integer`
            }
          },
          {
            `description`: `Opaque cursor from a previous response's meta.next_cursor.`,
            `in`: `query`,
            `name`: `cursor`,
            `required`: false,
            `schema`: {
              `type`: `string`
            }
          }
        ],
        `responses`: {
          `200`: {
            `content`: {
              `application/json`: {
                `schema`: {
                  `$ref`: `#/components/schemas/SuccessEnvelope`
                }
              }
            },
            `description`: `Success envelope`
          },
          `400`: {
            `content`: {
              `application/json`: {
                `schema`: {
                  `$ref`: `#/components/schemas/ErrorEnvelope`
                }
              }
            },
            `description`: `Malformed query string or undecodable cursor`
          },
          `401`: {
            `content`: {
              `application/json`: {
                `schema`: {
                  `$ref`: `#/components/schemas/ErrorEnvelope`
                }
              }
            },
            `description`: `Missing or unknown API key`
          },
          `422`: {
            `content`: {
              `application/json`: {
                `schema`: {
                  `$ref`: `#/components/schemas/ErrorEnvelope`
                }
              }
            },
            `description`: `Well-formed request, semantically invalid parameter`
          },
          `503`: {
            `content`: {
              `application/json`: {
                `schema`: {
                  `$ref`: `#/components/schemas/ErrorEnvelope`
                }
              }
            },
            `description`: `The storage backend did not answer`
          }
        },
        `security`: [
          {
            `ApiKeyAuth`: []
          }
        ],
        `summary`: `Cursor-paginated flow records over a bounded time range, with optional filters.`
      }
    }
  }
}
".

(** ** What the document promises *)

(** A member of a nested object. *)
Fixpoint member (ks : list text) (v : any) : option any :=
  match ks, v with
  | [], _ => Some v
  | k :: rest, AMap kvs =>
    match List.find (fun kv => bool_decide (kv.1 = k)) kvs with Some (_, x) => member rest x | None => None end
  | _ :: _, _ => None
  end.

(** The documented GET operation of a path, and its response for a status. *)
Definition documented (path : text) : bool :=
  match member [tx "paths"; path; tx "get"] document with Some _ => true | None => false end.
Definition documented_status (path : text) (code : Z) : bool :=
  match member [tx "paths"; path; tx "get"; tx "responses"; print_int code] document with Some _ => true | None => false end.

Lemma documented_paths p : documented p = bool_decide (p = tx "/v1/flows") || bool_decide (p = tx "/v1/exporters").
Proof.
  unfold documented.
  destruct (bool_decide (p = tx "/v1/flows")) eqn:E1; [apply bool_decide_eq_true in E1; by subst|].
  destruct (bool_decide (p = tx "/v1/exporters")) eqn:E2; [apply bool_decide_eq_true in E2; by subst|].
  apply bool_decide_eq_false in E1, E2.
  assert (E : member [tx "paths"; p; tx "get"] document =
    member [p; tx "get"] (AMap ((fun r => (tx (rt_Path r), obj [(st (ToLower (tx (rt_Method r))), operation_any r)])) <$> routes)))
    by reflexivity.
  rewrite E. cbn [member routes fmap list_fmap rt_Path List.find fst]. rewrite !bool_decide_eq_false_2 by congruence. done.
Qed.

Lemma v1_statuses tp s r :
  documented (Path r) = true -> is_get (Method r) = true -> status (v1 tp s r) ∈ [200; 400; 422; 503].
Proof.
  rewrite documented_paths, orb_true_iff. intros Hp Hm. unfold v1. rewrite Hm.
  destruct (bool_decide (Path r = tx "/v1/flows")) eqn:E1.
  - unfold flows. repeat case_match; simpl; set_solver.
  - destruct Hp as [Hp|Hp]; [done|]. rewrite Hp. unfold exporters. repeat case_match; simpl; set_solver.
Qed.

Lemma documented_codes p code :
  documented p = true -> code ∈ [200; 400; 401; 422; 503] -> documented_status p code = true.
Proof.
  rewrite documented_paths, orb_true_iff, !bool_decide_eq_true. intros [-> | ->] Hc; revert Hc;
    rewrite !elem_of_cons, elem_of_nil; intros [->|[->|[->|[->|[->|[]]]]]]; vm_compute; reflexivity.
Qed.

(** Only a GET of a documented path calls a backend. *)
Lemma panic_documented tp render qp lp cfg s r :
  h_panics (mux_handler tp render qp lp cfg s r) = true -> documented (Path r) = true /\ is_get (Method r) = true.
Proof.
  unfold mux_handler. destruct (_ && v1_panics _ _ _ _ _ _) eqn:E; [|done]. intros _.
  apply andb_true_iff in E as [_ E]. unfold v1_panics in E. rewrite documented_paths.
  apply andb_true_iff in E as [[_ Em]%andb_true_iff E]. split; [|done].
  destruct (bool_decide (Path r = tx "/v1/flows")); [done|]. by destruct (bool_decide (Path r = tx "/v1/exporters")).
Qed.

(** C35. The committed OpenAPI document is the generated one, and it is true
    but for panics. [OpenAPI] yields docs/openapi.json byte for byte. Of the
    handler [New] returns, its middleware included: every status a client
    receives for a GET on a documented path is documented there, unless a
    backend panics during the request; then the client receives the 500 of the
    recovering middleware, which the document does not list for that path. With
    a valid key, an undocumented path under /v1/ answers 404 and another method
    on a documented path 405, panics or not. *)
Theorem openapi_committed tp render qp lp cfg s r :
  let sent := sent_status (ServeHTTP tp render qp lp cfg s r).1 in
  let panicked := h_panics (mux_handler tp render qp lp cfg s r) in
  OpenAPI = committed /\
  (under_v1 r ->
   (is_get (Method r) = true -> documented (Path r) = true -> panicked = false -> documented_status (Path r) sent = true) /\
   (panicked = true -> sent = 500 /\ documented (Path r) = true /\ documented_status (Path r) sent = false) /\
   (authorized (APIKeys cfg) (Authorization r) ->
    (documented (Path r) = false -> sent = 404) /\
    (documented (Path r) = true -> is_get (Method r) = false -> sent = 405))).
Proof.
  cbv zeta. split; [vm_compute; reflexivity|]. intros Hv.
  destruct (ServeHTTP_spec tp render qp lp cfg s r) as [Hn Hp]. rewrite serve_v1 in Hn by done.
  destruct (requireAPIKey_spec (APIKeys cfg) (v1 tp s) r) as [H1 H2]. split_and!.
  - intros Hm Hd Hnp. rewrite (proj1 (Hn Hnp)). apply documented_codes; [done|].
    pose proof (v1_statuses tp s r Hd Hm) as Hs. unfold requireAPIKey.
    destruct (bearerToken _) as [token|]; [destruct (keyMatches _ _)|]; cbn [status error_response]; set_solver.
  - intros Hpan. rewrite (proj1 (Hp Hpan)). destruct (panic_documented _ _ _ _ _ _ _ Hpan) as [Hd _].
    split_and!; [done..|]. rewrite documented_paths, orb_true_iff, !bool_decide_eq_true in Hd.
    destruct Hd as [-> | ->]; vm_compute; reflexivity.
  - intros Ha. rewrite H1 in Hn by done. pose proof (panic_documented tp render qp lp cfg s r) as Hpan.
    destruct (h_panics _).
    + destruct (Hpan eq_refl) as [-> ->]. by split.
    + rewrite (proj1 (Hn eq_refl)). rewrite documented_paths, orb_false_iff, orb_true_iff. unfold v1. split.
      * by intros [-> ->].
      * intros Hd ->. destruct (bool_decide (Path r = tx "/v1/flows")); [done|]. by destruct Hd as [| ->].
Qed.

Definition key_request (path : text) (ps : list (string * string)) : request :=
  mkRequest "GET" path ps (tx "Bearer k").

(** A query that panics, one that does not, a path that is not there. *)
Lemma openapi_committed_witness :
  let s := mkServer (Some (fun q => Query Postgres q [])) [] in
  let cfg := mkAuthConfig ":8080" [tx "k"] in
  let ps := [("start", "2023-11-14T00:00:00Z"); ("end", "2023-11-15T00:00:00Z")]%string in
  let sent := fun qp r => sent_status (ServeHTTP (fun _ => None) (fun _ => []) qp (fun _ => false) cfg s r).1 in
  documented_status (tx "/v1/flows") (sent (fun _ => false) (key_request (tx "/v1/flows") ps)) = true /\
  sent (fun _ => true) (key_request (tx "/v1/flows") ps) = 500 /\
  sent (fun _ => true) (key_request (tx "/v1/nothing") []) = 404.
Proof.
  intros s cfg ps sent.
  pose proof (fun qp r => openapi_committed (fun _ => None) (fun _ => []) qp (fun _ => false) cfg s r) as H. cbv zeta in H.
  assert (K : authorized [tx "k"] (tx "Bearer k")) by (exists (tx "k"); split; [by left|]; apply bearerToken_spec; by vm_compute).
  split_and!.
  - destruct (H (fun _ => false) (key_request (tx "/v1/flows") ps)) as [_ [H1 _]]; [by vm_compute|].
    apply H1; by vm_compute.
  - destruct (H (fun _ => true) (key_request (tx "/v1/flows") ps)) as [_ [_ [H1 _]]]; [by vm_compute|].
    apply H1. by vm_compute.
  - destruct (H (fun _ => true) (key_request (tx "/v1/nothing") [])) as [_ [_ [_ H1]]]; [by vm_compute|].
    apply H1; [exact K|by vm_compute].
Defined.

(** The tags read here are those the binder and the validator read. *)
Lemma fields_agree : (fun f : field => f.1) <$> FlowsRequest_fields = flows_fields.
Proof. reflexivity. Qed.
